(* ===== verification/_CoqProject ===== *)
-Q . S2P
Prelude.v
Text.v
Floats.v
Pps.v
Metrics.v
PpsRate.v
Vardiff.v
Hex.v
Stratum.v
RandomX.v
Jobs.v
Json.v
Share.v
Session.v
SessionSafety.v
SessionDemo.v
Upstream.v
Rofl.v
Periphery.v
Wallet.v
Oracle.v
Redis.v
Effects.v
Tasks.v
OracleServer.v
Store.v
Operator.v
PoolConfig.v
Appd.v
Wire.v
Agent.v
TorHs.v
Boot.v
Ledger.v
Watcher.v
FeeSwap.v
Stamp.v
Voucher.v
Contract.v
Governance.v
RoflAdmin.v
Finalize.v
Signer.v
Solvency.v
Mined.v
Eip712.v
OpenZeppelin.v
MiningPoolToken.v
Subcall.v
FeeSale.v
Deploy.v
Payouts.v
Quiet.v
Marker.v
PayoutSafety.v
PayoutReconcile.v
PayoutDemo.v
Burned.v
Start.v
Dial.v
StratumTls.v
Stub.v
Relay.v
Binaries.v
Reveal.v
