(* ===== verification/Prelude.v ===== *)
(** * A mining pool that pays in vouchers: a verification of cr-faucet

    The program is a Monero mining pool that runs inside an enclave.  Miners connect over
    stratum; their shares are checked, credited in Redis and forwarded to an upstream pool.
    A credit becomes a signed voucher, a voucher becomes tokens of a contract, tokens are
    redeemed on the contract, and the pool pays the redemptions in Monero.  Around this the
    program pays the rent of its machine, sells its fee, advertises its addresses, signs
    reports of an oracle, and hands its contracts over to a timelock.

    The source is Rust (crates/), Solidity (contracts/src/, and the libraries it inherits from
    and calls under contracts/lib/) and a relay in Python (client_tools/).  It is translated
    to Rocq functions, one per function or step of the source and with the names of the source:
    integers are [Z] with their wrap-around or saturation written out, errors are values of
    [result], a panic is a value of its own where the code can have one, and a shared state
    is passed explicitly.  What is not in the repository (Redis, the wallet process, the
    upstream pool, the chain, the enclave's daemon, hash functions and signatures, parsers of
    libraries, clocks and randomness) is a type class of operations, and what the code relies
    on of it is a second class of laws; each theorem that uses laws is applied to an instance
    of them by the lemma named after it with [_witness].

    ** Parts and files

    Foundations
    - [Prelude]: results, outcomes, integer widths, tactics, the hint databases, lemmas on
      lists and maps.
    - [Text], [Hex], [Json], [Floats]: strings as the standard library of Rust has them,
      hexadecimal text, [serde_json] values, binary64 numbers.
    - [Redis], [Effects], [Tasks]: the commands of the server with their laws; the monad [M]
      of a task that calls the database and the outside, with interference of other tasks
      between any two calls, calls that fail before or after their effect, and crashes;
      concurrent tasks of atomic actions with a proof rule for one task among the others.

    Mining (crates/stratum-proxy, randomx-verify, pool-core, pps-rate)
    - [Vardiff] (vardiff.rs), [Stratum] (stratum.rs, randomx-verify), [Jobs] (jobs.rs),
      [Share] (share.rs, sample.rs), [Session] (session.rs, protocol.rs) and
      [SessionSafety], [Upstream] (upstream.rs), [Metrics] (metrics.rs), [Pps] (pps.rs,
      cache.rs), [PpsRate] (pps-rate).  The system of [Session] is all connections over one
      job store; a submit is two parts between which other connections run.
    - [RandomX] (the machines of randomx-verify and the seed cache), [Wire] (bytes to lines in
      session.rs; the PROXY header of the oracle's listener), [Dial] (the connections of
      upstream.rs, from the proxy to the login), [StratumTls] (stratum_tls.rs), [Relay]
      (sni_relay.py), [Stub] (stratum-stub, the pool that the client is tested against).

    Credit and vouchers (pool-core, accountant, voucher-signer)
    - [Store] (store.rs), [Ledger] (its contract), [Voucher] (voucher.rs), [Signer]
      (accountant, voucher-signer), [Contract] (the functions of MiningPoolToken.sol over an
      abstract ERC-20), [Eip712] (the text and the digest of a voucher on both sides).
    - [OpenZeppelin] (ERC20, ERC20Burnable, ERC20Permit, Nonces, ECDSA, EIP712) implements that
      ERC-20; [MiningPoolToken] is the contract as deployed: its constructor, every call
      anyone can make with its events, and runs of such calls.  Its runs refine those of
      [Contract].
    - [Solvency] puts them together with the fee task; [Mined] puts the sessions of the
      miners in front of that.

    Redemptions (redemption-watcher)
    - [Watcher] (events.rs, treasury.rs), [Stamp] (redemption.rs), [Payouts] (payouts.rs),
      [Marker] (marker.rs), [FeeSwap] (fee_swap.rs); [Quiet], [PayoutSafety],
      [PayoutReconcile] are the proofs about [Payouts].  [Burned] puts the contract, the
      poller and the payouts together.

    The enclave (mining-pool, pool-core/appd.rs, config.rs)
    - [PoolConfig] (config.rs), [Rofl] (records, rent plan and guard decision), [Appd] (the
      clients of the daemon's socket), [Agent] (the guard and the rent agent over them),
      [TorHs] (tor_hs.rs), [Wallet] (monero_wallet.rs), [Boot] (identity, wallet and
      statistics tasks of main.rs, with what they log), [Start] (main.rs as a whole), [Reveal]
      (reveal.rs), [Binaries] (the separate mains of the other crates, and the benchmark).
    - [Operator] (operator-api, hashvault-client), [Oracle] and [OracleServer]
      (crossroads-oracle).

    Contracts and deployment
    - [Periphery] (RentPayer.sol, FeeSwapper.sol, PoolEndpointRegistry.sol and their
      clients), [Governance] (PoolGovernance.sol), [RoflAdmin] (RoflAdminGovernance.sol),
      [Finalize] (bin/finalize.rs over the contracts).
    - [Subcall] (the call of the runtime in Subcall.sol, in bytes), [FeeSale] (FeeSwapper.sol
      over the deployed token, the exchange and the runtime), [Deploy] (DeployFeeSwap.s.sol
      over both).

    [SessionDemo], [PayoutDemo] and the modules named [Demo] are concrete instances and runs.

    ** What is shown

    - From end to end: every token minted beyond those there at the start and every voucher
      signed is backed by shares that sessions settled, at the published rate, and by the fees
      kept of them ([Mined]); every transfer of Monero is for a redemption on the contract, goes
      to the address given there, stays within its amount plus the premium, and all transfers
      together within the tokens burned plus the premium ([Burned]).
    - Payouts: over any run with faults, crashes, redeliveries and other tasks the wallet
      accepts at most one transfer per redemption ([PayoutSafety]); when the database is lost, a
      second one with the same stamp takes a reply of the wallet that did not show the first
      ([PayoutReconcile]), and what is recorded on the contract is never paid, whatever is lost
      ([Marker]).  The amount is within its caps ([Payouts]) and carries its stamp ([Stamp]);
      the wait for confirmations ends.  The poller brings every redemption to the payout stream
      but for one per round that fails ([Watcher]), and the store implements a ledger that
      predicts the pending counters from any state, and has them exact when redemptions are
      settled in order ([Ledger]).
    - Vouchers: no miner ever holds a voucher for more than the miner was credited, and the
      contract, beyond what it had minted before, never mints more, the fee task included
      ([Solvency]); the text of an issued voucher is what the deployed contract accepts
      ([MiningPoolToken]), for its amount and nothing else ([Eip712]); the decision on every
      branch ([Voucher]); nothing but balances expires ([Store]).
    - The token: over any calls of anyone, supply, burnt, redeemed and claimed add up, and a
      holder loses only what the holder spent or allowed, by a call or by a permit that is used
      once ([MiningPoolToken]); a signature has no second form, and the cached domain is that of
      the chain ([OpenZeppelin]).
    - Mining: while the heights of the jobs do not go back, no pair of a job and a nonce is
      credited more often than the job was sent, on any interleaving, and every credit is backed
      by a hash, RandomX's own or after the warm-up the one claimed, at a difficulty the miner
      was told or the floor ([SessionSafety]); the ring of jobs answers as a registry that
      forgets nothing, but for heights that went back ([Jobs]); bounds of the served difficulty
      ([Vardiff]), the fast hash check against the documented one and the round trip of targets
      ([Stratum]), a cached machine that hashes as a fresh one ([RandomX]), lines that arrive
      whole and within their cap ([Wire]), the effects of an upstream session, from the bytes on
      ([Upstream]) and whom it speaks to ([Dial]), a fingerprint that stays and that pins
      ([StratumTls], [Relay]), the quorum of the difficulty ([PpsRate]), the counts, hashrate
      and connection the API shows against what happened ([Operator]).
    - Enclave: nothing starts before the guard passed, and all tasks share one token, one signer
      and the values of one configuration ([Start]); the guard passes only on a single live
      instance or six failures, and top-ups keep their distance ([Agent]); the clients of the
      daemon get what they asked for ([Appd]) and a top-up reaches the runtime as the instance
      the contract was last aimed at ([Periphery]); the onion identity ([TorHs]), one wallet
      over all boots and wipes ([Wallet]), and the log, which gives the address away only with
      an error status of the upstream pool's API ([Boot]).
    - Fees, governance, oracle: a claim of the fee task is within the accrual ([FeeSwap]), and
      the tokens of the fee are sold by the enclave alone, at its minimum or above ([FeeSale]),
      from the state the deployment leaves ([Deploy]); owner calls and updates wait their delay,
      and a queued call can be executed ([Governance], [RoflAdmin]); a deployment reported as
      final is so, unless the governor acted through the timelock before ([Finalize]); a hash is
      confirmed exactly on a quorum, every signed report is backed by what was read before it,
      its digest binds its fields ([Oracle], [OracleServer]), the client's address is the one of
      the PROXY header ([Wire]), and eviction never changes a decision of the limiter.

    ** Bounds and fuel

    The endless loops of the program are functions of a number of rounds, and the theorems
    hold for every number.  Loops that end take fuel: [Payouts.wait_loop], for which
    [wait_confirmed_enough_fuel] shows which fuel is enough, and [Wallet.wait_loop], whose
    deadline of 60 s at one attempt per 500 ms is met with 122 turns
    ([Wallet.wait_terminates]).  Other recursion is structural.  Instants are milliseconds
    or nanoseconds in [Z], as the file says.

    ** Not modelled

    The insides of TLS, SOCKS and HTTP, but for the hand-written clients of [Appd], and of the
    age format; the routers of the HTTP services, which list the handlers that are modelled;
    log lines, except in [Boot]; name, symbol and decimals of the token, constants that
    nothing reads; the command line of the relay before its arguments are read; the exchange
    and its liquidity, outside of the repository; the shell scripts around the deployment,
    which run external tools; the research directory, examples and tests.

    Limits of the systems put together: in [Solvency] and [Mined] the signer of the contract
    does not change, an account is credited at most [2^53] units, the exact integers of the
    server's scripts, and nobody presents a signature of the pool that it did not make; in
    [Mined] the sink takes one share at a time and other tasks credit nothing while a request
    of the voucher service runs; in [Burned] the
    database is not lost (its loss is the subject of [PayoutReconcile] and [Marker]), and the
    poller reads the latest state of the contract. *)
From stdpp Require Export base tactics list gmap strings relations.
From Stdlib Require Export ZArith Lia.

#[export] Set Warnings "-clear-no-such-hyp,-register-all".

#[global] Open Scope string_scope.
#[global] Open Scope list_scope.
#[global] Open Scope Z_scope.

(** ** Results *)

(** [Result<A, E>]: the error type comes first so that [result E] is a monad. *)
Inductive result (E A : Type) : Type :=
| Ok (a : A)
| Err (e : E).
Arguments Ok {E A} a.
Arguments Err {E A} e.

(** The errors of [anyhow::Error] are only ever logged: a message tag is kept. *)
Definition anyhow (A : Type) : Type := result string A.

#[global] Instance result_ret E : MRet (result E) := fun A a => Ok a.
#[global] Instance result_bind E : MBind (result E) := fun A B f m =>
  match m with Ok a => f a | Err e => Err e end.
#[global] Instance result_fmap E : FMap (result E) := fun A B f m =>
  match m with Ok a => Ok (f a) | Err e => Err e end.

(** [Result::ok]. *)
Definition ok {E A} (r : result E A) : option A :=
  match r with Ok a => Some a | Err _ => None end.
(** [Result::is_ok]. *)
Definition is_ok {E A} (r : result E A) : bool :=
  match r with Ok _ => true | Err _ => false end.
(** [Result::unwrap_or]. *)
Definition unwrap_or {E A} (d : A) (r : result E A) : A :=
  match r with Ok a => a | Err _ => d end.
(** [Result::map_err]. *)
Definition map_err {E F A} (f : E -> F) (r : result E A) : result F A :=
  match r with Ok a => Ok a | Err e => Err (f e) end.
(** [Option::ok_or]. *)
Definition ok_or {E A} (e : E) (o : option A) : result E A :=
  match o with Some a => Ok a | None => Err e end.
(** [Option::unwrap_or]. *)
Definition opt_or {A} (d : A) (o : option A) : A :=
  match o with Some a => a | None => d end.

(** How a task's piece of work ends: a value, an error, or a panic or crash. *)
Inductive outcome (A : Type) : Type :=
| ORet (a : A)
| OErr (e : string)
| OCrash.
Arguments ORet {A} a.
Arguments OErr {A} e.
Arguments OCrash {A}.

(** ** Machine integers

    Integers are kept in [Z]; the width is written where the code depends on
    it.  The shipped binary is a release build, in which [+], [-] and [*]
    wrap. *)

Definition u8_max : Z := 2 ^ 8 - 1.
Definition u32_max : Z := 2 ^ 32 - 1.
Definition u64_max : Z := 2 ^ 64 - 1.
Definition u128_max : Z := 2 ^ 128 - 1.
Definition u256_max : Z := 2 ^ 256 - 1.
Definition i64_min : Z := - 2 ^ 63.
Definition i64_max : Z := 2 ^ 63 - 1.

Definition in_range (lo hi z : Z) : Prop := lo <= z <= hi.
Abbreviation is_u8 := (in_range 0 u8_max).
Abbreviation is_u32 := (in_range 0 u32_max).
Abbreviation is_u64 := (in_range 0 u64_max).
Abbreviation is_u128 := (in_range 0 u128_max).
Abbreviation is_u256 := (in_range 0 u256_max).
Abbreviation is_i64 := (in_range i64_min i64_max).

#[global] Instance in_range_dec lo hi z : Decision (in_range lo hi z).
Proof. unfold in_range. apply _. Defined.

(** Wrap-around of the unsigned and signed widths. *)
Definition wrap_u32 (z : Z) : Z := z mod 2 ^ 32.
Definition wrap_u64 (z : Z) : Z := z mod 2 ^ 64.
Definition wrap_u128 (z : Z) : Z := z mod 2 ^ 128.
Definition wrap_i64 (z : Z) : Z := (z + 2 ^ 63) mod 2 ^ 64 - 2 ^ 63.

(** [clamp lo hi z]: [z] limited to [lo..hi], for [lo <= hi]. *)
Definition clamp (lo hi z : Z) : Z := if z <? lo then lo else if hi <? z then hi else z.

(** Saturating arithmetic. *)
Definition u64_saturating_sub (a b : Z) : Z := Z.max 0 (a - b).
Definition u64_saturating_add (a b : Z) : Z := Z.min u64_max (a + b).
Definition u64_saturating_mul (a b : Z) : Z := Z.min u64_max (a * b).
Definition u32_saturating_add (a b : Z) : Z := Z.min u32_max (a + b).
Definition u128_saturating_add (a b : Z) : Z := Z.min u128_max (a + b).
Definition u128_saturating_sub (a b : Z) : Z := Z.max 0 (a - b).
Definition u128_saturating_mul (a b : Z) : Z := Z.min u128_max (a * b).
Definition u256_saturating_mul (a b : Z) : Z := Z.min u256_max (a * b).
Definition i64_saturating_sub (a b : Z) : Z := clamp i64_min i64_max (a - b).

(** The [i]-th 64-bit limb of a [U256] ([into_limbs]). *)
Definition limb (i : Z) (v : Z) : Z := (v / 2 ^ (64 * i)) mod 2 ^ 64.

(** An EVM address, by its 20-byte big-endian value. *)
Abbreviation Address := Z (only parsing).
Definition is_address (a : Address) : Prop := in_range 0 (2 ^ 160 - 1) a.

(** ** Rings

    The bounded queues of the code push at the back and then pop from the
    front while the length exceeds the capacity. *)

Definition ring_push {A} (cap : nat) (l : list A) (x : A) : list A :=
  drop (length (l ++ [x]) - cap) (l ++ [x]).

(** The last [k] elements of a list. *)
Definition lastn {A} (k : nat) (l : list A) : list A := drop (length l - k) l.

(** Descending order, for the sorts of the code. *)
Definition desc (a b : Z) : Prop := b <= a.

#[global] Instance desc_dec a b : Decision (desc a b).
Proof. unfold desc. apply _. Defined.
#[global] Instance desc_trans : Transitive desc.
Proof. unfold desc. intros ???. lia. Qed.
#[global] Instance desc_total : Total desc.
Proof. unfold desc. intros ??. lia. Qed.

(** ** Decision procedures and automation *)

Create HintDb pool.

(** Split every conjunction in the context and the goal, substitute. *)
Ltac pool_split := repeat (split_and || destruct_and!); simplify_eq/=.

(** Case analysis on the conditionals of the goal, with the tests as
    propositions. *)
Ltac case_ifs :=
  repeat match goal with
  | |- context [if ?b then _ else _] =>
      lazymatch type of b with
      | bool => let E := fresh "E" in destruct b eqn:E
      | _ => destruct b
      end
  end.

(** The same in a hypothesis. *)
Ltac case_ifs_in H :=
  repeat match type of H with
  | context [if ?b then _ else _] =>
      lazymatch type of b with
      | bool => let E := fresh "E" in destruct b eqn:E
      | _ => destruct b
      end
  end.

(** Boolean comparisons to propositions, then [lia]. *)
Ltac bools :=
  repeat match goal with
  | H : (_ && _)%bool = true |- _ => apply andb_true_iff in H; destruct H
  | H : (_ || _)%bool = false |- _ => apply orb_false_iff in H; destruct H
  | H : negb _ = true |- _ => apply negb_true_iff in H
  | H : negb _ = false |- _ => apply negb_false_iff in H
  | H : (_ =? _) = true |- _ => apply Z.eqb_eq in H
  | H : (_ =? _) = false |- _ => apply Z.eqb_neq in H
  | H : (_ <? _) = true |- _ => apply Z.ltb_lt in H
  | H : (_ <? _) = false |- _ => apply Z.ltb_ge in H
  | H : (_ <=? _) = true |- _ => apply Z.leb_le in H
  | H : (_ <=? _) = false |- _ => apply Z.leb_gt in H
  end.

Ltac zify_widths :=
  unfold in_range, u8_max, u32_max, u64_max, u128_max, u256_max, i64_min, i64_max in *.
Ltac width_lia := bools; zify_widths; lia.

(** ** Lemmas on results, integers and rings *)

Lemma unwrap_or_Ok {E A} (d a : A) : unwrap_or d (Ok (E := E) a) = a.
Proof. done. Qed.

Lemma clamp_range lo hi z : lo <= hi -> lo <= clamp lo hi z <= hi.
Proof. intros. unfold clamp. case_ifs; width_lia. Qed.

Lemma clamp_id lo hi z : lo <= z <= hi -> clamp lo hi z = z.
Proof. intros. unfold clamp. case_ifs; width_lia. Qed.

Lemma wrap_u64_range z : is_u64 (wrap_u64 z).
Proof. pose proof (Z.mod_pos_bound z (2 ^ 64) eq_refl). unfold wrap_u64. width_lia. Qed.

Lemma wrap_u32_range z : is_u32 (wrap_u32 z).
Proof. pose proof (Z.mod_pos_bound z (2 ^ 32) eq_refl). unfold wrap_u32. width_lia. Qed.

Lemma wrap_i64_range z : is_i64 (wrap_i64 z).
Proof. pose proof (Z.mod_pos_bound (z + 2 ^ 63) (2 ^ 64) eq_refl). unfold wrap_i64. width_lia. Qed.

(** Wrapping at every step is wrapping once. *)
Lemma wrap_u64_add x y : wrap_u64 (wrap_u64 x + y) = wrap_u64 (x + y).
Proof. apply Zplus_mod_idemp_l. Qed.
Lemma wrap_u32_add x y : wrap_u32 (wrap_u32 x + y) = wrap_u32 (x + y).
Proof. apply Zplus_mod_idemp_l. Qed.
Lemma wrap_i64_add x y : wrap_i64 (wrap_i64 x + y) = wrap_i64 (x + y).
Proof.
  unfold wrap_i64. replace ((x + 2 ^ 63) mod 2 ^ 64 - 2 ^ 63 + y + 2 ^ 63) with ((x + 2 ^ 63) mod 2 ^ 64 + y) by lia.
  rewrite Zplus_mod_idemp_l. by replace (x + 2 ^ 63 + y) with (x + y + 2 ^ 63) by lia.
Qed.

Lemma wrap_u64_id z : is_u64 z -> wrap_u64 z = z.
Proof. intros. unfold wrap_u64. apply Z.mod_small. width_lia. Qed.

Lemma wrap_i64_id z : is_i64 z -> wrap_i64 z = z.
Proof. intros. unfold wrap_i64. rewrite Z.mod_small; width_lia. Qed.

Lemma limb_range i v : is_u64 (limb i v).
Proof. pose proof (Z.mod_pos_bound (v / 2 ^ (64 * i)) (2 ^ 64) eq_refl). unfold limb. width_lia. Qed.

(** A zero limb below a zero quotient is a zero quotient one limb lower. *)
Lemma limb_zero_down i v :
  0 <= i -> limb i v = 0 -> v / 2 ^ (64 * (i + 1)) = 0 -> v / 2 ^ (64 * i) = 0.
Proof.
  unfold limb. intros Hi Hl Hq.
  pose proof (Z.div_mod (v / 2 ^ (64 * i)) (2 ^ 64) ltac:(lia)) as Hd.
  rewrite Hl, Z.div_div in Hd by (try apply Z.pow_nonzero; lia).
  rewrite <- Z.pow_add_r in Hd by lia.
  replace (64 * i + 64) with (64 * (i + 1)) in Hd by lia. rewrite Hq in Hd. lia.
Qed.

(** A 256-bit value whose three upper limbs are zero is its low limb. *)
Lemma limbs_u64 v :
  is_u256 v -> limb 1 v = 0 /\ limb 2 v = 0 /\ limb 3 v = 0 <-> is_u64 v.
Proof.
  intros Hv. split.
  - intros (H1 & H2 & H3).
    assert (v / 2 ^ (64 * (3 + 1)) = 0) as H by (apply Z.div_small; width_lia).
    apply limb_zero_down in H; [|lia..]. apply (limb_zero_down 2) in H; [|lia..].
    apply (limb_zero_down 1) in H; [|lia..].
    apply Z.div_small_iff in H; [|lia]. width_lia.
  - intros H. unfold limb. rewrite !(Z.div_small v) by width_lia. done.
Qed.

(** The same for the two upper limbs and 128 bits. *)
Lemma limbs_u128 v : is_u256 v -> limb 2 v = 0 /\ limb 3 v = 0 <-> is_u128 v.
Proof.
  intros Hv. split.
  - intros (H2 & H3).
    assert (v / 2 ^ (64 * (3 + 1)) = 0) as H by (apply Z.div_small; width_lia).
    apply limb_zero_down in H; [|lia..]. apply (limb_zero_down 2) in H; [|lia..].
    apply Z.div_small_iff in H; [|lia]. width_lia.
  - intros H. unfold limb. rewrite !(Z.div_small v) by width_lia. done.
Qed.

Lemma limb0_id v : is_u64 v -> limb 0 v = v.
Proof. intros. unfold limb. change (2 ^ (64 * 0)) with 1. rewrite Z.div_1_r. apply Z.mod_small. width_lia. Qed.

Lemma limb01_id v : is_u128 v -> limb 0 v + 2 ^ 64 * limb 1 v = v.
Proof.
  intros. unfold limb. change (2 ^ (64 * 0)) with 1. change (2 ^ (64 * 1)) with (2 ^ 64).
  rewrite Z.div_1_r, (Z.mod_small (v / _)).
  - rewrite (Z.div_mod v (2 ^ 64)) at 3 by lia. lia.
  - split; [apply Z.div_pos; width_lia | apply Z.div_lt_upper_bound; width_lia].
Qed.

(** A low limb and a shifted high limb share no bits. *)
Lemma lor_shiftl_64 x y : 0 <= x < 2 ^ 64 -> Z.lor x (Z.shiftl y 64) = x + 2 ^ 64 * y.
Proof.
  intros Hx. assert (Hl : Z.land x (Z.shiftl y 64) = 0).
  { apply Z.bits_inj'. intros n Hn. rewrite Z.land_spec, Z.bits_0.
    destruct (Z.lt_ge_cases n 64) as [Hlt|Hge].
    - by rewrite Z.shiftl_spec_low, andb_false_r by lia.
    - rewrite <- (Z.mod_small x (2 ^ 64)) by lia. by rewrite Z.mod_pow2_bits_high by lia. }
  rewrite <- Z.lxor_lor, <- Z.add_nocarry_lxor by done. rewrite Z.shiftl_mul_pow2 by lia. lia.
Qed.

Lemma ring_push_length {A} cap (l : list A) x :
  (length l <= cap)%nat -> (0 < cap)%nat -> (length (ring_push cap l x) <= cap)%nat.
Proof. intros. unfold ring_push. rewrite length_drop, length_app. simpl. lia. Qed.

Lemma ring_push_incl {A} cap (l : list A) x y :
  y ∈ ring_push cap l x -> y ∈ l \/ y = x.
Proof.
  unfold ring_push. intros Hy. apply list_elem_of_lookup in Hy as [i Hi].
  rewrite lookup_drop in Hi. apply list_elem_of_lookup_2, elem_of_app in Hi as [|?%list_elem_of_singleton]; auto.
Qed.

Lemma ring_push_last {A} cap (l : list A) x : (0 < cap)%nat -> last (ring_push cap l x) = Some x.
Proof.
  intros. unfold ring_push. rewrite last_lookup, lookup_drop, length_drop, length_app. simpl.
  replace (_ + _)%nat with (length l) by lia.
  rewrite lookup_app_r by lia. by rewrite Nat.sub_diag.
Qed.

Lemma lastn_ring_push {A} k (l : list A) x : (0 < k)%nat -> ring_push k (lastn k l) x = lastn k (l ++ [x]).
Proof.
  intros. unfold ring_push, lastn. rewrite !length_app, length_drop. simpl.
  rewrite <- (drop_app_le _ [x]) by lia. rewrite drop_drop. f_equal. lia.
Qed.

Lemma length_omap_le {A B} (f : A -> option B) l : (length (omap f l) <= length l)%nat.
Proof.
  induction l as [|x l IH]; [done|].
  change (omap f (x :: l)) with (match f x with Some y => y :: omap f l | None => omap f l end).
  destruct (f x); cbn [length]; lia.
Qed.

Lemma cons_inv {A} (x y : A) l l' : x :: l = y :: l' -> x = y /\ l = l'.
Proof. by intros [= -> ->]. Qed.

(** Lists of words of one length are told apart by their concatenation. *)
Lemma concat_inj {A} (n : nat) (l l' : list (list A)) :
  Forall (fun x => length x = n) l -> Forall (fun x => length x = n) l' -> length l = length l' ->
  concat l = concat l' -> l = l'.
Proof.
  intros Hl. revert l'. induction Hl as [|x l Hx Hl IH]; intros l' Hl' Hn He; destruct Hl' as [|y l' Hy Hl']; try done.
  simpl in He. apply app_inj_1 in He as [-> He]; [|congruence]. f_equal. apply IH; [done|by injection Hn|done].
Qed.

(** An invariant of every step holds in every reachable state. *)
Lemma rtc_invariant {S} (R : relation S) (I : S -> Prop) :
  (forall s s', I s -> R s s' -> I s') -> forall s s', rtc R s s' -> I s -> I s'.
Proof. intros Hstep s s' Hr. induction Hr; eauto. Qed.

#[export] Hint Resolve clamp_range wrap_u64_range limb_range ring_push_length : pool.

(** Members of related lists. *)
Lemma Forall2_in_l {A B} (P : A -> B -> Prop) l k x : Forall2 P l k -> x ∈ l -> exists y, y ∈ k /\ P x y.
Proof. intros HF (i & Hi)%list_elem_of_lookup. destruct (Forall2_lookup_l _ _ _ _ _ HF Hi) as (y & Hy & ?). exists y. split; [by eapply list_elem_of_lookup_2|done]. Qed.
Lemma Forall2_in_r {A B} (P : A -> B -> Prop) l k y : Forall2 P l k -> y ∈ k -> exists x, x ∈ l /\ P x y.
Proof. intros HF (i & Hi)%list_elem_of_lookup. destruct (Forall2_lookup_r _ _ _ _ _ HF Hi) as (x & Hx & ?). exists x. split; [by eapply list_elem_of_lookup_2|done]. Qed.

(** ** Histories *)

(** Every entry of a log stands in relation [P] to the entries before it. *)
Definition history {E} (P : list E -> E -> Prop) (l : list E) : Prop :=
  forall pre e post, l = pre ++ e :: post -> P pre e.

Lemma history_nil {E} (P : list E -> E -> Prop) : history P [].
Proof. intros pre e post E0. by destruct pre. Qed.

Lemma history_snoc {E} (P : list E -> E -> Prop) l e : history P l -> P l e -> history P (l ++ [e]).
Proof.
  intros Hl He pre e' post E0. destruct post as [|x post _] using rev_ind.
  - apply app_inj_tail in E0 as [-> ->]. done.
  - rewrite app_comm_cons, app_assoc in E0. apply app_inj_tail in E0 as [-> _]. by eapply Hl.
Qed.

Lemma history_app {E} (P : list E -> E -> Prop) l l' :
  history P l -> (forall pre e, e ∈ l' -> P pre e) -> history P (l ++ l').
Proof.
  intros Hl. induction l' as [|e l' IH] using rev_ind; intros He; [by rewrite app_nil_r|].
  rewrite app_assoc. apply history_snoc; [|apply He; set_solver]. apply IH. intros pre x Hx. apply He. set_solver.
Qed.
