(* ===== verification/Text.v ===== *)
(** Decimal text, as the standard library's [to_string] and [str::parse] have
    it, and the few string operations the code uses. *)
From Stdlib Require Import Ascii.
From S2P Require Import Prelude.

Module Text.

(** [String::from_utf8]: well-formed UTF-8. *)
Definition within (lo hi : nat) (c : ascii) : bool := (lo <=? nat_of_ascii c)%nat && (nat_of_ascii c <=? hi)%nat.

Fixpoint utf8_valid (s : string) : bool :=
  match s with
  | EmptyString => true
  | String c0 s0 =>
      if within 0 127 c0 then utf8_valid s0
      else match s0 with
      | EmptyString => false
      | String c1 s1 =>
          if within 194 223 c0 then within 128 191 c1 && utf8_valid s1
          else match s1 with
          | EmptyString => false
          | String c2 s2 =>
              if within 224 239 c0 then
                (if within 224 224 c0 then within 160 191 c1 else if within 237 237 c0 then within 128 159 c1 else within 128 191 c1)
                && within 128 191 c2 && utf8_valid s2
              else match s2 with
              | EmptyString => false
              | String c3 s3 =>
                  within 240 244 c0 &&
                  (if within 240 240 c0 then within 144 191 c1 else if within 244 244 c0 then within 128 143 c1 else within 128 191 c1)
                  && within 128 191 c2 && within 128 191 c3 && utf8_valid s3
              end
          end
      end
  end.

(** The value of a decimal digit. *)
Definition digit (c : ascii) : option Z :=
  let n := Z.of_nat (nat_of_ascii c) in
  if (48 <=? n) && (n <=? 57) then Some (n - 48) else None.

Definition digit_char (d : Z) : ascii := ascii_of_nat (Z.to_nat (48 + d)).

Fixpoint digits (acc : Z) (s : string) : option Z :=
  match s with
  | EmptyString => Some acc
  | String c s' =>
      match digit c with
      | Some d => digits (acc * 10 + d) s'
      | None => None
      end
  end.

(** [str::parse] for an unsigned type of maximum [max]: an optional plus sign,
    at least one digit, and no overflow. *)
Definition parse_uint (max : Z) (s : string) : option Z :=
  let body := match s with String "+" s' => s' | _ => s end in
  match body with
  | EmptyString => None
  | _ => match digits 0 body with
         | Some n => if n <=? max then Some n else None
         | None => None
         end
  end.

Definition parse_u16 : string -> option Z := parse_uint (2 ^ 16 - 1).
Definition parse_u32 : string -> option Z := parse_uint u32_max.
Definition parse_u64 : string -> option Z := parse_uint u64_max.
Definition parse_u128 : string -> option Z := parse_uint u128_max.

(** [str::parse::<i64>]: as above, with a minus sign allowed. *)
Definition parse_i64 (s : string) : option Z :=
  match s with
  | String "-" EmptyString => None
  | String "-" body =>
      match digits 0 body with
      | Some n => if n <=? 2 ^ 63 then Some (- n) else None
      | None => None
      end
  | _ => parse_uint i64_max s
  end.

(** [to_string] of an integer: the least significant digit is produced first. *)
Fixpoint show_go (fuel : nat) (n : Z) (acc : string) : string :=
  let acc' := String (digit_char (n mod 10)) acc in
  if n <? 10 then acc'
  else match fuel with
       | O => acc'
       | S fuel' => show_go fuel' (n / 10) acc'
       end.

Definition show (z : Z) : string :=
  if z <? 0 then String "-" (show_go (Z.to_nat (Z.log2 (- z))) (- z) "")
  else show_go (Z.to_nat (Z.log2 z)) z "".

(** Hexadecimal text of bytes: an instance of what the [hex] crate documents. *)
Definition is_hex_digit (c : ascii) : bool :=
  let n := nat_of_ascii c in (((48 <=? n) && (n <=? 57)) || ((97 <=? n) && (n <=? 102)))%nat.

Definition nibble_char (d : Z) : ascii :=
  ascii_of_nat (Z.to_nat (if d <? 10 then 48 + d else 87 + d)).

Definition nibble (c : ascii) : option Z :=
  let n := Z.of_nat (nat_of_ascii c) in
  if (48 <=? n) && (n <=? 57) then Some (n - 48)
  else if (97 <=? n) && (n <=? 102) then Some (n - 87)
  else if (65 <=? n) && (n <=? 70) then Some (n - 55)
  else None.

Fixpoint hex_encode (b : list Z) : string :=
  match b with
  | [] => EmptyString
  | x :: b' => String (nibble_char (x / 16)) (String (nibble_char (x mod 16)) (hex_encode b'))
  end.

Fixpoint hex_decode (s : string) : option (list Z) :=
  match s with
  | EmptyString => Some []
  | String c (String c' s') =>
      match nibble c, nibble c', hex_decode s' with
      | Some h, Some l, Some b => Some (16 * h + l :: b)
      | _, _, _ => None
      end
  | String _ EmptyString => None
  end.

(** [to_ascii_lowercase]. *)
Definition lower (c : ascii) : ascii :=
  let n := nat_of_ascii c in
  if ((65 <=? n) && (n <=? 90))%nat then ascii_of_nat (n + 32) else c.

Fixpoint to_ascii_lowercase (s : string) : string :=
  match s with
  | EmptyString => EmptyString
  | String c s' => String (lower c) (to_ascii_lowercase s')
  end.

(** [str::starts_with] and [str::contains] on a string pattern. *)
Fixpoint starts_with (pat s : string) : bool :=
  match pat, s with
  | EmptyString, _ => true
  | String p pat', String c s' => Ascii.eqb p c && starts_with pat' s'
  | String _ _, EmptyString => false
  end.

Fixpoint contains (pat s : string) : bool :=
  starts_with pat s || match s with EmptyString => false | String _ s' => contains pat s' end.

(** [chars()]: a character is a byte that does not continue one, with the bytes that do. *)
Definition continues (s : string) : bool :=
  match s with String c _ => (128 <=? nat_of_ascii c)%nat && (nat_of_ascii c <? 192)%nat | EmptyString => false end.

Fixpoint chars (s : string) : list string :=
  match s with
  | EmptyString => []
  | String c s' =>
      match chars s' with
      | g :: gs => if continues g then String c g :: gs else String c EmptyString :: g :: gs
      | [] => [String c EmptyString]
      end
  end.

(** [char::is_whitespace]: the ASCII spaces, and the others in UTF-8. *)
Definition is_space (c : Ascii.ascii) : bool :=
  let n := Ascii.nat_of_ascii c in ((n =? 32) || ((9 <=? n) && (n <=? 13)))%nat.

Definition utf8 (bytes : list nat) : string := String.string_of_list_ascii (ascii_of_nat <$> bytes).

Definition wide_spaces : list string :=
  utf8 <$> [[194; 133]; [194; 160]; [225; 154; 128]]%nat ++ ((fun n => [226; 128; 128 + n]) <$> seq 0 11)%nat
    ++ [[226; 128; 168]; [226; 128; 169]; [226; 128; 175]; [226; 129; 159]; [227; 128; 128]]%nat.

Definition is_white (ch : string) : bool :=
  match ch with
  | String c EmptyString => is_space c
  | _ => existsb (String.eqb ch) wide_spaces
  end.

Fixpoint drop_white (cs : list string) : list string :=
  match cs with c :: cs' => if is_white c then drop_white cs' else cs | [] => [] end.

(** [str::trim]. *)
Definition trim (s : string) : string :=
  String.concat "" (reverse (drop_white (reverse (drop_white (chars s))))).

(** [strip_prefix("0x")], and [trim_start_matches("0x")], which removes every one. *)
Definition strip_0x (s : string) : option string :=
  match s with String "0" (String "x" s') => Some s' | _ => None end.

Fixpoint trim_0x (s : string) : string :=
  match s with String "0" (String "x" s') => trim_0x s' | _ => s end.

(** ** Lemmas *)

Lemma digit_digit_char d : 0 <= d < 10 -> digit (digit_char d) = Some d.
Proof.
  intros Hd. assert (d = 0 \/ d = 1 \/ d = 2 \/ d = 3 \/ d = 4 \/ d = 5 \/ d = 6 \/ d = 7 \/ d = 8 \/ d = 9)
    as Hc by lia. by repeat destruct Hc as [->|Hc]; [..| rewrite Hc].
Qed.

Lemma digits_show_go fuel n acc :
  0 <= n < 10 ^ Z.of_nat (S fuel) -> digits 0 (show_go fuel n acc) = digits n acc.
Proof.
  revert n acc. induction fuel as [|fuel IH]; intros n acc Hn; simpl show_go;
    pose proof (Z.mod_pos_bound n 10 ltac:(lia)); pose proof (Z.div_mod n 10 ltac:(lia)).
  - change (10 ^ Z.of_nat 1) with 10 in Hn. case_ifs; bools; [|lia]. simpl.
    rewrite digit_digit_char, Z.mod_small by lia. done.
  - rewrite Nat2Z.inj_succ, Z.pow_succ_r in Hn by lia.
    case_ifs; bools.
    + simpl. rewrite digit_digit_char, Z.mod_small by lia. done.
    + rewrite IH.
      2: { split; [apply Z.div_pos; lia | apply Z.div_lt_upper_bound; lia]. }
      simpl. rewrite digit_digit_char by lia. f_equal. lia.
Qed.

Lemma digits_show n : 0 <= n -> digits 0 (show n) = Some n.
Proof.
  intros Hn. unfold show. replace (n <? 0) with false by (symmetry; apply Z.ltb_ge; lia).
  rewrite digits_show_go; [done|]. split; [done|].
  destruct (decide (n = 0)) as [->|]; [done|].
  pose proof (Z.log2_spec n ltac:(lia)) as [_ Hlt]. pose proof (Z.log2_nonneg n).
  rewrite Nat2Z.inj_succ, Z2Nat.id by lia.
  eapply Z.lt_le_trans; [exact Hlt|]. apply Z.pow_le_mono_l. lia.
Qed.

(** A decimal is made of digits. *)
Lemma show_go_digits fuel n acc :
  0 <= n -> Forall (fun c => digit c <> None) (String.list_ascii_of_string acc) ->
  Forall (fun c => digit c <> None) (String.list_ascii_of_string (show_go fuel n acc)).
Proof.
  revert n acc. induction fuel as [|fuel IH]; intros n acc Hn Hacc; simpl;
    pose proof (Z.mod_pos_bound n 10 ltac:(lia));
    assert (Hd : digit (digit_char (n mod 10)) <> None) by (rewrite digit_digit_char by lia; done);
    case_ifs; try by constructor.
  apply IH; [apply Z.div_pos; lia | by constructor].
Qed.

Lemma show_digits n :
  0 <= n -> Forall (fun c => digit c <> None) (String.list_ascii_of_string (show n)).
Proof.
  intros. unfold show. replace (n <? 0) with false by (symmetry; apply Z.ltb_ge; lia).
  by apply show_go_digits.
Qed.

(** A decimal begins with a digit: it is not empty and has no sign. *)
Lemma show_go_head fuel n acc :
  0 <= n -> exists c s, show_go fuel n acc = String c s /\ digit c <> None.
Proof.
  revert n acc. induction fuel as [|fuel IH]; intros n acc Hn; simpl;
    pose proof (Z.mod_pos_bound n 10 ltac:(lia));
    assert (Hd : digit (digit_char (n mod 10)) <> None) by (rewrite digit_digit_char by lia; done);
    case_ifs; eauto.
  apply IH. apply Z.div_pos; lia.
Qed.

Lemma show_head n : 0 <= n -> exists c s, show n = String c s /\ digit c <> None.
Proof.
  intros. unfold show. replace (n <? 0) with false by (symmetry; apply Z.ltb_ge; lia).
  by apply show_go_head.
Qed.

(** Printing then parsing an unsigned integer gives it back. *)
Lemma parse_uint_show max n : 0 <= n <= max -> parse_uint max (show n) = Some n.
Proof.
  intros Hn. destruct (show_head n) as (c & s & Hs & Hd); [lia|].
  pose proof (digits_show n ltac:(lia)) as Hds. unfold parse_uint. rewrite Hs in *.
  replace (match c with "+"%char => s | _ => String c s end) with (String c s).
  - rewrite Hds. case_ifs; [done | width_lia].
  - destruct c as [[] [] [] [] [] [] [] []]; try done; by destruct Hd.
Qed.

(** A decimal has no sign, so it parses as signed too. *)
Lemma digits_nonneg s : forall acc n, 0 <= acc -> digits acc s = Some n -> 0 <= n.
Proof.
  induction s as [|c s IH]; intros acc n Ha Hn; simpl in *; [by simplify_eq|].
  destruct (digit c) as [d|] eqn:Ed; [|done]. apply (IH (acc * 10 + d)); [|done].
  unfold digit in Ed. case_ifs_in Ed; simplify_eq. bools. lia.
Qed.

Lemma parse_uint_range max s n : parse_uint max s = Some n -> 0 <= n <= max.
Proof.
  unfold parse_uint. generalize (match s with String "+" s' => s' | _ => s end). intros b.
  destruct b; [done|]. destruct (digits 0 _) as [m|] eqn:Ed; [|done].
  apply digits_nonneg in Ed; [|lia]. case_ifs; intros; simplify_eq. bools. lia.
Qed.

Lemma parse_i64_range s n : parse_i64 s = Some n -> is_i64 n.
Proof.
  unfold parse_i64. destruct s as [|c s]; [done|]. destruct (ascii_dec c "-") as [->|Hne].
  - destruct s as [|c s]; [done|]. destruct (digits 0 _) as [m|] eqn:Ed; [|done].
    apply digits_nonneg in Ed; [|lia]. case_ifs; intros; simplify_eq. width_lia.
  - intros Hp. enough (0 <= n <= i64_max) by width_lia. apply (parse_uint_range i64_max (String c s)).
    destruct c as [[] [] [] [] [] [] [] []]; try exact Hp; by destruct Hne.
Qed.

Lemma parse_uint_show_inv max z c : parse_uint max (show z) = Some c -> c = z.
Proof.
  unfold parse_uint. destruct (Z.ltb_spec z 0) as [Hz|Hz].
  - unfold show. destruct (Z.ltb_spec z 0); [done|lia].
  - pose proof (digits_show z Hz) as Hd. destruct (show_head z Hz) as (c0 & s & Es & Hc). rewrite Es in *.
    assert (Hb : match String c0 s with String "+" s' => s' | _ => String c0 s end = String c0 s).
    { destruct (ascii_dec c0 "+") as [->|Hne]; [by destruct Hc|].
      destruct c0 as [[] [] [] [] [] [] [] []]; try done; by destruct Hne. }
    rewrite Hb, Hd. case_ifs; intros; congruence.
Qed.

Lemma parse_i64_show n : 0 <= n <= i64_max -> parse_i64 (show n) = Some n.
Proof.
  intros Hn. rewrite <- (parse_uint_show i64_max n Hn).
  destruct (show_head n) as (c & s & Hs & Hd); [lia|]. rewrite Hs.
  destruct c as [[] [] [] [] [] [] [] []]; try done; by destruct Hd.
Qed.

Lemma show_inj m n : 0 <= m -> 0 <= n -> show m = show n -> m = n.
Proof.
  intros Hm Hn E. pose proof (digits_show m Hm) as H. rewrite E, digits_show in H by done.
  congruence.
Qed.

Lemma nibble_cases (P : Z -> Prop) :
  P 0 -> P 1 -> P 2 -> P 3 -> P 4 -> P 5 -> P 6 -> P 7 -> P 8 -> P 9 -> P 10 -> P 11 -> P 12 -> P 13 ->
  P 14 -> P 15 -> forall d, 0 <= d < 16 -> P d.
Proof.
  intros. assert (d = 0 \/ d = 1 \/ d = 2 \/ d = 3 \/ d = 4 \/ d = 5 \/ d = 6 \/ d = 7 \/ d = 8 \/ d = 9
    \/ d = 10 \/ d = 11 \/ d = 12 \/ d = 13 \/ d = 14 \/ d = 15) as Hc by lia.
  repeat destruct Hc as [->|Hc]; [done..| by subst].
Qed.

Lemma nibble_nibble_char d : 0 <= d < 16 -> nibble (nibble_char d) = Some d.
Proof. revert d. by apply nibble_cases. Qed.

Lemma nibble_char_hex d : 0 <= d < 16 -> is_hex_digit (nibble_char d) = true.
Proof. revert d. by apply nibble_cases. Qed.

Lemma hex_decode_encode b : Forall is_u8 b -> hex_decode (hex_encode b) = Some b.
Proof.
  induction 1 as [|x b Hx _ IH]; simpl; [done|].
  assert (0 <= x / 16 < 16) by (split; [apply Z.div_pos; width_lia | apply Z.div_lt_upper_bound; width_lia]).
  pose proof (Z.mod_pos_bound x 16 ltac:(lia)). rewrite !nibble_nibble_char, IH by done.
  do 2 f_equal. pose proof (Z.div_mod x 16 ltac:(lia)). lia.
Qed.

Lemma hex_encode_alphabet b :
  Forall is_u8 b -> Forall (fun c => is_hex_digit c = true) (String.list_ascii_of_string (hex_encode b)).
Proof.
  induction 1 as [|x b Hx _ IH]; simpl; [done|].
  assert (0 <= x / 16 < 16) by (split; [apply Z.div_pos; width_lia | apply Z.div_lt_upper_bound; width_lia]).
  pose proof (Z.mod_pos_bound x 16 ltac:(lia)). repeat constructor; [by apply nibble_char_hex..| done].
Qed.

(** A character of ASCII that is not a space. *)
Definition is_plain (c : ascii) : bool := negb (is_space c) && (nat_of_ascii c <? 128)%nat.

Lemma chars_plain s :
  Forall (fun c => is_plain c = true) (String.list_ascii_of_string s) ->
  Forall (fun ch => is_white ch = false) (chars s) /\ String.concat "" (chars s) = s /\
  match chars s with g :: _ => continues g = false | [] => True end.
Proof.
  induction s as [|c s IH]; simpl; [done|]. intros Hf. inversion Hf as [|? ? Hc Hs]; subst.
  destruct (IH Hs) as (Hw & Hcat & Hg). unfold is_plain in Hc. apply andb_true_iff in Hc as [Hc1 Hc2].
  apply negb_true_iff in Hc1. apply Nat.ltb_lt in Hc2.
  assert (Hcont : forall s', continues (String c s') = false).
  { intros s'. unfold continues. destruct (Nat.leb_spec 128 (nat_of_ascii c)); [lia|done]. }
  destruct (chars s) as [|g gs].
  { simpl in *. subst s. split_and!; [by repeat constructor|done|apply (Hcont EmptyString)]. }
  rewrite Hg. split_and!; [by constructor| |apply (Hcont EmptyString)].
  rewrite <- Hcat. simpl. by destruct gs.
Qed.

Lemma drop_white_id cs : Forall (fun ch => is_white ch = false) cs -> drop_white cs = cs.
Proof. by destruct 1 as [|c cs Hc _]; simpl; [|rewrite Hc]. Qed.

Lemma trim_id s : Forall (fun c => is_plain c = true) (String.list_ascii_of_string s) -> trim s = s.
Proof.
  intros Hf. destruct (chars_plain s Hf) as (Hw & Hcat & _). unfold trim.
  rewrite (drop_white_id _ Hw), drop_white_id by by apply Forall_reverse. by rewrite reverse_involutive.
Qed.

Lemma hex_digit_plain c : is_hex_digit c = true -> is_plain c = true.
Proof. by destruct c as [[] [] [] [] [] [] [] []]. Qed.

Lemma trim_0x_hex s : Forall (fun c => is_hex_digit c = true) (String.list_ascii_of_string s) -> trim_0x s = s.
Proof.
  intros Hf. destruct s as [|c [|c' s]]; [done| |].
  - by destruct c as [[] [] [] [] [] [] [] []].
  - inversion Hf as [|? ? _ Hs]; subst. inversion Hs as [|? ? Hc _]; subst.
    destruct c as [[] [] [] [] [] [] [] []]; try done;
      by destruct c' as [[] [] [] [] [] [] [] []].
Qed.

Lemma trim_hex_encode b : Forall is_u8 b -> trim_0x (trim (hex_encode b)) = hex_encode b.
Proof.
  intros Hb. pose proof (hex_encode_alphabet b Hb) as Hf. rewrite trim_id; [by apply trim_0x_hex|].
  eapply Forall_impl; [exact Hf|]. apply hex_digit_plain.
Qed.

End Text.
