(* ===== verification/Floats.v ===== *)
(** IEEE 754 binary64 arithmetic as the code uses it, over the Standard
    Library's [SpecFloat], with Rust's conversions and comparisons. *)
From Stdlib Require Export SpecFloat.
From S2P Require Import Prelude.

Module F.

Abbreviation f64 := spec_float.

Definition prec : Z := 53.
Definition emax : Z := 1024.

(** [n as f64] for an integer. *)
Definition of_Z (n : Z) : f64 := binary_normalize prec emax n 0 false.

Definition add : f64 -> f64 -> f64 := SFadd prec emax.
Definition sub : f64 -> f64 -> f64 := SFsub prec emax.
Definition mul : f64 -> f64 -> f64 := SFmul prec emax.
Definition div : f64 -> f64 -> f64 := SFdiv prec emax.

Definition ltb (x y : f64) : bool := SFltb x y.
Definition leb (x y : f64) : bool := SFleb x y.
Definition eqb (x y : f64) : bool := SFeqb x y.

Definition zero : f64 := S754_zero false.
Definition one : f64 := of_Z 1.
(** The literal [n / d] in decimal notation, for [n] and [d] exact: division
    rounds correctly. *)
Definition lit (n d : Z) : f64 := div (of_Z n) (of_Z d).

Definition is_nan (x : f64) : bool := match x with S754_nan => true | _ => false end.
Definition is_finite (x : f64) : bool :=
  match x with S754_nan | S754_infinity _ => false | _ => true end.

(** [f64::max] and [f64::min]: a NaN operand is ignored. *)
Definition fmax (x y : f64) : f64 :=
  if is_nan x then y else if is_nan y then x else if ltb x y then y else x.
Definition fmin (x y : f64) : f64 :=
  if is_nan x then y else if is_nan y then x else if ltb y x then y else x.

(** [f64::clamp], for bounds in order; NaN stays NaN. *)
Definition fclamp (lo hi x : f64) : f64 :=
  let x1 := if ltb x lo then lo else x in if ltb hi x1 then hi else x1.

(** The integer part of a finite value, and Rust's saturating [as] casts. *)
Definition trunc (x : f64) : Z :=
  match x with
  | S754_finite s m e =>
      let a := if 0 <=? e then Zpos m * 2 ^ e else Zpos m / 2 ^ (- e) in
      if s then - a else a
  | _ => 0
  end.

Definition as_int (lo hi : Z) (x : f64) : Z :=
  match x with
  | S754_nan => 0
  | S754_infinity s => if s then lo else hi
  | _ => clamp lo hi (trunc x)
  end.

(** The nearest integer, halves away from zero, of a finite value; and
    [x.round() as u64] ([round] is exact on doubles). *)
Definition round_Z (x : f64) : Z :=
  match x with
  | S754_finite s m e =>
      let a := if 0 <=? e then Zpos m * 2 ^ e else (Zpos m + 2 ^ (- e - 1)) / 2 ^ (- e) in
      if s then - a else a
  | _ => 0
  end.

Definition round_as_u64 (x : f64) : Z :=
  match x with
  | S754_nan => 0
  | S754_infinity s => if s then 0 else u64_max
  | _ => clamp 0 u64_max (round_Z x)
  end.

(** [f64::floor]: exact on doubles. *)
Definition floor (x : f64) : f64 :=
  match x with
  | S754_finite s m e =>
      if 0 <=? e then x
      else of_Z ((if s then - Zpos m else Zpos m) / 2 ^ (- e))
  | _ => x
  end.

(** [Duration::as_secs_f64] of a duration in nanoseconds. *)
Definition secs_f64 (ns : Z) : f64 :=
  add (of_Z (ns / 10 ^ 9)) (div (of_Z (ns mod 10 ^ 9)) (of_Z (10 ^ 9))).

Definition as_i64 : f64 -> Z := as_int i64_min i64_max.
Definition as_u64 : f64 -> Z := as_int 0 u64_max.
Definition as_u128 : f64 -> Z := as_int 0 u128_max.

(** Not negative: positive zero, positive finite or positive infinite. *)
Definition nonneg (x : f64) : bool :=
  match x with
  | S754_zero s | S754_infinity s | S754_finite s _ _ => negb s
  | S754_nan => false
  end.

(** ** Lemmas *)

Lemma as_int_range lo hi x : lo <= 0 <= hi -> lo <= as_int lo hi x <= hi.
Proof. intros. destruct x as [s|s| |s m e]; simpl; try (destruct s); try lia; apply clamp_range; lia. Qed.

Lemma as_i64_range x : is_i64 (as_i64 x).
Proof. apply as_int_range. by split. Qed.

Lemma as_u64_range x : is_u64 (as_u64 x).
Proof. apply as_int_range. by split. Qed.

Lemma as_u128_range x : is_u128 (as_u128 x).
Proof. apply as_int_range. by split. Qed.

(** [as_i64] of a value that is not below zero is not negative. *)
Lemma as_int_nonneg lo hi x : lo <= 0 <= hi -> ltb x zero = false -> 0 <= as_int lo hi x.
Proof.
  intros Hr Hx. destruct x as [s|s| |s m e]; simpl.
  - rewrite clamp_id; lia.
  - destruct s; [done | lia].
  - lia.
  - destruct s; [done|].
    assert (0 <= if 0 <=? e then Zpos m * 2 ^ e else Zpos m / 2 ^ (- e)).
    { case_ifs; bools; [|apply Z.div_pos; [lia | apply Z.pow_pos_nonneg; lia]].
      apply Z.mul_nonneg_nonneg; [lia | apply Z.pow_nonneg; lia]. }
    unfold clamp. case_ifs; width_lia.
Qed.

Lemma iter_pos_ind {A} (P : A -> Prop) (f : A -> A) n x :
  (forall y, P y -> P (f y)) -> P x -> P (SpecFloat.iter_pos f n x).
Proof. intros Hf. revert x. induction n; simpl; auto. Qed.

Lemma shr_fexp_nonneg m e l : 0 <= m -> 0 <= shr_m (shr_fexp prec emax m e l).1.
Proof.
  intros Hm. unfold shr_fexp, shr.
  assert (0 <= shr_m (shr_record_of_loc m l)) as H0 by (by destruct l as [|[]]).
  destruct (_ - e) as [|p|p]; try done. simpl.
  apply (iter_pos_ind (fun r => 0 <= shr_m r)); [|done].
  by intros [[|[]|] r s].
Qed.

(** Rounding a magnitude keeps the sign it is given, and never makes a NaN. *)
Lemma round_aux_sign s m e l :
  0 <= m -> match binary_round_aux prec emax s m e l with
            | S754_zero s' | S754_infinity s' | S754_finite s' _ _ => s' = s
            | S754_nan => False
            end.
Proof.
  intros Hm. unfold binary_round_aux. pose proof (shr_fexp_nonneg m e l Hm) as H1.
  destruct (shr_fexp prec emax m e l) as [mrs e'] eqn:E1. simpl in H1.
  set (n := round_nearest_even _ _).
  assert (0 <= n) as Hn by (subst n; destruct (loc_of_shr_record mrs) as [|[]]; simpl; case_ifs; lia).
  pose proof (shr_fexp_nonneg n e' loc_Exact Hn) as H2.
  destruct (shr_fexp prec emax n e' loc_Exact) as [mrs'' e'']. simpl in H2.
  destruct (shr_m mrs''); [done| |lia]. by case_ifs.
Qed.

Lemma round_aux_nonneg m e l : 0 <= m -> nonneg (binary_round_aux prec emax false m e l) = true.
Proof.
  intros Hm. pose proof (round_aux_sign false m e l Hm) as H.
  destruct (binary_round_aux _ _ _ _ _ _); simpl in *; by subst.
Qed.

(** The product of values that are not negative is not below zero; it is a NaN
    only for zero times infinity. *)
Lemma mul_nonneg x y : nonneg x = true -> nonneg y = true -> nonneg (mul x y) = true \/ mul x y = S754_nan.
Proof.
  destruct x as [[]|[]| |[] m e], y as [[]|[]| |[] m' e']; simpl; auto; try done.
  intros _ _. left. apply (round_aux_nonneg (Zpos (m * m'))). lia.
Qed.

Lemma mul_finite_nonneg x y :
  nonneg x = true -> nonneg y = true -> is_finite x = true -> is_finite y = true ->
  nonneg (mul x y) = true.
Proof.
  destruct x as [[]|[]| |[] m e], y as [[]|[]| |[] m' e']; simpl; auto; try done.
  intros _ _ _ _. apply (round_aux_nonneg (Zpos (m * m'))). lia.
Qed.

(** The same for a quotient: a NaN only for 0/0 and infinity over infinity. *)
Lemma div_nonneg x y : nonneg x = true -> nonneg y = true -> nonneg (div x y) = true \/ div x y = S754_nan.
Proof.
  destruct x as [[]|[]| |[] m e], y as [[]|[]| |[] m' e']; simpl; auto; try done.
  intros _ _. left. unfold div, SFdiv.
  destruct (SFdiv_core_binary _ _ _ _ _ _) as [[mz ez] lz] eqn:E.
  apply round_aux_nonneg. unfold SFdiv_core_binary in E.
  match type of E with
  | context [Z.div_eucl ?n ?d] =>
      destruct (Z.div_eucl n d) as [q r] eqn:Eq;
      assert (Hq : 0 <= n / d) by (apply Z.div_pos; [case_match; rewrite ?Z.shiftl_nonneg; lia | lia]);
      unfold Z.div in Hq; rewrite Eq in Hq
  end.
  by simplify_eq.
Qed.

Lemma nonneg_not_ltb x : nonneg x = true -> ltb x zero = false.
Proof. by destruct x as [[]|[]| |[] m e]. Qed.

Lemma mul_not_neg x y : nonneg x = true -> nonneg y = true -> ltb (mul x y) zero = false.
Proof. intros Hx Hy. destruct (mul_nonneg x y Hx Hy) as [H| ->]; [by apply nonneg_not_ltb | done]. Qed.

Lemma of_Z_nonneg n : 0 <= n -> nonneg (of_Z n) = true.
Proof.
  intros Hn. unfold of_Z, binary_normalize. destruct n; [done| |lia].
  unfold binary_round. destruct (shl_align _ _ _) as [m e]. apply round_aux_nonneg. lia.
Qed.

(** [max(0.0)] is never below zero and never NaN. *)
Lemma fmax_zero x : ltb (fmax x zero) zero = false /\ is_nan (fmax x zero) = false.
Proof.
  unfold fmax. destruct (is_nan x) eqn:E; [done|]. simpl. destruct (ltb x zero) eqn:E'; done.
Qed.

(** A clamp lands between its bounds, when these are in order and not NaN. *)
Lemma fclamp_range lo hi x :
  ltb lo lo = false -> ltb hi hi = false -> ltb hi lo = false ->
  ltb (fclamp lo hi x) lo = false /\ ltb hi (fclamp lo hi x) = false.
Proof.
  intros Hll Hhh Hhl. unfold fclamp. destruct (ltb x lo) eqn:E1; [by rewrite Hhl|].
  destruct (ltb hi x) eqn:E2; auto.
Qed.

(** ** Sums of values that are not negative *)

Lemma digits2_log2 p : Zpos (digits2_pos p) = Z.log2 (Zpos p) + 1.
Proof.
  induction p as [p IH|p IH|]; [..|done]; cbn [digits2_pos]; rewrite Pos2Z.inj_succ, IH.
  - rewrite (Pos2Z.inj_xI p), Z.log2_succ_double by lia. lia.
  - rewrite (Pos2Z.inj_xO p), Z.log2_double by lia. lia.
Qed.

Lemma Zdigits2_log2 m : 0 < m -> Zdigits2 m = Z.log2 m + 1.
Proof. destruct m; [lia| |lia]. intros _. apply digits2_log2. Qed.

Lemma shr_1_div r : 0 <= shr_m r -> 0 <= shr_m (shr_1 r) /\ shr_m (shr_1 r) = shr_m r / 2.
Proof.
  destruct r as [[|[p|p|]|p] a b]; simpl; intros Hm; try done.
  - split; [done|]. apply Z.div_unique with (r := 1); lia.
  - split; [done|]. apply Z.div_unique with (r := 0); lia.
Qed.

Lemma iter_shr_div p : forall r, 0 <= shr_m r ->
  0 <= shr_m (SpecFloat.iter_pos shr_1 p r) /\ shr_m (SpecFloat.iter_pos shr_1 p r) = shr_m r / 2 ^ Zpos p.
Proof.
  induction p as [p IH|p IH|]; intros r Hr; cbn [SpecFloat.iter_pos].
  - destruct (shr_1_div r Hr) as [H1 E1]. destruct (IH _ H1) as [H2 E2]. destruct (IH _ H2) as [H3 E3].
    split; [done|]. rewrite E3, E2, E1, !Z.div_div by (try apply Z.pow_pos_nonneg; lia). f_equal.
    rewrite (Pos2Z.inj_xI p). replace (2 * Z.pos p + 1) with (1 + Z.pos p + Z.pos p) by lia.
    rewrite !Z.pow_add_r by lia. ring.
  - destruct (IH _ Hr) as [H2 E2]. destruct (IH _ H2) as [H3 E3].
    split; [done|]. rewrite E3, E2, !Z.div_div by (try apply Z.pow_pos_nonneg; lia). f_equal.
    rewrite (Pos2Z.inj_xO p). replace (2 * Z.pos p) with (Z.pos p + Z.pos p) by lia.
    rewrite !Z.pow_add_r by lia. ring.
  - by apply shr_1_div.
Qed.

(** Shifting a positive mantissa to its exponent: what is left is the quotient. *)
Lemma shr_fexp_exact m e : 0 < m ->
  let f := Z.max e (fexp prec emax (Z.log2 m + 1 + e)) in
  (shr_fexp prec emax m e loc_Exact).2 = f /\
  shr_m (shr_fexp prec emax m e loc_Exact).1 = m / 2 ^ (f - e).
Proof.
  intros Hm f. unfold shr_fexp, shr. rewrite Zdigits2_log2 by done. cbn [shr_record_of_loc].
  destruct (fexp prec emax (Z.log2 m + 1 + e) - e) as [|n|n] eqn:En.
  - assert (f = e) as -> by (unfold f; lia). rewrite Z.sub_diag, Z.div_1_r. simpl. auto.
  - assert (f = e + Zpos n) as Hf by (unfold f; lia).
    destruct (iter_shr_div n (Build_shr_record m false false) ltac:(simpl; lia)) as [_ E]. simpl in E.
    cbn [fst snd]. rewrite E. replace (f - e) with (Z.pos n) in * by lia. by rewrite Hf.
  - assert (f = e) as -> by (unfold f; lia). rewrite Z.sub_diag, Z.div_1_r. simpl. auto.
Qed.

(** It is positive when the exponent is the mantissa's own. *)
Lemma shr_left m k : 0 < m -> 0 <= k <= Z.log2 m -> 0 < m / 2 ^ k.
Proof.
  intros Hm [H0 Hk].
  apply Z.div_str_pos. split; [apply Z.pow_pos_nonneg; lia|].
  etransitivity; [apply Z.pow_le_mono_r; [lia|exact Hk]|]. by apply Z.log2_spec.
Qed.

(** [at_least p ep x]: the value [x] is at least [p * 2^ep], for a canonical pair. *)
Definition at_least (p : positive) (ep : Z) (x : f64) : Prop :=
  match x with
  | S754_infinity false => True
  | S754_finite false m e => ep < e \/ (ep = e /\ Zpos p <= Zpos m)
  | _ => False
  end.

Lemma round_nearest_ge m l : m <= round_nearest_even m l.
Proof. destruct l as [|[]]; simpl; case_ifs; lia. Qed.

Lemma round_aux_at_least p ep m e :
  canonical_mantissa prec emax p ep = true -> e <= ep -> Zpos p * 2 ^ (ep - e) <= m ->
  at_least p ep (binary_round_aux prec emax false m e loc_Exact).
Proof.
  intros Hc He Hm. unfold canonical_mantissa in Hc. apply Z.eqb_eq in Hc.
  rewrite digits2_log2 in Hc.
  assert (H2 : 0 < 2 ^ (ep - e)) by (apply Z.pow_pos_nonneg; lia).
  assert (Hm0 : 0 < m) by nia.
  assert (Hlog : Z.log2 (Zpos p) + (ep - e) <= Z.log2 m).
  { pose proof (Z.log2_mul_pow2 (Zpos p) (ep - e) ltac:(lia) ltac:(lia)). pose proof (Z.log2_le_mono _ _ Hm). lia. }
  assert (Hep : emin prec emax <= ep) by (unfold fexp in Hc; lia).
  assert (Hf : ep <= fexp prec emax (Z.log2 m + 1 + e)) by (unfold fexp in *; lia).
  unfold binary_round_aux. destruct (shr_fexp_exact m e Hm0) as [E1 E2].
  rewrite Z.max_r in E1, E2 by lia. set (f1 := fexp prec emax (Z.log2 m + 1 + e)) in *.
  destruct (shr_fexp prec emax m e loc_Exact) as [mrs e1]. cbn [fst snd] in *. subst e1.
  assert (Hq : 0 < m / 2 ^ (f1 - e) /\ (f1 = ep -> Zpos p <= m / 2 ^ (f1 - e))).
  { assert (f1 = ep -> Zpos p <= m / 2 ^ (f1 - e)) by (intros ->; apply Z.div_le_lower_bound; lia).
    split; [|done]. destruct (decide (f1 = ep)); [lia|].
    apply shr_left; [done|]. unfold f1, fexp, prec in *. lia. }
  destruct Hq as [Hq0 Hq]. rewrite E2.
  set (r := round_nearest_even _ _). assert (Hr : m / 2 ^ (f1 - e) <= r) by apply round_nearest_ge.
  clearbody r. destruct (shr_fexp_exact r f1 ltac:(lia)) as [E3 E4].
  destruct (shr_fexp prec emax r f1 loc_Exact) as [mrs2 e2]. cbn [fst snd] in *. subst e2.
  set (f2 := Z.max f1 _) in *.
  assert (Hr2 : 0 < r / 2 ^ (f2 - f1)).
  { destruct (decide (f2 = f1)) as [->|]; [rewrite Z.sub_diag, Z.div_1_r; lia|].
    apply shr_left; [lia|]. unfold f2, f1, fexp, prec in *. lia. }
  rewrite E4. destruct (r / 2 ^ (f2 - f1)) as [|q|q] eqn:Eq; [lia| |lia].
  destruct (f2 <=? emax - prec); simpl; [|done].
  destruct (decide (f2 = ep)) as [Hfe|]; [right|left; unfold f2; lia].
  split; [done|]. assert (f1 = ep /\ f2 = f1) as [-> ->] by (unfold f2 in *; lia).
  rewrite Z.sub_diag, Z.div_1_r in Eq. specialize (Hq eq_refl). lia.
Qed.

Lemma shl_align_fst p e e' : e' <= e -> Zpos (shl_align p e e').1 = Zpos p * 2 ^ (e - e').
Proof.
  intros He. unfold shl_align. destruct (e' - e) as [|n|n] eqn:En; [|lia|]; cbn [fst].
  - replace (e - e') with 0 by lia. lia.
  - replace (e - e') with (Zpos n) by lia. clear En He.
    induction n as [|n IH] using Pos.peano_ind; [rewrite Z.pow_1_r; simpl; lia|].
    rewrite Pos.iter_succ, (Pos2Z.inj_xO (Pos.iter _ _ _)), IH, Pos2Z.inj_succ, Z.pow_succ_r by lia. lia.
Qed.

Lemma shl_align_snd p e e' : (shl_align p e e').2 = Z.min e e'.
Proof. unfold shl_align. destruct (e' - e) eqn:En; simpl; lia. Qed.

(** Adding what is not negative does not make a positive value smaller. *)
Lemma add_at_least p ep y :
  canonical_mantissa prec emax p ep = true -> nonneg y = true -> at_least p ep (add (S754_finite false p ep) y).
Proof.
  intros Hc Hy. destruct y as [[]|[]| |[] m e]; simpl in Hy; try done; [right; lia|].
  unfold add, SFadd. cbn [cond_Zopp]. rewrite !shl_align_fst by lia. set (ez := Z.min ep e).
  set (M := _ + _). assert (HM : Zpos p * 2 ^ (ep - ez) <= M /\ 0 < M).
  { assert (0 < 2 ^ (ep - ez)) by (apply Z.pow_pos_nonneg; lia).
    assert (0 < 2 ^ (e - ez)) by (apply Z.pow_pos_nonneg; lia). unfold M. lia. }
  clearbody M. destruct HM as [HM HM0]. destruct M as [|M|M]; [lia| |lia].
  unfold binary_normalize, binary_round. set (f := fexp _ _ _).
  pose proof (shl_align_snd M ez f) as E2.
  assert (E1 : Zpos (shl_align M ez f).1 = Zpos M * 2 ^ (ez - Z.min ez f)).
  { destruct (Z.le_gt_cases f ez) as [Hf|Hf]; [rewrite shl_align_fst by done; do 2 f_equal; lia|].
    unfold shl_align. destruct (f - ez) eqn:En; [..|lia]; cbn [fst]; rewrite Z.min_l, Z.sub_diag by lia; lia. }
  destruct (shl_align M ez f) as [M' e']. cbn [fst snd] in *. subst e'.
  apply round_aux_at_least; [done|lia|]. rewrite E1.
  replace (ep - Z.min ez f) with ((ep - ez) + (ez - Z.min ez f)) by lia. rewrite Z.pow_add_r by lia.
  assert (0 < 2 ^ (ez - Z.min ez f)) by (apply Z.pow_pos_nonneg; lia). nia.
Qed.

(** A value at least [x] that is not above [x] is [x]. *)
Lemma at_least_eq p ep x :
  at_least p ep x -> ltb (S754_finite false p ep) x = false -> x = S754_finite false p ep.
Proof.
  destruct x as [[]|[]| |[] m e]; simpl; try done. unfold ltb, SFltb. simpl.
  intros [He|[<- Hm]]; [by rewrite (proj2 (Z.compare_lt_iff _ _)) by done|].
  rewrite Z.compare_refl. change (Pos.compare_cont Eq p m) with (p ?= m)%positive.
  destruct (Pos.compare_spec p m) as [->| |]; [done|done|lia].
Qed.

(** A bucket at its cap stays there: [(x + y).min(x)] is [x]. *)
Lemma fmin_add p ep y :
  canonical_mantissa prec emax p ep = true -> nonneg y = true ->
  fmin (add (S754_finite false p ep) y) (S754_finite false p ep) = S754_finite false p ep.
Proof.
  intros Hc Hy. pose proof (add_at_least p ep y Hc Hy) as Ha. unfold fmin.
  destruct (is_nan (add _ y)); [done|]. cbn [is_nan].
  destruct (ltb _ (add _ _)) eqn:El; [done|]. by apply at_least_eq.
Qed.

(** [fmin x r >= r] only when it is [r]. *)
Lemma fmin_full p ep x :
  leb (S754_finite false p ep) (fmin x (S754_finite false p ep)) = true ->
  fmin x (S754_finite false p ep) = S754_finite false p ep.
Proof.
  unfold fmin. destruct (is_nan x); [done|]. cbn [is_nan]. destruct (ltb _ x) eqn:El; [done|].
  unfold leb, SFleb, ltb, SFltb in *. destruct x as [[]|[]| |[] m e]; simpl in *; try done.
  destruct (Z.compare_spec ep e) as [->| |]; try done.
  change (Pos.compare_cont Eq p m) with (p ?= m)%positive in *.
  by destruct (Pos.compare_spec p m) as [->| |].
Qed.

(** A normal mantissa needs no rounding. *)
Lemma round_aux_normal m e :
  Z.log2 (Zpos m) = prec - 1 -> emin prec emax <= e <= emax - prec ->
  binary_round_aux prec emax false (Zpos m) e loc_Exact = S754_finite false m e.
Proof.
  intros Hm He. assert (Hs : shr_fexp prec emax (Zpos m) e loc_Exact = (Build_shr_record (Zpos m) false false, e)).
  { unfold shr_fexp. rewrite Zdigits2_log2, Hm by lia.
    replace (fexp prec emax (prec - 1 + 1 + e) - e) with 0 by (unfold fexp in *; lia). done. }
  unfold binary_round_aux. rewrite Hs. cbn [shr_m loc_of_shr_record round_nearest_even]. rewrite Hs. cbn [shr_m].
  by rewrite (proj2 (Z.leb_le _ _)) by lia.
Qed.

(** A positive integer below [2^53] is a canonical positive value. *)
Lemma of_Z_canonical n :
  1 <= n < 2 ^ prec -> exists p e, of_Z n = S754_finite false p e /\ canonical_mantissa prec emax p e = true.
Proof.
  intros Hn. destruct n as [|n|n]; [lia| |lia]. unfold of_Z, binary_normalize, binary_round.
  assert (Hl : 0 <= Z.log2 (Zpos n) < prec).
  { split; [apply Z.log2_nonneg|]. apply Z.log2_lt_pow2; lia. }
  rewrite digits2_log2. set (f := fexp _ _ _).
  assert (Hf : f = Z.log2 (Zpos n) + 1 - prec) by (unfold f, fexp, emin, prec, emax in *; lia).
  pose proof (shl_align_fst n 0 f ltac:(lia)) as E1. pose proof (shl_align_snd n 0 f) as E2.
  destruct (shl_align n 0 f) as [p e]. cbn [fst snd] in *. rewrite Z.min_r in E2 by lia. subst e.
  assert (Hp : Z.log2 (Zpos p) = prec - 1) by (rewrite E1, Z.log2_mul_pow2 by lia; lia).
  exists p, f. split; [apply round_aux_normal; [done|unfold emin, prec, emax in *; lia]|].
  unfold canonical_mantissa. rewrite digits2_log2, Hp. apply Z.eqb_eq. unfold fexp, emin, prec, emax in *. lia.
Qed.

Lemma add_nonneg x y : nonneg x = true -> nonneg y = true -> nonneg (add x y) = true.
Proof.
  destruct x as [[]|[]| |[] m e], y as [[]|[]| |[] m' e']; simpl; auto; try done. intros _ _.
  unfold binary_round. destruct (shl_align (_ + _) _ _) as [M' e'']. apply (round_aux_nonneg (Zpos M')). lia.
Qed.

(** Not below zero, or not a number: closed under sums, products and quotients. *)
Definition not_below (x : f64) : Prop := nonneg x = true \/ x = S754_nan.

Lemma not_below_ops x y : not_below x -> not_below y ->
  not_below (add x y) /\ not_below (mul x y) /\ not_below (div x y).
Proof.
  intros [Hx| ->] [Hy| ->]; split_and!; try (by right); try (by destruct x as [[]|[]| |[] ? ?]; right).
  - left. by apply add_nonneg.
  - by apply mul_nonneg.
  - by apply div_nonneg.
Qed.

Lemma secs_not_below ns : 0 <= ns -> not_below (secs_f64 ns).
Proof.
  intros Hns. unfold secs_f64. apply not_below_ops; [left; apply of_Z_nonneg; apply Z.div_pos; lia|].
  apply not_below_ops; left; apply of_Z_nonneg; [apply Z.mod_pos_bound; lia|lia].
Qed.

End F.
