(* ===== verification/Pps.v ===== *)
(** Rates and fees: [pool-core/src/pps.rs], [pool-core/src/cache.rs] and the
    rate of [pool-core/src/types.rs]. *)
From S2P Require Import Prelude Floats.
Import F.

Module Pps.

Record PpsInputs : Type := {
  block_reward_atomic : f64;
  network_difficulty : f64;
  upstream_fee : f64;
  pool_fee : f64;
  risk_buffer : f64;
  operational_cost_atomic_per_second : f64;
  pool_hashrate : f64;
}.

Record PpsBreakdown : Type := {
  raw_per_diff : f64;
  after_margin : f64;
  op_cost_term : f64;
  rate : f64;
  fee_per_diff : f64;
}.

Definition compute (i : PpsInputs) : PpsBreakdown :=
  let net := fmax (network_difficulty i) one in
  let hash := fmax (pool_hashrate i) one in
  let raw := div (mul (block_reward_atomic i) (sub one (upstream_fee i))) net in
  let after := mul raw (sub (sub one (pool_fee i)) (risk_buffer i)) in
  let op := div (operational_cost_atomic_per_second i) hash in
  {| raw_per_diff := raw; after_margin := after; op_cost_term := op;
     rate := fmax (sub after op) zero;
     fee_per_diff := mul raw (fmax (pool_fee i) zero) |}.

(** [PpsRate]: the rate with its date. *)
Record PpsRate : Type := { atomic_xmr_per_diff : f64; effective_from : Z }.

Definition PpsRate_credit (r : PpsRate) (diff : Z) : Z :=
  let raw := mul (atomic_xmr_per_diff r) (of_Z diff) in
  if ltb raw zero then 0 else as_u128 raw.

(** The caches: a double behind an atomic. *)
Record RateCache : Type := { bits : f64; fee_bits : f64; set_at_unix : Z }.

Definition RateCache_new : RateCache := {| bits := zero; fee_bits := zero; set_at_unix := 0 |}.
Definition RateCache_get (c : RateCache) : f64 := bits c.
Definition fee_rate (c : RateCache) : f64 := fee_bits c.
Definition set_fee_rate (f : f64) (c : RateCache) : RateCache :=
  {| bits := bits c; fee_bits := f; set_at_unix := set_at_unix c |}.
Definition RateCache_set (r : f64) (now : Z) (c : RateCache) : RateCache :=
  {| bits := r; fee_bits := fee_bits c; set_at_unix := now |}.

Record FeeCache : Type := { fee : f64 }.
Definition FeeCache_get (c : FeeCache) : f64 := fee c.
Definition FeeCache_set (f : f64) (_ : FeeCache) : FeeCache := {| fee := f |}.

Definition max_fee : f64 := lit 99 100.

Definition effective_pool_fee (reservoir_wei critical_wei healthy_wei : Z) (fee_min fee_max : f64) : f64 :=
  let '(lo, hi) := if leb fee_min fee_max then (fee_min, fee_max) else (fee_max, fee_min) in
  if healthy_wei <=? critical_wei then fclamp zero max_fee hi
  else
    let p :=
      if healthy_wei <=? reservoir_wei then zero
      else if reservoir_wei <=? critical_wei then one
      else div (of_Z (healthy_wei - reservoir_wei)) (of_Z (healthy_wei - critical_wei)) in
    fclamp zero max_fee (add lo (mul p (sub hi lo))).

(** ** Properties *)

(** The published rate is a number and never negative, whatever the inputs;
    with a reward and an upstream share that are not negative, the fee per unit
    of difficulty is not negative either. *)
Theorem compute_not_negative i :
  is_nan (rate (compute i)) = false /\ ltb (rate (compute i)) zero = false
  /\ (nonneg (block_reward_atomic i) = true -> nonneg (sub one (upstream_fee i)) = true ->
      ltb (fee_per_diff (compute i)) zero = false).
Proof.
  simpl. destruct (fmax_zero (sub (mul (div (mul (block_reward_atomic i) (sub one (upstream_fee i)))
    (fmax (network_difficulty i) one)) (sub (sub one (pool_fee i)) (risk_buffer i)))
    (div (operational_cost_atomic_per_second i) (fmax (pool_hashrate i) one)))) as [H1 H2].
  split_and!; [done..|]. intros Hr Hu.
  assert (Hnet : nonneg (fmax (network_difficulty i) one) = true).
  { unfold fmax. destruct (network_difficulty i) as [[]|[]| |[] m e]; try done; simpl; by case_ifs. }
  destruct (fmax_zero (pool_fee i)) as [Hf Hfn].
  set (n := fmax (network_difficulty i) one) in *. set (f := fmax (pool_fee i) zero) in *.
  assert (Hf' : nonneg f = true \/ f = S754_zero true) by (destruct f as [[]|[]| |[] ??]; auto; done).
  destruct (mul_nonneg _ _ Hr Hu) as [Hm|Hm].
  - destruct (div_nonneg _ _ Hm Hnet) as [Hd|Hd]; [|by rewrite Hd].
    destruct Hf' as [Hf'|Hf']; [by apply mul_not_neg|]. rewrite Hf'.
    by destruct (div _ n) as [[]|[]| |[] ??].
  - by rewrite Hm.
Qed.

(** The adaptive fee always lies between 0 and 0.99, for every reservoir,
    every window (also a degenerate one) and every pair of configured fees. *)
Theorem effective_pool_fee_range reservoir critical healthy fee_min fee_max :
  let f := effective_pool_fee reservoir critical healthy fee_min fee_max in
  ltb f zero = false /\ ltb max_fee f = false.
Proof.
  unfold effective_pool_fee. destruct (if leb fee_min fee_max then _ else _) as [lo hi].
  case_ifs; apply fclamp_range; by vm_compute.
Qed.

(** A share's credit is an unsigned 128-bit amount, and a negative or
    undefined rate credits nothing. *)
Theorem credit_range r diff :
  is_u128 (PpsRate_credit r diff)
  /\ (nonneg (atomic_xmr_per_diff r) = false -> 0 < diff -> PpsRate_credit r diff = 0).
Proof.
  unfold PpsRate_credit. split.
  - case_ifs; [by split | apply as_u128_range].
  - intros Hn Hd. pose proof (of_Z_nonneg diff ltac:(lia)) as Ho.
    destruct (atomic_xmr_per_diff r) as [[]|[]| |[] m e] eqn:E; try done;
      destruct (of_Z diff) as [[]|[]| |[] m' e'] eqn:E'; try done.
    cbn [mul SFmul]. pose proof (round_aux_sign true (Zpos (m * m')) (e + e') loc_Exact ltac:(lia)) as Hs.
    unfold mul, SFmul. simpl xorb.
    destruct (binary_round_aux _ _ _ _ _ _) as [[]|[]| |[] m'' e'']; try done.
Qed.

End Pps.
