(* ===== verification/Metrics.v ===== *)
(** In-process metrics: [pool-core/src/metrics.rs].

    Times are milliseconds.  The sliding hashrate window is a ring of 24 buckets
    of 5 seconds; the theorems relate it to the whole history of shares.  The
    counters are the atomics of the source, with their wrap-around. *)
From S2P Require Import Prelude Floats.
Import F.

Module Metrics.

(** ** The sliding window *)

Definition HASHRATE_WINDOW : Z := 120000.
Definition BUCKET : Z := 5000.
Definition NUM_BUCKETS : nat := 24.

Record WindowedHashrate : Type := { buckets : list (Z * Z); head : nat }.

Definition WindowedHashrate_new (now : Z) : WindowedHashrate :=
  {| buckets := replicate NUM_BUCKETS (now - HASHRATE_WINDOW, 0); head := 0 |}.

(** [duration_since] saturates at zero. *)
Definition duration_since (now earlier : Z) : Z := Z.max 0 (now - earlier).

Definition observe (work now : Z) (w : WindowedHashrate) : WindowedHashrate :=
  let '(head_t, head_w) := default (0, 0) (buckets w !! head w) in
  if duration_since now head_t <? BUCKET then
    {| buckets := <[head w := (head_t, wrap_u64 (head_w + work))]> (buckets w); head := head w |}
  else
    let h := ((head w + 1) mod NUM_BUCKETS)%nat in
    {| buckets := <[h := (now, work)]> (buckets w); head := h |}.

Definition sum_work (bs : list (Z * Z)) : Z := foldr (fun b acc => b.2 + acc) 0 bs.

Definition window_total (now : Z) (w : WindowedHashrate) : Z :=
  wrap_u64 (sum_work (filter (fun b => now - HASHRATE_WINDOW <= b.1) (buckets w))).

(** [now.checked_sub] fails below the clock's origin. *)
Definition read (now : Z) (w : WindowedHashrate) : f64 :=
  if now <? HASHRATE_WINDOW then zero
  else div (of_Z (window_total now w)) (of_Z (HASHRATE_WINDOW / 1000)).

(** ** Counters *)

Record MinerStats : Type := { work : Z; shares : Z; last_share_ms : Z }.
Definition MinerStats_default : MinerStats := {| work := 0; shares := 0; last_share_ms := 0 |}.

Record t : Type := {
  shards : gmap Z (gmap Address MinerStats);
  hashrate_window : WindowedHashrate;
  live_sessions : Z;
  total_work : Z;
  upstream_connected : bool;
  upstream_last_change_unix_ms : Z;
  upstream_consecutive_failures : Z;
  upstream_submit_rejects_total : Z;
  upstream_submit_accepts_total : Z;
}.

Definition new (now : Z) : t :=
  {| shards := ∅; hashrate_window := WindowedHashrate_new now; live_sessions := 0; total_work := 0;
     upstream_connected := false; upstream_last_change_unix_ms := 0;
     upstream_consecutive_failures := 0; upstream_submit_rejects_total := 0;
     upstream_submit_accepts_total := 0 |}.

(** The upstream part of the record, replaced as a whole. *)
Definition with_upstream (m : t) (c : bool) (ms fails rej acc : Z) : t :=
  {| shards := shards m; hashrate_window := hashrate_window m; live_sessions := live_sessions m;
     total_work := total_work m; upstream_connected := c; upstream_last_change_unix_ms := ms;
     upstream_consecutive_failures := fails; upstream_submit_rejects_total := rej;
     upstream_submit_accepts_total := acc |}.

Definition mark_upstream_connected (now_ms : Z) (m : t) : t :=
  with_upstream m true (if upstream_connected m then upstream_last_change_unix_ms m else now_ms)
    (upstream_consecutive_failures m) (upstream_submit_rejects_total m) (upstream_submit_accepts_total m).

Definition mark_upstream_disconnected (now_ms : Z) (m : t) : bool * t :=
  (upstream_connected m,
   with_upstream m false (if upstream_connected m then now_ms else upstream_last_change_unix_ms m)
     (upstream_consecutive_failures m) (upstream_submit_rejects_total m) (upstream_submit_accepts_total m)).

Definition record_upstream_failure (m : t) : Z * t :=
  let n := upstream_consecutive_failures m in
  (u32_saturating_add n 1,
   with_upstream m (upstream_connected m) (upstream_last_change_unix_ms m) (wrap_u32 (n + 1))
     (upstream_submit_rejects_total m) (upstream_submit_accepts_total m)).

Definition record_upstream_submit_reject (m : t) : t :=
  with_upstream m (upstream_connected m) (upstream_last_change_unix_ms m)
    (upstream_consecutive_failures m) (wrap_u64 (upstream_submit_rejects_total m + 1))
    (upstream_submit_accepts_total m).

Definition record_upstream_submit_accept (m : t) : t :=
  with_upstream m (upstream_connected m) (upstream_last_change_unix_ms m)
    (upstream_consecutive_failures m) (upstream_submit_rejects_total m)
    (wrap_u64 (upstream_submit_accepts_total m + 1)).

(** The shard of an address: the low four bits of its first byte. *)
Definition shard_of (a : Address) : Z := Z.land (a / 2 ^ 152) 15.

Definition shard (a : Address) (m : t) : gmap Address MinerStats := default ∅ (shards m !! shard_of a).

(** [entry]: the stats of a miner, created when absent. *)
Definition entry (a : Address) (m : t) : MinerStats := default MinerStats_default (shard a m !! a).

Definition record_share (miner : Address) (difficulty now now_ms : Z) (m : t) : t :=
  let s := entry miner m in
  let s' := {| work := wrap_u64 (work s + difficulty); shares := wrap_u64 (shares s + 1);
               last_share_ms := now_ms |} in
  {| shards := <[shard_of miner := <[miner := s']> (shard miner m)]> (shards m);
     hashrate_window := observe difficulty now (hashrate_window m);
     live_sessions := live_sessions m; total_work := wrap_u64 (total_work m + difficulty);
     upstream_connected := upstream_connected m;
     upstream_last_change_unix_ms := upstream_last_change_unix_ms m;
     upstream_consecutive_failures := upstream_consecutive_failures m;
     upstream_submit_rejects_total := upstream_submit_rejects_total m;
     upstream_submit_accepts_total := upstream_submit_accepts_total m |}.

Definition miner_snapshot (a : Address) (m : t) : option MinerStats := shard a m !! a.

Definition hashrate (now : Z) (m : t) : f64 := read now (hashrate_window m).

Definition with_sessions (m : t) (n : Z) : t :=
  {| shards := shards m; hashrate_window := hashrate_window m; live_sessions := n;
     total_work := total_work m; upstream_connected := upstream_connected m;
     upstream_last_change_unix_ms := upstream_last_change_unix_ms m;
     upstream_consecutive_failures := upstream_consecutive_failures m;
     upstream_submit_rejects_total := upstream_submit_rejects_total m;
     upstream_submit_accepts_total := upstream_submit_accepts_total m |}.

Definition session_opened (m : t) : t := with_sessions m (wrap_i64 (live_sessions m + 1)).
Definition session_closed (m : t) : t := with_sessions m (wrap_i64 (live_sessions m - 1)).
Definition active_miners (m : t) : Z := Z.max (live_sessions m) 0.

(** ** The window against the history

    [chron]: the ring in chronological order, oldest bucket first. *)

Definition chron (w : WindowedHashrate) : list (Z * Z) :=
  drop (S (head w)) (buckets w) ++ take (S (head w)) (buckets w).

(** All buckets ever opened, the newest first, each with the work it received. *)
Fixpoint history (now0 : Z) (obs : list (Z * Z)) : list (Z * Z) :=
  match obs with
  | [] => replicate NUM_BUCKETS (now0 - HASHRATE_WINDOW, 0)
  | (work, now) :: obs' =>
      match history now0 obs' with
      | (t0, w0) :: h => if duration_since now t0 <? BUCKET then (t0, w0 + work) :: h
                         else (now, work) :: (t0, w0) :: h
      | [] => [(now, work)]
      end
  end.

(** The ring after the same observations, the latest first. *)
Definition observed (now0 : Z) (obs : list (Z * Z)) : WindowedHashrate :=
  foldr (fun o w => observe o.1 o.2 w) (WindowedHashrate_new now0) obs.

(** Observations in order of time, of [u64] work whose sum is a [u64]. *)
Fixpoint timely (now0 : Z) (obs : list (Z * Z)) : Prop :=
  match obs with
  | [] => True
  | (work, now) :: obs' =>
      0 <= work /\ timely now0 obs'
      /\ match obs' with [] => now0 <= now | (_, now') :: _ => now' <= now end
  end.

Definition total_observed (obs : list (Z * Z)) : Z := foldr (fun o acc => o.1 + acc) 0 obs.

(** Work in the buckets opened at or after, and strictly after, a time. *)
Definition work_since (c : Z) (h : list (Z * Z)) : Z := sum_work (filter (fun b => c <= b.1) h).
Definition work_after (c : Z) (h : list (Z * Z)) : Z := sum_work (filter (fun b => c < b.1) h).

(** The work of the shares observed at or after a time. *)
Definition shares_since (c : Z) (obs : list (Z * Z)) : Z :=
  foldr (fun o acc => (if c <=? o.2 then o.1 else 0) + acc) 0 obs.

Definition wf (w : WindowedHashrate) : Prop :=
  length (buckets w) = NUM_BUCKETS /\ (head w < NUM_BUCKETS)%nat.

(** ** Lemmas *)

(** The newest bucket of the ring is the head. *)
Lemma chron_head w x :
  buckets w !! head w = Some x ->
  chron w = (drop (S (head w)) (buckets w) ++ take (head w) (buckets w)) ++ [x].
Proof. intros Hx. unfold chron. by rewrite (take_S_r _ _ _ Hx), app_assoc. Qed.

(** Adding to the head bucket rewrites the newest entry. *)
Lemma chron_add w x y :
  buckets w !! head w = Some x ->
  reverse (chron {| buckets := <[head w := y]> (buckets w); head := head w |})
  = y :: tail (reverse (chron w)).
Proof.
  intros Hx. rewrite (chron_head w x Hx), reverse_snoc.
  rewrite (chron_head _ y); simpl.
  - rewrite drop_insert_lt, take_insert_ge, reverse_snoc by lia. done.
  - apply list_lookup_insert_eq. by eapply lookup_lt_Some.
Qed.

(** Opening a bucket drops the oldest entry. *)
Lemma chron_roll w y :
  wf w ->
  reverse (chron {| buckets := <[((head w + 1) mod NUM_BUCKETS)%nat := y]> (buckets w);
                    head := ((head w + 1) mod NUM_BUCKETS)%nat |})
  = y :: take (NUM_BUCKETS - 1) (reverse (chron w)).
Proof.
  intros [Hl Hh]. set (k := ((head w + 1) mod NUM_BUCKETS)%nat).
  assert (Hk : (k < NUM_BUCKETS)%nat) by (apply Nat.mod_upper_bound; done).
  destruct (lookup_lt_is_Some_2 (buckets w) k) as [x Hx]; [lia|].
  rewrite (chron_head _ y); simpl; [|apply list_lookup_insert_eq; lia].
  rewrite drop_insert_lt, take_insert_ge, reverse_snoc by lia. f_equal.
  assert (Hc : chron w = x :: drop (S k) (buckets w) ++ take k (buckets w)).
  { unfold chron. destruct (decide (head w = NUM_BUCKETS - 1)%nat) as [E|E].
    - assert (k = 0%nat) as Hk0 by (subst k; rewrite E; done). rewrite Hk0 in *. rewrite E.
      rewrite drop_ge, take_ge by (rewrite Hl; unfold NUM_BUCKETS; lia). simpl.
      rewrite <- (take_drop_middle _ _ _ Hx) at 1. by rewrite app_nil_r.
    - assert (k = S (head w)) as Hk1.
      { subst k. rewrite Nat.mod_small by (unfold NUM_BUCKETS in *; lia). lia. }
      rewrite <- Hk1. by rewrite (drop_S _ _ _ Hx). }
  rewrite Hc, reverse_cons. rewrite take_app_length'; [done|].
  rewrite length_reverse, length_app, length_drop, length_take. unfold NUM_BUCKETS in *. lia.
Qed.

Lemma wf_observe work now w : wf w -> wf (observe work now w).
Proof.
  intros [Hl Hh]. unfold observe. destruct (default _ _) as [t0 w0].
  case_ifs; split; cbn [buckets head]; rewrite ?length_insert; try done. by apply Nat.mod_upper_bound.
Qed.

Lemma wf_observed now0 obs : wf (observed now0 obs).
Proof.
  induction obs as [|o obs IH]; [split; [done | simpl; unfold NUM_BUCKETS; lia] | by apply wf_observe].
Qed.

Lemma sum_work_perm l k : l ≡ₚ k -> sum_work l = sum_work k.
Proof. induction 1; simpl; lia. Qed.

Lemma sum_work_nonneg l : Forall (fun b => 0 <= b.2) l -> 0 <= sum_work l.
Proof. induction 1; simpl; lia. Qed.

Lemma sum_work_filter_nonneg (P : Z * Z -> Prop) `{!forall b, Decision (P b)} l :
  Forall (fun b => 0 <= b.2) l -> 0 <= sum_work (filter P l).
Proof.
  intros Hl. apply sum_work_nonneg. rewrite Forall_forall in Hl |- *.
  intros b [_ Hb]%list_elem_of_filter. by apply Hl.
Qed.

Lemma chron_perm w : reverse (chron w) ≡ₚ buckets w.
Proof.
  rewrite reverse_Permutation. unfold chron. rewrite Permutation_app_comm. by rewrite take_drop.
Qed.

(** ** The history *)

(** Head of the history: a bucket opened no later than the last share. *)
Definition latest (now0 : Z) (obs : list (Z * Z)) : Z :=
  match obs with [] => now0 | (_, now) :: _ => now end.

(** Starts in the history: the epoch of the ring, or 5 seconds apart. *)
Definition spaced (now0 : Z) (h : list (Z * Z)) : Prop :=
  exists t0 w0 h', h = (t0, w0) :: h'
    /\ forall i b, h !! i = Some b -> b.1 <= now0 - HASHRATE_WINDOW \/ b.1 <= t0 - BUCKET * Z.of_nat i.

Lemma history_spaced now0 obs :
  timely now0 obs ->
  spaced now0 (history now0 obs)
  /\ (exists t0 w0 h', history now0 obs = (t0, w0) :: h' /\ t0 <= latest now0 obs)
  /\ Forall (fun b => 0 <= b.2) (history now0 obs)
  /\ (NUM_BUCKETS <= length (history now0 obs))%nat.
Proof.
  induction obs as [|[work now] obs IH]; cbn [history latest timely].
  - intros _. split_and!.
    + do 3 eexists. split; [reflexivity|]. intros i b Hb. left.
      apply lookup_replicate in Hb as [-> _]. done.
    + do 3 eexists. split; [reflexivity|]. unfold HASHRATE_WINDOW. lia.
    + by apply Forall_replicate.
    + done.
  - intros (Hw & Ht & Hlast). destruct (IH Ht) as ((t0 & w0 & h & Eh & Hsp) & (t1 & w1 & h1 & E1 & Hle) & Hf & Hl).
    rewrite Eh in *. simplify_eq. inversion Hf as [|? ? Hw0 Hf']; subst. simpl in *.
    assert (Hnow : latest now0 obs <= now) by (destruct obs as [|[]]; done).
    destruct (duration_since now t1 <? BUCKET) eqn:Ed; bools; unfold duration_since, BUCKET in *.
    + split_and!; simpl; try done.
      * do 3 eexists. split; [done|]. intros [|i] b Hb; simpl in *; [simplify_eq; right; simpl; lia|].
        by apply (Hsp (S i)).
      * do 3 eexists. split; [done|]. lia.
      * constructor; [simpl; lia | done].
    + split_and!; simpl; try lia.
      * do 3 eexists. split; [done|]. intros [|i] b Hb; simpl in Hb; [simplify_eq; right; simpl; lia|].
        unfold BUCKET. rewrite Nat2Z.inj_succ. destruct (Hsp i b Hb); [by left | right; lia].
      * do 3 eexists. split; [done | simpl; lia].
      * constructor; [done | by constructor].
Qed.

Lemma total_history now0 obs : sum_work (history now0 obs) = total_observed obs.
Proof.
  induction obs as [|[work now] obs IH]; [done|]. cbn [history]. unfold total_observed in *.
  destruct (history now0 obs) as [|[t0 w0] h]; simpl in *; [lia|]. case_ifs; simpl; lia.
Qed.

Lemma sum_work_app l k : sum_work (l ++ k) = sum_work l + sum_work k.
Proof. induction l; simpl; lia. Qed.

(** The ring holds the 24 newest buckets of the history. *)
Lemma ring_history now0 obs :
  timely now0 obs -> total_observed obs <= u64_max ->
  reverse (chron (observed now0 obs)) = take NUM_BUCKETS (history now0 obs).
Proof.
  induction obs as [|[work now] obs IH]; [done|]. intros Hti Htot.
  pose proof Hti as (Hw & Ht & _). simpl in Htot.
  destruct (history_spaced now0 obs Ht) as (_ & (t0 & w0 & h & Eh & _) & Hf & Hl).
  pose proof (total_history now0 obs) as Hsum.
  assert (IH' : reverse (chron (observed now0 obs)) = take NUM_BUCKETS (history now0 obs)) by (apply IH; [done | lia]).
  pose proof (wf_observed now0 obs) as Hwf. set (w := observed now0 obs) in *.
  simpl observed. fold w. simpl history.
  rewrite Eh in *. inversion Hf as [|? ? Hw0 Hf']; subst. simpl in Hw0, Hsum.
  destruct (lookup_lt_is_Some_2 (buckets w) (head w)) as [x Hx]; [destruct Hwf; lia|].
  assert (x = (t0, w0)) as ->.
  { rewrite (chron_head w x Hx), reverse_snoc in IH'. by simplify_eq/=. }
  unfold observe. rewrite Hx. simpl default. cbv beta iota.
  destruct (duration_since now t0 <? BUCKET) eqn:Ed.
  - rewrite (chron_add w _ _ Hx), IH'. simpl. f_equal. f_equal.
    apply wrap_u64_id. pose proof (sum_work_nonneg _ Hf'). width_lia.
  - rewrite chron_roll, IH', take_take by done. done.
Qed.

Lemma shares_since_cons c o obs :
  shares_since c (o :: obs) = (if c <=? o.2 then o.1 else 0) + shares_since c obs.
Proof. done. Qed.

(** Every share is in a bucket opened within the 5 seconds before it. *)
Lemma shares_history now0 obs c :
  timely now0 obs -> c + BUCKET > now0 - HASHRATE_WINDOW ->
  shares_since (c + BUCKET) obs <= work_after c (history now0 obs)
  /\ work_since c (history now0 obs) <= shares_since c obs.
Proof.
  intros Hti Hc. induction obs as [|[work now] obs IH]; cbn [history].
  - split; [|]; unfold work_after, work_since.
    + apply sum_work_filter_nonneg. by apply Forall_replicate.
    + enough (forall n, sum_work (filter (fun b => c <= b.1) (replicate n (now0 - HASHRATE_WINDOW, 0))) = 0) as ->; [done|].
      induction n; simpl; [done|]. rewrite filter_cons. case_decide; simpl; lia.
  - rewrite !shares_since_cons. pose proof Hti as (Hw & Ht & Hlast). destruct (IH Ht) as [IH1 IH2].
    destruct (history_spaced now0 obs Ht) as (_ & (t0 & w0 & h & Eh & Hle) & _).
    assert (Hnow : latest now0 obs <= now) by (destruct obs as [|[]]; done).
    rewrite Eh in *. unfold work_after, work_since in *. rewrite filter_cons in IH1, IH2.
    destruct (duration_since now t0 <? BUCKET) eqn:Ed; bools; unfold duration_since, BUCKET in *;
      rewrite !filter_cons; cbn [fst snd sum_work foldr] in *;
      repeat case_decide; cbn [fst snd sum_work foldr] in *; fold (sum_work (filter (fun b => c < b.1) h)) in *;
      fold (sum_work (filter (fun b => c <= b.1) h)) in *; case_ifs; width_lia.
Qed.

Lemma timely_latest now0 obs : timely now0 obs -> now0 <= latest now0 obs.
Proof.
  induction obs as [|[work now] obs IH]; simpl; [lia|].
  intros (_ & Ht & Hl). specialize (IH Ht). destruct obs as [|[]]; simpl in *; lia.
Qed.

(** Monotonicity of the filtered sums. *)
Lemma work_after_le_since c h : Forall (fun b => 0 <= b.2) h -> work_after c h <= work_since c h.
Proof.
  unfold work_after, work_since. induction 1 as [|b h Hb _ IH]; [done|].
  rewrite !filter_cons. repeat case_decide; simpl; lia.
Qed.

Lemma work_since_le_total c h : Forall (fun b => 0 <= b.2) h -> work_since c h <= sum_work h.
Proof.
  unfold work_since. induction 1 as [|b h Hb _ IH]; [done|].
  rewrite filter_cons. case_decide; simpl; lia.
Qed.

(** Beyond the 24 newest, no bucket was opened within the window. *)
Lemma old_buckets_out now0 obs now :
  timely now0 obs -> latest now0 obs <= now ->
  work_after (now - HASHRATE_WINDOW) (drop NUM_BUCKETS (history now0 obs)) = 0.
Proof.
  intros Ht Hnow. pose proof (timely_latest _ _ Ht).
  destruct (history_spaced now0 obs Ht) as ((t0 & w0 & h & Eh & Hsp) & (t1 & w1 & h1 & E1 & Hle) & _).
  rewrite Eh in E1. simplify_eq. unfold work_after.
  destruct (filter _ _) as [|b l] eqn:E; [done|]. exfalso.
  assert (Hb : b ∈ b :: l) by left. rewrite <- E in Hb. apply list_elem_of_filter in Hb as [Hc Hb].
  apply list_elem_of_lookup in Hb as [i Hi]. rewrite lookup_drop in Hi.
  destruct (Hsp _ _ Hi); unfold HASHRATE_WINDOW, BUCKET, NUM_BUCKETS in *; lia.
Qed.

(** ** Properties *)

(** The hashrate window counts every share of the last 115 seconds and none
    older than 120 seconds, whatever the times and amounts of work: the total it
    reads lies between the two sums. *)
Lemma window_counts_shares now0 obs now :
  timely now0 obs -> total_observed obs <= u64_max -> latest now0 obs <= now ->
  shares_since (now - HASHRATE_WINDOW + BUCKET) obs
    <= window_total now (observed now0 obs)
    <= shares_since (now - HASHRATE_WINDOW) obs.
Proof.
  intros Ht Htot Hnow. pose proof (timely_latest _ _ Ht).
  destruct (history_spaced now0 obs Ht) as (_ & _ & Hf & _).
  destruct (shares_history now0 obs (now - HASHRATE_WINDOW) Ht) as [H1 H2]; [unfold BUCKET; lia|].
  pose proof (old_buckets_out now0 obs now Ht Hnow) as Hold.
  pose proof (total_history now0 obs) as Hth. set (h := history now0 obs) in *.
  set (c := now - HASHRATE_WINDOW) in *.
  assert (Hw : sum_work (filter (fun b => c <= b.1) (buckets (observed now0 obs)))
               = work_since c (take NUM_BUCKETS h)).
  { unfold work_since, h. rewrite <- ring_history by done.
    apply sum_work_perm. by rewrite chron_perm. }
  rewrite <- (take_drop NUM_BUCKETS h) in H1, H2, Hf, Hth.
  apply Forall_app in Hf as [Hf1 Hf2].
  unfold work_after, work_since in H1, H2, Hold. rewrite filter_app, sum_work_app in H1, H2.
  rewrite sum_work_app in Hth. rewrite Hold in H1.
  pose proof (work_after_le_since c _ Hf1). pose proof (work_since_le_total c _ Hf1).
  pose proof (sum_work_nonneg _ Hf2).
  pose proof (sum_work_filter_nonneg (fun b => c <= b.1) _ Hf2).
  pose proof (sum_work_filter_nonneg (fun b => c <= b.1) _ Hf1).
  unfold window_total. fold c. rewrite Hw. unfold work_after, work_since in *.
  rewrite wrap_u64_id; [lia|]. width_lia.
Qed.

(** Recording a share adds it to its miner and to nobody else: the sharded
    table behaves as one table from miners to statistics, created on first use. *)
Theorem record_share_snapshot miner difficulty now now_ms m a :
  miner_snapshot a (record_share miner difficulty now now_ms m)
  = if decide (a = miner)
    then Some {| work := wrap_u64 (match miner_snapshot miner m with Some s => work s | None => 0 end + difficulty);
                 shares := wrap_u64 (match miner_snapshot miner m with Some s => shares s | None => 0 end + 1);
                 last_share_ms := now_ms |}
    else miner_snapshot a m.
Proof.
  unfold miner_snapshot, record_share, entry. unfold shard at 1. simpl. case_decide; subst.
  - rewrite lookup_insert_eq. simpl. rewrite lookup_insert_eq. by destruct (shard miner m !! miner).
  - destruct (decide (shard_of miner = shard_of a)) as [E|E].
    + rewrite E, lookup_insert_eq. simpl. rewrite lookup_insert_ne by done. unfold shard. by rewrite E.
    + rewrite lookup_insert_ne by done. done.
Qed.

(** The gauge of live sessions is balanced: after any interleaving of
    openings and closings it is their difference, as long as that is an [i64],
    and it is never reported below zero. *)
Theorem active_miners_balanced (evs : list bool) m :
  live_sessions m = 0 -> Z.of_nat (length evs) <= i64_max ->
  active_miners (foldr (fun (o : bool) m => if o then session_opened m else session_closed m) m evs)
  = Z.max 0 (Z.of_nat (length (filter (fun o => o = true) evs))
             - Z.of_nat (length (filter (fun o => o = false) evs))).
Proof.
  intros Hm Hl. unfold active_miners.
  enough (live_sessions (foldr (fun (o : bool) m => if o then session_opened m else session_closed m) m evs)
    = Z.of_nat (length (filter (fun o => o = true) evs)) - Z.of_nat (length (filter (fun o => o = false) evs))
    /\ (length (filter (fun o => o = true) evs) + length (filter (fun o => o = false) evs) = length evs)%nat) by lia.
  induction evs as [|[] evs IH]; simpl in *; [split; [lia | done]|..];
    (destruct IH as [IH1 IH2]; [lia|]); rewrite !filter_cons; simpl;
    rewrite IH1, wrap_i64_id by width_lia; lia.
Qed.

Lemma active_miners_balanced_witness :
  active_miners (foldr (fun (o : bool) m => if o then session_opened m else session_closed m)
    (new 0) [true; false; true; true]) = 2.
Proof. by rewrite (active_miners_balanced [true; false; true; true] (new 0) eq_refl ltac:(by vm_compute)). Defined.

End Metrics.
