(* ===== verification/PpsRate.v ===== *)
(** The rate loop: [pps-rate/src/lib.rs].

    The nodes asked for the difficulty, the random choice among them and the
    clock are parameters; a tick threads the health scores and the two caches. *)
From stdpp Require Import sorting.
From S2P Require Import Prelude Floats Pps Metrics.
Import F Pps.

Module PpsRate.

Definition HEALTH_DECAY : f64 := lit 1 2.
Definition HEALTH_PENALTY : f64 := of_Z 1.
Definition TAIL_BLOCK_REWARD_ATOMIC : Z := 600000000000.

Record NodeSample : Type := { url : string; height : Z; difficulty : Z }.

(** The fields of [Config::pps] the loop reads. *)
Record PpsConfig : Type := {
  monerod_rpc : string;
  monerod_rpc_pool : list string;
  quorum_size : Z;
  sample_size : Z;
  cfg_upstream_fee : f64;
  cfg_risk_buffer : f64;
  operational_cost_atomic_xmr_per_second : Z;
}.

(** ** The quorum *)

(** [by_pair]: how many samples report each [(height, difficulty)]. *)
Definition by_pair (samples : list NodeSample) : gmap (Z * Z) Z :=
  foldl (fun m s => <[(height s, difficulty s) := default 0 (m !! (height s, difficulty s)) + 1]> m)
    ∅ samples.

(** [by_height.entry(h).or_default().push(..)]. *)
Definition push_bucket (g : gmap Z (list (Z * Z * Z))) (b : Z * Z * Z) : gmap Z (list (Z * Z * Z)) :=
  <[b.1.1 := default [] (g !! b.1.1) ++ [b]]> g.

Definition by_height (m : gmap (Z * Z) Z) : gmap Z (list (Z * Z * Z)) :=
  foldl push_bucket ∅ (map_to_list m).

(** Keys in descending order. *)
Definition heights (g : gmap Z (list (Z * Z * Z))) : list Z := merge_sort desc (map_to_list g).*1.

Definition quorum_diffs (quorum : Z) (buckets : list (Z * Z * Z)) : list Z :=
  map (fun b => b.1.2) (filter (fun b => quorum <= b.2) buckets).

Fixpoint scan_heights (g : gmap Z (list (Z * Z * Z))) (quorum : Z) (hs : list Z) : result string Z :=
  match hs with
  | [] => Err "no bucket reached quorum"
  | h :: hs' =>
      match quorum_diffs quorum (default [] (g !! h)) with
      | [d] => Ok d
      | [] => scan_heights g quorum hs'
      | _ => Err "multiple difficulties meet quorum"
      end
  end.

Definition decide_quorum (samples : list NodeSample) (quorum : Z) : result string Z :=
  match samples with
  | [] => Err "no monerod samples"
  | _ => let g := by_height (by_pair samples) in scan_heights g quorum (heights g)
  end.

(** ** The tick *)

Definition effective_pool (single : string) (pool : list string) : list string :=
  if negb (String.eqb single EmptyString) && negb (existsb (String.eqb single) pool)
  then pool ++ [single] else pool.

Section Loop.
Context {W : Type}.
(** One [get_info] request; the weighted choice of [rand], which may refuse its
    weights, and the uniform one; the clocks. *)
Variable fetch_one : string -> W -> result string NodeSample * W.
Variable choose_multiple_weighted : list string -> nat -> (string -> f64) -> W -> option (list string) * W.
Variable choose_multiple : list string -> nat -> W -> list string * W.
Variable now_ms now_unix : W -> Z.

Definition pick_random (urls : list string) (k : nat) (w : W) : list string * W := choose_multiple urls k w.

Definition weight (health : gmap string f64) (u : string) : f64 :=
  div one (add one (default zero (health !! u))).

Definition pick_weighted (urls : list string) (health : gmap string f64) (k : nat) (w : W) : list string * W :=
  match choose_multiple_weighted urls k (weight health) w with
  | (Some picks, w') => (picks, w')
  | (None, w') => pick_random urls k w'
  end.

(** The requests are joined: every URL is paired with its outcome. *)
Fixpoint sample_nodes (urls : list string) (w : W) : list (string * result string NodeSample) * W :=
  match urls with
  | [] => ([], w)
  | u :: urls' =>
      let '(r, w1) := fetch_one u w in
      let '(rs, w2) := sample_nodes urls' w1 in
      ((u, r) :: rs, w2)
  end.

Definition oks (outcomes : list (string * result string NodeSample)) : list NodeSample :=
  omap (fun o => ok o.2) outcomes.

Definition quorum_difficulty (urls : list string) (quorum : Z) (w : W) : result string Z * W :=
  let '(outcomes, w') := sample_nodes urls w in (decide_quorum (oks outcomes) quorum, w').

Definition penalize (outcomes : list (string * result string NodeSample)) (health : gmap string f64)
  : gmap string f64 :=
  foldl (fun h o => match o.2 with
                    | Ok _ => h
                    | Err _ => <[o.1 := add (default zero (h !! o.1)) HEALTH_PENALTY]> h
                    end) health outcomes.

Record tick_state : Type := { health : gmap string f64; rate_cache : RateCache; world : W }.

Definition tick (cfg : PpsConfig) (metrics : Metrics.t) (fee_cache : FeeCache) (s : tick_state)
  : result string f64 * tick_state :=
  let urls := effective_pool (monerod_rpc cfg) (monerod_rpc_pool cfg) in
  match urls with
  | [] => (Err "no monerod RPC configured", s)
  | _ =>
      let quorum := Z.max (quorum_size cfg) 1 in
      let sample := if 0 <? sample_size cfg then sample_size cfg else quorum + 1 in
      let k := Nat.min (Z.to_nat sample) (length urls) in
      let '(picks, w1) := pick_weighted urls (health s) k (world s) in
      let '(outcomes, w2) := sample_nodes picks w1 in
      let health' := penalize outcomes (health s) in
      match decide_quorum (oks outcomes) quorum with
      | Err e => (Err e, {| health := health'; rate_cache := rate_cache s; world := w2 |})
      | Ok d =>
          let bd := compute {|
            block_reward_atomic := of_Z TAIL_BLOCK_REWARD_ATOMIC;
            network_difficulty := of_Z d;
            upstream_fee := cfg_upstream_fee cfg;
            pool_fee := FeeCache_get fee_cache;
            risk_buffer := cfg_risk_buffer cfg;
            operational_cost_atomic_per_second := of_Z (operational_cost_atomic_xmr_per_second cfg);
            pool_hashrate := fmax (Metrics.hashrate (now_ms w2) metrics) one |} in
          (Ok (rate bd),
           {| health := health';
              rate_cache := set_fee_rate (fee_per_diff bd) (RateCache_set (rate bd) (now_unix w2) (rate_cache s));
              world := w2 |})
      end
  end.

(** One round of [run_loop]: the scores decay, then a tick whose error is only
    logged. *)
Definition round (cfg : PpsConfig) (metrics : Metrics.t) (fee_cache : FeeCache) (s : tick_state) : tick_state :=
  let decayed := {| health := (fun v => mul v HEALTH_DECAY) <$> health s;
                    rate_cache := rate_cache s; world := world s |} in
  (tick cfg metrics fee_cache decayed).2.

(** [run_loop] for a number of rounds, with what metrics and the fee are then. *)
Fixpoint run_loop (cfg : PpsConfig) (inputs : list (Metrics.t * FeeCache)) (s : tick_state) : tick_state :=
  match inputs with
  | [] => s
  | (m, f) :: rest => run_loop cfg rest (round cfg m f s)
  end.

End Loop.

(** ** Specification of the quorum *)

(** The samples that report [d] at height [h]. *)
Definition votes (h d : Z) (samples : list NodeSample) : Z :=
  Z.of_nat (length (filter (fun s => height s = h /\ difficulty s = d) samples)).

(** [d] is the only difficulty with a quorum at the highest height that has one. *)
Definition agreed (samples : list NodeSample) (q h d : Z) : Prop :=
  q <= votes h d samples
  /\ (forall d', q <= votes h d' samples -> d' = d)
  /\ (forall h' d', h < h' -> votes h' d' samples < q).

(** ** Lemmas *)


Lemma votes_nonneg h d samples : 0 <= votes h d samples.
Proof. unfold votes. lia. Qed.

Lemma votes_snoc h d samples s :
  votes h d (samples ++ [s]) = votes h d samples + (if decide (height s = h /\ difficulty s = d) then 1 else 0).
Proof.
  unfold votes. rewrite filter_app, length_app. simpl. rewrite filter_cons.
  case_decide; simpl; lia.
Qed.

(** The counting table holds the votes, for the pairs that have any. *)
Lemma by_pair_spec samples h d n :
  by_pair samples !! (h, d) = Some n <-> n = votes h d samples /\ 0 < n.
Proof.
  unfold by_pair. revert h d n. induction samples as [|s samples IH] using rev_ind; intros h d n.
  { unfold votes. simpl. rewrite lookup_empty. split; [done | lia]. }
  rewrite foldl_app. simpl. set (m := foldl _ _ samples) in *. rewrite votes_snoc.
  pose proof (votes_nonneg h d samples).
  destruct (decide (height s = h /\ difficulty s = d)) as [[<- <-]|Hne].
  - rewrite lookup_insert_eq.
    assert (default 0 (m !! (height s, difficulty s)) = votes (height s) (difficulty s) samples) as ->.
    { destruct (m !! _) as [k|] eqn:E; simpl; [by apply IH in E as [? _]|].
      destruct (decide (0 < votes (height s) (difficulty s) samples)) as [Hp|]; [|lia].
      pose proof (proj2 (IH _ _ _) (conj eq_refl Hp)). congruence. }
    split; [intros [= <-]; lia | intros [-> _]; done].
  - rewrite lookup_insert_ne by (intros [= <- <-]; by apply Hne). rewrite IH, Z.add_0_r. done.
Qed.

(** Grouping keeps, under each height, the counted pairs of that height. *)
Lemma push_buckets l g h :
  default [] (foldl push_bucket g l !! h) = default [] (g !! h) ++ filter (fun b => b.1.1 = h) l.
Proof.
  revert g. induction l as [|b l IH]; intros g; simpl; [by rewrite app_nil_r|].
  rewrite IH, filter_cons. unfold push_bucket. case_decide as Hb; subst.
  - rewrite lookup_insert_eq. simpl. by rewrite <- app_assoc.
  - by rewrite lookup_insert_ne.
Qed.

Definition diffs_at (samples : list NodeSample) (q h : Z) : list Z :=
  quorum_diffs q (default [] (by_height (by_pair samples) !! h)).

Lemma elem_of_diffs_at samples q h d :
  1 <= q -> d ∈ diffs_at samples q h <-> q <= votes h d samples.
Proof.
  intros Hq. unfold diffs_at, quorum_diffs, by_height. rewrite push_buckets, lookup_empty. simpl.
  rewrite list_elem_of_fmap. split.
  - intros (b & -> & Hb). rewrite !list_elem_of_filter in Hb. destruct b as [[h' d'] n]. simpl in *.
    destruct Hb as (Hn & -> & Hb%elem_of_map_to_list). apply by_pair_spec in Hb as [-> _]. done.
  - intros Hv. exists (h, d, votes h d samples). split; [done|]. rewrite !list_elem_of_filter.
    split_and!; [done..|]. apply elem_of_map_to_list, by_pair_spec. lia.
Qed.

Lemma NoDup_diffs_at samples q h : NoDup (diffs_at samples q h).
Proof.
  unfold diffs_at, quorum_diffs, by_height. rewrite push_buckets, lookup_empty. simpl.
  apply NoDup_fmap_2_strong; [|by apply NoDup_filter, NoDup_filter, NoDup_map_to_list].
  intros [[h1 d1] n1] [[h2 d2] n2] H1 H2. rewrite !list_elem_of_filter in H1, H2. simpl in *.
  destruct H1 as (_ & -> & H1%elem_of_map_to_list), H2 as (_ & -> & H2%elem_of_map_to_list).
  intros ->. congruence.
Qed.

Lemma diffs_at_single samples q h d :
  1 <= q -> diffs_at samples q h = [d] <->
    q <= votes h d samples /\ forall d', q <= votes h d' samples -> d' = d.
Proof.
  intros Hq. pose proof (fun d => elem_of_diffs_at samples q h d Hq) as He.
  pose proof (NoDup_diffs_at samples q h) as Hnd. split.
  - intros E. rewrite E in He. split; [apply He; set_solver|].
    intros d' Hd'%He. set_solver.
  - intros [H1%He H2]. destruct (diffs_at samples q h) as [|x [|y l]]; [set_solver|..].
    + f_equal. apply H2, He. set_solver.
    + assert (x = d) by (apply H2, He; set_solver). assert (y = d) by (apply H2, He; set_solver).
      subst. apply NoDup_cons in Hnd as [Hn _]. set_solver.
Qed.

(** The scan returns the single quorum difficulty of the first height that has
    any. *)
Lemma scan_ok g q hs d :
  StronglySorted desc hs -> scan_heights g q hs = Ok d ->
  exists h, quorum_diffs q (default [] (g !! h)) = [d] /\ h ∈ hs
    /\ forall h', h' ∈ hs -> h < h' -> quorum_diffs q (default [] (g !! h')) = [].
Proof.
  induction 1 as [|h0 hs Hs IH Hd]; simpl; [done|]. rewrite Forall_forall in Hd.
  destruct (quorum_diffs q (default [] (g !! h0))) as [|x [|y l]] eqn:E; intros Hok.
  - destruct (IH Hok) as (h & Hh & Hin & Hlt). exists h. split_and!; [done | set_solver|].
    intros h' Hh' ?. apply elem_of_cons in Hh' as [->|?]; [done | by apply Hlt].
  - simplify_eq. exists h0. split_and!; [done | set_solver|]. intros h' Hh' Hlt.
    apply elem_of_cons in Hh' as [->|Hin]; [lia|]. specialize (Hd _ Hin). unfold desc in Hd. lia.
  - done.
Qed.

Lemma scan_complete g q hs h d :
  StronglySorted desc hs -> NoDup hs -> h ∈ hs ->
  quorum_diffs q (default [] (g !! h)) = [d] ->
  (forall h', h < h' -> quorum_diffs q (default [] (g !! h')) = []) ->
  scan_heights g q hs = Ok d.
Proof.
  intros Hs. induction Hs as [|h0 hs Hs IH Hd]; intros Hn Hin Hq Hlt; [by apply elem_of_nil in Hin|].
  apply NoDup_cons in Hn as [Hh0 Hn]. rewrite Forall_forall in Hd.
  apply elem_of_cons in Hin as [<-|Hin]; simpl; [by rewrite Hq|].
  specialize (Hd _ Hin). unfold desc in Hd. rewrite Hlt; [by apply IH|].
  assert (h <> h0) by (by intros ->). lia.
Qed.

Lemma heights_sorted g : StronglySorted desc (heights g) /\ NoDup (heights g).
Proof.
  unfold heights. split; [apply (StronglySorted_merge_sort desc)|].
  rewrite merge_sort_Permutation. apply NoDup_fst_map_to_list.
Qed.

Lemma elem_of_heights g h : h ∈ heights g <-> is_Some (g !! h).
Proof.
  unfold heights. rewrite merge_sort_Permutation, list_elem_of_fmap. split.
  - intros ([h' l] & -> & Hl%elem_of_map_to_list). by exists l.
  - intros [l Hl]. exists (h, l). split; [done|]. by apply elem_of_map_to_list.
Qed.

(** A height with a quorum is among the scanned ones. *)
Lemma quorum_height samples q h d :
  1 <= q -> q <= votes h d samples -> h ∈ heights (by_height (by_pair samples)).
Proof.
  intros Hq Hv%(elem_of_diffs_at samples q h d Hq). apply elem_of_heights.
  unfold diffs_at in Hv. destruct (by_height _ !! h); [by eauto|]. by apply elem_of_nil in Hv.
Qed.

Lemma decide_quorum_agreed samples q d :
  1 <= q -> decide_quorum samples q = Ok d <-> exists h, agreed samples q h d.
Proof.
  intros Hq. destruct (heights_sorted (by_height (by_pair samples))) as [Hs Hn].
  assert (Hd : decide_quorum samples q = Ok d <->
    scan_heights (by_height (by_pair samples)) q (heights (by_height (by_pair samples))) = Ok d)
    by (by destruct samples).
  rewrite Hd. split.
  - intros Hok. destruct (scan_ok _ _ _ _ Hs Hok) as (h & Hh & _ & Hlt).
    apply (diffs_at_single samples q h d Hq) in Hh as [H1 H2]. exists h. split_and!; [done..|].
    intros h' d' Hh'. destruct (decide (votes h' d' samples < q)) as [|Hv]; [done|].
    assert (Hin : q <= votes h' d' samples) by lia.
    pose proof (Hlt h' (quorum_height _ _ _ _ Hq Hin) Hh') as Hnil.
    apply (elem_of_diffs_at samples q h' d' Hq) in Hin. unfold diffs_at in Hin.
    rewrite Hnil in Hin. by apply elem_of_nil in Hin.
  - intros (h & H1 & H2 & H3). apply (scan_complete _ _ _ h); try done.
    + by eapply quorum_height.
    + by apply (diffs_at_single samples q h d Hq).
    + intros h' Hh'. fold (diffs_at samples q h').
      destruct (diffs_at samples q h') as [|x l] eqn:E; [done|].
      assert (Hx : x ∈ diffs_at samples q h') by (rewrite E; left).
      apply elem_of_diffs_at in Hx; [|done]. specialize (H3 h' x Hh'). lia.
Qed.

(** ** Properties *)

(** The difficulty quorum.  A difficulty is returned exactly when it is the
    only one that at least [q] samples report at the highest height where any
    difficulty has [q] reports; in every other case (no quorum, or two
    difficulties with a quorum at that height) the decision is an error. *)
Lemma decide_quorum_spec samples q :
  1 <= q ->
  match decide_quorum samples q with
  | Ok d => exists h, agreed samples q h d
  | Err _ => forall h d, ~ agreed samples q h d
  end.
Proof.
  intros Hq. pose proof (fun d => decide_quorum_agreed samples q d Hq) as H.
  destruct (decide_quorum samples q) as [d|e]; [by apply H|].
  intros h d Ha. by pose proof (proj2 (H d) (ex_intro _ h Ha)).
Qed.

Definition node (u : string) (h d : Z) : NodeSample := {| url := u; height := h; difficulty := d |}.

Section TickProperties.
Context {W : Type}.
Variable fetch_one : string -> W -> result string NodeSample * W.
Variable choose_multiple_weighted : list string -> nat -> (string -> f64) -> W -> option (list string) * W.
Variable choose_multiple : list string -> nat -> W -> list string * W.
Variable now_ms now_unix : W -> Z.

(** A tick publishes a rate only on agreement.  When it returns an error the
    published rate, fee and date are those of before; when it returns a rate, the
    rate published is that one, is a number and not negative, and comes from a
    difficulty on which at least the configured quorum of one round of answers
    agree at one height. *)
Lemma tick_commits_on_quorum cfg metrics fee_cache s :
  let '(r, s') := tick fetch_one choose_multiple_weighted choose_multiple now_ms now_unix
                    cfg metrics fee_cache s in
  match r with
  | Err _ => rate_cache s' = rate_cache s
  | Ok v =>
      RateCache_get (rate_cache s') = v /\ is_nan v = false /\ ltb v zero = false
      /\ exists picks w1 outcomes w2 h d,
           sample_nodes fetch_one picks w1 = (outcomes, w2)
           /\ agreed (oks outcomes) (Z.max (quorum_size cfg) 1) h d
           /\ set_at_unix (rate_cache s') = now_unix w2
  end.
Proof.
  unfold tick. destruct (effective_pool _ _) as [|u us]; [done|].
  destruct (pick_weighted _ _ _ _ _ _) as [picks w1].
  destruct (sample_nodes fetch_one picks w1) as [outcomes w2] eqn:Es.
  destruct (decide_quorum _ _) as [d|e] eqn:Eq; [|done].
  apply decide_quorum_agreed in Eq as [h Ha]; [|lia].
  set (i := {| block_reward_atomic := _ |}). simpl.
  assert (Hr : is_nan (rate (compute i)) = false /\ ltb (rate (compute i)) zero = false)
    by (simpl; split; apply fmax_zero).
  destruct Hr as [Hr1 Hr2]. split_and!; [done..|]. exists picks, w1, outcomes, w2, h, d. done.
Qed.

End TickProperties.

End PpsRate.
