(* ===== verification/Vardiff.v ===== *)
(** The difficulty controller of a miner's connection (stratum-proxy/src/vardiff.rs).

    Instants are nanoseconds in [Z], passed as the first argument of the operations
    that read the clock.  [Ord::clamp] panics on bounds out of order, which the
    configured factors can produce: a retarget returns an option. *)
From S2P Require Import Prelude Floats.

Module Vardiff.

Record VardiffConfig : Type := {
  cfg_sample_size : Z;
  cfg_variance_percent : F.f64;
  cfg_max_gain_factor : F.f64;
  cfg_max_drop_factor : F.f64;
}.

Record t : Type := {
  current : Z;
  min : Z;
  max : Z;
  upstream_cap : Z;
  target_secs : F.f64;
  last_submit : option Z;
  intervals : list F.f64;
  sample_size : nat;
  variance : F.f64;
  max_gain_factor : F.f64;
  max_drop_factor : F.f64;
}.

Definition new (now min0 initial max0 target_secs0 : Z) (cfg : VardiffConfig) : t :=
  {| current := Z.max initial min0; min := min0; max := max0; upstream_cap := u64_max;
     target_secs := F.of_Z target_secs0; last_submit := Some now; intervals := [];
     sample_size := Z.to_nat (Z.max (cfg_sample_size cfg) 1);
     variance := F.fclamp F.zero (F.lit 95 100) (F.div (cfg_variance_percent cfg) (F.of_Z 100));
     max_gain_factor := cfg_max_gain_factor cfg; max_drop_factor := cfg_max_drop_factor cfg |}.

(** Field updates. *)
Definition with_current (c : Z) (v : t) : t :=
  {| current := c; min := min v; max := max v; upstream_cap := upstream_cap v; target_secs := target_secs v;
     last_submit := last_submit v; intervals := intervals v; sample_size := sample_size v;
     variance := variance v; max_gain_factor := max_gain_factor v; max_drop_factor := max_drop_factor v |}.
Definition with_cap (c : Z) (v : t) : t :=
  {| current := current v; min := min v; max := max v; upstream_cap := c; target_secs := target_secs v;
     last_submit := last_submit v; intervals := intervals v; sample_size := sample_size v;
     variance := variance v; max_gain_factor := max_gain_factor v; max_drop_factor := max_drop_factor v |}.
Definition with_intervals (l : list F.f64) (v : t) : t :=
  {| current := current v; min := min v; max := max v; upstream_cap := upstream_cap v; target_secs := target_secs v;
     last_submit := last_submit v; intervals := l; sample_size := sample_size v;
     variance := variance v; max_gain_factor := max_gain_factor v; max_drop_factor := max_drop_factor v |}.
Definition with_last (ts : option Z) (v : t) : t :=
  {| current := current v; min := min v; max := max v; upstream_cap := upstream_cap v; target_secs := target_secs v;
     last_submit := ts; intervals := intervals v; sample_size := sample_size v;
     variance := variance v; max_gain_factor := max_gain_factor v; max_drop_factor := max_drop_factor v |}.

Definition effective_max (v : t) : Z := Z.max (Z.min (max v) (upstream_cap v)) (min v).

Definition set_upstream_cap (upstream_diff : Z) (v : t) : t :=
  let v := with_cap upstream_diff v in
  let ceil := effective_max v in
  if current v >? ceil then with_intervals [] (with_current ceil v) else v.

Definition push_interval (dt : F.f64) (v : t) : t :=
  with_intervals (ring_push (sample_size v) (intervals v) (F.fmax dt (F.lit 1 1000))) v.

(** [now - prev] between instants saturates at zero. *)
Definition since (now prev : Z) : F.f64 := F.secs_f64 (Z.max 0 (now - prev)).

Definition on_share (now : Z) (v : t) : t :=
  let v' := match last_submit v with Some prev => push_interval (since now prev) v | None => v end in
  with_last (Some now) v'.

Definition window_avg (extra : option F.f64) (v : t) : option F.f64 :=
  match intervals v, extra with
  | [], None => None
  | _, _ =>
      let sum := foldl F.add F.zero (intervals v) in
      let n := Z.of_nat (length (intervals v)) in
      let '(sum, n) := match extra with Some e => (F.add sum e, n + 1) | None => (sum, n) end in
      Some (F.div sum (F.of_Z n))
  end.

(** [Ord::clamp] on [u64]: [None] is the panic of its assertion. *)
Definition u64_clamp (lo hi z : Z) : option Z := if lo <=? hi then Some (clamp lo hi z) else None.

(** The average the retarget works with; [None] when it leaves the difficulty alone. *)
Definition retarget_avg (gap : F.f64) (idle : bool) (v : t) : option F.f64 :=
  if idle then Some (opt_or gap (window_avg (Some gap) v))
  else if (length (intervals v) <? sample_size v)%nat then None
  else window_avg None v.

Definition retarget_with_gap (now : Z) (gap_secs : F.f64) (v : t) : option (Z * t) :=
  let v := if current v >? effective_max v then with_current (effective_max v) v else v in
  let t_min := F.mul (target_secs v) (F.sub F.one (variance v)) in
  let t_max := F.mul (target_secs v) (F.add F.one (variance v)) in
  let idle := F.ltb t_max gap_secs in
  match retarget_avg gap_secs idle v with
  | None => Some (current v, v)
  | Some avg =>
      if F.leb t_min avg && F.leb avg t_max then Some (current v, v)
      else
        let raw := F.mul (F.div (target_secs v) avg) (F.of_Z (current v)) in
        let hi := F.round_as_u64 (F.mul (F.of_Z (current v)) (max_gain_factor v)) in
        let lo := F.round_as_u64 (F.mul (F.of_Z (current v)) (max_drop_factor v)) in
        match u64_clamp lo hi (F.round_as_u64 raw) with
        | None => None
        | Some x =>
            match u64_clamp (min v) (effective_max v) x with
            | None => None
            | Some new =>
                if new =? current v then Some (current v, v)
                else let v1 := with_intervals [] (with_current new v) in
                     let v2 := if idle then with_last (Some now) v1 else v1 in
                     Some (new, v2)
            end
        end
  end.

(** The clock is read for the gap, and again when an idle gap is used up. *)
Definition retarget (now now' : Z) (v : t) : option (Z * t) :=
  let gap := match last_submit v with Some p => since now p | None => F.zero end in
  retarget_with_gap now' gap v.

(** ** A session's use of the controller *)

(** Accepted shares, and job boundaries with the upstream difficulty of the job:
    each boundary pins the cap and then retargets. *)
Inductive event : Type :=
| Share (now : Z)
| Boundary (now now' upstream_diff : Z).

Definition boundary (now now' upstream_diff : Z) (v : t) : option (Z * t) :=
  retarget now now' (set_upstream_cap upstream_diff v).

Definition event_step (e : event) (v : t) : option t :=
  match e with
  | Share now => Some (on_share now v)
  | Boundary now now' d => snd <$> boundary now now' d v
  end.

Fixpoint run (es : list event) (v : t) : option t :=
  match es with
  | [] => Some v
  | e :: es' => match event_step e v with Some v' => run es' v' | None => None end
  end.

(** The interval a share adds. *)
Definition gap_of (now : Z) (v : t) : list F.f64 :=
  match last_submit v with Some p => [F.fmax (since now p) (F.lit 1 1000)] | None => [] end.

(** The intervals of all the shares since the difficulty last changed. *)
Fixpoint since_change (es : list event) (v : t) (acc : list F.f64) : list F.f64 :=
  match es with
  | [] => acc
  | e :: es' =>
      match event_step e v with
      | None => acc
      | Some v' =>
          since_change es' v'
            (match e with
             | Share now => acc ++ gap_of now v
             | Boundary _ _ _ => if current v' =? current v then acc else []
             end)
      end
  end.

(** What the operations leave alone. *)
Definition same_config (v v' : t) : Prop :=
  min v' = min v /\ max v' = max v /\ sample_size v' = sample_size v.

Lemma u64_clamp_range lo hi z x : u64_clamp lo hi z = Some x -> lo <= x <= hi.
Proof. unfold u64_clamp. case_ifs; intros; simplify_eq. bools. by apply clamp_range. Qed.

Lemma effective_max_ge v : min v <= effective_max v.
Proof. unfold effective_max. lia. Qed.

(** A retarget under an honoured cap: the difficulty stays, or changes within the
    bounds and empties the window. *)
Lemma retarget_spec now gap v r v' :
  min v <= current v <= effective_max v -> retarget_with_gap now gap v = Some (r, v') ->
  r = current v' /\ min v <= r <= effective_max v /\ same_config v v' /\ upstream_cap v' = upstream_cap v /\
  (r = current v /\ intervals v' = intervals v \/ r <> current v /\ intervals v' = []).
Proof.
  intros Hc. unfold retarget_with_gap.
  destruct (Z.gtb_spec (current v) (effective_max v)); [lia|].
  assert (Hsame : forall r v', Some (current v, v) = Some (r, v') ->
    r = current v' /\ min v <= r <= effective_max v /\ same_config v v' /\ upstream_cap v' = upstream_cap v /\
    (r = current v /\ intervals v' = intervals v \/ r <> current v /\ intervals v' = []))
    by (intros; simplify_eq; unfold same_config; auto 10).
  destruct (retarget_avg _ _ _) as [avg|]; [|apply Hsame].
  destruct (F.leb _ avg && F.leb avg _); [apply Hsame|].
  destruct (u64_clamp _ _ _) as [x|]; [|done]. destruct (u64_clamp (min v) _ x) as [z|] eqn:Ez; [|done].
  apply u64_clamp_range in Ez. destruct (Z.eqb_spec z (current v)); [apply Hsame|].
  intros; simplify_eq. unfold same_config. case_ifs; simpl; auto 10.
Qed.

(** The ceiling of a job with the given upstream difficulty. *)
Definition ceiling (d : Z) (v : t) : Z := Z.max (Z.min (max v) d) (min v).

Lemma boundary_spec now now' d v r v' :
  min v <= current v -> boundary now now' d v = Some (r, v') ->
  r = current v' /\ min v <= r <= ceiling d v /\ same_config v v' /\
  (r = current v /\ intervals v' = intervals v \/ r <> current v /\ intervals v' = []).
Proof.
  intros Hc. unfold boundary, retarget, set_upstream_cap.
  change (effective_max (with_cap d v)) with (ceiling d v). simpl current.
  assert (min v <= ceiling d v) by (unfold ceiling; lia).
  destruct (Z.gtb_spec (current v) (ceiling d v)) as [Hgt|Hle]; intros Hr; apply retarget_spec in Hr.
  - change (effective_max _) with (ceiling d v) in Hr. simpl in Hr. unfold same_config in *. simpl in Hr.
    destruct Hr as (? & ? & ? & ? & Hor). repeat split; try tauto. right.
    destruct Hor as [[? ->]|[? ->]]; split; auto; lia.
  - change (effective_max _) with (ceiling d v). simpl. lia.
  - change (effective_max _) with (ceiling d v) in Hr. simpl in Hr. unfold same_config in *. simpl in Hr. tauto.
  - change (effective_max _) with (ceiling d v). simpl. lia.
Qed.

Lemma on_share_spec now v :
  current (on_share now v) = current v /\ same_config v (on_share now v) /\
  intervals (on_share now v) =
    match gap_of now v with [x] => ring_push (sample_size v) (intervals v) x | _ => intervals v end.
Proof. unfold on_share, gap_of, same_config. by destruct (last_submit v). Qed.

(** The window after a run, from any state whose window is the recent past. *)
Lemma run_window es : forall v acc v',
  min v <= current v -> (0 < sample_size v)%nat -> intervals v = lastn (sample_size v) acc -> run es v = Some v' ->
  min v <= current v' /\ same_config v v' /\ intervals v' = lastn (sample_size v) (since_change es v acc).
Proof.
  induction es as [|e es IH]; intros v acc v' Hm Hn Hi Hr; simpl in *.
  { simplify_eq. unfold same_config. auto. }
  destruct (event_step e v) as [v1|] eqn:E1; [|done]. destruct e as [now|now now' d]; simpl in E1.
  - simplify_eq. destruct (on_share_spec now v) as (Hc & (Hmin & Hmax & Hsz) & Hint).
    unfold same_config in *. rewrite <- Hsz, <- Hmin, <- Hmax. rewrite <- Hc, <- Hmin in Hm. apply IH; auto; [by rewrite Hsz|].
    rewrite Hint, Hi, Hsz. unfold gap_of. destruct (last_submit v); [by apply lastn_ring_push|by rewrite app_nil_r].
  - destruct (boundary now now' d v) as [[r v2]|] eqn:Eb; simplify_eq/=.
    destruct (boundary_spec _ _ _ _ _ _ Hm Eb) as (-> & Hrange & (Hmin & Hmax & Hsz) & Hor).
    unfold same_config in *. rewrite <- Hsz, <- Hmin, <- Hmax. apply IH; auto; rewrite ?Hsz, ?Hmin; [lia|done|].
    destruct Hor as [[-> ->]|[Hne ->]]; [by rewrite Z.eqb_refl|].
    destruct (Z.eqb_spec (current v1) (current v)); [done|]. symmetry. apply drop_nil.
Qed.

(** C33: the difficulty served at a job boundary, after any history of shares and
    boundaries, is the one the controller then holds.  Where the floor is not above the
    maximum nor above the upstream's difficulty of the job, it is between the floor and the
    smaller of the two; where it is above one of them, the floor is served, above what
    the upstream pool rewards. *)
Theorem served_difficulty_bounds now0 mn initial mx secs cfg es v now now' d r v' :
  run es (new now0 mn initial mx secs cfg) = Some v -> boundary now now' d v = Some (r, v') ->
  r = current v' /\ (mn <= mx -> mn <= d -> mn <= r <= Z.min mx d) /\ (mx < mn \/ d < mn -> r = mn).
Proof.
  intros Hr Hb.
  destruct (run_window es (new now0 mn initial mx secs cfg) [] v) as (Hm & (Hmin & Hmax & _) & _); simpl; auto; [lia|lia|].
  simpl in *. rewrite <- Hmin in Hm.
  destruct (boundary_spec _ _ _ _ _ _ Hm Hb) as (-> & Hrange & _). unfold ceiling in Hrange.
  rewrite Hmin, Hmax in Hrange. split; [done|]. lia.
Qed.

(** Samples are never mixed across difficulties: after any history, the
    averaging window holds exactly the most recent intervals of the shares accepted
    since the difficulty last changed, at most the configured number of them. *)
Lemma samples_at_current_difficulty now0 mn initial mx secs cfg es v :
  run es (new now0 mn initial mx secs cfg) = Some v ->
  intervals v = lastn (Z.to_nat (Z.max (cfg_sample_size cfg) 1))
                  (since_change es (new now0 mn initial mx secs cfg) []).
Proof.
  intros Hr.
  destruct (run_window es (new now0 mn initial mx secs cfg) [] v) as (_ & _ & Hi); simpl; auto; lia.
Qed.

(** The default factors with a window of two; a floor of 1000, a target of 15 s. *)
Definition sample_cfg : VardiffConfig :=
  {| cfg_sample_size := 2; cfg_variance_percent := F.of_Z 30;
     cfg_max_gain_factor := F.of_Z 2; cfg_max_drop_factor := F.lit 7 10 |}.
Definition sample_new : t := new 0 1000 2000 (u64_max / 2) 15 sample_cfg.
Definition sec (n : Z) : Z := n * 10 ^ 9.

(** Two shares one second apart, a boundary that doubles, then a long silence. *)
Definition sample_events : list event :=
  [Share (sec 1); Share (sec 2); Boundary (sec 3) (sec 3) 1000000; Share (sec 4)].

Lemma sample_run : exists v, run sample_events sample_new = Some v /\ current v = 4000 /\
  boundary (sec 200) (sec 200) 1000000 v = Some (2800, with_last (Some (sec 200)) (with_intervals [] (with_current 2800 v))).
Proof. eexists. split; [by vm_compute|]. split; by vm_compute. Qed.

Lemma served_difficulty_bounds_witness :
  exists v v', run sample_events sample_new = Some v /\ boundary (sec 200) (sec 200) 1000000 v = Some (2800, v') /\
    2800 = current v' /\ 1000 <= 2800 <= Z.min (u64_max / 2) 1000000.
Proof.
  destruct sample_run as (v & Hr & _ & Hb). eexists v, _. split; [exact Hr|]. split; [exact Hb|].
  destruct (served_difficulty_bounds 0 1000 2000 (u64_max / 2) 15 sample_cfg sample_events v (sec 200) (sec 200) 1000000 2800 _ Hr Hb)
    as (Hc & Hin & _). split; [exact Hc|]. apply Hin; [by vm_compute|lia].
Defined.

(** A job of difficulty 400 is served at the floor of 1000. *)
Example floor_above_upstream : fst <$> boundary (sec 3) (sec 3) 400 sample_new = Some 1000.
Proof. by vm_compute. Qed.

(** Factors out of order make the bounds of a retarget panic. *)
Example factors_out_of_order_panic :
  run (sample_events ++ [Boundary (sec 200) (sec 200) 1000000])
    (new 0 1000 2000 (u64_max / 2) 15
       {| cfg_sample_size := 2; cfg_variance_percent := F.of_Z 30;
          cfg_max_gain_factor := F.lit 5 10; cfg_max_drop_factor := F.lit 7 10 |}) = None.
Proof. by vm_compute. Qed.

End Vardiff.
