(* ===== verification/Hex.v ===== *)
(** Hexadecimal text of bytes, as the [hex] crate has it: an interface with what the
    crate documents, and the instance of module [Text]. *)
From Stdlib Require Import Ascii.
From S2P Require Import Prelude Text.

(** [hex::encode] and [hex::decode]. *)
Class Hex := {
  encode : list Z -> string;
  decode : string -> option (list Z);
}.

(** Lower-case text, two characters per byte; decoding reads pairs of digits in
    either case and nothing else. *)
Class HexLaws (H : Hex) : Prop := {
  hl_roundtrip : forall b, Forall is_u8 b -> decode (encode b) = Some b;
  hl_text : forall b, Forall is_u8 b -> encode b = Text.hex_encode b;
  hl_digits : forall s b, decode s = Some b ->
    Forall (fun c => Text.nibble c <> None) (String.list_ascii_of_string s);
  hl_bytes : forall s b, decode s = Some b -> Forall is_u8 b;
  hl_length : forall s b, decode s = Some b -> String.length s = (2 * length b)%nat;
  hl_app : forall s s' b b', decode s = Some b -> decode s' = Some b' -> decode (s +:+ s') = Some (b ++ b');
  hl_split : forall s s' b, decode (s +:+ s') = Some b -> Nat.Even (String.length s) ->
    exists b1 b2, decode s = Some b1 /\ decode s' = Some b2 /\ b = b1 ++ b2;
}.

(** ** Little-endian integers *)

(** [to_le_bytes] of an integer of [n] bytes. *)
Fixpoint to_le_bytes (n : nat) (z : Z) : list Z :=
  match n with
  | O => []
  | S n' => z mod 256 :: to_le_bytes n' (z / 256)
  end.

(** [from_le_bytes]. *)
Fixpoint from_le_bytes (b : list Z) : Z :=
  match b with
  | [] => 0
  | x :: b' => x + 256 * from_le_bytes b'
  end.

(** [to_be_bytes]. *)
Definition to_be_bytes (n : nat) (z : Z) : list Z := reverse (to_le_bytes n z).
Definition from_be_bytes (b : list Z) : Z := from_le_bytes (reverse b).

(** The bytes of an ASCII literal. *)
Definition bytes_of (s : string) : list Z :=
  (fun c => Z.of_nat (nat_of_ascii c)) <$> String.list_ascii_of_string s.

Definition text_hex : Hex := {| encode := Text.hex_encode; decode := Text.hex_decode |}.

Lemma to_le_bytes_length n z : length (to_le_bytes n z) = n.
Proof. revert z. induction n; intros z; simpl; [done|by f_equal]. Qed.

Lemma to_le_bytes_u8 n z : Forall is_u8 (to_le_bytes n z).
Proof.
  revert z. induction n; intros z; simpl; constructor; [|done].
  pose proof (Z.mod_pos_bound z 256). width_lia.
Qed.

Lemma from_to_le_bytes n z : 0 <= z < 256 ^ Z.of_nat n -> from_le_bytes (to_le_bytes n z) = z.
Proof.
  revert z. induction n as [|n IH]; intros z Hz; [simpl in *; lia|]. cbn [to_le_bytes from_le_bytes].
  rewrite Nat2Z.inj_succ, Z.pow_succ_r in Hz by lia.
  rewrite IH.
  - pose proof (Z.div_mod z 256). lia.
  - split; [apply Z.div_pos; lia|apply Z.div_lt_upper_bound; lia].
Qed.

Lemma to_be_bytes_length n z : length (to_be_bytes n z) = n.
Proof. unfold to_be_bytes. by rewrite length_reverse, to_le_bytes_length. Qed.

Lemma from_to_be_bytes n z : 0 <= z < 256 ^ Z.of_nat n -> from_be_bytes (to_be_bytes n z) = z.
Proof. intros Hz. unfold from_be_bytes, to_be_bytes. rewrite reverse_involutive. by apply from_to_le_bytes. Qed.

Lemma to_be_bytes_inj n z z' :
  0 <= z < 256 ^ Z.of_nat n -> 0 <= z' < 256 ^ Z.of_nat n -> to_be_bytes n z = to_be_bytes n z' -> z = z'.
Proof.
  intros Hz Hz' He%(inj reverse). rewrite <- (from_to_le_bytes n z), <- (from_to_le_bytes n z') by done. by rewrite He.
Qed.

Lemma from_le_bytes_range b : Forall is_u8 b -> 0 <= from_le_bytes b < 256 ^ Z.of_nat (length b).
Proof.
  induction 1 as [|x b Hx _ IH]; [simpl; lia|]. cbn [from_le_bytes length].
  rewrite Nat2Z.inj_succ, Z.pow_succ_r by lia. width_lia.
Qed.

(** The value of a prefix and a suffix. *)
Lemma from_le_bytes_app b b' :
  from_le_bytes (b ++ b') = from_le_bytes b + 256 ^ Z.of_nat (length b) * from_le_bytes b'.
Proof.
  induction b as [|x b IH]; cbn [from_le_bytes app length]; [lia|].
  rewrite IH, Nat2Z.inj_succ, Z.pow_succ_r by lia. lia.
Qed.

(** Induction on text by pairs of characters. *)
Lemma pairs_ind (P : string -> Prop) :
  P "" -> (forall c, P (String c "")) -> (forall c d s, P s -> P (String c (String d s))) -> forall s, P s.
Proof.
  intros H0 H1 H2 s. enough (P s /\ forall c, P (String c s)) by tauto.
  induction s as [|c s [IH1 IH2]]; [auto|]. split; auto.
Qed.

Lemma nibble_range c n : Text.nibble c = Some n -> 0 <= n < 16.
Proof. unfold Text.nibble. case_ifs; intros; simplify_eq; width_lia. Qed.

Lemma text_decode_app s s' b b' :
  Text.hex_decode s = Some b -> Text.hex_decode s' = Some b' -> Text.hex_decode (s +:+ s') = Some (b ++ b').
Proof.
  revert b. induction s as [|c|c d s IH] using pairs_ind; intros b Hb Hb'; simpl in *; [by simplify_eq|done|].
  destruct (Text.nibble c), (Text.nibble d), (Text.hex_decode s) as [b0|]; simplify_eq.
  by rewrite (IH b0).
Qed.

Lemma text_decode_split s s' b :
  Text.hex_decode (s +:+ s') = Some b -> Nat.Even (String.length s) ->
  exists b1 b2, Text.hex_decode s = Some b1 /\ Text.hex_decode s' = Some b2 /\ b = b1 ++ b2.
Proof.
  revert b. induction s as [|c|c d s IH] using pairs_ind; intros b Hb He; simpl in *.
  - by exists [], b.
  - by apply Nat.Even_succ, Nat.odd_spec in He.
  - destruct (Text.nibble c), (Text.nibble d), (Text.hex_decode (s +:+ s')) as [b0|]; simplify_eq.
    destruct (IH b0 eq_refl) as (b1 & b2 & -> & -> & ->); [by apply Nat.Even_succ_succ|]. by exists (16 * z + z0 :: b1), b2.
Qed.

#[export] Instance text_hex_laws : HexLaws text_hex.
Proof.
  split; simpl.
  - apply Text.hex_decode_encode.
  - done.
  - intros s. induction s as [|c|c d s IH] using pairs_ind; intros b Hb; simpl in *; simplify_eq; [constructor|].
    destruct (Text.nibble c) eqn:Ec, (Text.nibble d) eqn:Ed, (Text.hex_decode s); simplify_eq.
    repeat constructor; [congruence..|eauto].
  - intros s. induction s as [|c|c d s IH] using pairs_ind; intros b Hb; simpl in *; simplify_eq; [constructor|].
    destruct (Text.nibble c) eqn:Ec, (Text.nibble d) eqn:Ed, (Text.hex_decode s); simplify_eq.
    apply nibble_range in Ec, Ed. constructor; [width_lia|auto].
  - intros s. induction s as [|c|c d s IH] using pairs_ind; intros b Hb; simpl in *; simplify_eq; [done|].
    destruct (Text.nibble c), (Text.nibble d), (Text.hex_decode s) as [b0|]; simplify_eq.
    rewrite (IH b0) by done. simpl. lia.
  - apply text_decode_app.
  - apply text_decode_split.
Qed.
