(* ===== verification/Stratum.v ===== *)
(** Targets, blobs and hashes: pool-core/src/stratum.rs and randomx-verify/src/lib.rs.

    The RandomX function is a parameter, reached through the trait [Verifier]; a
    hash is the list of its 32 bytes. *)
From Stdlib Require Import Znumtheory Zpow_facts.
From S2P Require Import Prelude Hex.

Module Stratum.

Definition NONCE_OFFSET : nat := 39.
Definition NONCE_LEN : nat := 4.

Inductive BlobError : Type :=
| TooShort (n : nat)
| BadHex
| BadNonceLen.

(** [copy_from_slice] into the range that starts at [off]. *)
Definition splice (off : nat) (b src : list Z) : list Z :=
  take off b ++ src ++ drop (off + length src) b.

Section Blobs.
Context `{Hx : Hex}.

Definition diff_to_target_hex (difficulty : Z) : string :=
  let target :=
    if difficulty =? 0 then u32_max
    else let t := u32_max / difficulty in
         if t >? u32_max then u32_max else wrap_u32 t in
  encode (to_le_bytes 4 target).

(** The error is [FromHexError], only ever mapped away by the caller. *)
Definition target_hex_to_diff (target_hex : string) : option Z :=
  match decode target_hex with
  | None => None
  | Some bytes =>
      match length bytes with
      | 4%nat | 8%nat =>
          let target := from_le_bytes bytes in
          Some (if target =? 0 then u64_max else u32_max / Z.max target 1)
      | _ => None
      end
  end.

Definition assemble_blob_with_nonce (blob_hex nonce_hex : string) : result BlobError (list Z) :=
  match decode blob_hex with
  | None => Err BadHex
  | Some blob =>
      match decode nonce_hex with
      | None => Err BadHex
      | Some nonce =>
          if (length blob <? NONCE_OFFSET + NONCE_LEN)%nat then Err (TooShort (length blob))
          else if negb (length nonce =? NONCE_LEN)%nat then Err BadNonceLen
          else Ok (splice NONCE_OFFSET blob nonce)
      end
  end.

End Blobs.

(** The difficulty check, on the last eight of the 32 bytes. *)
Definition leading (hash : list Z) : Z := from_le_bytes (drop 24 hash).

Definition meets_difficulty (hash : list Z) (difficulty : Z) : bool :=
  if difficulty =? 0 then true
  else (leading hash =? 0) || (u64_max / difficulty >=? leading hash).

(** [Verifier::hash]: the RandomX hash of a blob under a seed. *)
Definition Verifier : Type := list Z -> list Z -> anyhow (list Z).

(** [StubVerifier]: the bytes of the blob folded into 32 by exclusive or. *)
Definition stub_hash : Verifier := fun _ blob =>
  Ok (foldl (fun out '(i, b) => alter (fun x => Z.lxor x b) (i mod 32)%nat out) (replicate 32 0) (imap pair blob)).

Inductive VerifyError : Type := BelowDifficulty | RandomX (e : string).

(** [CachedVerifier::verify_share], with the seed it remembers. *)
Definition cached_verify_share (inner : Verifier) (last_seed : option (list Z)) (seed blob : list Z) (difficulty : Z)
    : result VerifyError (list Z) * option (list Z) :=
  let last' := if decide (last_seed = Some seed) then last_seed else Some seed in
  (match inner seed blob with
   | Err e => Err (RandomX e)
   | Ok h => if negb (meets_difficulty h difficulty) then Err BelowDifficulty else Ok h
   end, last').

(** A well-formed hash. *)
Definition is_hash (h : list Z) : Prop := length h = 32%nat /\ Forall is_u8 h.

Lemma meets_zero_or_mul hash d :
  1 <= d -> meets_difficulty hash d = true <-> leading hash = 0 \/ leading hash * d <= u64_max.
Proof.
  intros Hd. unfold meets_difficulty. destruct (Z.eqb_spec d 0) as [|_]; [lia|].
  rewrite orb_true_iff, Z.geb_le, Z.eqb_eq. split; intros [?|?]; auto; right.
  - pose proof (Z.mul_div_le u64_max d). nia.
  - apply Z.div_le_lower_bound; lia.
Qed.

Lemma leading_range hash : is_hash hash -> is_u64 (leading hash).
Proof.
  intros [Hl Hb]. pose proof (from_le_bytes_range (drop 24 hash) (Forall_drop _ _ _ Hb)) as H.
  rewrite length_drop, Hl in H. unfold leading. change (256 ^ Z.of_nat (32 - 24)) with (2 ^ 64) in H. width_lia.
Qed.

Lemma leading_div hash : is_hash hash -> leading hash = from_le_bytes hash / 2 ^ 192.
Proof.
  intros [Hl Hb]. pose proof (from_le_bytes_range (take 24 hash) (Forall_take _ _ _ Hb)) as H.
  rewrite length_take, Hl in H. change (256 ^ Z.of_nat (24 `min` 32)) with (2 ^ 192) in H.
  rewrite <- (take_drop 24 hash) at 2. rewrite from_le_bytes_app, length_take, Hl.
  change (256 ^ Z.of_nat (24 `min` 32)) with (2 ^ 192).
  rewrite Z.mul_comm, Z.div_add, Z.div_small by lia. done.
Qed.

Lemma meets_difficulty_antitone hash d d' :
  is_hash hash -> 0 <= d <= d' -> meets_difficulty hash d' = true -> meets_difficulty hash d = true.
Proof.
  intros Hh Hd. destruct (Z.eqb_spec d 0) as [->|Hne]; [done|].
  rewrite !meets_zero_or_mul by lia. pose proof (leading_range hash Hh). intros [?|?]; auto.
  right. unfold in_range in *. nia.
Qed.

Section Laws.
Context {Hx : Hex} {HL : HexLaws Hx}.

(** The target of a difficulty, as an integer. *)
Definition target_of (d : Z) : Z := if d =? 0 then u32_max else u32_max / d.

Lemma target_of_range d : 0 <= d -> 0 <= target_of d <= u32_max.
Proof.
  intros Hd. unfold target_of. destruct (Z.eqb_spec d 0); [width_lia|].
  split; [apply Z.div_pos; width_lia|]. apply Z.div_le_upper_bound; width_lia.
Qed.

Lemma target_decodes d :
  0 <= d -> target_hex_to_diff (diff_to_target_hex d) =
            Some (if target_of d =? 0 then u64_max else u32_max / target_of d).
Proof.
  intros Hd. pose proof (target_of_range d Hd) as Ht.
  assert (He : diff_to_target_hex d = encode (to_le_bytes 4 (target_of d))).
  { unfold diff_to_target_hex, target_of in *. destruct (d =? 0); [done|].
    destruct (Z.gtb_spec (u32_max / d) u32_max); [lia|]. unfold wrap_u32. rewrite Z.mod_small; [done|width_lia]. }
  rewrite He. unfold target_hex_to_diff. rewrite hl_roundtrip by apply to_le_bytes_u8.
  rewrite to_le_bytes_length, from_to_le_bytes by (change (256 ^ Z.of_nat 4) with (2 ^ 32); width_lia).
  f_equal. destruct (Z.eqb_spec (target_of d) 0); [done|]. f_equal. lia.
Qed.

End Laws.

(** The difficulty read back from a target is at least the one it was made from. *)
Lemma target_back (Hx : Hex) (HL : HexLaws Hx) d :
  is_u64 d ->
  exists d', target_hex_to_diff (diff_to_target_hex d) = Some d' /\ d <= d' /\ (1 <= d <= 65535 -> d' = d).
Proof.
  intros Hd. rewrite target_decodes by (unfold in_range in Hd; lia). eexists. split; [done|]. split.
  - pose proof (target_of_range d ltac:(unfold in_range in Hd; lia)).
    destruct (Z.eqb_spec (target_of d) 0); [width_lia|]. apply Z.div_le_lower_bound; [lia|].
    unfold target_of in *. destruct (Z.eqb_spec d 0) as [->|]; [lia|].
    pose proof (Z.mul_div_le u32_max d). unfold in_range in Hd. nia.
  - intros Hs. unfold target_of. destruct (Z.eqb_spec d 0); [lia|].
    pose proof (Z.div_mod u32_max d ltac:(lia)) as Hdm. pose proof (Z.mod_pos_bound u32_max d ltac:(lia)).
    assert (d <= u32_max / d) by (apply Z.div_le_lower_bound; unfold u32_max; nia).
    destruct (Z.eqb_spec (u32_max / d) 0); [lia|].
    symmetry. apply (Z.div_unique _ _ _ (u32_max mod d)); lia.
Qed.

(** The target sent for a difficulty never asks less of the miner than the
    pool checks: the difficulty read back from the target is at least the difficulty
    it was made from (equal up to 65535), so a hash good enough for the target is
    good enough for the pool. *)
Lemma target_roundtrip (Hx : Hex) (HL : HexLaws Hx) d :
  is_u64 d ->
  exists d', target_hex_to_diff (diff_to_target_hex d) = Some d' /\ d <= d' /\
    (1 <= d <= 65535 -> d' = d) /\
    (forall hash, is_hash hash -> meets_difficulty hash d' = true -> meets_difficulty hash d = true).
Proof.
  intros Hd. destruct (target_back Hx HL d Hd) as (d' & Ht & Hle & Hs). exists d'. split_and!; auto.
  intros hash Hh. apply meets_difficulty_antitone; [done|]. unfold in_range in Hd. lia.
Qed.

(** The documented target of a difficulty. *)
Definition target (d : Z) : Z := 2 ^ 256 / d.

(** A hash exactly at the quotient has no low bits. *)
Lemma exact_target h d : 1 <= d <= u64_max -> h * d = 2 ^ 256 -> h / 2 ^ 192 * d = 2 ^ 64.
Proof.
  intros Hd E. destruct (Zdivide_power_2 d 2 256) as [m ->]; [lia|lia|apply prime_2|by exists h|].
  assert (Hm : 0 <= m < 64).
  { split; [destruct (Z.neg_nonneg_cases m) as [Hn|]; [rewrite (Z.pow_neg_r 2 m Hn) in Hd; lia|done]|].
    apply (Z.pow_lt_mono_r_iff 2); unfold u64_max in Hd; lia. }
  assert (h = 2 ^ (64 - m) * 2 ^ 192) as ->.
  { apply (Z.mul_cancel_r _ _ (2 ^ m)); [lia|]. rewrite E, <- !Z.pow_add_r by lia. f_equal. lia. }
  rewrite Z.div_mul, <- Z.pow_add_r by lia. f_equal. lia.
Qed.

(** C34: the fast difficulty check against the documented one, by which a hash is good when it
    is at most [floor(2^256 / d)], for a difficulty other than zero.  The check reads the
    top 64 bits of the hash and passes exactly when their product with the difficulty fits 64
    bits.  It passes every good hash but one, the hash [h] with [h * d = 2^256], which is
    there for a difficulty that is a power of two; and a hash it passes is less than
    [2^192] above the target. *)
Theorem meets_difficulty_spec hash d :
  is_hash hash -> 1 <= d <= u64_max ->
  (meets_difficulty hash d = true <-> leading hash * d <= u64_max) /\
  (from_le_bytes hash <= target d -> meets_difficulty hash d = negb (from_le_bytes hash * d =? 2 ^ 256)) /\
  (meets_difficulty hash d = true -> from_le_bytes hash < target d + 2 ^ 192).
Proof.
  intros Hh Hd. pose proof (leading_range hash Hh) as Hr. pose proof (leading_div hash Hh) as Hl.
  assert (Heq : meets_difficulty hash d = true <-> leading hash * d <= u64_max).
  { rewrite meets_zero_or_mul by lia. split; [intros [->|?]|]; auto; width_lia. }
  pose proof (Z.div_mod (from_le_bytes hash) (2 ^ 192) ltac:(lia)) as Hdm. rewrite <- Hl in Hdm.
  pose proof (Z.mod_pos_bound (from_le_bytes hash) (2 ^ 192) ltac:(lia)) as Hmod.
  set (h := from_le_bytes hash) in *. set (x := leading hash) in *. unfold target. split; [done|]. split.
  - intros Ht. assert (h * d <= 2 ^ 256).
    { pose proof (Z.mul_div_le (2 ^ 256) d ltac:(lia)). nia. }
    unfold u64_max in *. destruct (Z.eqb_spec (h * d) (2 ^ 256)) as [E|E]; simpl; [|apply Heq; nia].
    apply not_true_iff_false. rewrite Heq, Hl. rewrite (exact_target h d) by (unfold u64_max; lia). lia.
  - rewrite Heq. intros Hx. assert (x * 2 ^ 192 <= 2 ^ 256 / d); [|lia].
    apply Z.div_le_lower_bound; unfold u64_max in *; nia.
Qed.

(** The assembled blob is the template with exactly the four nonce bytes
    replaced, so it decodes the template on every other byte and different nonces
    give different blobs; it fails exactly on bad text, a template shorter than 43
    bytes or a nonce that is not four bytes. *)
Theorem assemble_blob_spec (Hx : Hex) blob_hex nonce_hex b n :
  decode blob_hex = Some b -> decode nonce_hex = Some n ->
  (forall r, assemble_blob_with_nonce blob_hex nonce_hex = Ok r ->
     length r = length b /\ take 4 (drop 39 r) = n /\
     (forall i, (i < 39 \/ 43 <= i)%nat -> r !! i = b !! i)) /\
  (is_ok (assemble_blob_with_nonce blob_hex nonce_hex) = true <-> (43 <= length b)%nat /\ length n = 4%nat).
Proof.
  intros Hb Hn. unfold assemble_blob_with_nonce. rewrite Hb, Hn. unfold NONCE_OFFSET, NONCE_LEN.
  destruct (Nat.ltb_spec (length b) (39 + 4)); [split; [done|split; [done|intros [? ?]; lia]]|].
  destruct (Nat.eqb_spec (length n) 4) as [E|]; simpl; [|split; [done|split; [done|intros [? ?]; lia]]].
  split; [|split; [intros _; lia|done]]. intros r [= <-]. unfold splice. rewrite E. split_and!.
  - rewrite !length_app, length_take, length_drop. lia.
  - rewrite drop_app_ge by (rewrite length_take; lia). rewrite length_take_le by lia.
    rewrite Nat.sub_diag, drop_0, take_app_le, take_ge by lia. done.
  - intros i [Hi|Hi].
    + rewrite lookup_app_l by (rewrite length_take; lia). by rewrite lookup_take_lt by lia.
    + rewrite lookup_app_r by (rewrite length_take; lia). rewrite length_take_le by lia.
      rewrite lookup_app_r by lia. rewrite lookup_drop. f_equal. lia.
Qed.

Lemma sample_is_hash : is_hash (replicate 31 0 ++ [1]).
Proof. split; [done|]. repeat constructor; vm_compute; discriminate. Qed.

Lemma meets_difficulty_spec_witness :
  let hash := replicate 31 0 ++ [1] in
  meets_difficulty hash 255 = true /\ meets_difficulty hash 257 = false /\
  from_le_bytes hash < target 255 + 2 ^ 192 /\
  from_le_bytes hash <= target 256 /\ meets_difficulty hash 256 = negb (from_le_bytes hash * 256 =? 2 ^ 256).
Proof.
  split; [by vm_compute|]. split; [by vm_compute|]. split.
  - apply (meets_difficulty_spec (replicate 31 0 ++ [1]) 255 sample_is_hash); [unfold u64_max; lia|by vm_compute].
  - split; [by vm_compute|]. apply (meets_difficulty_spec (replicate 31 0 ++ [1]) 256 sample_is_hash); [unfold u64_max; lia|by vm_compute].
Defined.

(** The hash equal to the target of a power of two is refused. *)
Example target_itself_refused :
  let hash := replicate 31 0 ++ [1] in from_le_bytes hash = target 256 /\ meets_difficulty hash 256 = false.
Proof. by vm_compute. Qed.

Definition sample_blob : string := encode (Hex := text_hex) (replicate 76 7).

Lemma sample_blob_decodes : decode (Hex := text_hex) sample_blob = Some (replicate 76 7).
Proof. by vm_compute. Qed.

Lemma assemble_blob_spec_witness :
  (forall r, assemble_blob_with_nonce (Hx := text_hex) sample_blob "01020304" = Ok r ->
     length r = length (replicate 76 7) /\ take 4 (drop 39 r) = [1; 2; 3; 4] /\
     (forall i, (i < 39 \/ 43 <= i)%nat -> r !! i = replicate 76 7 !! i)) /\
  (is_ok (assemble_blob_with_nonce (Hx := text_hex) sample_blob "01020304") = true <->
   (43 <= length (replicate 76 7))%nat /\ length [1; 2; 3; 4] = 4%nat).
Proof. exact (assemble_blob_spec text_hex sample_blob "01020304" (replicate 76 7) [1; 2; 3; 4] sample_blob_decodes eq_refl). Defined.

End Stratum.
