(* ===== verification/RandomX.v ===== *)
(** The RandomX verifier of the release build: [real_impl] of randomx-verify/src/lib.rs.

    The verifier keeps one virtual machine, keyed by a seed, behind a lock; a share with
    another seed makes it build a new one, from the cache alone or from the dataset.  The
    library and the memory it needs are parameters: every call of it may fail. *)
From S2P Require Import Prelude Stratum.
Import Stratum.

Module RandomX.

Inductive flag : Type := FLAG_JIT | FLAG_HARD_AES | FLAG_FULL_MEM.

(** The library: caches, datasets and machines. *)
Class RandomXLib (W C D V : Type) := {
  cache_new : list flag -> list Z -> W -> result string C * W;
  dataset_new : list flag -> C -> Z -> W -> result string D * W;
  vm_new : list flag -> option C -> option D -> W -> result string V * W;
  calculate_hash : V -> list Z -> W -> result string (list Z) * W;
}.

Section Verifier.
Context {W C D V : Type} `{RandomXLib W C D V}.

Record VmCell : Type := { seed : list Z; _cache : C; _dataset : option D; vm : V }.
Record RandomXVerifier : Type := { flags : list flag; use_dataset : bool; inner : option VmCell }.

Definition new_light : RandomXVerifier := {| flags := [FLAG_JIT; FLAG_HARD_AES]; use_dataset := false; inner := None |}.
Definition new_full : RandomXVerifier := {| flags := [FLAG_JIT; FLAG_HARD_AES; FLAG_FULL_MEM]; use_dataset := true; inner := None |}.
Definition set_inner (c : VmCell) (v : RandomXVerifier) : RandomXVerifier :=
  {| flags := flags v; use_dataset := use_dataset v; inner := Some c |}.

(** The machine for a cache, with its dataset in full mode. *)
Definition build_vm (v : RandomXVerifier) (cache : C) (w : W) : result VerifyError (V * option D) * W :=
  if use_dataset v then
    match dataset_new (flags v) cache 0 w with
    | (Err e, w) => (Err (RandomX ("dataset init: " +:+ e)), w)
    | (Ok ds, w) =>
        match vm_new (flags v) None (Some ds) w with
        | (Err e, w) => (Err (RandomX e), w)
        | (Ok m, w) => (Ok (m, Some ds), w)
        end
    end
  else
    match vm_new (flags v) (Some cache) None w with
    | (Err e, w) => (Err (RandomX e), w)
    | (Ok m, w) => (Ok (m, None), w)
    end.

Definition rekey (sd : list Z) (v : RandomXVerifier) (w : W) : result VerifyError VmCell * W :=
  match cache_new (flags v) sd w with
  | (Err e, w) => (Err (RandomX e), w)
  | (Ok cache, w) =>
      match build_vm v cache w with
      | (Err e, w) => (Err e, w)
      | (Ok (m, ds), w) => (Ok {| seed := sd; _cache := cache; _dataset := ds; vm := m |}, w)
      end
  end.

(** The hash of the machine at hand; a result of fewer than 32 bytes panics ([None]). *)
Definition run_vm (c : VmCell) (blob : list Z) (w : W) : option (result VerifyError (list Z)) * W :=
  match calculate_hash (vm c) blob w with
  | (Err e, w) => (Some (Err (RandomX e)), w)
  | (Ok h, w) => (if (length h <? 32)%nat then None else Some (Ok (take 32 h)), w)
  end.

Definition hash (sd blob : list Z) (v : RandomXVerifier) (w : W)
    : option (result VerifyError (list Z)) * RandomXVerifier * W :=
  let needs_rekey := match inner v with Some c => negb (bool_decide (seed c = sd)) | None => true end in
  match inner v with
  | Some c =>
      if needs_rekey then
        match rekey sd v w with
        | (Err e, w) => (Some (Err e), v, w)
        | (Ok c, w) => let '(r, w) := run_vm c blob w in (r, set_inner c v, w)
        end
      else let '(r, w) := run_vm c blob w in (r, v, w)
  | None =>
      match rekey sd v w with
      | (Err e, w) => (Some (Err e), v, w)
      | (Ok c, w) => let '(r, w) := run_vm c blob w in (r, set_inner c v, w)
      end
  end.

(** A run: the calls of all sessions in the order they took the lock.  Between them the
    memory of the process changes. *)
Fixpoint hashes (calls : list (list Z * list Z * (W -> W))) (v : RandomXVerifier) (w : W) : list (option (result VerifyError (list Z))) :=
  match calls with
  | [] => []
  | (sd, blob, meanwhile) :: calls => let '(r, v, w) := hash sd blob v w in r :: hashes calls v (meanwhile w)
  end.

End Verifier.
Arguments VmCell : clear implicits.
Arguments RandomXVerifier : clear implicits.

(** ** What the library promises *)

(** A machine computes the RandomX function of the seed its cache or its dataset was made
    from, which is the same in both modes. *)
Class RandomXLaws (W C D V : Type) `{RandomXLib W C D V} := {
  randomx : list Z -> list Z -> list Z;
  cache_seed : C -> list Z;
  dataset_seed : D -> list Z;
  vm_seed : V -> list Z;
  rl_cache : forall f sd w c w', cache_new f sd w = (Ok c, w') -> cache_seed c = sd;
  rl_dataset : forall f c w d w', dataset_new f c 0 w = (Ok d, w') -> dataset_seed d = cache_seed c;
  rl_light : forall f c w v w', vm_new f (Some c) None w = (Ok v, w') -> vm_seed v = cache_seed c;
  rl_full : forall f d w v w', vm_new f None (Some d) w = (Ok v, w') -> vm_seed v = dataset_seed d;
  rl_hash : forall v b w h w', calculate_hash v b w = (Ok h, w') -> h = randomx (vm_seed v) b;
  rl_length : forall sd b, length (randomx sd b) = 32%nat;
}.

Section Correct.
Context {W C D V : Type} `{RandomXLaws W C D V}.

(** The machine is one of the seed it is kept under. *)
Definition cell_ok (c : VmCell C D V) : Prop := vm_seed (vm c) = seed c.
Definition verifier_ok (v : RandomXVerifier C D V) : Prop := forall c, inner v = Some c -> cell_ok c.

Lemma rekey_ok sd v w c w' : rekey sd v w = (Ok c, w') -> cell_ok c /\ seed c = sd.
Proof.
  unfold rekey, build_vm, cell_ok. destruct (cache_new _ sd w) as [[cache|] w1] eqn:E1; [|done]. apply rl_cache in E1.
  destruct (use_dataset v).
  - destruct (dataset_new _ cache 0 w1) as [[ds|] w2] eqn:E2; [|done]. apply rl_dataset in E2.
    destruct (vm_new _ None (Some ds) w2) as [[m|] w3] eqn:E3; [|done]. apply rl_full in E3. intros [= <- <-]. simpl. by rewrite E3, E2.
  - destruct (vm_new _ (Some cache) None w1) as [[m|] w2] eqn:E2; [|done]. apply rl_light in E2. intros [= <- <-]. simpl. by rewrite E2.
Qed.

(** An error that a call of the library for a seed and a blob gave. *)
Inductive lib_failed (sd blob : list Z) : string -> Prop :=
| no_cache f w e w' : cache_new f sd w = (Err e, w') -> lib_failed sd blob e
| no_dataset f c w e w' : dataset_new f c 0 w = (Err e, w') -> lib_failed sd blob ("dataset init: " +:+ e)
| no_vm f c d w e w' : vm_new f c d w = (Err e, w') -> lib_failed sd blob e
| no_hash v w e w' : vm_seed v = sd -> calculate_hash v blob w = (Err e, w') -> lib_failed sd blob e.

(** A reply: the function, or the error of the library. *)
Definition replied (sd blob : list Z) (r : option (result VerifyError (list Z))) : Prop :=
  r = Some (Ok (randomx sd blob)) \/ exists e, r = Some (Err (RandomX e)) /\ lib_failed sd blob e.

Definition replied_to (c : list Z * list Z * (W -> W)) : option (result VerifyError (list Z)) -> Prop := replied c.1.1 c.1.2.

Lemma run_vm_replied c blob w : cell_ok c -> replied (seed c) blob (run_vm c blob w).1.
Proof.
  unfold run_vm, cell_ok, replied. intros Hc. destruct (calculate_hash (vm c) blob w) as [[h|e] w'] eqn:E; [|eauto using no_hash].
  apply rl_hash in E as ->. rewrite Hc. pose proof (rl_length (seed c) blob) as Hl. left. simpl.
  rewrite (proj2 (Nat.ltb_ge _ _)) by lia. by rewrite take_ge by lia.
Qed.

Lemma rekey_err sd blob v w e w' : rekey sd v w = (Err e, w') -> exists m, e = RandomX m /\ lib_failed sd blob m.
Proof.
  unfold rekey, build_vm. repeat case_match; intros; simplify_eq; eauto using no_cache, no_dataset, no_vm.
Qed.

Lemma rekeyed_ok sd blob v w r v' w' :
  match rekey sd v w with
  | (Err e, w) => (Some (Err e), v, w)
  | (Ok c, w) => let '(r, w) := run_vm c blob w in (r, set_inner c v, w)
  end = (r, v', w') -> verifier_ok v -> verifier_ok v' /\ replied sd blob r.
Proof.
  destruct (rekey sd v w) as [[c|e] w1] eqn:E.
  - apply rekey_ok in E as [Hc <-]. pose proof (run_vm_replied c blob w1 Hc) as Hr. destruct (run_vm c blob w1) as [r1 w2].
    intros [= <- <- <-] _. split; [|done]. by intros c' [= <-].
  - apply (rekey_err sd blob) in E as (m & -> & Hm). intros [= <- <- <-] Hv. split; [done|]. right. eauto.
Qed.

Lemma hash_ok sd blob v w r v' w' :
  hash sd blob v w = (r, v', w') -> verifier_ok v -> verifier_ok v' /\ replied sd blob r.
Proof.
  unfold hash. destruct (inner v) as [c|] eqn:Ei; [|apply rekeyed_ok].
  case_bool_decide as Es; simpl; [|apply rekeyed_ok]. intros E Hv. pose proof (run_vm_replied c blob w (Hv c Ei)) as Hr.
  destruct (run_vm c blob w) as [r1 w1]. simplify_eq. done.
Qed.

Lemma hashes_ok calls v w : verifier_ok v -> Forall2 replied_to calls (hashes calls v w).
Proof.
  revert v w. induction calls as [|[[sd blob] f] calls IH]; intros v w Hv; simpl; [constructor|].
  destruct (hash sd blob v w) as [[r v'] w'] eqn:E. apply hash_ok in E as [Hv' Hr]; [|done]. constructor; [done|by apply IH].
Qed.

(** C37: keeping one machine changes no hash.  In either mode, whatever seeds the shares of
    the sessions carry, in whatever order they take the lock and whichever calls of the
    library fail, every reply is the RandomX hash of the seed and the blob of that very
    call, or the error that the library gave; there is no panic.  A rekey that failed half-way leaves no machine
    of the wrong seed behind. *)
Theorem cached_machine_exact calls (full : bool) w :
  Forall2 replied_to calls (hashes calls (if full then new_full else new_light) w).
Proof. apply hashes_ok. by destruct full. Qed.

End Correct.

(** ** Concrete inputs *)

Module Demo.

(** The function is the seed and the blob; the dataset of a third seed cannot be allocated. *)
Definition toy (sd b : list Z) : list Z := take 32 ((sd ++ b) ++ replicate 32 0).
#[export] Instance lib : RandomXLib nat (list Z) (list Z) (list Z) := {
  cache_new _ sd w := (Ok sd, S w);
  dataset_new _ c _ w := (if (w =? 3)%nat then Err "alloc"%string else Ok c, w);
  vm_new _ c d w := (match c, d with Some c, _ => Ok c | None, Some d => Ok d | None, None => Err "no memory"%string end, w);
  calculate_hash v b w := (Ok (toy v b), w);
}.
#[export] Instance laws : RandomXLaws nat (list Z) (list Z) (list Z).
Proof.
  refine {| randomx := toy; cache_seed := id; dataset_seed := id; vm_seed := id |}; intros; simpl in *; case_match || idtac; simplify_eq; try done.
  unfold toy. rewrite length_take, length_app, length_replicate. lia.
Defined.

Definition calls : list (list Z * list Z * (nat -> nat)) := [([1], [5], S); ([1], [6], id); ([2], [5], S); ([1], [5], id)].

Lemma replies : (fun r => match r with Some (Ok h) => take 2 h | _ => [] end) <$> hashes calls new_full 0%nat = [[1; 5]; [1; 6]; []; [1; 5]].
Proof. vm_compute. reflexivity. Qed.

End Demo.

Import Demo.

Lemma cached_machine_exact_witness :
  Forall2 replied_to Demo.calls (hashes Demo.calls (if true then new_full else new_light) 0%nat).
Proof. exact (cached_machine_exact Demo.calls true 0%nat). Defined.

End RandomX.
