(* ===== verification/Jobs.v ===== *)
(** The job store of the stratum proxy (stratum-proxy/src/jobs.rs): the ring of
    the jobs served to miners, and the registry of accepted [(job_id, nonce)]
    pairs that keeps a share from being credited twice.

    Instants and durations are nanoseconds in [Z]; the clock an operation reads is
    its first argument.  The broadcast channel is modelled by the sequence of the
    jobs sent on it. *)
From S2P Require Import Prelude Text.

Module Jobs.

Definition RING_SIZE : nat := 32.

Record UpstreamJob : Type := {
  job_id : string;
  blob_hex : string;
  seed_hex : string;
  upstream_target_hex : string;
  upstream_diff : Z;
  height : option Z;
}.

Record JobEntry : Type := {
  job : UpstreamJob;
  superseded_at : option Z;
  seen_nonces : gset string;
}.

Record JobStore : Type := { entries : list JobEntry; sent : list UpstreamJob }.

Inductive SubmissionOutcome : Type :=
| UnknownJob
| Stale
| Duplicate
| Accepted (j : UpstreamJob).

#[global] Instance UpstreamJob_eq_dec : EqDecision UpstreamJob.
Proof. solve_decision. Defined.
#[global] Instance SubmissionOutcome_eq_dec : EqDecision SubmissionOutcome.
Proof. solve_decision. Defined.

Definition new : JobStore := {| entries := []; sent := [] |}.

(** [back_mut]: change the last element of a queue, if there is one. *)
Fixpoint map_back {A} (f : A -> A) (l : list A) : list A :=
  match l with
  | [] => []
  | [x] => [f x]
  | x :: l' => x :: map_back f l'
  end.

(** [if superseded_at.is_none() { superseded_at = Some(now) }]. *)
Definition or_now (now : Z) (t : option Z) : option Z :=
  match t with None => Some now | Some t => Some t end.

Definition supersede (now : Z) (e : JobEntry) : JobEntry :=
  {| job := job e; superseded_at := or_now now (superseded_at e); seen_nonces := seen_nonces e |}.

Definition publish (now : Z) (j : UpstreamJob) (s : JobStore) : JobStore :=
  {| entries := ring_push RING_SIZE (map_back (supersede now) (entries s))
                  {| job := j; superseded_at := None; seen_nonces := ∅ |};
     sent := sent s ++ [j] |}.

Definition current (s : JobStore) : option UpstreamJob := job <$> last (entries s).

(** The two stale conditions, on a job, the instant it was superseded and the
    height of the current job. *)
Definition is_stale (grace now : Z) (current_height : option Z) (j : UpstreamJob) (sup : option Z) : bool :=
  match sup with
  | None => false
  | Some t =>
      let stale_by_time := Z.max 0 (now - t) >? grace in
      let stale_by_height :=
        match height j, current_height with Some eh, Some ch => eh <? ch | _, _ => false end in
      stale_by_time || stale_by_height
  end.

Definition record_submission (now : Z) (id nonce : string) (grace : Z) (s : JobStore)
    : SubmissionOutcome * JobStore :=
  let nonce_norm := Text.to_ascii_lowercase nonce in
  let current_height := last (entries s) ≫= (fun e => height (job e)) in
  match list_find (fun e => job_id (job e) = id) (entries s) with
  | None => (UnknownJob, s)
  | Some (i, e) =>
      let put seen :=
        {| entries := <[i := {| job := job e; superseded_at := superseded_at e; seen_nonces := seen |}]> (entries s);
           sent := sent s |} in
      if is_stale grace now current_height (job e) (superseded_at e) then (Stale, put ∅)
      else if decide (nonce_norm ∈ seen_nonces e) then (Duplicate, s)
      else (Accepted (job e), put ({[nonce_norm]} ∪ seen_nonces e))
  end.

(** ** The registry without a ring

    What the store promises: every job ever published with the instant it was
    superseded, and every nonce ever accepted for each of these publications.  Nothing is
    evicted or cleared; only the last [RING_SIZE] publications take submissions, and an id
    that was published more than once stands for the oldest of them. *)

Record Registry : Type := {
  rows : list (UpstreamJob * option Z);
  accepted : gset (nat * string);
}.

Definition spec_new : Registry := {| rows := []; accepted := ∅ |}.

Definition spec_publish (now : Z) (j : UpstreamJob) (a : Registry) : Registry :=
  {| rows := map_back (prod_map id (or_now now)) (rows a) ++ [(j, None)]; accepted := accepted a |}.

(** The first publication that still takes submissions. *)
Definition oldest (a : Registry) : nat := length (rows a) - RING_SIZE.
Definition recent (a : Registry) : list (UpstreamJob * option Z) := drop (oldest a) (rows a).

Definition spec_height (a : Registry) : option Z := last (rows a) ≫= (fun r => height r.1).

Definition spec_submit (now : Z) (id nonce : string) (grace : Z) (a : Registry)
    : SubmissionOutcome * Registry :=
  match list_find (fun r => job_id r.1 = id) (recent a) with
  | None => (UnknownJob, a)
  | Some (k, (j, sup)) =>
      let pair := ((oldest a + k)%nat, Text.to_ascii_lowercase nonce) in
      if is_stale grace now (spec_height a) j sup then (Stale, a)
      else if decide (pair ∈ accepted a) then (Duplicate, a)
      else (Accepted j, {| rows := rows a; accepted := {[pair]} ∪ accepted a |})
  end.

(** ** Runs *)

Inductive op : Type :=
| Publish (now : Z) (j : UpstreamJob)
| Submit (now : Z) (id nonce : string).

Definition op_time (o : op) : Z := match o with Publish t _ | Submit t _ _ => t end.

Definition step (grace : Z) (o : op) (s : JobStore) : option SubmissionOutcome * JobStore :=
  match o with
  | Publish now j => (None, publish now j s)
  | Submit now id n => let '(r, s') := record_submission now id n grace s in (Some r, s')
  end.

Definition spec_step (grace : Z) (o : op) (a : Registry) : option SubmissionOutcome * Registry :=
  match o with
  | Publish now j => (None, spec_publish now j a)
  | Submit now id n => let '(r, a') := spec_submit now id n grace a in (Some r, a')
  end.

Fixpoint run {S O : Type} (f : op -> S -> O * S) (ops : list op) (s : S) : list O * S :=
  match ops with
  | [] => ([], s)
  | o :: ops' => let '(r, s') := f o s in let '(rs, s'') := run f ops' s' in (r :: rs, s'')
  end.

(** The height of the chain does not go back: [None] (a job without a height) only
    before any height was seen. *)
Definition height_leb (h h' : option Z) : bool :=
  match h, h' with
  | None, _ => true
  | Some a, Some b => a <=? b
  | Some _, None => false
  end.

(** The heights of a list of jobs never go back. *)
Fixpoint forward_from (h : option Z) (js : list UpstreamJob) : bool :=
  match js with
  | [] => true
  | j :: js' => height_leb h (height j) && forward_from (height j) js'
  end.
Definition forward : list UpstreamJob -> bool := forward_from None.

(** Operations in the order of the clock, which is monotonic. *)
Fixpoint well_timed (now : Z) (ops : list op) : Prop :=
  match ops with
  | [] => True
  | o :: ops' => now <= op_time o /\ well_timed (op_time o) ops'
  end.

(** The jobs a run published, in order. *)
Fixpoint published (ops : list op) : list UpstreamJob :=
  match ops with
  | [] => []
  | Publish _ j :: ops' => j :: published ops'
  | Submit _ _ _ :: ops' => published ops'
  end.

(** ** Queues *)

Lemma map_back_length {A} (f : A -> A) l : length (map_back f l) = length l.
Proof. induction l as [|x [|y l] IH]; simpl in *; lia. Qed.

Lemma map_back_drop {A} (f : A -> A) k l : drop k (map_back f l) = map_back f (drop k l).
Proof. revert k. induction l as [|x [|y l] IH]; intros [|k]; try done; [simpl; by rewrite !drop_nil|apply (IH k)]. Qed.

Lemma map_back_fmap {A B} (f : A -> A) (g : B -> B) (h : A -> B) l :
  (forall x, h (f x) = g (h x)) -> h <$> map_back f l = map_back g (h <$> l).
Proof.
  intros Hfg. induction l as [|x [|y l] IH]; [done|by rewrite fmap_cons; simpl; rewrite Hfg|].
  change (h x :: (h <$> map_back f (y :: l)) = h x :: map_back g (h <$> y :: l)). by rewrite IH.
Qed.

Lemma map_back_id {A} (f : A -> A) l : (forall x, f x = x) -> map_back f l = l.
Proof. intros Hf. induction l as [|x [|y l] IH]; [done|simpl; by rewrite Hf|]. change (x :: map_back f (y :: l) = x :: y :: l). by rewrite IH. Qed.

Lemma map_back_elem {A} (f : A -> A) l y : y ∈ map_back f l -> y ∈ l \/ exists x, x ∈ l /\ y = f x.
Proof.
  induction l as [|x [|z l] IH]; [by left| |].
  - intros ->%list_elem_of_singleton. right. exists x. split; [by left|done].
  - intros [->|Hy]%elem_of_cons; [left; by left|].
    destruct (IH Hy) as [?|(x' & ? & ->)]; [left; by right|].
    right. exists x'. split; [by right|done].
Qed.

Lemma last_drop_recent {A} k (l : list A) : (0 < k)%nat -> last (drop (length l - k) l) = last l.
Proof.
  intros. rewrite !last_lookup, lookup_drop, length_drop. f_equal. lia.
Qed.

(** ** Stale jobs stay stale *)

Lemma height_leb_refl h : height_leb h h = true.
Proof. destruct h; simpl; [apply Z.leb_refl|done]. Qed.

Lemma forward_snoc h l j :
  forward_from h (l ++ [j]) = forward_from h l && height_leb (match last l with Some k => height k | None => h end) (height j).
Proof.
  revert h. induction l as [|k l IH]; intros h; cbn [app forward_from]; [by rewrite andb_true_r|].
  rewrite IH, andb_assoc. destruct l as [|k' l]; [done|]. by destruct (last (k' :: l)) eqn:E; [rewrite last_cons, E|apply last_None in E].
Qed.

Lemma is_stale_mono grace now now' h h' j sup :
  now <= now' -> height_leb h h' = true ->
  is_stale grace now h j sup = true -> is_stale grace now' h' j sup = true.
Proof.
  intros Ht Hh. destruct sup as [t|]; [|done]. simpl. rewrite !orb_true_iff, !Z.gtb_lt.
  intros [?|Hs]; [left; lia|right].
  destruct (height j), h, h'; simpl in *; try done. apply Z.ltb_lt in Hs. apply Z.leb_le in Hh. apply Z.ltb_lt. lia.
Qed.

Lemma is_stale_or_now grace now now' h j sup :
  is_stale grace now h j sup = true -> is_stale grace now h j (or_now now' sup) = true.
Proof. by destruct sup. Qed.

(** ** The store implements the registry *)

Definition row (e : JobEntry) : UpstreamJob * option Z := (job e, superseded_at e).
Definition jobs_of (a : Registry) : list UpstreamJob := fst <$> rows a.

(** The entry at place [i] of the ring is the publication [oldest a + i]; what it has seen was
    accepted, and as long as the heights go forward it has seen what was accepted, or is stale. *)
Record Rel (grace now : Z) (a : Registry) (s : JobStore) : Prop := {
  rel_rows : row <$> entries s = recent a;
  rel_bound : forall p, p ∈ accepted a -> (p.1 < length (rows a))%nat;
  rel_seen : forall i e n, entries s !! i = Some e -> n ∈ seen_nonces e -> ((oldest a + i)%nat, n) ∈ accepted a;
  rel_claimed : forward (jobs_of a) = true ->
    forall i e n, entries s !! i = Some e -> ((oldest a + i)%nat, n) ∈ accepted a ->
    n ∈ seen_nonces e \/ is_stale grace now (spec_height a) (job e) (superseded_at e) = true;
}.

Lemma rel_new grace now : Rel grace now spec_new new.
Proof. by split. Qed.

Lemma rel_height grace now a s :
  Rel grace now a s -> (last (entries s) ≫= (fun e => height (job e))) = spec_height a.
Proof.
  intros H. unfold spec_height. rewrite <- (last_drop_recent RING_SIZE (rows a)) by (unfold RING_SIZE; lia).
  change (drop _ _) with (recent a). rewrite <- (rel_rows _ _ _ _ H), fmap_last.
  by destruct (last (entries s)).
Qed.

Lemma rel_length grace now a s : Rel grace now a s -> (oldest a + length (entries s) = length (rows a))%nat.
Proof.
  intros H. rewrite <- (length_fmap row), (rel_rows _ _ _ _ H). unfold recent, oldest. rewrite length_drop. lia.
Qed.

(** What an operation of the registry does to its jobs. *)
Lemma jobs_publish now j a : jobs_of (spec_publish now j a) = jobs_of a ++ [j].
Proof. unfold jobs_of. simpl. rewrite fmap_app, (map_back_fmap _ (fun x => x) fst), map_back_id by done. done. Qed.

Lemma jobs_submit now id n grace a : rows (spec_submit now id n grace a).2 = rows a.
Proof. unfold spec_submit. destruct (list_find _ _) as [[? [? ?]]|]; [|done]. by case_ifs. Qed.

Lemma forward_publish now j a :
  forward (jobs_of (spec_publish now j a)) = forward (jobs_of a) && height_leb (spec_height a) (height j).
Proof.
  rewrite jobs_publish. unfold forward. rewrite forward_snoc. unfold jobs_of, spec_height. rewrite fmap_last.
  by destruct (last (rows a)).
Qed.

Lemma recent_publish now j a :
  recent (spec_publish now j a) =
  ring_push RING_SIZE (map_back (prod_map id (or_now now)) (recent a)) (j, None).
Proof.
  unfold recent, oldest, spec_publish, ring_push. simpl rows.
  rewrite !length_app, !map_back_length, length_drop. simpl length.
  rewrite <- map_back_drop. rewrite <- (drop_app_le _ [(j, None)]) by (rewrite map_back_length; lia).
  rewrite drop_drop. f_equal. unfold RING_SIZE. lia.
Qed.

Lemma rel_later grace now now' a s : now <= now' -> Rel grace now a s -> Rel grace now' a s.
Proof.
  intros Ht []. split; auto. intros Hf i e n He Hn.
  destruct (rel_claimed0 Hf i e n He Hn); [by left|right].
  eapply is_stale_mono; eauto using height_leb_refl.
Qed.

Lemma map_back_lookup {A} (f : A -> A) l i y :
  map_back f l !! i = Some y -> exists x, l !! i = Some x /\ (y = x \/ y = f x).
Proof.
  revert i. induction l as [|x [|z l] IH]; intros [|i] Hi; simpl in *; try done.
  - simplify_eq. eauto.
  - simplify_eq. eauto.
  - by apply IH.
Qed.

(** An entry after [publish] is the one of the same publication before, perhaps superseded, or
    the new one. *)
Lemma publish_lookup grace now a s j i e :
  Rel grace now a s -> entries (publish now j s) !! i = Some e ->
  let k := (oldest (spec_publish now j a) + i)%nat in
  (exists i0 e0, k = (oldest a + i0)%nat /\ entries s !! i0 = Some e0 /\ job e = job e0 /\ seen_nonces e = seen_nonces e0 /\
     (superseded_at e = superseded_at e0 \/ superseded_at e = or_now now (superseded_at e0)))
  \/ (k = length (rows a) /\ job e = j /\ seen_nonces e = ∅).
Proof.
  intros H Hi k. pose proof (rel_length _ _ _ _ H) as Hl. simpl in Hi. unfold ring_push in Hi.
  rewrite lookup_drop, length_app, map_back_length in Hi. simpl length in Hi.
  set (d := (length (entries s) + 1 - RING_SIZE)%nat) in *.
  assert (Hk : k = (oldest a + (d + i))%nat).
  { unfold k, d, oldest, spec_publish in *. simpl. rewrite length_app, map_back_length. simpl. unfold RING_SIZE in *. lia. }
  destruct (decide (d + i < length (entries s))%nat) as [Hlt|Hge].
  - left. rewrite lookup_app_l in Hi by (by rewrite map_back_length).
    apply map_back_lookup in Hi as (e0 & He0 & [->| ->]); exists (d + i)%nat, e0; auto 6.
  - right. rewrite lookup_app_r, map_back_length in Hi by (rewrite map_back_length; lia).
    apply list_lookup_singleton_Some in Hi as [Hz <-]. split_and!; [lia|done|done].
Qed.

Lemma rel_publish grace now a s j :
  Rel grace now a s -> Rel grace now (spec_publish now j a) (publish now j s).
Proof.
  intros H. assert (Hrow : forall e, row (supersede now e) = prod_map id (or_now now) (row e)) by done.
  assert (Hsh : spec_height (spec_publish now j a) = height j)
    by (unfold spec_height; simpl; by rewrite last_snoc).
  split.
  - rewrite recent_publish, <- (rel_rows _ _ _ _ H). simpl. unfold ring_push.
    rewrite fmap_drop, fmap_app, !length_app, !map_back_length, length_fmap.
    by rewrite (map_back_fmap _ _ row _ Hrow).
  - simpl. intros p Hp. apply (rel_bound _ _ _ _ H) in Hp. rewrite length_app, map_back_length. lia.
  - intros i e n He Hn. destruct (publish_lookup _ _ _ _ _ _ _ H He) as [(i0 & e0 & -> & He0 & _ & Hse & _)|(_ & _ & Hse)].
    + apply (rel_seen _ _ _ _ H i0 e0); [done|by rewrite <- Hse].
    + rewrite Hse in Hn. set_solver.
  - rewrite forward_publish. intros [Hf Hh]%andb_true_iff i e n He Hn. rewrite Hsh.
    destruct (publish_lookup _ _ _ _ _ _ _ H He) as [(i0 & e0 & Hk & He0 & Hje & Hse & Hsup)|(Hk & _ & _)]; rewrite Hk in Hn.
    + rewrite Hje, Hse. destruct (rel_claimed _ _ _ _ H Hf i0 e0 n He0 Hn) as [?|Hst]; [by left|right].
      destruct Hsup as [->| ->]; [|apply is_stale_or_now]; eapply is_stale_mono; eauto; lia.
    + apply (rel_bound _ _ _ _ H) in Hn. simpl in Hn. lia.
Qed.

(** Changing the nonces of one entry together with the accepted nonces of its publication. *)
Lemma rel_put grace now a s i e seen acc :
  Rel grace now a s -> entries s !! i = Some e ->
  (forall n, n ∈ seen -> ((oldest a + i)%nat, n) ∈ acc) ->
  (forward (jobs_of a) = true -> forall n, ((oldest a + i)%nat, n) ∈ acc ->
     n ∈ seen \/ is_stale grace now (spec_height a) (job e) (superseded_at e) = true) ->
  (forall k n, k <> (oldest a + i)%nat -> (k, n) ∈ acc <-> (k, n) ∈ accepted a) ->
  Rel grace now {| rows := rows a; accepted := acc |}
    {| entries := <[i := {| job := job e; superseded_at := superseded_at e; seen_nonces := seen |}]> (entries s);
       sent := sent s |}.
Proof.
  intros H Hi Hseen Hcl Hother. pose proof (rel_length _ _ _ _ H) as Hl. pose proof (lookup_lt_Some _ _ _ Hi) as Hlt.
  assert (Hin : forall k e', <[i := {| job := job e; superseded_at := superseded_at e; seen_nonces := seen |}]> (entries s) !! k = Some e' ->
    (k = i /\ e' = {| job := job e; superseded_at := superseded_at e; seen_nonces := seen |}) \/ (k <> i /\ entries s !! k = Some e')).
  { intros k e'. destruct (decide (k = i)) as [->|Hne].
    - rewrite list_lookup_insert_eq by done. intros [= <-]. by left.
    - rewrite list_lookup_insert_ne by done. by right. }
  split.
  - change (recent _) with (recent a). simpl. rewrite list_fmap_insert, list_insert_id; [apply H|by rewrite list_lookup_fmap, Hi].
  - simpl. intros [k n] Hp. simpl. destruct (decide (k = oldest a + i)%nat) as [->|Hne]; [lia|].
    apply Hother in Hp; [|done]. by apply (rel_bound _ _ _ _ H) in Hp.
  - change (oldest _) with (oldest a). simpl. intros k e' n [[-> ->]|[Hne Hk]]%Hin Hn; [by apply Hseen|].
    apply Hother; [lia|]. by eapply (rel_seen _ _ _ _ H).
  - change (jobs_of _) with (jobs_of a). change (spec_height _) with (spec_height a). change (oldest _) with (oldest a).
    simpl. intros Hf k e' n [[-> ->]|[Hne Hk]]%Hin Hn; [by apply Hcl|].
    apply (rel_claimed _ _ _ _ H Hf k); [done|]. apply Hother in Hn; [done|lia].
Qed.

(** The answer of the store is the registry's; only if the heights went back it may accept what
    the registry knows. *)
Definition agrees (back : Prop) (r r' : SubmissionOutcome) : Prop :=
  r = r' \/ ((exists j, r = Accepted j) /\ r' = Duplicate /\ back).

Lemma rel_submit grace now a s id nonce :
  Rel grace now a s ->
  agrees (forward (jobs_of a) = false) (record_submission now id nonce grace s).1 (spec_submit now id nonce grace a).1 /\
  Rel grace now (spec_submit now id nonce grace a).2 (record_submission now id nonce grace s).2.
Proof.
  intros H. unfold record_submission, spec_submit, agrees.
  rewrite (rel_height _ _ _ _ H), <- (rel_rows _ _ _ _ H), list_find_fmap.
  change (list_find _ (entries s)) with (list_find (fun e => job_id (job e) = id) (entries s)).
  destruct (list_find (fun e => job_id (job e) = id) (entries s)) as [[i e]|] eqn:Ef; [|by split; [left|]].
  apply list_find_Some in Ef as (Hi & <- & _). simpl.
  destruct (is_stale grace now (spec_height a) (job e) (superseded_at e)) eqn:Est; simpl.
  - split; [by left|]. destruct a as [rs acc]. apply (rel_put _ _ _ _ _ _ _ _ H Hi); [set_solver|auto|done].
  - set (n := Text.to_ascii_lowercase nonce). set (k := (oldest a + i)%nat).
    destruct (decide (n ∈ seen_nonces e)) as [Hn|Hn], (decide ((k, n) ∈ accepted a)) as [Ha|Ha]; simpl.
    + by split; [left|].
    + by destruct Ha; eapply (rel_seen _ _ _ _ H).
    + assert (Hb : forward (jobs_of a) = false).
      { destruct (forward (jobs_of a)) eqn:Hf; [|done]. destruct (rel_claimed _ _ _ _ H Hf i e n Hi Ha); [done|congruence]. }
      split; [right; eauto|]. destruct a as [rs acc]. apply (rel_put _ _ _ _ _ _ _ _ H Hi); [|congruence|done].
      intros m [->%elem_of_singleton|Hm]%elem_of_union; [done|]. by eapply (rel_seen _ _ _ _ H).
    + split; [by left|]. apply (rel_put _ _ _ _ _ _ _ _ H Hi).
      * intros m [->%elem_of_singleton|Hm]%elem_of_union; [set_solver|].
        apply elem_of_union_r. by eapply (rel_seen _ _ _ _ H).
      * intros Hf m [[= ->]%elem_of_singleton|Hm]%elem_of_union; [left; set_solver|].
        destruct (rel_claimed _ _ _ _ H Hf i e m Hi Hm); [left; set_solver|by right].
      * set_solver.
Qed.

(** A list of heights that went back stays so. *)
Lemma forward_app_false h l l' : forward_from h l = false -> forward_from h (l ++ l') = false.
Proof.
  revert h. induction l as [|j l IH]; intros h; simpl; [done|]. intros [->| ?]%andb_false_iff; [done|].
  rewrite IH by done. apply andb_false_r.
Qed.

(** An acceptance is of a publication of the id; its pair is in the registry after, and was not
    before, as long as the heights go forward. *)
Lemma accepted_claims grace now a s id n j s' :
  Rel grace now a s -> record_submission now id n grace s = (Accepted j, s') ->
  exists k, jobs_of a !! k = Some j /\ job_id j = id /\
    (k, Text.to_ascii_lowercase n) ∈ accepted (spec_submit now id n grace a).2 /\
    (forward (jobs_of a) = true -> (k, Text.to_ascii_lowercase n) ∉ accepted a).
Proof.
  intros H. unfold record_submission, spec_submit.
  rewrite (rel_height _ _ _ _ H), <- (rel_rows _ _ _ _ H), list_find_fmap.
  change (list_find _ (entries s)) with (list_find (fun e => job_id (job e) = id) (entries s)).
  destruct (list_find (fun e => job_id (job e) = id) (entries s)) as [[i e]|] eqn:Ef; [|done].
  apply list_find_Some in Ef as (Hi & Hid & _). simpl.
  destruct (is_stale grace now (spec_height a) (job e) (superseded_at e)) eqn:Est; [done|].
  destruct (decide (_ ∈ seen_nonces e)) as [|Hn]; [done|]. intros [= <- _]. exists (oldest a + i)%nat.
  split_and!; [|done|case_decide; simpl; set_solver|].
  - unfold jobs_of. rewrite list_lookup_fmap, <- lookup_drop. change (drop _ _) with (recent a).
    by rewrite <- (rel_rows _ _ _ _ H), list_lookup_fmap, Hi.
  - intros Hf Ha. destruct (rel_claimed _ _ _ _ H Hf i e _ Hi Ha); [done|congruence].
Qed.

Lemma spec_accepted_mono now id n grace a : accepted a ⊆ accepted (spec_submit now id n grace a).2.
Proof. unfold spec_submit. destruct (list_find _ _) as [[k [j' sup]]|]; [|done]. case_ifs; simpl; set_solver. Qed.

Lemma run_refines grace ops : forall now a s,
  Rel grace now a s -> well_timed now ops ->
  Forall2 (fun r r' => match r, r' with
                       | Some r, Some r' => agrees (forward (jobs_of a ++ published ops) = false) r r'
                       | None, None => True
                       | _, _ => False
                       end)
    (run (step grace) ops s).1 (run (spec_step grace) ops a).1.
Proof.
  induction ops as [|[t j|t id n] ops IH]; intros now a s H Hw; [constructor| |];
    destruct Hw as [Ht Hw]; simpl in Ht, Hw; apply (rel_later _ _ t) in H; try done; simpl.
  - pose proof (IH _ _ _ (rel_publish _ _ _ _ j H) Hw) as IH'. rewrite jobs_publish, <- app_assoc in IH'.
    rewrite (surjective_pairing (run (step grace) _ _)), (surjective_pairing (run (spec_step grace) _ _)). by constructor.
  - pose proof (rel_submit _ _ _ _ id n H) as [Heq H'].
    rewrite (surjective_pairing (record_submission _ _ _ _ _)), (surjective_pairing (spec_submit _ _ _ _ _)).
    pose proof (IH _ _ _ H' Hw) as IH'. unfold jobs_of in IH'. rewrite jobs_submit in IH'.
    rewrite (surjective_pairing (run (step grace) _ _)), (surjective_pairing (run (spec_step grace) _ _)). simpl.
    constructor; [|exact IH']. destruct Heq as [?|(? & ? & Hb)]; [by left|right]. split_and!; try done.
    unfold forward. by apply forward_app_false.
Qed.

(** What a job store operation does to the jobs of the ring. *)
Lemma step_jobs grace o s :
  job <$> entries (step grace o s).2 =
  match o with Publish _ j => ring_push RING_SIZE (job <$> entries s) j | Submit _ _ _ => job <$> entries s end.
Proof.
  destruct o as [t j|t id n]; simpl.
  - unfold ring_push. rewrite fmap_drop, fmap_app, !length_app, map_back_length, length_fmap.
    by rewrite (map_back_fmap _ (fun x => x) job), map_back_id.
  - unfold record_submission. destruct (list_find _ _) as [[i e]|] eqn:Ef; [|done].
    apply list_find_Some in Ef as (Hi & _ & _).
    case_ifs; [|done|]; simpl; by rewrite list_fmap_insert, list_insert_id by (by rewrite list_lookup_fmap, Hi).
Qed.

Lemma run_jobs grace ops : forall s l, job <$> entries s = lastn RING_SIZE l ->
  job <$> entries (run (step grace) ops s).2 = lastn RING_SIZE (l ++ published ops).
Proof.
  induction ops as [|o ops IH]; intros s l Hs; cbn [run]; [by rewrite app_nil_r|].
  pose proof (step_jobs grace o s) as Ho.
  destruct (step grace o s) as [r s'] eqn:Es. simpl in Ho.
  destruct (run (step grace) ops s') as [rs s''] eqn:Er. simpl.
  destruct o as [t j|t id n]; cbn [published].
  - rewrite cons_middle, app_assoc.
    specialize (IH s' (l ++ [j])). rewrite Er in IH. apply IH.
    rewrite Ho, Hs. apply lastn_ring_push. unfold RING_SIZE. lia.
  - specialize (IH s' l). rewrite Er in IH. apply IH. by rewrite Ho.
Qed.


(** Whatever the operations, the ring holds exactly the last 32 jobs
    published, the current job is the last of them, and a submission is turned away
    as unknown exactly when its job is not one of them. *)
Lemma ring_keeps_last_jobs grace ops now id nonce :
  let s := (run (step grace) ops new).2 in
  job <$> entries s = lastn RING_SIZE (published ops) /\
  current s = last (published ops) /\
  ((record_submission now id nonce grace s).1 = UnknownJob <->
   id ∉ job_id <$> lastn RING_SIZE (published ops)).
Proof.
  intros s. assert (Hs : job <$> entries s = lastn RING_SIZE (published ops)) by (by apply (run_jobs grace ops new [])).
  split_and!; [done| |].
  - unfold current. rewrite <- fmap_last, Hs. apply last_drop_recent. unfold RING_SIZE. lia.
  - rewrite <- Hs. unfold record_submission.
    destruct (list_find (fun e => job_id (job e) = id) (entries s)) as [[i e]|] eqn:Ef.
    + apply list_find_Some in Ef as (Hi & <- & _). split; [by case_ifs|].
      intros []. apply list_elem_of_fmap_2, list_elem_of_fmap_2. by eapply list_elem_of_lookup_2.
    + split; [|done]. intros _ (j & -> & (e & -> & He)%list_elem_of_fmap)%list_elem_of_fmap.
      apply list_find_None in Ef. rewrite Forall_forall in Ef. by apply (Ef e He).
Qed.

(** A job at height [h] with the given id. *)
Definition sample_job (id : string) (h : Z) : UpstreamJob :=
  {| job_id := id; blob_hex := ""; seed_hex := ""; upstream_target_hex := "ffffff00";
     upstream_diff := 1000; height := Some h |}.

(** Two jobs, a share replayed in other letter case, a late share of the first job. *)
Definition sample_ops : list op :=
  [Publish 1 (sample_job "a" 10); Submit 2 "a" "00FF00aa"; Submit 3 "a" "00ff00AA";
   Publish 4 (sample_job "b" 10); Submit 5 "a" "00000001"; Submit 9 "a" "00000002";
   Submit 10 "b" "00000002"; Submit 11 "c" "00000003"].


(** A height that goes back reopens an accepted pair: the pair of job ["a"] is
    forgotten when a share of it is found stale by height, and accepted again once
    the current job is at its height. *)
Example height_regression_reaccepts :
  (run (step 100)
     [Publish 1 (sample_job "a" 10); Submit 2 "a" "00000001"; Publish 3 (sample_job "b" 11);
      Submit 4 "a" "00000002"; Publish 5 (sample_job "c" 10); Submit 6 "a" "00000001"] new).1 =
  [None; Some (Accepted (sample_job "a" 10)); None; Some Stale; None; Some (Accepted (sample_job "a" 10))].
Proof. by vm_compute. Qed.

(** A job sent again under its id is judged by its first entry: the current job's
    shares go stale once the grace of the first entry is over. *)
Example republished_job_goes_stale :
  (run (step 3) [Publish 1 (sample_job "a" 10); Publish 2 (sample_job "a" 10); Submit 9 "a" "00000001"] new).1 =
  [None; None; Some Stale].
Proof. by vm_compute. Qed.

End Jobs.
