(* ===== verification/Json.v ===== *)
(** JSON documents as the code reads them: [serde_json::Value] and the accessors
    used on replies of the wallet, the upstream pool and the HTTP clients. *)
From S2P Require Import Prelude Text.
From Stdlib Require Import SpecFloat.

Module Json.

(** A number is an integer that fits [u64] or [i64], or a double. *)
Inductive Value : Type :=
| Null
| Bool (b : bool)
| Int (z : Z)
| Float (f : spec_float)
| Str (s : string)
| Array (vs : list Value)
| Object (kvs : list (string * Value)).

Fixpoint assoc (k : string) (kvs : list (string * Value)) : option Value :=
  match kvs with
  | [] => None
  | (k', v) :: kvs' => if String.eqb k k' then Some v else assoc k kvs'
  end.

(** [Value::get] with a string index. *)
Definition get (k : string) (v : Value) : option Value :=
  match v with Object kvs => assoc k kvs | _ => None end.

(** [Value::pointer], by the list of its segments. *)
Fixpoint pointer (path : list string) (v : Value) : option Value :=
  match path with
  | [] => Some v
  | k :: path' => match get k v with Some v' => pointer path' v' | None => None end
  end.

Definition as_u64 (v : Value) : option Z :=
  match v with Int z => if decide (is_u64 z) then Some z else None | _ => None end.
Definition as_i64 (v : Value) : option Z :=
  match v with Int z => if decide (is_i64 z) then Some z else None | _ => None end.
Definition as_str (v : Value) : option string :=
  match v with Str s => Some s | _ => None end.
Definition as_bool (v : Value) : option bool :=
  match v with Bool b => Some b | _ => None end.
Definition as_array (v : Value) : option (list Value) :=
  match v with Array vs => Some vs | _ => None end.
Definition is_null (v : Value) : bool :=
  match v with Null => true | _ => false end.

(** [v.get(k).and_then(Value::as_u64)] and the like. *)
Definition get_u64 (k : string) (v : Value) : option Z := get k v ≫= as_u64.
Definition get_i64 (k : string) (v : Value) : option Z := get k v ≫= as_i64.
Definition get_str (k : string) (v : Value) : option string := get k v ≫= as_str.
Definition get_bool (k : string) (v : Value) : option bool := get k v ≫= as_bool.
Definition get_array (k : string) (v : Value) : option (list Value) := get k v ≫= as_array.

(** The fields of a derived [Deserialize] structure: an object without a repeated
    known key, or an array of the fields in order, of which the last [optional] may be
    left out. *)
Definition count_key (k : string) (kvs : list (string * Value)) : nat :=
  length (filter (fun p => p.1 = k) kvs).

Definition struct_fields (names : list string) (optional : nat) (v : Value) : option (list (string * Value)) :=
  match v with
  | Object kvs => if forallb (fun k => count_key k kvs <=? 1)%nat names then Some kvs else None
  | Array vs =>
      if ((length names - optional <=? length vs) && (length vs <=? length names))%nat
      then Some (zip names vs) else None
  | _ => None
  end.

(** A field of type [Value], [String] and [Option<String>]. *)
Definition field_value (k : string) (kvs : list (string * Value)) : option Value := assoc k kvs.
Definition field_string (k : string) (kvs : list (string * Value)) : option string := assoc k kvs ≫= as_str.
Definition field_opt_string (k : string) (kvs : list (string * Value)) : option (option string) :=
  match assoc k kvs with
  | None | Some Null => Some None
  | Some (Str s) => Some (Some s)
  | Some _ => None
  end.

Lemma number_u64_range v z : as_u64 v = Some z -> is_u64 z.
Proof. destruct v; simpl; try done. case_decide; naive_solver. Qed.

Lemma get_u64_range k v z : get_u64 k v = Some z -> is_u64 z.
Proof.
  unfold get_u64. destruct (get k v) as [v'|]; [|done]. simpl. apply number_u64_range.
Qed.

End Json.
