(* ===== verification/Share.v ===== *)
(** The verification of a submitted share (stratum-proxy/src/share.rs) and the
    policy that decides which shares are verified (sample.rs).  The random source
    is a parameter. *)
From S2P Require Import Prelude Text Floats Hex Stratum Jobs.

(** [Rng::gen_bool]: a draw, and the generator after it; a probability of zero never
    draws [true], a probability of one always does. *)
Class Rng (G : Type) := { gen_bool : F.f64 -> G -> bool * G }.
Class RngLaws (G : Type) (R : Rng G) : Prop := {
  gen_bool_zero : forall g, (gen_bool F.zero g).1 = false;
  gen_bool_one : forall g, (gen_bool F.one g).1 = true;
}.

Module Share.

Record SampleConfig : Type := { warmup : Z; sample_rate : F.f64 }.

(** [SampleConfig::from(&StratumConfig)], on the two fields it reads. *)
Definition sample_config (verification_warmup : Z) (verification_sample_rate : F.f64) : SampleConfig :=
  {| warmup := verification_warmup; sample_rate := F.fclamp F.zero F.one verification_sample_rate |}.

Definition should_verify {G} `{Rng G} (verified_count : Z) (cfg : SampleConfig) (rng : G) : bool * G :=
  if verified_count <? warmup cfg then (true, rng)
  else gen_bool (F.fclamp F.zero F.one (sample_rate cfg)) rng.

Inductive ShareOutcome : Type :=
| Accepted (forwarded : bool)
| BelowDifficulty
| InvalidHash
| UnknownJob
| BadBlob.

Record VerifyInput : Type := {
  in_miner : Address;
  in_job : Jobs.UpstreamJob;
  session_difficulty : Z;
  nonce_hex : string;
  claimed_result_hex : string;
}.

(** A credited share (pool-core/src/types.rs). *)
Record ShareAccepted : Type := {
  sh_miner : Address;
  sh_job_id : string;
  sh_difficulty : Z;
  accepted_at : Z;
  forwarded_upstream : bool;
}.

Definition zero_hash : list Z := replicate 32 0.

Section Verify.
Context `{Hx : Hex}.

(** The two difficulty checks at the end of both paths. *)
Definition judge (hash : list Z) (i : VerifyInput) : ShareOutcome * list Z :=
  if negb (Stratum.meets_difficulty hash (session_difficulty i)) then (BelowDifficulty, hash)
  else (Accepted (Stratum.meets_difficulty hash (Jobs.upstream_diff (in_job i))), hash).

Definition accept_claimed_result (i : VerifyInput) : anyhow (ShareOutcome * list Z) :=
  match decode (claimed_result_hex i) with
  | Some b => if (length b =? 32)%nat then Ok (judge b i) else Ok (BadBlob, zero_hash)
  | None => Ok (BadBlob, zero_hash)
  end.

Definition verify_share (verifier : Stratum.Verifier) (i : VerifyInput) : anyhow (ShareOutcome * list Z) :=
  match decode (nonce_hex i) with
  | None => Err "bad nonce hex"
  | Some nonce =>
      if negb (length nonce =? Stratum.NONCE_LEN)%nat then Ok (BadBlob, zero_hash)
      else match Stratum.assemble_blob_with_nonce (Jobs.blob_hex (in_job i)) (nonce_hex i) with
           | Err _ => Ok (BadBlob, zero_hash)
           | Ok blob =>
               let seed := match decode (Jobs.seed_hex (in_job i)) with
                           | Some s => if (length s =? 32)%nat then s else zero_hash
                           | None => zero_hash
                           end in
               match verifier seed blob with
               | Err e => Err e
               | Ok hash => Ok (judge hash i)
               end
           end
  end.

(** The seed a job is hashed under: the 32 bytes its text stands for, and zeros when the text
    is not that of 32 bytes. *)
Definition seed_of (j : Jobs.UpstreamJob) (seed : list Z) : Prop :=
  (decode (Jobs.seed_hex j) = Some seed /\ length seed = 32%nat) \/
  ((forall s, decode (Jobs.seed_hex j) = Some s -> length s <> 32%nat) /\ seed = zero_hash).

(** What an accepted share shows, on the path that was taken: verified, the hash is that of the
    job's blob with the share's nonce under the job's seed; not verified, it is what the miner
    claims. *)
Definition share_evidence (verifier : Stratum.Verifier) (verified : bool) (i : VerifyInput) (hash : list Z) : Prop :=
  if verified then
    exists seed blob, seed_of (in_job i) seed /\
      Stratum.assemble_blob_with_nonce (Jobs.blob_hex (in_job i)) (nonce_hex i) = Ok blob /\
      verifier seed blob = Ok hash
  else decode (claimed_result_hex i) = Some hash /\ length hash = 32%nat.

Lemma judge_accepted hash i fwd h :
  judge hash i = (Accepted fwd, h) ->
  h = hash /\ Stratum.meets_difficulty hash (session_difficulty i) = true /\
  fwd = Stratum.meets_difficulty hash (Jobs.upstream_diff (in_job i)).
Proof.
  unfold judge. destruct (Stratum.meets_difficulty hash (session_difficulty i)); naive_solver.
Qed.

Lemma claimed_accepted verifier i fwd h :
  accept_claimed_result i = Ok (Accepted fwd, h) ->
  share_evidence verifier false i h /\ Stratum.meets_difficulty h (session_difficulty i) = true /\
  fwd = Stratum.meets_difficulty h (Jobs.upstream_diff (in_job i)).
Proof.
  unfold accept_claimed_result, share_evidence. destruct (decode _) as [b|]; [|done].
  destruct (Nat.eqb_spec (length b) 32) as [Hl|]; [|done].
  intros [= Hj]. by apply judge_accepted in Hj as (-> & ? & ?).
Qed.

Lemma verified_accepted verifier i fwd h :
  verify_share verifier i = Ok (Accepted fwd, h) ->
  share_evidence verifier true i h /\ Stratum.meets_difficulty h (session_difficulty i) = true /\
  fwd = Stratum.meets_difficulty h (Jobs.upstream_diff (in_job i)).
Proof.
  unfold verify_share, share_evidence. destruct (decode (nonce_hex i)) as [n|]; [|done].
  destruct (negb _); [done|]. destruct (Stratum.assemble_blob_with_nonce _ _) as [blob|] eqn:Eb; [|done].
  match goal with |- context [verifier ?s blob] => set (seed := s); destruct (verifier seed blob) as [hash|] eqn:Ev end; [|done].
  intros [= Hj]. apply judge_accepted in Hj as (-> & ? & ?). split; [|done]. exists seed, blob. split; [|done].
  unfold seed, seed_of. destruct (decode (Jobs.seed_hex (in_job i))) as [sd|] eqn:Es; [|right; naive_solver].
  destruct (Nat.eqb_spec (length sd) 32); [by left|right; naive_solver].
Qed.

End Verify.

End Share.
