(* ===== verification/Session.v ===== *)
(** A miner's connection (stratum-proxy/src/session.rs and protocol.rs), and the
    system of all the connections over one job store.

    A handler runs over the session's own state and the state the sessions share
    (the job store, the credit sink, the queue of shares for the upstream pool, the
    live-session gauge and the worker-byte counter).  It ends with a value, an error
    that closes the connection, or a panic of its task.  The handler of a submit
    touches the shared state twice, when it claims the pair of job and nonce and when
    it credits the share: it is written as two parts, [begin_request] and [settle],
    and other sessions run between them. *)
From Stdlib Require Import Ascii.
From S2P Require Import Prelude Text Floats Json Hex Stratum Jobs Share Vardiff.

Module Session.

Record StratumConfig : Type := {
  min_share_difficulty : Z;
  target_seconds_per_share : Z;
  verification_warmup : Z;
  verification_sample_rate : F.f64;
  share_grace_secs : Z;
  vardiff_cfg : Vardiff.VardiffConfig;
}.

(** ** Messages *)

Record Request : Type := {
  req_id : Json.Value;
  req_jsonrpc : option string;
  req_method : string;
  req_params : Json.Value;
}.

Record ErrorObj : Type := { code : Z; message : string }.

Record Response : Type := {
  resp_id : Json.Value;
  resp_jsonrpc : option string;
  resp_result : option Json.Value;
  resp_error : option ErrorObj;
}.

Record LoginParams : Type := {
  login : string; pass : option string; agent : option string; rigid : option string;
}.

Record SubmitParams : Type := {
  sub_id : string; sub_job_id : string; nonce : string; sub_result : string;
}.

(** A line written to the miner: a response, or a notification. *)
Inductive Msg : Type :=
| Resp (r : Response)
| Notif (v : Json.Value).

Definition request_of (v : Json.Value) : option Request :=
  kvs ← Json.struct_fields ["id"; "jsonrpc"; "method"; "params"] 0 v;
  i ← Json.field_value "id" kvs;
  j ← Json.field_opt_string "jsonrpc" kvs;
  m ← Json.field_string "method" kvs;
  p ← Json.field_value "params" kvs;
  Some {| req_id := i; req_jsonrpc := j; req_method := m; req_params := p |}.

Definition login_of (v : Json.Value) : option LoginParams :=
  kvs ← Json.struct_fields ["login"; "pass"; "agent"; "rigid"] 1 v;
  l ← Json.field_string "login" kvs;
  p ← Json.field_opt_string "pass" kvs;
  a ← Json.field_opt_string "agent" kvs;
  r ← Json.field_opt_string "rigid" kvs;
  Some {| login := l; pass := p; agent := a; rigid := r |}.

Definition submit_of (v : Json.Value) : option SubmitParams :=
  kvs ← Json.struct_fields ["id"; "job_id"; "nonce"; "result"] 0 v;
  i ← Json.field_string "id" kvs;
  j ← Json.field_string "job_id" kvs;
  n ← Json.field_string "nonce" kvs;
  r ← Json.field_string "result" kvs;
  Some {| sub_id := i; sub_job_id := j; nonce := n; sub_result := r |}.

Definition ok_response (id result : Json.Value) : Msg :=
  Resp {| resp_id := id; resp_jsonrpc := Some "2.0"; resp_result := Some result; resp_error := None |}.
Definition error_response (id : Json.Value) (c : Z) (m : string) : Msg :=
  Resp {| resp_id := id; resp_jsonrpc := Some "2.0"; resp_result := None;
          resp_error := Some {| code := c; message := m |} |}.

(** ** The nonce partition *)

(** The bytes of a text between two offsets, and from an offset on. *)
Definition sub (a b : nat) (s : string) : string := String.substring a (b - a) s.
Definition from (a : nat) (s : string) : string := String.substring a (String.length s - a) s.

(** [is_char_boundary]: a text is cut only where no UTF-8 continuation byte starts. *)
Definition continuation (c : ascii) : bool :=
  let n := Z.of_nat (nat_of_ascii c) in (128 <=? n) && (n <? 192).

Definition is_char_boundary (s : string) (i : nat) : bool :=
  (i =? String.length s)%nat ||
  match String.get i s with Some c => negb (continuation c) | None => false end.

Definition NONCE_HI_HEX : nat := (Stratum.NONCE_OFFSET + Stratum.NONCE_LEN - 1) * 2.

(** [format!("{worker_byte:02x}")]. *)
Definition byte_hex (b : Z) : string := Text.hex_encode [b].

(** [None] is the panic of [replace_range] off a character boundary. *)
Definition stamp_worker_byte (blob_hex : string) (worker_byte : Z) : option string :=
  if (String.length blob_hex <? NONCE_HI_HEX + 2)%nat then Some blob_hex
  else if is_char_boundary blob_hex NONCE_HI_HEX && is_char_boundary blob_hex (NONCE_HI_HEX + 2)
  then Some (sub 0 NONCE_HI_HEX blob_hex +:+ byte_hex worker_byte +:+ from (NONCE_HI_HEX + 2) blob_hex)
  else None.

(** [u8::from_str_radix(s, 16)]: an optional plus sign and at least one digit. *)
Definition u8_of_hex (s : string) : option Z :=
  let digits :=
    fix go (acc : Z) (s : string) : option Z :=
      match s with
      | EmptyString => Some acc
      | String c s' => match Text.nibble c with Some d => go (acc * 16 + d) s' | None => None end
      end in
  let body := match s with String "+" s' => s' | _ => s end in
  match body with
  | EmptyString => None
  | _ => match digits 0 body with Some n => if n <=? u8_max then Some n else None | None => None end
  end.

(** The outer [None] is the panic of a slice off a character boundary. *)
Definition nonce_high_byte (nonce_hex : string) : option (option Z) :=
  if negb (String.length nonce_hex =? Stratum.NONCE_LEN * 2)%nat then Some None
  else let at_ := ((Stratum.NONCE_LEN - 1) * 2)%nat in
       if is_char_boundary nonce_hex at_ then Some (u8_of_hex (from at_ nonce_hex)) else None.

(** ** The advertised difficulties *)

Definition ADVERTISED_CAP : nat := 16.

Definition note_advertised (adv : list (string * Z)) (job_id : string) (diff : Z) : list (string * Z) :=
  if existsb (fun p => String.eqb p.1 job_id) adv then adv else ring_push ADVERTISED_CAP adv (job_id, diff).

Definition advertised_diff (adv : list (string * Z)) (job_id : string) : option Z :=
  (fun r => r.2.2) <$> list_find (fun p => p.1 = job_id) (reverse adv).

(** ** State *)

(** A share handed to the sink: [cr_share] is what the sink is given, the rest is
    what it was judged on, the verified shares the session had counted and the lines
    sent to the miner before. *)
Record Credit : Type := {
  cr_share : Share.ShareAccepted;
  cr_nonce : string;
  cr_job : Jobs.UpstreamJob;
  cr_input : Share.VerifyInput;
  cr_verified : bool;
  cr_count : Z;
  cr_hash : list Z;
  cr_sent : list Msg;
}.

Record UpstreamSubmit : Type := { us_job_id : string; us_nonce_hex : string; us_result_hex : string }.

Record Shared : Type := {
  jobs : Jobs.JobStore;
  credited : list Credit;
  submits : list UpstreamSubmit;
  gauge : Z;
  worker_seq : Z;
}.

Record Sess (G : Type) : Type := {
  session_id : string;
  worker_byte : Z;
  miner : option Address;
  guarded : bool;
  vardiff : Vardiff.t;
  advertised : list (string * Z);
  verified_count : Z;
  rng : G;
  out : list Msg;
}.
Arguments session_id {G}. Arguments worker_byte {G}. Arguments miner {G}. Arguments guarded {G}.
Arguments vardiff {G}. Arguments advertised {G}. Arguments verified_count {G}. Arguments rng {G}.
Arguments out {G}.

(** Field updates. *)
Definition set_miner {G} (a : option Address) (s : Sess G) : Sess G :=
  {| session_id := session_id s; worker_byte := worker_byte s; miner := a; guarded := guarded s;
     vardiff := vardiff s; advertised := advertised s; verified_count := verified_count s; rng := rng s; out := out s |}.
Definition set_guarded {G} (b : bool) (s : Sess G) : Sess G :=
  {| session_id := session_id s; worker_byte := worker_byte s; miner := miner s; guarded := b;
     vardiff := vardiff s; advertised := advertised s; verified_count := verified_count s; rng := rng s; out := out s |}.
Definition set_vardiff {G} (v : Vardiff.t) (s : Sess G) : Sess G :=
  {| session_id := session_id s; worker_byte := worker_byte s; miner := miner s; guarded := guarded s;
     vardiff := v; advertised := advertised s; verified_count := verified_count s; rng := rng s; out := out s |}.
Definition set_advertised {G} (a : list (string * Z)) (s : Sess G) : Sess G :=
  {| session_id := session_id s; worker_byte := worker_byte s; miner := miner s; guarded := guarded s;
     vardiff := vardiff s; advertised := a; verified_count := verified_count s; rng := rng s; out := out s |}.
Definition set_verified_count {G} (n : Z) (s : Sess G) : Sess G :=
  {| session_id := session_id s; worker_byte := worker_byte s; miner := miner s; guarded := guarded s;
     vardiff := vardiff s; advertised := advertised s; verified_count := n; rng := rng s; out := out s |}.
Definition set_rng {G} (g : G) (s : Sess G) : Sess G :=
  {| session_id := session_id s; worker_byte := worker_byte s; miner := miner s; guarded := guarded s;
     vardiff := vardiff s; advertised := advertised s; verified_count := verified_count s; rng := g; out := out s |}.
Definition set_out {G} (o : list Msg) (s : Sess G) : Sess G :=
  {| session_id := session_id s; worker_byte := worker_byte s; miner := miner s; guarded := guarded s;
     vardiff := vardiff s; advertised := advertised s; verified_count := verified_count s; rng := rng s; out := o |}.

Definition set_jobs (j : Jobs.JobStore) (g : Shared) : Shared :=
  {| jobs := j; credited := credited g; submits := submits g; gauge := gauge g; worker_seq := worker_seq g |}.
Definition add_credit (c : Credit) (g : Shared) : Shared :=
  {| jobs := jobs g; credited := credited g ++ [c]; submits := submits g; gauge := gauge g; worker_seq := worker_seq g |}.
Definition add_submit (u : UpstreamSubmit) (g : Shared) : Shared :=
  {| jobs := jobs g; credited := credited g; submits := submits g ++ [u]; gauge := gauge g; worker_seq := worker_seq g |}.
Definition add_gauge (d : Z) (g : Shared) : Shared :=
  {| jobs := jobs g; credited := credited g; submits := submits g; gauge := gauge g + d; worker_seq := worker_seq g |}.
Definition next_worker (g : Shared) : Shared :=
  {| jobs := jobs g; credited := credited g; submits := submits g; gauge := gauge g;
     worker_seq := (worker_seq g + 1) mod 256 |}.

(** ** Handlers *)

Definition H (G A : Type) : Type := Sess G -> Shared -> outcome A * Sess G * Shared.

Definition hret {G A} (a : A) : H G A := fun s g => (ORet a, s, g).
Definition herr {G A} (e : string) : H G A := fun s g => (OErr e, s, g).
Definition hpanic {G A} : H G A := fun s g => (OCrash, s, g).
Definition hbind {G A B} (m : H G A) (k : A -> H G B) : H G B := fun s g =>
  match m s g with
  | (ORet a, s', g') => k a s' g'
  | (OErr e, s', g') => (OErr e, s', g')
  | (OCrash, s', g') => (OCrash, s', g')
  end.
Notation "'let!' x := m 'in' k" := (hbind m (fun x => k)) (at level 10, x pattern, m at level 100, k at level 200).
Notation "'do!' m 'in' k" := (hbind m (fun _ => k)) (at level 10, m at level 100, k at level 200).

Definition hget {G} : H G (Sess G) := fun s g => (ORet s, s, g).
Definition hput {G} (f : Sess G -> Sess G) : H G unit := fun s g => (ORet tt, f s, g).
Definition shared_get {G A} (f : Shared -> A) : H G A := fun s g => (ORet (f g), s, g).
Definition shared_put {G} (f : Shared -> Shared) : H G unit := fun s g => (ORet tt, s, f g).

(** What the session reaches outside the program: the socket, the JSON parser and
    the address parser. *)
Class SessionEnv := {
  write_ok : list Msg -> Msg -> bool;
  from_str : string -> option Json.Value;
  parse_address : string -> option Address;
}.

(** A claimed submit, on its way to verification. *)
Record Pending : Type := {
  pd_id : Json.Value;
  pd_addr : Address;
  pd_params : SubmitParams;
  pd_job : Jobs.UpstreamJob;
}.

Section Handlers.
Context {G : Type} `{Rng G} `{Hx : Hex} `{SessionEnv}.
Variable (verifier : Stratum.Verifier) (cfg : StratumConfig).

Definition sample_cfg : Share.SampleConfig :=
  Share.sample_config (verification_warmup cfg) (verification_sample_rate cfg).
Definition share_grace : Z := share_grace_secs cfg * 10 ^ 9.

Definition new_session (now : Z) (id : string) (seed : G) (byte : Z) : Sess G :=
  {| session_id := id; worker_byte := byte; miner := None; guarded := false;
     vardiff := Vardiff.new now (min_share_difficulty cfg) (u64_saturating_mul (min_share_difficulty cfg) 2)
                  (u64_max / 2) (target_seconds_per_share cfg) (vardiff_cfg cfg);
     advertised := []; verified_count := 0; rng := seed; out := [] |}.

Definition write_line (m : Msg) : H G unit := fun s g =>
  if write_ok (out s) m then (ORet tt, set_out (out s ++ [m]) s, g) else (OErr "write", s, g).

Definition job_to_json (id : string) (job : Jobs.UpstreamJob) (local_diff byte : Z) : option Json.Value :=
  match stamp_worker_byte (Jobs.blob_hex job) byte with
  | None => None
  | Some blob =>
      Some (Json.Object
        [("id", Json.Str id); ("job_id", Json.Str (Jobs.job_id job)); ("blob", Json.Str blob);
         ("seed_hash", Json.Str (Jobs.seed_hex job)); ("target", Json.Str (Stratum.diff_to_target_hex local_diff));
         ("height", match Jobs.height job with Some h => Json.Int h | None => Json.Null end)])
  end.

(** Pin the cap, retarget, remember the difficulty: both places that serve a job. *)
Definition serve_job (now now' : Z) (j : Jobs.UpstreamJob) : H G Json.Value :=
  let! s := hget in
  match Vardiff.boundary now now' (Jobs.upstream_diff j) (vardiff s) with
  | None => hpanic
  | Some (d, v) =>
      do! hput (set_vardiff v) in
      do! hput (fun s => set_advertised (note_advertised (advertised s) (Jobs.job_id j) d) s) in
      match job_to_json (session_id s) j d (worker_byte s) with
      | None => hpanic
      | Some v => hret v
      end
  end.

(** A new job from the broadcast channel. *)
Definition on_job (now now' : Z) (j : Jobs.UpstreamJob) : H G unit :=
  let! s := hget in
  match miner s with
  | None => hret tt
  | Some _ =>
      let! params := serve_job now now' j in
      write_line (Notif (Json.Object [("jsonrpc", Json.Str "2.0"); ("method", Json.Str "job"); ("params", params)]))
  end.

Definition handle_login (now now' : Z) (req : Request) : H G bool :=
  match login_of (req_params req) with
  | None => herr "login params"
  | Some p =>
      match parse_address (Text.trim (login p)) with
      | Some addr =>
          do! hput (set_miner (Some addr)) in
          let! cur := shared_get (fun g => Jobs.current (jobs g)) in
          let! job_json := match cur with Some j => serve_job now now' j | None => hret Json.Null end in
          let! s := hget in
          do! write_line (ok_response (req_id req)
                (Json.Object [("id", Json.Str (session_id s)); ("job", job_json); ("status", Json.Str "OK");
                              ("extensions", Json.Array [Json.Str "nicehash"])])) in
          hret true
      | None =>
          do! write_line (error_response (req_id req) (-1) "login must be a valid 0x... EVM address") in
          hret true
      end
  end.

(** The first part of a submit, up to the claim of the pair: [inl] when the request
    ends there. *)
Definition submit_claim (now : Z) (req : Request) : H G (bool + Pending) :=
  let! s := hget in
  match miner s with
  | None => do! write_line (error_response (req_id req) (-2) "not logged in") in hret (inl true)
  | Some addr =>
      match submit_of (req_params req) with
      | None => herr "submit params"
      | Some p =>
          match nonce_high_byte (nonce p) with
          | None => hpanic
          | Some _ =>
              let! r := (fun s g =>
                let '(r, j) := Jobs.record_submission now (sub_job_id p) (nonce p) share_grace (jobs g) in
                (ORet r, s, set_jobs j g)) in
              match r with
              | Jobs.Accepted job => hret (inr {| pd_id := req_id req; pd_addr := addr; pd_params := p; pd_job := job |})
              | Jobs.Duplicate => do! write_line (error_response (req_id req) (-3) "duplicate share") in hret (inl true)
              | Jobs.UnknownJob => do! write_line (error_response (req_id req) (-4) "unknown job") in hret (inl true)
              | Jobs.Stale => do! write_line (error_response (req_id req) (-8) "stale share") in hret (inl true)
              end
          end
      end
  end.

Definition begin_request (now now' : Z) (req : Request) : H G (bool + Pending) :=
  if String.eqb (req_method req) "login" then let! b := handle_login now now' req in hret (inl b)
  else if String.eqb (req_method req) "submit" then submit_claim now req
  else if String.eqb (req_method req) "keepalived" then
    do! write_line (ok_response (req_id req) (Json.Object [("status", Json.Str "KEEPALIVED")])) in hret (inl true)
  else hret (inl true).

(** The code and the message of a rejection. *)
Definition rejection (o : Share.ShareOutcome) : Z * string :=
  match o with
  | Share.BelowDifficulty => (-5, "below local difficulty")
  | Share.InvalidHash => (-6, "invalid hash")
  | Share.UnknownJob => (-4, "unknown job")
  | Share.BadBlob => (-7, "bad blob")
  | Share.Accepted _ => (0, "")
  end.

(** The second part of a submit: verification, credit, forwarding and the reply. *)
Definition settle (now utc : Z) (p : Pending) : H G bool :=
  let! s := hget in
  let q := pd_params p in
  let check_diff := opt_or (Vardiff.min (vardiff s)) (advertised_diff (advertised s) (sub_job_id q)) in
  let '(did_verify, rng') := Share.should_verify (verified_count s) sample_cfg (rng s) in
  do! hput (set_rng rng') in
  let input := {| Share.in_miner := pd_addr p; Share.in_job := pd_job p; Share.session_difficulty := check_diff;
                  Share.nonce_hex := nonce q; Share.claimed_result_hex := sub_result q |} in
  match (if did_verify then Share.verify_share verifier input else Share.accept_claimed_result input) with
  | Err e => herr e
  | Ok (Share.Accepted forwarded, hash) =>
      do! (if did_verify then hput (fun s => set_verified_count (u32_saturating_add (verified_count s) 1) s) else hret tt) in
      do! hput (fun s => set_vardiff (Vardiff.on_share now (vardiff s)) s) in
      let share := {| Share.sh_miner := pd_addr p; Share.sh_job_id := sub_job_id q; Share.sh_difficulty := check_diff;
                      Share.accepted_at := utc; Share.forwarded_upstream := forwarded |} in
      do! shared_put (add_credit {| cr_share := share; cr_nonce := nonce q; cr_job := pd_job p; cr_input := input;
                                    cr_verified := did_verify; cr_count := verified_count s; cr_hash := hash; cr_sent := out s |}) in
      do! (if forwarded
           then shared_put (add_submit {| us_job_id := sub_job_id q; us_nonce_hex := nonce q; us_result_hex := sub_result q |})
           else hret tt) in
      do! write_line (ok_response (pd_id p) (Json.Object [("status", Json.Str "OK")])) in
      hret true
  | Ok (err, _) =>
      let kick := did_verify && (verified_count s =? 0) &&
                  match err with Share.BelowDifficulty | Share.InvalidHash | Share.BadBlob => true | _ => false end in
      do! hput (set_verified_count 0) in
      let '(c, m) := rejection err in
      do! write_line (error_response (pd_id p) c m) in
      hret (negb kick)
  end.

(** The whole of [handle_request], undisturbed. *)
Definition handle_request (now now' settle_now utc : Z) (req : Request) : H G bool :=
  let! r := begin_request now now' req in
  match r with
  | inl keep => hret keep
  | inr p => settle settle_now utc p
  end.

(** After a request: the guard is armed by the first login. *)
Definition after_request (keep : bool) : H G bool :=
  let! s := hget in
  do! (if negb (guarded s) && match miner s with Some _ => true | None => false end
       then do! shared_put (add_gauge 1) in hput (set_guarded true)
       else hret tt) in
  hret keep.

(** ** The loop of a connection *)

(** What the read half gives: an error, the idle timeout, or a line (empty at the
    end of the stream, without its newline when the cap was reached). *)
Inductive read : Type := ReadErr | IdleTimeout | Line (l : string).

(** How an iteration of the loop ends. *)
Inductive next : Type := Close | Keep | Settle (p : Pending).

Definition finish (keep : bool) : H G next :=
  let! k := after_request keep in hret (if k then Keep else Close).

Definition ends_with_newline (l : string) : bool :=
  match String.get (String.length l - 1) l with Some c => Ascii.eqb c "010" | None => false end.

Definition receive (now now' : Z) (r : read) : H G next :=
  match r with
  | ReadErr => herr "read"
  | IdleTimeout => hret Close
  | Line l =>
      if String.eqb l "" then hret Close
      else if negb (ends_with_newline l) then hret Close
      else match from_str (Text.trim l) ≫= request_of with
           | None => hret Keep
           | Some req =>
               let! r := begin_request now now' req in
               match r with inl keep => finish keep | inr p => hret (Settle p) end
           end
  end.

Definition resume (now utc : Z) (p : Pending) : H G next :=
  let! b := settle now utc p in finish b.

(** ** The system *)

Inductive phase : Type := Idle | Settling (p : Pending).

Record Sys : Type := {
  clock : Z;
  shared : Shared;
  sessions : gmap nat (Sess G * phase);
}.

(** The end of a connection's task: the guard is dropped with it. *)
Definition close (i : nat) (s : Sess G) (g : Shared) (m : gmap nat (Sess G * phase)) : Shared * gmap nat (Sess G * phase) :=
  (if guarded s then add_gauge (-1) g else g, delete i m).

Definition conclude (i : nat) (r : outcome next * Sess G * Shared) (m : gmap nat (Sess G * phase))
    : Shared * gmap nat (Sess G * phase) :=
  match r with
  | (ORet Keep, s, g) => (g, <[i := (s, Idle)]> m)
  | (ORet (Settle p), s, g) => (g, <[i := (s, Settling p)]> m)
  | (ORet Close, s, g) | (OErr _, s, g) | (OCrash, s, g) => close i s g m
  end.

Definition on_job_next (now now' : Z) (j : Jobs.UpstreamJob) : H G next :=
  do! on_job now now' j in hret Keep.

(** A step: a connection, a job of the upstream pool (any job), a job broadcast to an idle session, a read of an idle session,
    and the second part of a submit.  Every step reads the clock later than the one
    before. *)
Inductive step : Sys -> Sys -> Prop :=
| StepConnect y now i id seed :
    sessions y !! i = None -> clock y <= now ->
    step y {| clock := now; shared := next_worker (shared y);
              sessions := <[i := (new_session now id seed (worker_seq (shared y)), Idle)]> (sessions y) |}
| StepPublish y now j :
    clock y <= now ->
    step y {| clock := now;
              shared := set_jobs (Jobs.publish now j (jobs (shared y))) (shared y); sessions := sessions y |}
| StepJob y now now' i s j g' m' :
    clock y <= now -> sessions y !! i = Some (s, Idle) -> j ∈ Jobs.sent (jobs (shared y)) ->
    conclude i (on_job_next now now' j s (shared y)) (sessions y) = (g', m') ->
    step y {| clock := now; shared := g'; sessions := m' |}
| StepRead y now now' i s r g' m' :
    clock y <= now -> sessions y !! i = Some (s, Idle) ->
    conclude i (receive now now' r s (shared y)) (sessions y) = (g', m') ->
    step y {| clock := now; shared := g'; sessions := m' |}
| StepSettle y now utc i s p g' m' :
    clock y <= now -> sessions y !! i = Some (s, Settling p) ->
    conclude i (resume now utc p s (shared y)) (sessions y) = (g', m') ->
    step y {| clock := now; shared := g'; sessions := m' |}.

Definition init (now : Z) : Sys :=
  {| clock := now;
     shared := {| jobs := Jobs.new; credited := []; submits := []; gauge := 0; worker_seq := 0 |};
     sessions := ∅ |}.

End Handlers.

End Session.
