(* ===== verification/SessionSafety.v ===== *)
(** What the stratum sessions guarantee together: no share is credited twice, every
    credit is backed by a hash and a difficulty the miner was told, the live-session
    gauge counts the logged-in connections, and the nonce partition. *)
From stdpp Require Import functions.
From Stdlib Require Import Ascii.
From S2P Require Import Prelude Text Floats Json Hex Stratum Jobs Share Vardiff Session.

Module SessionSafety.
Import Session.

(** ** Rules for handlers *)

Section Rules.
Context {G : Type}.
Implicit Types P E : Sess G -> Shared -> Prop.

(** From [P], a value leaves the state in [Q], an error or a panic leaves it in [E]. *)
Definition triple P {A} (m : H G A) (Q : A -> Sess G -> Shared -> Prop) E : Prop :=
  forall s g, P s g ->
  match m s g with
  | (ORet a, s', g') => Q a s' g'
  | (OErr _, s', g') | (OCrash, s', g') => E s' g'
  end.

Lemma triple_ret P {A} (a : A) (Q : A -> Sess G -> Shared -> Prop) E :
  (forall s g, P s g -> Q a s g) -> triple P (hret a) Q E.
Proof. intros HQ s g Hs. by apply HQ. Qed.

Lemma triple_err P {A} e (Q : A -> Sess G -> Shared -> Prop) E :
  (forall s g, P s g -> E s g) -> triple P (herr e) Q E.
Proof. intros HE s g Hs. by apply HE. Qed.

Lemma triple_panic P {A} (Q : A -> Sess G -> Shared -> Prop) E :
  (forall s g, P s g -> E s g) -> triple P hpanic Q E.
Proof. intros HE s g Hs. by apply HE. Qed.

Lemma triple_bind P {A B} (m : H G A) (k : A -> H G B) Q S E :
  triple P m S E -> (forall a, triple (S a) (k a) Q E) -> triple P (hbind m k) Q E.
Proof.
  intros Hm Hk s g Hs. specialize (Hm s g Hs). unfold hbind.
  destruct (m s g) as [[[a|e|] s'] g']; [by apply Hk|done..].
Qed.

Lemma triple_get P {B} (k : Sess G -> H G B) Q E :
  (forall s0, triple (fun s g => P s g /\ s = s0) (k s0) Q E) -> triple P (hbind hget k) Q E.
Proof. intros Hk s g Hs. by apply (Hk s s g). Qed.

Lemma triple_shared_get P {A B} (f : Shared -> A) (k : A -> H G B) Q E :
  (forall g0, triple (fun s g => P s g /\ g = g0) (k (f g0)) Q E) -> triple P (hbind (shared_get f) k) Q E.
Proof. intros Hk s g Hs. by apply (Hk g s g). Qed.

Lemma triple_put P {B} (f : Sess G -> Sess G) (k : unit -> H G B) Q E :
  triple (fun s g => exists s0, P s0 g /\ s = f s0) (k tt) Q E -> triple P (hbind (hput f) k) Q E.
Proof. intros Hk s g Hs. apply (Hk (f s) g). eauto. Qed.

Lemma triple_shared_put P {B} (f : Shared -> Shared) (k : unit -> H G B) Q E :
  triple (fun s g => exists g0, P s g0 /\ g = f g0) (k tt) Q E -> triple P (hbind (shared_put f) k) Q E.
Proof. intros Hk s g Hs. apply (Hk s (f g)). eauto. Qed.

Lemma triple_pre P P' {A} (m : H G A) Q E :
  (forall s g, P s g -> P' s g) -> triple P' m Q E -> triple P m Q E.
Proof. intros HP Hm s g Hs. by apply Hm, HP. Qed.

Lemma triple_conseq P {A} (m : H G A) (Q Q' : A -> Sess G -> Shared -> Prop) (E E' : Sess G -> Shared -> Prop) :
  triple P m Q' E' -> (forall a s g, Q' a s g -> Q a s g) -> (forall s g, E' s g -> E s g) -> triple P m Q E.
Proof. intros Hm HQ HE s g Hs. specialize (Hm s g Hs). destruct (m s g) as [[[a|e|] s'] g']; auto. Qed.

Lemma triple_write `{SessionEnv} P {B} (m : Msg) (k : unit -> H G B) Q E :
  (forall s g, P s g -> E s g) ->
  triple (fun s g => exists s0, P s0 g /\ s = set_out (out s0 ++ [m]) s0) (k tt) Q E ->
  triple P (hbind (write_line m) k) Q E.
Proof.
  intros HE Hk s g Hs. unfold hbind, write_line. destruct (write_ok (out s) m); [|by apply HE].
  apply Hk. eauto.
Qed.

End Rules.

(** ** What a session keeps *)

(** The job a line served, if any, and the difficulties served for a job. *)
Definition msg_job (m : Msg) : option Json.Value :=
  match m with
  | Notif v => Json.get "params" v
  | Resp r => resp_result r ≫= Json.get "job"
  end.

Section Safety.
Context {G : Type} `{Rng G} `{Hx : Hex} `{SessionEnv}.
Variable (verifier : Stratum.Verifier) (cfg : StratumConfig).

(** A line among [msgs] carried the job under [id] with the target of difficulty [d]. *)
Definition served (msgs : list Msg) (id : string) (d : Z) : Prop :=
  exists m v, m ∈ msgs /\ msg_job m = Some v /\
    Json.get_str "job_id" v = Some id /\ Json.get_str "target" v = Some (Stratum.diff_to_target_hex d).

Abbreviation floor := (min_share_difficulty cfg).

(** The difficulties a session remembers were served, at or above the floor. *)
Definition remembers (adv : list (string * Z)) (msgs : list Msg) : Prop :=
  forall id d, (id, d) ∈ adv -> served msgs id d /\ floor <= d.

Record SInv (s : Sess G) : Prop := {
  s_adv : remembers (advertised s) (out s);
  s_min : Vardiff.min (vardiff s) = floor;
  s_cur : floor <= Vardiff.current (vardiff s);
}.

(** The gauge a session accounts for. *)
Definition weight (s : Sess G) : Z := if guarded s then 1 else 0.

(** A credit and what stands behind it. *)
Definition credit_pair (c : Credit) : string * string :=
  (Share.sh_job_id (cr_share c), Text.to_ascii_lowercase (cr_nonce c)).
Definition pending_pair (p : Pending) : string * string :=
  (sub_job_id (pd_params p), Text.to_ascii_lowercase (nonce (pd_params p))).

Definition justified (c : Credit) : Prop :=
  let sh := cr_share c in let i := cr_input c in
  Jobs.job_id (cr_job c) = Share.sh_job_id sh /\
  Share.in_job i = cr_job c /\ Share.nonce_hex i = cr_nonce c /\ Share.session_difficulty i = Share.sh_difficulty sh /\
  Share.in_miner i = Share.sh_miner sh /\
  Share.share_evidence verifier (cr_verified c) i (cr_hash c) /\
  (cr_verified c = false -> verification_warmup cfg <= cr_count c) /\
  Stratum.meets_difficulty (cr_hash c) (Share.sh_difficulty sh) = true /\
  Share.forwarded_upstream sh = Stratum.meets_difficulty (cr_hash c) (Jobs.upstream_diff (cr_job c)) /\
  floor <= Share.sh_difficulty sh /\
  (Share.sh_difficulty sh = floor \/ served (cr_sent c) (Share.sh_job_id sh) (Share.sh_difficulty sh)).

(** What is handed to the upstream client for a credited share. *)
Definition forwards (c : Credit) : option UpstreamSubmit :=
  if Share.forwarded_upstream (cr_share c) then
    Some {| us_job_id := Share.sh_job_id (cr_share c); us_nonce_hex := cr_nonce c;
            us_result_hex := Share.claimed_result_hex (cr_input c) |}
  else None.

(** ** Sessions one by one *)

Lemma served_more msgs m id d : served msgs id d -> served (msgs ++ [m]) id d.
Proof. intros (m' & v & Hm & Hv). exists m', v. split; [set_solver|done]. Qed.

Lemma remembers_more adv msgs m : remembers adv msgs -> remembers adv (msgs ++ [m]).
Proof. intros Hr id d Hin. destruct (Hr id d Hin). split; [by apply served_more|done]. Qed.

Lemma note_advertised_in adv id d id' d' :
  (id', d') ∈ note_advertised adv id d -> (id', d') ∈ adv \/ (id', d') = (id, d).
Proof. unfold note_advertised. case_ifs; [auto|]. apply ring_push_incl. Qed.

Lemma advertised_diff_in adv id d : advertised_diff adv id = Some d -> (id, d) ∈ adv.
Proof.
  unfold advertised_diff. destruct (list_find _ _) as [[k [i d']]|] eqn:Ef; simpl; [|done].
  apply list_find_Some in Ef as (Hk & Hi & _). simpl in Hi. intros [= <-]. subst.
  apply elem_of_reverse. by eapply list_elem_of_lookup_2.
Qed.

(** Serving a job: the difficulty is at or above the floor, and once the line that
    carries the served value is sent, everything remembered was sent. *)
Definition serving (k : Z) (g0 : Shared) (v : Json.Value) (s : Sess G) (g : Shared) : Prop :=
  Vardiff.min (vardiff s) = floor /\ floor <= Vardiff.current (vardiff s) /\
  (forall m, msg_job m = Some v -> remembers (advertised s) (out s ++ [m])) /\
  gauge g - weight s = k /\ g = g0.

Definition idle (k : Z) (g0 : Shared) (s : Sess G) (g : Shared) : Prop :=
  SInv s /\ gauge g - weight s = k /\ g = g0.
Definition ended (k : Z) (g0 : Shared) (s : Sess G) (g : Shared) : Prop :=
  gauge g - weight s = k /\ g = g0.

Lemma served_json id j d byte v m msgs :
  job_to_json id j d byte = Some v -> msg_job m = Some v -> served (msgs ++ [m]) (Jobs.job_id j) d.
Proof.
  unfold job_to_json. destruct (stamp_worker_byte _ _) as [b|]; [|done]. intros [= <-] Hm.
  exists m. eexists. split; [set_solver|]. split; [exact Hm|]. by split.
Qed.

Lemma serve_job_spec k g0 now now' j :
  triple (idle k g0) (serve_job now now' j) (serving k g0) (ended k g0).
Proof.
  apply triple_get. intros s0 s g [(Hs & Hk & ->) ->]. unfold ended, serving.
  destruct (Vardiff.boundary now now' _ (vardiff s0)) as [[d v]|] eqn:Eb; [|done].
  destruct Hs as [Hadv Hmin Hcur].
  apply Vardiff.boundary_spec in Eb as (Hd & Hr & (Hm & _ & _) & _); [|lia].
  unfold hbind, hput. destruct (job_to_json _ _ _ _) as [x|] eqn:Ej; [|done]. simpl.
  rewrite Hm, <- Hd. split_and!; [done|lia| |done|done].
  intros m Hmv id d' [Hin|[= -> ->]]%note_advertised_in.
  - destruct (Hadv _ _ Hin). split; [by apply served_more|done].
  - split; [by eapply served_json|lia].
Qed.

Lemma on_job_spec k g0 now now' j :
  triple (idle k g0) (on_job now now' j) (fun _ => idle k g0) (ended k g0).
Proof.
  apply triple_get. intros s0. destruct (miner s0); [|by apply triple_ret; intros ? ? [? _]].
  eapply triple_bind; [eapply triple_pre; [|apply serve_job_spec]; by intros ? ? [? _]|].
  intros v s g (Hmin & Hcur & Hadv & Hk & ->). unfold write_line, ended.
  destruct (write_ok _ _); [|done]. split; [|done]. split; [by apply Hadv|done|done].
Qed.

(** Sending a line that carries no job keeps a session idle. *)
Lemma write_idle {B} k g0 m (c : unit -> H G B) Q :
  triple (idle k g0) (c tt) Q (ended k g0) -> triple (idle k g0) (hbind (write_line m) c) Q (ended k g0).
Proof.
  intros Hc. apply triple_write; [by intros s g (_ & ? & ?)|].
  eapply triple_pre; [|exact Hc]. intros s g (s0 & ([Ha Hm Hc'] & Hk & ->) & ->).
  split; [|done]. split; [by apply remembers_more|done|done].
Qed.

Lemma handle_login_spec k g0 now now' req :
  triple (idle k g0) (handle_login now now' req) (fun _ => idle k g0) (ended k g0).
Proof.
  unfold handle_login. destruct (login_of _) as [p|]; [|by apply triple_err; intros ? ? (_ & ? & ?)].
  destruct (parse_address _) as [a|]; [|apply write_idle; by apply triple_ret].
  apply triple_put. eapply (triple_pre _ (idle k g0)); [by intros s g (s0 & ([] & ? & ?) & ->)|].
  apply triple_shared_get. intros g1. eapply (triple_pre _ (idle k g0)); [by intros ? ? [? _]|].
  eapply (triple_bind _ _ _ _ (fun v s g => serving k g0 v s g \/ v = Json.Null /\ idle k g0 s g)).
  - destruct (Jobs.current _); [eapply triple_conseq; [apply serve_job_spec|auto|auto]|apply triple_ret; auto].
  - intros v. apply triple_get. intros s1. apply triple_write.
    + intros s g [[(_ & _ & _ & ?)|(_ & _ & ?)] _]; done.
    + apply triple_ret. intros s g (s0 & [[(Hmin & Hcur & Hadv & Hk & ->)|(-> & [] & Hk & ->)] ->] & ->);
        (split; [|done]; split; simpl; [|done|done]); [by apply Hadv|by apply remembers_more].
Qed.

(** The first part of a request leaves the shared state alone, or made one submission
    to the job store; a pending submit is an accepted one. *)
Definition claimed (now : Z) (g0 g : Shared) (o : option Pending) : Prop :=
  credited g = credited g0 /\ submits g = submits g0 /\
  ((jobs g = jobs g0 /\ o = None) \/
   exists id n r, Jobs.record_submission now id n (share_grace cfg) (jobs g0) = (r, jobs g) /\
     match o with
     | Some p => id = sub_job_id (pd_params p) /\ n = nonce (pd_params p) /\ r = Jobs.Accepted (pd_job p)
     | None => True
     end).

Lemma claimed_refl now g : claimed now g g None.
Proof. split; [done|]. split; [done|by left]. Qed.
Hint Resolve claimed_refl : pool.

Definition begun (now k : Z) (g0 : Shared) (r : bool + Pending) (s : Sess G) (g : Shared) : Prop :=
  SInv s /\ gauge g - weight s = k /\ claimed now g0 g (match r with inl _ => None | inr p => Some p end).
Definition broken (now k : Z) (g0 : Shared) (s : Sess G) (g : Shared) : Prop :=
  gauge g - weight s = k /\ claimed now g0 g None.

(** A triple that keeps the shared state also meets the weaker bounds. *)
Lemma idle_begun now k g0 {A} (m : H G A) (f : A -> bool) :
  triple (idle k g0) m (fun _ => idle k g0) (ended k g0) ->
  triple (idle k g0) (hbind m (fun a => hret (inl (f a)))) (begun now k g0) (broken now k g0).
Proof.
  intros Hm. apply (triple_bind _ _ _ _ (fun _ => idle k g0)).
  - eapply triple_conseq; [exact Hm|auto|]. intros s g [? ->]. split; auto with pool.
  - intros a. apply triple_ret. intros s g (? & ? & ->). split_and!; auto with pool.
Qed.

Lemma write_broken now k g0 m (s : Sess G) g r :
  begun now k g0 (inl r) s g ->
  match hbind (write_line m) (fun _ => hret (inl true : bool + Pending)) s g with
  | (ORet a, s', g') => begun now k g0 a s' g'
  | (OErr _, s', g') | (OCrash, s', g') => broken now k g0 s' g'
  end.
Proof.
  intros ([Ha Hm Hc] & Hk & Hcl). unfold hbind, write_line. destruct (write_ok _ _); [|done].
  split; [|done]. split; [by apply remembers_more|done|done].
Qed.

Lemma submit_claim_spec now k g0 req :
  triple (idle k g0) (submit_claim cfg now req) (begun now k g0) (broken now k g0).
Proof.
  apply triple_get. intros s0 s g [(Hs & Hk & ->) ->].
  assert (Hb : begun now k g0 (inl true) s0 g0) by (split_and!; auto with pool).
  destruct (miner s0); [|by eapply write_broken].
  destruct (submit_of _) as [p|]; [|by destruct Hb as (_ & ?)].
  destruct (nonce_high_byte _) as [hb|]; [|by destruct Hb as (_ & ?)].
  unfold hbind at 1.
  destruct (Jobs.record_submission now (sub_job_id p) (nonce p) (share_grace cfg) (jobs g0)) as [r j] eqn:Er.
  assert (Hb' : begun now k g0 (inl true) s0 (set_jobs j g0)) by (split_and!; auto; split; [done|]; split; [done|right; eauto 10]).
  destruct r as [| | |job]; [by eapply write_broken..|].
  split_and!; [done|done|]. split; [done|]. split; [done|right]. eauto 10.
Qed.

Lemma begin_request_spec now now' k g0 req :
  triple (idle k g0) (begin_request cfg now now' req) (begun now k g0) (broken now k g0).
Proof.
  unfold begin_request. case_ifs.
  - apply (idle_begun _ _ _ _ (fun b => b)), handle_login_spec.
  - apply submit_claim_spec.
  - intros s g (? & ? & ->). eapply (write_broken _ _ _ _ _ _ true). split_and!; auto with pool.
  - apply triple_ret. intros s g (? & ? & ->). split_and!; auto with pool.
Qed.

(** The second part credits at most one share, the pending one. *)
Definition settled (k : Z) (g0 : Shared) (p : Pending) (s : Sess G) (g : Shared) : Prop :=
  gauge g - weight s = k /\ jobs g = jobs g0 /\
  ((credited g = credited g0 /\ submits g = submits g0) \/
   exists c, credited g = credited g0 ++ [c] /\ submits g = submits g0 ++ option_list (forwards c) /\ credit_pair c = pending_pair p /\ cr_job c = pd_job p /\ justified c).

(** The difficulty a share is judged at. *)
Lemma check_diff_spec s id :
  SInv s -> let d := opt_or (Vardiff.min (vardiff s)) (advertised_diff (advertised s) id) in
  floor <= d /\ (d = floor \/ served (out s) id d).
Proof.
  intros [Ha Hm Hc]. destruct (advertised_diff (advertised s) id) as [d|] eqn:E; simpl.
  - apply advertised_diff_in in E. destruct (Ha _ _ E). auto.
  - rewrite Hm. split; [lia|auto].
Qed.

Lemma settle_spec k g0 now utc p :
  Jobs.job_id (pd_job p) = sub_job_id (pd_params p) ->
  triple (idle k g0) (settle verifier cfg now utc p)
    (fun _ s g => SInv s /\ settled k g0 p s g) (settled k g0 p).
Proof.
  intros Hid. apply triple_get. intros s0 s g [(Hs & Hk & ->) ->].
  pose proof (check_diff_spec s0 (sub_job_id (pd_params p)) Hs) as [Hfl Htold].
  set (d := opt_or _ _) in *. destruct (Share.should_verify _ _ _) as [dv rng'] eqn:Esv.
  assert (Hwarm : dv = false -> verification_warmup cfg <= verified_count s0).
  { intros ->. unfold Share.should_verify in Esv. destruct (Z.ltb_spec (verified_count s0) (Share.warmup (sample_cfg cfg))) as [|Hw]; [done|exact Hw]. }
  assert (Hnone : forall s, weight s = weight s0 -> settled k g0 p s g0)
    by (intros s Hw; split; [by rewrite Hw|auto]).
  unfold hbind at 1, hput at 1.
  match goal with |- context [Share.verify_share verifier ?i] => set (input := i) end.
  destruct (if dv then _ else _) as [[o hash]|e] eqn:Ev; [|by apply Hnone].
  destruct o as [fwd| | | |]; cycle 1.
  1-4: unfold hbind, hput, hret, write_line; simpl;
    (destruct (write_ok _ _); [split; [destruct Hs; split; simpl; [by apply remembers_more|done|done]|]|]; by apply Hnone).
  assert (Hacc : Share.share_evidence verifier dv input hash /\
    Stratum.meets_difficulty hash d = true /\ fwd = Stratum.meets_difficulty hash (Jobs.upstream_diff (pd_job p)))
    by (destruct dv; [by apply Share.verified_accepted in Ev|by eapply Share.claimed_accepted in Ev]).
  destruct Hacc as (Hev & Hmeet & Hfwd), Hs as [Ha Hm Hc].
  unfold hbind, hput, hret, shared_put, write_line.
  destruct dv, fwd; simpl; (destruct (write_ok _ _); [split; [split; simpl; [by apply remembers_more|by destruct (Vardiff.last_submit (vardiff s0))..]|]|]);
    (split; [done|split; [done|right]]; eexists; split; [done|]; split; [unfold forwards; simpl; by rewrite ?app_nil_r|]; split; [done|]; split; [done|];
     unfold justified; simpl; split_and!; try apply Hev; auto).
Qed.

(** Arming the guard moves the gauge with the session's weight. *)
Lemma finish_spec keep s g :
  exists n s' g', finish keep s g = (ORet n, s', g') /\ n = (if keep then Keep else Close) /\
    (SInv s -> SInv s') /\ jobs g' = jobs g /\ credited g' = credited g /\ submits g' = submits g /\
    gauge g' - weight s' = gauge g - weight s.
Proof.
  unfold finish, after_request, hbind, hget, hret, hput, shared_put, weight.
  destruct (guarded s) eqn:Eg, (miner s); simpl; eexists _, _, _;
    (split; [done|]; split; [done|]; split; [by intros []|]; simpl; rewrite ?Eg; auto with lia).
Qed.

(** The pending submit an iteration ends with. *)
Definition pends (n : next) : option Pending := match n with Settle p => Some p | _ => None end.

Lemma receive_spec now now' k g0 r :
  triple (idle k g0) (receive cfg now now' r)
    (fun n s g => SInv s /\ gauge g - weight s = k /\ claimed now g0 g (pends n)) (broken now k g0).
Proof.
  assert (Hret : forall n, pends n = None -> triple (idle k g0) (hret n)
    (fun n s g => SInv s /\ gauge g - weight s = k /\ claimed now g0 g (pends n)) (broken now k g0)).
  { intros n Hn. apply triple_ret. intros s g (? & ? & ->). rewrite Hn. auto with pool. }
  destruct r as [| |l]; simpl.
  - apply triple_err. intros s g (_ & ? & ->). split; auto with pool.
  - by apply Hret.
  - case_ifs; try by apply Hret. destruct (from_str _ ≫= request_of); [|by apply Hret].
    eapply triple_bind; [apply begin_request_spec|]. intros [keep|p]; [|by apply triple_ret].
    intros s g (Hs & Hk & Hc).
    destruct (finish_spec keep s g) as (n & s' & g' & -> & -> & Hs' & Hj & Hcr & Hsu & Hg).
    split; [auto|]. split; [lia|]. unfold claimed in *. rewrite Hj, Hcr, Hsu. by destruct keep.
Qed.

Lemma resume_spec k g0 now utc p :
  Jobs.job_id (pd_job p) = sub_job_id (pd_params p) ->
  triple (idle k g0) (resume verifier cfg now utc p)
    (fun n s g => (SInv s /\ pends n = None) /\ settled k g0 p s g) (settled k g0 p).
Proof.
  intros Hp. eapply triple_bind; [by apply settle_spec|]. intros keep s g (Hs & Hk & Hj & Hc).
  destruct (finish_spec keep s g) as (n & s' & g' & -> & -> & Hs' & Hj' & Hcr & Hsu & Hg).
  split; [split; [auto|by destruct keep]|]. unfold settled. rewrite Hj', Hcr, Hsu. split; [lia|done].
Qed.

(** ** All the sessions together *)

(** The submits that are claimed and not settled. *)
Definition pendings (m : gmap nat (Sess G * phase)) : gmap nat Pending :=
  omap (fun p => match p.2 with Settling q => Some q | Idle => None end) m.

(** The pair [q] of a publication and a nonce stands for a job and a submitted pair. *)
Definition stands (a : Jobs.Registry) (q : nat * string) (pair : string * string) (j : Jobs.UpstreamJob) : Prop :=
  q ∈ Jobs.accepted a /\ q.2 = pair.2 /\ Jobs.jobs_of a !! q.1 = Some j /\ Jobs.job_id j = pair.1.

(** The credits and the pending submits, each with the pair of the registry it stands for
    ([cp], [pp]): no two share one, as long as the heights of the jobs go forward. *)
Record Core (now : Z) (js : Jobs.JobStore) (cr : list Credit) (su : list UpstreamSubmit) (pd : gmap nat Pending)
    (a : Jobs.Registry) (cp : list (nat * string)) (pp : nat -> nat * string) : Prop := {
  c_rel : Jobs.Rel (share_grace cfg) now a js;
  c_sent : Jobs.jobs_of a = Jobs.sent js;
  c_credit : Forall2 (fun c q => stands a q (credit_pair c) (cr_job c) /\ justified c) cr cp;
  c_submits : su = omap forwards cr;
  c_pend : forall i p, pd !! i = Some p -> stands a (pp i) (pending_pair p) (pd_job p);
  c_once : Jobs.forward (Jobs.jobs_of a) = true -> NoDup cp /\
    (forall i, is_Some (pd !! i) -> pp i ∉ cp) /\
    (forall i j, is_Some (pd !! i) -> is_Some (pd !! j) -> pp i = pp j -> i = j);
}.

Lemma core_later now now' js cr su pd a cp pp : now <= now' -> Core now js cr su pd a cp pp -> Core now' js cr su pd a cp pp.
Proof. intros ? []. split; auto. by eapply Jobs.rel_later. Qed.

Lemma core_delete now js cr su pd a cp pp i : Core now js cr su pd a cp pp -> Core now js cr su (delete i pd) a cp pp.
Proof.
  intros [Hrel Hsent Hcr Hsu Hpd Hone]. split; [done..| |].
  - intros j p [_ Hp]%lookup_delete_Some. eauto.
  - intros Hf. destruct (Hone Hf) as (Hnd & Hout & Hinj).
    assert (Hd : forall j, is_Some (delete i pd !! j) -> is_Some (pd !! j)) by (intros j [p [_ ?]%lookup_delete_Some]; eauto).
    split_and!; auto.
Qed.

Lemma stands_more a a' q pair j :
  Jobs.accepted a ⊆ Jobs.accepted a' -> Jobs.jobs_of a `prefix_of` Jobs.jobs_of a' -> stands a q pair j -> stands a' q pair j.
Proof. intros Ha Hj (? & ? & ? & ?). split_and!; auto. by eapply prefix_lookup_Some. Qed.

Lemma core_publish now js cr su pd a cp pp j :
  Core now js cr su pd a cp pp -> Core now (Jobs.publish now j js) cr su pd (Jobs.spec_publish now j a) cp pp.
Proof.
  intros [Hrel Hsent Hcr Hsu Hpd Hone].
  assert (Hs : forall q pair k, stands a q pair k -> stands (Jobs.spec_publish now j a) q pair k).
  { intros q pair k. apply stands_more; [done|]. rewrite Jobs.jobs_publish. by eexists. }
  split; auto.
  - by apply Jobs.rel_publish.
  - by rewrite Jobs.jobs_publish, Hsent.
  - eapply Forall2_impl; [exact Hcr|]. naive_solver.
  - rewrite Jobs.forward_publish. by intros [? _]%andb_true_iff; apply Hone.
Qed.

Lemma record_sent now id n grace js : Jobs.sent (Jobs.record_submission now id n grace js).2 = Jobs.sent js.
Proof. unfold Jobs.record_submission. destruct (list_find _ _) as [[i e]|]; [|done]. by case_ifs. Qed.

(** A submission, by a session that keeps a pending submit only if it was accepted. *)
Lemma core_claim now js cr su pd a cp pp i id n r js' o :
  Core now js cr su pd a cp pp -> pd !! i = None ->
  Jobs.record_submission now id n (share_grace cfg) js = (r, js') ->
  match o with
  | Some p => id = sub_job_id (pd_params p) /\ n = nonce (pd_params p) /\ r = Jobs.Accepted (pd_job p)
  | None => True
  end ->
  exists pp', Core now js' cr su (partial_alter (fun _ => o) i pd) (Jobs.spec_submit now id n (share_grace cfg) a).2 cp pp'.
Proof.
  intros [Hrel Hsent Hcr Hsu Hpd Hone] Hi Hr Ho. set (a' := (Jobs.spec_submit now id n (share_grace cfg) a).2).
  pose proof (Jobs.rel_submit _ _ _ _ id n Hrel) as [_ Hrel']. pose proof (record_sent now id n (share_grace cfg) js) as Hse.
  rewrite Hr in Hrel', Hse. simpl in Hrel', Hse. fold a' in Hrel'.
  assert (Hj : Jobs.jobs_of a' = Jobs.jobs_of a) by (unfold Jobs.jobs_of, a'; by rewrite Jobs.jobs_submit).
  assert (Hs : forall q pair k, stands a q pair k -> stands a' q pair k).
  { intros q pair k. apply stands_more; [apply Jobs.spec_accepted_mono|by rewrite Hj]. }
  assert (Hbase : Forall2 (fun c q => stands a' q (credit_pair c) (cr_job c) /\ justified c) cr cp)
    by (eapply Forall2_impl; [exact Hcr|]; naive_solver).
  destruct o as [p|]; cycle 1.
  { exists pp. apply core_delete. split; [done|by rewrite Hj, Hse|done|done|auto|by rewrite Hj]. }
  destruct Ho as (-> & -> & ->). destruct (Jobs.accepted_claims _ _ _ _ _ _ _ _ Hrel Hr) as (k & Hk & Hid & Hin & Hnew).
  set (q := (k, Text.to_ascii_lowercase (nonce (pd_params p)))) in *.
  exists (<[i := q]> pp). split; [done|by rewrite Hj, Hse|done|done| |].
  - intros x p'. destruct (decide (x = i)) as [->|Hx'].
    + rewrite lookup_partial_alter_eq, fn_lookup_insert. intros [= <-]. split_and!; [done|done|by rewrite Hj|done].
    + rewrite lookup_partial_alter_ne, fn_lookup_insert_ne by done. auto.
  - rewrite Hj. intros Hf. destruct (Hone Hf) as (Hnd & Hout & Hinj). specialize (Hnew Hf).
    assert (Hold : forall x, x <> i -> is_Some (partial_alter (fun _ => Some p) i pd !! x) -> is_Some (pd !! x))
      by (intros x Hx'; by rewrite lookup_partial_alter_ne).
    assert (Hfresh : forall x, is_Some (pd !! x) -> pp x <> q).
    { intros x [p' Hx'] E. destruct (Hpd _ _ Hx') as (Ha & _). by rewrite E in Ha. }
    split_and!; [done| |].
    + intros x Hx'. destruct (decide (x = i)) as [->|Hne]; [rewrite fn_lookup_insert|rewrite fn_lookup_insert_ne by done; auto].
      intros (c & _ & [Hst _])%(Forall2_in_r _ _ _ _ Hcr). by destruct Hst.
    + intros x y Hx' Hy. destruct (decide (x = i)) as [->|Hnx], (decide (y = i)) as [->|Hny];
        rewrite ?fn_lookup_insert, ?fn_lookup_insert_ne by done; auto.
      * intros E. by destruct (Hfresh y); auto.
      * intros E. by destruct (Hfresh x); auto.
Qed.

(** The settlement of a pending submit. *)
Lemma core_settle now js cr su pd a cp pp i p c :
  Core now js cr su pd a cp pp -> pd !! i = Some p ->
  credit_pair c = pending_pair p -> cr_job c = pd_job p -> justified c ->
  Core now js (cr ++ [c]) (su ++ option_list (forwards c)) (delete i pd) a (cp ++ [pp i]) pp.
Proof.
  intros [Hrel Hsent Hcr Hsu Hpd Hone] Hi Hc Hj Hjust. pose proof (Hpd i p Hi) as Hst.
  split; [done|done| | | |].
  - apply Forall2_app; [done|]. constructor; [|constructor]. by rewrite Hc, Hj.
  - rewrite omap_app, Hsu. simpl. by destruct (forwards c).
  - intros k q [_ Hk]%lookup_delete_Some. auto.
  - intros Hf. destruct (Hone Hf) as (Hnd & Hout & Hinj).
    assert (Hd : forall j, is_Some (delete i pd !! j) -> i <> j /\ is_Some (pd !! j)) by (intros j [q [? ?]%lookup_delete_Some]; eauto).
    split_and!.
    + apply NoDup_app. split_and!; [done| |apply NoDup_singleton]. intros x Hxin ->%list_elem_of_singleton. by eapply Hout.
    + intros k [Hne Hk]%Hd [Hin|E%list_elem_of_singleton]%elem_of_app; [by eapply Hout|]. apply Hne. by eapply Hinj; eauto.
    + intros k l [_ Hk]%Hd [_ Hl]%Hd. auto.
Qed.

(** ** The end of an iteration *)

(** The guards of all the live sessions. *)
Definition live (m : gmap nat (Sess G * phase)) : Z := map_fold (fun _ p acc => weight p.1 + acc) 0 m.

Definition pends_of (o : outcome next) : option Pending := match o with ORet n => pends n | _ => None end.

Lemma live_delete m i s ph : m !! i = Some (s, ph) -> live m = weight s + live (delete i m).
Proof. intros Hi. unfold live. rewrite (map_fold_delete_L _ _ i (s, ph)); [done|intros; lia|done]. Qed.

Lemma live_insert m i s ph s' ph' :
  m !! i = Some (s, ph) -> live (<[i := (s', ph')]> m) = live m - weight s + weight s'.
Proof.
  intros Hi. rewrite (live_delete m i s ph Hi). rewrite (live_delete (<[i := _]> m) i s' ph') by (by rewrite lookup_insert_eq).
  rewrite delete_insert_eq. lia.
Qed.

Lemma live_insert_new m i s ph : m !! i = None -> live (<[i := (s, ph)]> m) = weight s + live m.
Proof. intros Hi. unfold live. rewrite map_fold_insert_L; [done|intros; lia|done]. Qed.

Lemma conclude_spec i o (s1 : Sess G) g1 m g' m' s0 ph :
  m !! i = Some (s0, ph) -> conclude i (o, s1, g1) m = (g', m') ->
  jobs g' = jobs g1 /\ credited g' = credited g1 /\ submits g' = submits g1 /\ pendings m' = partial_alter (fun _ => pends_of o) i (pendings m) /\
  (forall k s ph', m' !! k = Some (s, ph') -> m !! k = Some (s, ph') \/ exists n, o = ORet n /\ s = s1) /\
  (gauge g1 - weight s1 = live m - weight s0 -> gauge g' = live m').
Proof.
  intros Hi. unfold pendings.
  assert (Hclose : close i s1 g1 m = (g', m') -> pends_of o = None ->
    jobs g' = jobs g1 /\ credited g' = credited g1 /\ submits g' = submits g1 /\
    omap (fun p : Sess G * phase => match p.2 with Settling q => Some q | Idle => None end) m' =
      partial_alter (fun _ => pends_of o) i (omap (fun p => match p.2 with Settling q => Some q | Idle => None end) m) /\
    (forall k s ph', m' !! k = Some (s, ph') -> m !! k = Some (s, ph') \/ exists n, o = ORet n /\ s = s1) /\
    (gauge g1 - weight s1 = live m - weight s0 -> gauge g' = live m')).
  { intros [= <- <-] ->. rewrite omap_delete. split_and!; [by destruct (guarded s1)..|done| |].
    - intros k s ph' [_ Hk]%lookup_delete_Some. by left.
    - rewrite (live_delete m i s0 ph Hi). unfold weight. destruct (guarded s1); simpl; lia. }
  destruct o as [[| |p]|e|]; simpl; try (intros Hc; by apply Hclose);
    intros [= <- <-]; clear Hclose; rewrite omap_insert; simpl;
    (split_and!; [done|done|done|done| |rewrite (live_insert m i s0 ph _ _ Hi); lia]);
    intros k s ph'; (destruct (decide (k = i)) as [->|];
      [rewrite lookup_insert_eq; intros; simplify_eq; right; eauto|rewrite lookup_insert_ne by done; auto]).
Qed.

Record YInv (y : Sys (G := G)) : Prop := {
  y_core : exists a cp pp, Core (clock y) (jobs (shared y)) (credited (shared y)) (submits (shared y)) (pendings (sessions y)) a cp pp;
  y_sess : forall i s ph, sessions y !! i = Some (s, ph) -> SInv s;
  y_gauge : gauge (shared y) = live (sessions y);
}.

Lemma new_session_inv now id seed byte : SInv (new_session cfg now id seed byte).
Proof. split; simpl; [intros ? ? []%elem_of_nil|done|lia]. Qed.

Lemma pendings_lookup m i s (ph : phase) :
  m !! i = Some (s, ph) -> pendings m !! i = match ph with Settling p => Some p | Idle => None end.
Proof. intros Hi. unfold pendings. rewrite lookup_omap, Hi. done. Qed.

(** A step of a session from what its handler did to the shared state. *)
Lemma session_step y now i s ph o s1 g1 g' m' :
  YInv y -> sessions y !! i = Some (s, ph) ->
  gauge g1 - weight s1 = gauge (shared y) - weight s ->
  (forall n, o = ORet n -> SInv s1) ->
  (exists a cp pp, Core now (jobs g1) (credited g1) (submits g1) (partial_alter (fun _ => pends_of o) i (pendings (sessions y))) a cp pp) ->
  conclude i (o, s1, g1) (sessions y) = (g', m') ->
  YInv {| clock := now; shared := g'; sessions := m' |}.
Proof.
  intros [_ Hsess Hg] Hi Hk Hs (a & cp & pp & Hcore) Hc.
  destruct (conclude_spec _ _ _ _ _ _ _ _ _ Hi Hc) as (Hj & Hcr & Hsu & Hp & Hm & Hgl).
  split; simpl.
  - exists a, cp, pp. by rewrite Hj, Hcr, Hsu, Hp.
  - intros k s' ph' [Hk'|(n & -> & ->)]%Hm; eauto.
  - apply Hgl. lia.
Qed.

Lemma claimed_core now now0 g0 g o i a cp pp pd :
  Core now0 (jobs g0) (credited g0) (submits g0) pd a cp pp -> now0 <= now -> pd !! i = None -> claimed now g0 g o ->
  exists a' cp' pp', Core now (jobs g) (credited g) (submits g) (partial_alter (fun _ => o) i pd) a' cp' pp'.
Proof.
  intros Hcore Ht Hi (Hcr & Hsu & Hcl). apply (core_later _ now) in Hcore; [|done]. rewrite Hcr, Hsu.
  destruct Hcl as [[-> ->]|(id & n & r & Hr & Ho)].
  - exists a, cp, pp. by apply core_delete.
  - destruct (core_claim _ _ _ _ _ _ _ _ _ _ _ _ _ _ Hcore Hi Hr Ho) as [pp' Hc]. eauto.
Qed.

Lemma idle_here y i s ph :
  YInv y -> sessions y !! i = Some (s, ph) -> idle (gauge (shared y) - weight s) (shared y) s (shared y).
Proof. intros [_ Hs _] Hi. split; [by eapply Hs|done]. Qed.

Lemma job_step_inv y now now' i s j g' m' :
  YInv y -> clock y <= now -> sessions y !! i = Some (s, Idle) ->
  conclude i (on_job_next now now' j s (shared y)) (sessions y) = (g', m') ->
  YInv {| clock := now; shared := g'; sessions := m' |}.
Proof.
  intros Hy Ht Hi Hc. pose proof Hy as [(a & cp & pp & Hcore) _ _].
  pose proof (on_job_spec _ _ now now' j _ _ (idle_here _ _ _ _ Hy Hi)) as Hspec.
  unfold on_job_next, hbind in Hc. destruct (on_job now now' j s (shared y)) as [[o s1] g1].
  assert (Hgs : g1 = shared y /\ gauge g1 - weight s1 = gauge (shared y) - weight s /\ (forall u, o = ORet u -> SInv s1)).
  { destruct o; [destruct Hspec as (? & ? & ?)|destruct Hspec as (? & ?)..]; by split_and!. }
  destruct Hgs as (-> & Hk & Hs1).
  assert (Hex : exists a cp pp, Core now (jobs (shared y)) (credited (shared y)) (submits (shared y))
    (partial_alter (fun _ => None) i (pendings (sessions y))) a cp pp)
    by (exists a, cp, pp; apply core_delete; by eapply core_later).
  destruct o as [u|e|]; eapply (session_step y now i s Idle _ s1 (shared y)); eauto; done.
Qed.

Lemma read_step_inv y now now' i s r g' m' :
  YInv y -> clock y <= now -> sessions y !! i = Some (s, Idle) ->
  conclude i (receive cfg now now' r s (shared y)) (sessions y) = (g', m') ->
  YInv {| clock := now; shared := g'; sessions := m' |}.
Proof.
  intros Hy Ht Hi Hc. pose proof Hy as [(a & cp & pp & Hcore) _ _].
  pose proof (receive_spec now now' _ _ r _ _ (idle_here _ _ _ _ Hy Hi)) as Hspec.
  destruct (receive cfg now now' r s (shared y)) as [[o s1] g1].
  assert (Hp : pendings (sessions y) !! i = None) by exact (pendings_lookup _ _ _ _ Hi).
  assert (Hgs : (forall n, o = ORet n -> SInv s1) /\ gauge g1 - weight s1 = gauge (shared y) - weight s /\
                claimed now (shared y) g1 (pends_of o)).
  { destruct o; [destruct Hspec as (? & ? & ?)|destruct Hspec as (? & ?)..]; by split_and!. }
  destruct Hgs as (Hs1 & Hk & Hcl). eapply session_step; eauto. by eapply claimed_core.
Qed.

Lemma settle_step_inv y now utc i s p g' m' :
  YInv y -> clock y <= now -> sessions y !! i = Some (s, Settling p) ->
  conclude i (resume verifier cfg now utc p s (shared y)) (sessions y) = (g', m') ->
  YInv {| clock := now; shared := g'; sessions := m' |}.
Proof.
  intros Hy Ht Hi Hc. pose proof Hy as [(a & cp & pp & Hcore) _ _].
  assert (Hp : pendings (sessions y) !! i = Some p) by exact (pendings_lookup _ _ _ _ Hi).
  destruct (c_pend _ _ _ _ _ _ _ _ Hcore _ _ Hp) as (_ & _ & _ & Hid).
  pose proof (resume_spec _ _ now utc p Hid _ _ (idle_here _ _ _ _ Hy Hi)) as Hspec.
  destruct (resume verifier cfg now utc p s (shared y)) as [[o s1] g1].
  assert (Hgs : (forall n, o = ORet n -> SInv s1) /\ pends_of o = None /\
                settled (gauge (shared y) - weight s) (shared y) p s1 g1).
  { destruct o; [destruct Hspec as ([? ?] & ?); eauto|by split_and!..]. }
  destruct Hgs as (Hs1 & Hno & Hk & Hjs & Hcr). eapply session_step; eauto. rewrite Hno, Hjs.
  destruct Hcr as [[-> ->]|(c & -> & -> & Hpair & Hjob & Hjust)].
  - exists a, cp, pp. apply core_delete. by eapply core_later.
  - eexists a, _, pp. eapply core_settle; eauto. by eapply core_later.
Qed.

Lemma step_inv y y' : YInv y -> step verifier cfg y y' -> YInv y'.
Proof.
  intros Hy Hstep. pose proof Hy as [(a & cp & pp & Hcore) Hsess Hg].
  destruct Hstep; [|split; simpl; [eexists _, cp, pp; apply core_publish; by eapply core_later|done|done]
    |by eapply job_step_inv|by eapply read_step_inv|by eapply settle_step_inv].
  split; simpl.
  - exists a, cp, pp. unfold pendings. rewrite omap_insert. simpl. rewrite delete_id; [by eapply core_later|].
    rewrite lookup_omap. by match goal with Hi : sessions _ !! _ = None |- _ => rewrite Hi end.
  - intros k s ph. destruct (decide (k = i)) as [->|]; [rewrite lookup_insert_eq|rewrite lookup_insert_ne by done]; eauto.
    intros [= <- <-]. apply new_session_inv.
  - by rewrite live_insert_new by done.
Qed.

Lemma init_inv now : YInv (init now).
Proof.
  split; simpl; [|done|done]. exists Jobs.spec_new, [], (fun _ => (0%nat, "")). unfold pendings. rewrite omap_empty.
  split; try done; []. intros _; split_and!; [constructor|..]; intros i; rewrite lookup_empty; by intros [].
Qed.

Lemma reachable_inv now y : rtc (step verifier cfg) (init now) y -> YInv y.
Proof. intros Hr. eapply rtc_invariant; [apply step_inv|exact Hr|apply init_inv]. Qed.

(** ** Counting the credits of a pair *)

Definition credits_of (pair : string * string) (cr : list Credit) : list Credit := filter (fun c => credit_pair c = pair) cr.
Definition publications_of (id : string) (js : list Jobs.UpstreamJob) : list Jobs.UpstreamJob := filter (fun j => Jobs.job_id j = id) js.

Lemma filter_keeps {A} (P : A -> Prop) `{forall x, Decision (P x)} (l : list A) : (forall x, x ∈ l -> P x) -> filter P l = l.
Proof.
  induction l as [|x l IH]; intros Hl; [done|]. rewrite filter_cons_True by (apply Hl; by left).
  f_equal. apply IH. intros y Hy. apply Hl. by right.
Qed.

(** Different places that hold something of a kind are no more than there are of that kind. *)
Lemma places_le {A} (P : A -> Prop) `{forall x, Decision (P x)} (l : list A) (ks : list nat) :
  NoDup ks -> (forall k, k ∈ ks -> exists x, l !! k = Some x /\ P x) -> (length ks <= length (filter P l))%nat.
Proof.
  revert ks. induction l as [|x l IH] using rev_ind; intros ks Hnd Hks.
  - destruct ks as [|k ks]; [done|]. destruct (Hks k) as (? & ? & _); [by left|done].
  - rewrite filter_app, length_app. set (ks' := filter (fun k => k <> length l) ks).
    assert (Hle : (length ks' <= length (filter P l))%nat).
    { apply IH; [by apply NoDup_filter|]. intros k [Hne Hk]%list_elem_of_filter. destruct (Hks k Hk) as (y & Hy & HP).
      exists y. split; [|done]. rewrite lookup_app_l in Hy; [done|]. apply lookup_lt_Some in Hy. rewrite length_app in Hy. simpl in Hy. lia. }
    destruct (decide (length l ∈ ks)) as [Hin|Hout].
    + assert (HP : P x). { destruct (Hks _ Hin) as (y & Hy & HP). rewrite list_lookup_middle in Hy by done. by simplify_eq. }
      rewrite filter_cons_True by done. apply list_elem_of_split in Hin as (k1 & k2 & E). unfold ks' in Hle. rewrite E in *.
      apply NoDup_app in Hnd as (_ & Hd & [Hn2 _]%NoDup_cons).
      rewrite filter_app, filter_cons_False in Hle by naive_solver. rewrite length_app in *. simpl.
      rewrite (filter_keeps _ k1), (filter_keeps _ k2) in Hle; [lia|intros k Hk ->; by apply Hn2|].
      intros k Hk ->. by apply (Hd _ Hk); left.
    + replace ks' with ks in Hle; [lia|]. unfold ks'. symmetry. apply filter_keeps. by intros k Hk ->.
Qed.

Lemma core_count now js cr su pd a cp pp id n :
  Core now js cr su pd a cp pp -> Jobs.forward (Jobs.sent js) = true ->
  (length (credits_of (id, n) cr) <= length (publications_of id (Jobs.sent js)))%nat.
Proof.
  intros [_ Hsent Hcr _ _ Hone] Hf. rewrite Hsent in Hone. destruct (Hone Hf) as (Hnd & _ & _). clear Hone.
  assert (exists ks, length ks = length (credits_of (id, n) cr) /\ NoDup ks /\ (forall k, k ∈ ks -> (k, n) ∈ cp) /\
    forall k, k ∈ ks -> exists j, Jobs.sent js !! k = Some j /\ Jobs.job_id j = id) as (ks & <- & Hks & _ & Hin).
  { revert Hnd. induction Hcr as [|c [k m] cr cp [(_ & Hm & Hk & Hid) _] Hcr IH]; intros Hnd; [exists []; split_and!; [done|apply NoDup_nil_2|set_solver..]|].
    apply NoDup_cons in Hnd as [Hni Hnd]. destruct (IH Hnd) as (ks & Hl & Hks & Hc & Hin). unfold credits_of in *.
    destruct (decide (credit_pair c = (id, n))) as [E|E].
    - rewrite filter_cons_True by done. rewrite E in Hm, Hid. simpl in Hm, Hid, Hk. subst m. exists (k :: ks). split_and!.
      + simpl. by rewrite Hl.
      + constructor; [|done]. intros Hin'%Hc. done.
      + intros k' [->|?]%elem_of_cons; [by left|right; auto].
      + intros k' [->|?]%elem_of_cons; [|auto]. exists (cr_job c). by rewrite <- Hsent.
    - rewrite filter_cons_False by done. exists ks. split_and!; auto. intros k' ?. right. auto. }
  by apply places_le.
Qed.

(** C8: across all the sessions and every interleaving of their work, no pair of a job id and
    a nonce is credited more often than the upstream pool sent a job under that id (so once,
    when it gives every job its own id), provided the heights of the jobs it sent did not go
    back. *)
Theorem credited_once now y id n :
  rtc (step verifier cfg) (init now) y -> Jobs.forward (Jobs.sent (jobs (shared y))) = true ->
  (length (credits_of (id, n) (credited (shared y))) <= length (publications_of id (Jobs.sent (jobs (shared y)))))%nat.
Proof. intros Hr Hf. destruct (reachable_inv _ _ Hr) as [(a & cp & pp & Hc) _ _]. by eapply core_count. Qed.

Lemma core_justified now js cr su pd a cp pp c :
  Core now js cr su pd a cp pp -> c ∈ cr -> justified c /\ cr_job c ∈ Jobs.sent js.
Proof.
  intros [_ Hsent Hcr _ _ _] (q & _ & [(_ & _ & Hk & _) Hj])%(Forall2_in_l _ _ _ _ Hcr). split; [done|].
  rewrite <- Hsent. by eapply list_elem_of_lookup_2.
Qed.

(** C11: every credited share is for a job the upstream pool sent and is backed by a hash that
    meets the credited difficulty: when it was verified, RandomX's own of the job's blob with
    the share's nonce under the job's seed; when it was not, the 32 bytes the miner claims, and
    only after the session counted the verified shares of the warm-up.  It is credited at no
    less than the floor, at a difficulty whose target was sent to that miner for that job
    before or at the floor itself.  The submits handed to the upstream client are those of the
    credited shares whose hash also meets the upstream difficulty, each once. *)
Theorem credits_justified now y :
  rtc (step verifier cfg) (init now) y ->
  (forall c, c ∈ credited (shared y) -> justified c /\ cr_job c ∈ Jobs.sent (jobs (shared y))) /\
  submits (shared y) ≡ₚ omap forwards (credited (shared y)).
Proof.
  intros Hr. destruct (reachable_inv _ _ Hr) as [(a & cp & pp & Hc) _ _].
  split; [intros c; by eapply core_justified|]. by rewrite (c_submits _ _ _ _ _ _ _ _ Hc).
Qed.

(** The live-session gauge is the number of connections that have logged in
    and not ended, however they ended. *)
Lemma gauge_counts_logins now y :
  rtc (step verifier cfg) (init now) y -> gauge (shared y) = live (sessions y).
Proof. intros Hr. by destruct (reachable_inv _ _ Hr). Qed.

End Safety.

(** ** The nonce partition *)

Lemma from_step a c s : from (S a) (String c s) = from a s.
Proof. done. Qed.

Lemma from_zero s : from 0 s = s.
Proof. unfold from. rewrite Nat.sub_0_r. induction s; simpl; [done|by f_equal]. Qed.

Lemma string_split n s : (n <= String.length s)%nat -> s = sub 0 n s +:+ from n s.
Proof.
  revert s. induction n as [|n IH]; intros s Hn; [rewrite from_zero; by destruct s|].
  destruct s as [|c s]; simpl in *; [lia|]. rewrite from_step. f_equal.
  rewrite (IH s) at 1 by lia. unfold sub. by rewrite Nat.sub_0_r.
Qed.

Lemma from_length n s : (n <= String.length s)%nat -> String.length (from n s) = (String.length s - n)%nat.
Proof.
  revert s. induction n as [|n IH]; intros s Hn.
  - rewrite from_zero. lia.
  - destruct s as [|c s]; simpl in *; [lia|]. rewrite from_step. apply IH. lia.
Qed.

Lemma from_from a b s : (a + b <= String.length s)%nat -> from b (from a s) = from (a + b) s.
Proof.
  revert s. induction a as [|a IH]; intros s Hn.
  - by rewrite from_zero.
  - destruct s as [|c s]; simpl in *; [lia|]. rewrite !from_step. apply IH. lia.
Qed.

Lemma sub_length n s : (n <= String.length s)%nat -> String.length (sub 0 n s) = n.
Proof.
  unfold sub. rewrite Nat.sub_0_r. revert s. induction n as [|n IH]; intros s Hn; [by destruct s|].
  destruct s as [|c s]; simpl in *; [lia|]. f_equal. apply IH. lia.
Qed.

Lemma nibble_not_continuation c : Text.nibble c <> None -> continuation c = false.
Proof.
  unfold Text.nibble, continuation. intros Hc. case_ifs_in Hc; try done; bools; apply andb_false_iff; left;
    apply Z.leb_gt; lia.
Qed.

Lemma hex_boundary s i :
  Forall (fun c => Text.nibble c <> None) (String.list_ascii_of_string s) -> (i <= String.length s)%nat ->
  is_char_boundary s i = true.
Proof.
  unfold is_char_boundary. revert i. induction s as [|c s IH]; intros i Hf Hi; cbn [String.length String.list_ascii_of_string] in *.
  - by replace i with 0%nat by lia.
  - apply Forall_cons_1 in Hf as [Hc Hf]. destruct i as [|i]; cbn [String.get Nat.eqb]; [|apply IH; auto; lia].
    by rewrite nibble_not_continuation.
Qed.

Lemma u8_of_hex_nibbles h l : 0 <= h < 16 -> 0 <= l < 16 ->
  u8_of_hex (String (Text.nibble_char h) (String (Text.nibble_char l) "")) = Some (16 * h + l).
Proof.
  intros Hh Hl. revert h Hh. apply (Text.nibble_cases (fun h => u8_of_hex _ = Some (16 * h + l)));
    revert l Hl; by apply Text.nibble_cases.
Qed.

Lemma u8_of_hex_byte w : is_u8 w -> u8_of_hex (byte_hex w) = Some w.
Proof.
  intros Hw. unfold byte_hex. simpl. pose proof (Z.div_mod w 16 ltac:(lia)). pose proof (Z.mod_pos_bound w 16 ltac:(lia)).
  rewrite u8_of_hex_nibbles; [f_equal; lia| |done].
  split; [apply Z.div_pos; width_lia|apply Z.div_lt_upper_bound; width_lia].
Qed.

(** The job a session serves differs from the upstream's only in the high
    byte of its nonce, which is the session's worker byte; and a nonce that keeps that
    byte carries it, so sessions with different worker bytes search disjoint nonces. *)
Lemma nonce_partition (Hx : Hex) (HL : HexLaws Hx) blob_hex b w :
  decode blob_hex = Some b -> (43 <= length b)%nat -> is_u8 w ->
  (exists s, stamp_worker_byte blob_hex w = Some s /\ decode s = Some (<[42%nat := w]> b)) /\
  (forall x y z, Forall is_u8 [x; y; z] -> nonce_high_byte (encode [x; y; z; w]) = Some (Some w)).
Proof.
  intros Hb Hl Hw. pose proof (hl_length _ _ Hb) as Hlen. split.
  - unfold stamp_worker_byte. assert (exists k, NONCE_HI_HEX = k /\ k = 84%nat) as (k & -> & Hk) by eauto.
    pose proof (string_split k blob_hex ltac:(lia)) as H1.
    pose proof (string_split 2 (from k blob_hex) ltac:(rewrite from_length; lia)) as H2.
    rewrite from_from in H2 by lia.
    destruct (Nat.ltb_spec (String.length blob_hex) (k + 2)); [lia|].
    rewrite !hex_boundary by (eauto using hl_digits; lia). eexists. split; [done|].
    rewrite H1, H2 in Hb. apply hl_split in Hb as (b1 & b2 & Hd1 & Hd2 & ->);
      [|rewrite sub_length by lia; exists 42%nat; lia].
    apply hl_split in Hd2 as (b3 & b4 & Hd3 & Hd4 & ->);
      [|rewrite sub_length by (rewrite from_length; lia); by exists 1%nat].
    pose proof (hl_length _ _ Hd1) as L1. rewrite sub_length in L1 by lia.
    pose proof (hl_length _ _ Hd3) as L3. rewrite sub_length in L3 by (rewrite from_length; lia).
    assert (Hwd : decode (byte_hex w) = Some [w]).
    { unfold byte_hex. rewrite <- hl_text by (by constructor). apply hl_roundtrip. by constructor. }
    rewrite (hl_app _ _ b1 ([w] ++ b4)); [|done|by apply hl_app].
    f_equal. replace 42%nat with (length b1 + 0)%nat by lia. rewrite insert_app_r.
    destruct b3 as [|x [|? ?]]; simpl in L3; [lia|done|lia].
  - intros x y z Hf. assert (Hf4 : Forall is_u8 [x; y; z; w]) by (rewrite !Forall_cons in *; naive_solver).
    pose proof (hl_digits _ _ (hl_roundtrip _ Hf4)) as Hd. rewrite hl_text in * by done.
    unfold nonce_high_byte. change (negb _) with false. cbv iota zeta. rewrite hex_boundary; [|done|vm_compute; lia].
    f_equal. by apply u8_of_hex_byte.
Qed.

End SessionSafety.
