(* ===== verification/SessionDemo.v ===== *)
(** A run of the stratum sessions on concrete inputs: a connection, a job, a login,
    a share, its replay by a second connection. *)
From S2P Require Import Prelude Text Floats Json Hex Stratum Jobs Share Vardiff Session SessionSafety.

Module SessionDemo.
Import Session SessionSafety.

#[local] Existing Instance text_hex.

#[local] Instance coin : Rng unit := {| gen_bool := fun p _ => (F.leb F.one p, tt) |}.

Definition submit_json : Json.Value :=
  Json.Object [("id", Json.Int 2); ("jsonrpc", Json.Str "2.0"); ("method", Json.Str "submit");
    ("params", Json.Object [("id", Json.Str "x"); ("job_id", Json.Str "a"); ("nonce", Json.Str "00000100");
                            ("result", Json.Str "")])].
Definition login_json : Json.Value :=
  Json.Object [("id", Json.Int 1); ("method", Json.Str "login"); ("params", Json.Object [("login", Json.Str "0x1")])].

(** A parser that knows two lines, an address parser that knows one address. *)
#[local] Instance demo_env : SessionEnv := {|
  write_ok := fun _ _ => true;
  from_str := fun s => if String.eqb s "L" then Some login_json else if String.eqb s "S" then Some submit_json else None;
  parse_address := fun s => if String.eqb s "0x1" then Some 1 else None;
|}.

Definition demo_cfg : StratumConfig :=
  {| min_share_difficulty := 1000; target_seconds_per_share := 15; verification_warmup := 5;
     verification_sample_rate := F.lit 1 10; share_grace_secs := 10; vardiff_cfg := Vardiff.sample_cfg |}.

Definition demo_job : Jobs.UpstreamJob :=
  {| Jobs.job_id := "a"; Jobs.blob_hex := Text.hex_encode (replicate 76 0); Jobs.seed_hex := "";
     Jobs.upstream_target_hex := "c5a70000"; Jobs.upstream_diff := 100000; Jobs.height := Some 10 |}.

Abbreviation sys := (Sys (G := unit)).
Abbreviation demo_step := (step (G := unit) Stratum.stub_hash demo_cfg).

Definition newline : string := String (Ascii.ascii_of_nat 10) "".

Definition connect (now : Z) (i : nat) (y : sys) : sys :=
  {| clock := now; shared := next_worker (shared y);
     sessions := <[i := (new_session demo_cfg now "x" tt (worker_seq (shared y)), Idle)]> (sessions y) |}.
Definition publish (now : Z) (j : Jobs.UpstreamJob) (y : sys) : sys :=
  {| clock := now; shared := set_jobs (Jobs.publish now j (jobs (shared y))) (shared y); sessions := sessions y |}.
Definition after (now : Z) (y : sys) (r : Shared * gmap nat (Sess unit * phase)) : sys :=
  {| clock := now; shared := r.1; sessions := r.2 |}.
Definition reads (now : Z) (i : nat) (l : string) (y : sys) : sys :=
  match sessions y !! i with
  | Some (s, Idle) => after now y (conclude i (receive demo_cfg now now (Line (l +:+ newline)) s (shared y)) (sessions y))
  | _ => y
  end.
Definition settles (now : Z) (i : nat) (y : sys) : sys :=
  match sessions y !! i with
  | Some (s, Settling p) => after now y (conclude i (resume Stratum.stub_hash demo_cfg now now p s (shared y)) (sessions y))
  | _ => y
  end.

Definition is_idle (y : sys) (i : nat) : bool := match sessions y !! i with Some (_, Idle) => true | _ => false end.
Definition is_settling (y : sys) (i : nat) : bool := match sessions y !! i with Some (_, Settling _) => true | _ => false end.

Lemma reads_step now i l y : clock y <= now -> is_idle y i = true -> demo_step y (reads now i l y).
Proof.
  unfold is_idle, reads. intros Ht Hi. destruct (sessions y !! i) as [[s []]|] eqn:E; try done.
  eapply (StepRead _ _ y now now i s (Line (l +:+ newline))); [done|exact E|apply surjective_pairing].
Qed.

Lemma settles_step now i y : clock y <= now -> is_settling y i = true -> demo_step y (settles now i y).
Proof.
  unfold is_settling, settles. intros Ht Hi. destruct (sessions y !! i) as [[s []]|] eqn:E; try done.
  eapply (StepSettle _ _ y now now i s p); [done|exact E|apply surjective_pairing].
Qed.

Definition y1 : sys := connect 2 1 (connect 1 0 (init 0)).
Definition y2 : sys := publish 3 demo_job y1.
Definition y3 : sys := reads 5 1 "L" (reads 4 0 "L" y2).
Definition y4 : sys := reads 7 1 "S" (reads 6 0 "S" y3).
Definition y5 : sys := settles 8 0 y4.

Lemma y5_reachable : rtc demo_step (init 0) y5.
Proof.
  eapply rtc_l; [apply (StepConnect _ _ (init 0) 1 0 "x" tt); [done|simpl; lia]|].
  eapply rtc_l; [apply (StepConnect _ _ (connect 1 0 (init 0)) 2 1 "x" tt); [done|simpl; lia]|].
  eapply rtc_l; [apply (StepPublish _ _ y1 3 demo_job); simpl; lia|].
  eapply rtc_l; [apply (reads_step 4 0 "L" y2); [vm_compute; discriminate|by vm_compute]|].
  eapply rtc_l; [apply (reads_step 5 1 "L"); [vm_compute; discriminate|by vm_compute]|].
  eapply rtc_l; [apply (reads_step 6 0 "S" y3); [vm_compute; discriminate|by vm_compute]|].
  eapply rtc_l; [apply (reads_step 7 1 "S"); [vm_compute; discriminate|by vm_compute]|].
  eapply rtc_l; [apply (settles_step 8 0 y4); [vm_compute; discriminate|by vm_compute]|]. apply rtc_refl.
Qed.

Lemma y5_credits : length (credited (shared y5)) = 1%nat /\ gauge (shared y5) = 2 /\ length (submits (shared y5)) = 1%nat.
Proof. by vm_compute. Qed.

Lemma credited_once_witness :
  Jobs.forward (Jobs.sent (jobs (shared y5))) = true /\ length (credited (shared y5)) = 1%nat /\
  (length (credits_of ("a", "00000100") (credited (shared y5))) <= length (publications_of "a" (Jobs.sent (jobs (shared y5)))))%nat.
Proof.
  split; [by vm_compute|]. split; [exact (proj1 y5_credits)|].
  refine (credited_once Stratum.stub_hash demo_cfg 0 y5 "a" "00000100" y5_reachable _). by vm_compute.
Defined.

Lemma credits_justified_witness :
  length (submits (shared y5)) = 1%nat /\
  (forall c, c ∈ credited (shared y5) -> justified Stratum.stub_hash demo_cfg c /\ cr_job c ∈ Jobs.sent (jobs (shared y5))) /\
  submits (shared y5) ≡ₚ omap forwards (credited (shared y5)).
Proof.
  split; [exact (proj2 (proj2 y5_credits))|]. exact (credits_justified Stratum.stub_hash demo_cfg 0 y5 y5_reachable).
Defined.

(** A nonce with a two-byte character over its seventh byte panics the session's task. *)
Example non_ascii_nonce_panics :
  nonce_high_byte ("00000" +:+ String (Ascii.ascii_of_nat 195) (String (Ascii.ascii_of_nat 169) "0")) = None.
Proof. by vm_compute. Qed.

(** A second login while the job is current, after the difficulty moved: the miner is
    sent the new target and the session keeps judging by the old one. *)
Definition with_diff (s : Sess unit) : Sess unit := set_vardiff (Vardiff.with_current 4000 (vardiff s)) s.
Example relogin_judged_at_first_difficulty :
  exists s, sessions y3 !! 0%nat = Some (s, Idle) /\ advertised s = [("a", 2000)] /\
    match receive demo_cfg 6 6 (Line ("L" +:+ newline)) (with_diff s) (shared y3) with
    | (ORet Keep, s', _) =>
        advertised s' = [("a", 2000)] /\
        ((last (out s') ≫= msg_job) ≫= Json.get_str "target") = Some (Stratum.diff_to_target_hex 4000)
    | _ => False
    end.
Proof. eexists. split; [by vm_compute|]. split; [by vm_compute|]. by vm_compute. Qed.

End SessionDemo.
