(* ===== verification/Upstream.v ===== *)
(** The connection to the upstream pool (stratum-proxy/src/upstream.rs): the target
    of the connection, the pinned certificate, the messages of a session, and the
    reconnect loop.

    Sockets, TLS, the JSON parser, SHA-256 and the random source are parameters. *)
From Stdlib Require Import Ascii.
From S2P Require Import Prelude Text Floats Metrics Json Hex Stratum Jobs Session.

Module Upstream.

(** ** Targets *)

Record Endpoint : Type := { host : string; port : Z; use_tls : bool }.

(** [str::strip_prefix]. *)
Fixpoint strip_prefix (pat s : string) : option string :=
  match pat, s with
  | EmptyString, _ => Some s
  | String p pat', String c s' => if Ascii.eqb p c then strip_prefix pat' s' else None
  | String _ _, EmptyString => None
  end.

(** [str::rsplit_once]: the text before and after the last occurrence. *)
Fixpoint rsplit_once (sep : ascii) (s : string) : option (string * string) :=
  match s with
  | EmptyString => None
  | String c s' =>
      match rsplit_once sep s' with
      | Some (a, b) => Some (String c a, b)
      | None => if Ascii.eqb c sep then Some (EmptyString, s') else None
      end
  end.

Definition scheme (url : string) : bool * string :=
  match strip_prefix "stratum+ssl://" url with
  | Some r => (true, r)
  | None =>
      match strip_prefix "stratum+tcp://" url with
      | Some r => (false, r)
      | None =>
          match strip_prefix "ssl://" url with
          | Some r => (true, r)
          | None =>
              match strip_prefix "tcp://" url with
              | Some r => (false, r)
              | None => (false, url)
              end
          end
      end
  end.

Definition parse_endpoint (url : string) : anyhow Endpoint :=
  let '(tls, rest) := scheme url in
  match rsplit_once ":" rest with
  | None => Err "upstream url missing port"
  | Some (h, p) =>
      match Text.parse_u16 p with
      | None => Err "upstream port not a number"
      | Some n => Ok {| host := h; port := n; use_tls := tls |}
      end
  end.

(** ** Certificates *)

Section Pins.
Context `{Hx : Hex}.
Variable sha256 : list Z -> list Z.

(** [chars().filter(..)]. *)
Definition clean (s : string) : string :=
  String.concat "" (List.filter (fun ch => negb (Text.is_white ch) && negb (String.eqb ch ":")) (Text.chars s)).

Definition parse_fingerprint (s : string) : anyhow (list Z) :=
  match decode (clean s) with
  | None => Err "not hex"
  | Some bytes => if negb (length bytes =? 32)%nat then Err "expected 32 bytes" else Ok bytes
  end.

Definition verify_server_cert (pin end_entity : list Z) : anyhow unit :=
  if decide (sha256 end_entity = pin) then Ok tt else Err "tls cert fingerprint mismatch".

(** [tls_connector]: the check a configured pin stands for; without a pin any
    certificate is accepted. *)
Definition cert_check (tls_pin_sha256 : option string) : anyhow (list Z -> anyhow unit) :=
  match tls_pin_sha256 with
  | Some pin_hex => match parse_fingerprint pin_hex with Ok pin => Ok (verify_server_cert pin) | Err e => Err e end
  | None => Ok (fun _ => Ok tt)
  end.

End Pins.

(** ** A session *)

Definition LF : ascii := ascii_of_nat 10.

Record UState : Type := {
  up_jobs : Jobs.JobStore;
  up_metrics : Metrics.t;
  up_session_id : string;
  up_sent : list Session.Request;
}.

Definition set_metrics (m : Metrics.t) (s : UState) : UState :=
  {| up_jobs := up_jobs s; up_metrics := m; up_session_id := up_session_id s; up_sent := up_sent s |}.
Definition set_session_id (i : string) (s : UState) : UState :=
  {| up_jobs := up_jobs s; up_metrics := up_metrics s; up_session_id := i; up_sent := up_sent s |}.
Definition set_jobs (j : Jobs.JobStore) (s : UState) : UState :=
  {| up_jobs := j; up_metrics := up_metrics s; up_session_id := up_session_id s; up_sent := up_sent s |}.
Definition add_sent (r : Session.Request) (s : UState) : UState :=
  {| up_jobs := up_jobs s; up_metrics := up_metrics s; up_session_id := up_session_id s; up_sent := up_sent s ++ [r] |}.

Definition login_id : Z := 1.

Definition login_request (user password : string) : Session.Request :=
  {| Session.req_id := Json.Int login_id; Session.req_jsonrpc := Some "2.0"; Session.req_method := "login";
     Session.req_params := Json.Object [("login", Json.Str user); ("pass", Json.Str password);
                                        ("agent", Json.Str "tiny-pool/0.1")] |}.

Definition submit_request (u : Session.UpstreamSubmit) : Session.Request :=
  {| Session.req_id := Json.Str ("submit:" +:+ Session.us_job_id u); Session.req_jsonrpc := Some "2.0";
     Session.req_method := "submit";
     Session.req_params := Json.Object [("id", Json.Str ""); ("job_id", Json.Str (Session.us_job_id u));
                                        ("nonce", Json.Str (Session.us_nonce_hex u));
                                        ("result", Json.Str (Session.us_result_hex u))] |}.

(** The error object of a failed login ([code] is an [i32]). *)
Definition error_obj (v : Json.Value) : option Session.ErrorObj :=
  kvs ← Json.struct_fields ["code"; "message"] 0 v;
  c ← (Json.field_value "code" kvs ≫= Json.as_i64);
  m ← Json.field_string "message" kvs;
  if decide (- 2 ^ 31 <= c < 2 ^ 31) then Some {| Session.code := c; Session.message := m |} else None.

Section Messages.
Context `{Hx : Hex}.

Definition parse_job (p : Json.Value) : option Jobs.UpstreamJob :=
  job_id ← Json.get_str "job_id" p;
  blob_hex ← Json.get_str "blob" p;
  let seed_hex := default "" (Json.get_str "seed_hash" p) in
  target_hex ← Json.get_str "target" p;
  let upstream_diff := opt_or 1 (Stratum.target_hex_to_diff target_hex) in
  Some {| Jobs.job_id := job_id; Jobs.blob_hex := blob_hex; Jobs.seed_hex := seed_hex;
          Jobs.upstream_target_hex := target_hex; Jobs.upstream_diff := upstream_diff;
          Jobs.height := Json.get_u64 "height" p |}.

Definition publish_job (now : Z) (p : Json.Value) (s : UState) : UState :=
  match parse_job p with
  | Some j => set_jobs (Jobs.publish now j (up_jobs s)) s
  | None => s
  end.

(** The reply to the login. *)
Definition on_login_reply (now now_ms : Z) (v : Json.Value) (s : UState) : anyhow UState :=
  match Json.get "result" v with
  | Some result =>
      let s := set_metrics (Metrics.mark_upstream_connected now_ms (up_metrics s)) s in
      let s := match Json.get_str "id" result with Some i => set_session_id i s | None => s end in
      Ok (match Json.get "job" result with Some j => publish_job now j s | None => s end)
  | None =>
      match Json.get "error" v with
      | Some err =>
          let e := opt_or {| Session.code := -1; Session.message := "login failed" |} (error_obj err) in
          Err ("upstream login failed: " +:+ Text.show (Session.code e) +:+ " " +:+ Session.message e)
      | None => Ok s
      end
  end.

(** The reply to a forwarded share. *)
Definition on_submit_reply (v : Json.Value) (s : UState) : UState :=
  match Json.get "error" v with
  | Some err =>
      if negb (Json.is_null err) then set_metrics (Metrics.record_upstream_submit_reject (up_metrics s)) s
      else match Json.get "result" v with
           | Some _ => set_metrics (Metrics.record_upstream_submit_accept (up_metrics s)) s
           | None => s
           end
  | None =>
      match Json.get "result" v with
      | Some _ => set_metrics (Metrics.record_upstream_submit_accept (up_metrics s)) s
      | None => s
      end
  end.

Definition is_int (n : Z) (v : option Json.Value) : bool :=
  match v with Some (Json.Int z) => z =? n | _ => false end.

Definition on_message (now now_ms : Z) (v : Json.Value) (s : UState) : anyhow UState :=
  if match Json.get_str "method" v with Some m => String.eqb m "job" | None => false end then
    Ok (match Json.get "params" v with Some p => publish_job now p s | None => s end)
  else if is_int login_id (Json.get "id" v) then on_login_reply now now_ms v s
  else if match Json.get_str "id" v with Some i => Text.starts_with "submit:" i | None => false end then
    Ok (on_submit_reply v s)
  else Ok s.

(** ** The loop *)

Variables (from_str : string -> option Json.Value) (write_ok : list Session.Request -> Session.Request -> bool).

(** What a turn of the loop has: a line that was read, empty at the end of the stream, an
    error, or a share to forward. *)
Inductive event : Type :=
| Line (now now_ms : Z) (l : string)
| ReadErr
| Submit (u : Session.UpstreamSubmit).

(** What happens on the connection: bytes arrive, it ends or fails, and shares are handed over
    by the miners' sessions. *)
Inductive input : Type :=
| Bytes (now now_ms : Z) (b : list ascii)
| Eof (now now_ms : Z)
| IoError
| Forward (u : Session.UpstreamSubmit).

(** [read_line], again and again over the bytes at hand; [line] is what the current call has
    read. *)
Fixpoint split_lines (line bytes : list ascii) : list (list ascii) * list ascii :=
  match bytes with
  | [] => ([], line)
  | b :: bytes =>
      let line := line ++ [b] in
      if Ascii.eqb b LF then let '(ls, rest) := split_lines [] bytes in (line :: ls, rest)
      else split_lines line bytes
  end.

(** [read_line] wants UTF-8. *)
Definition line_event (now now_ms : Z) (l : list ascii) : event :=
  let s := String.string_of_list_ascii l in if Text.utf8_valid s then Line now now_ms s else ReadErr.

(** The turns of the [select!]: complete lines come first, and a share that is handed over
    while a line is being read drops the call, and what it had read with it. *)
Fixpoint arrivals (line : list ascii) (inputs : list input) : list event :=
  match inputs with
  | [] => []
  | Bytes now now_ms b :: inputs =>
      let '(ls, line) := split_lines line b in (line_event now now_ms <$> ls) ++ arrivals line inputs
  | Forward u :: inputs => Submit u :: arrivals [] inputs
  | Eof now now_ms :: _ => match line with [] => [] | _ => [line_event now now_ms line] end ++ [Line now now_ms ""]
  | IoError :: _ => [ReadErr]
  end.

Definition write_req (r : Session.Request) (s : UState) : anyhow UState :=
  if write_ok (up_sent s) r then Ok (add_sent r s) else Err "write".

Definition on_event (e : event) (s : UState) : anyhow UState :=
  match e with
  | ReadErr => Err "read"
  | Line now now_ms l =>
      if String.eqb l "" then Err "upstream closed"
      else match from_str (Text.trim l) with
           | None => Ok s
           | Some v => on_message now now_ms v s
           end
  | Submit u => write_req (submit_request u) s
  end.

(** The state keeps what was done before the error that ends the session. *)
Fixpoint session_events (es : list event) (s : UState) : result string unit * UState :=
  match es with
  | [] => (Ok tt, s)
  | e :: es' => match on_event e s with Ok s' => session_events es' s' | Err x => (Err x, s) end
  end.

Definition run_session_io (user password : string) (inputs : list input) (s : UState) : result string unit * UState :=
  match write_req (login_request user password) (set_session_id "" s) with
  | Err x => (Err x, s)
  | Ok s1 => session_events (arrivals [] inputs) s1
  end.

End Messages.

(** ** What the messages of a session amount to *)

Section Effects.
Context `{Hx : Hex}.
Variables (from_str : string -> option Json.Value) (write_ok : list Session.Request -> Session.Request -> bool).

(** The kinds of messages, in the order the code tells them apart. *)
Inductive kind : Type := JobMsg | LoginReply | SubmitReply | OtherMsg.

Definition kind_of (v : Json.Value) : kind :=
  if match Json.get_str "method" v with Some m => String.eqb m "job" | None => false end then JobMsg
  else if is_int login_id (Json.get "id" v) then LoginReply
  else if match Json.get_str "id" v with Some i => Text.starts_with "submit:" i | None => false end then SubmitReply
  else OtherMsg.

(** The job a message carries. *)
Definition carried_job (v : Json.Value) : option Jobs.UpstreamJob :=
  match kind_of v with
  | JobMsg => Json.get "params" v ≫= parse_job
  | LoginReply => (Json.get "result" v ≫= Json.get "job") ≫= parse_job
  | _ => None
  end.

(** A reply that rejects a share has an error that is not null; one that accepts it
    has a result and no such error. *)
Definition rejects (v : Json.Value) : bool :=
  match kind_of v, Json.get "error" v with SubmitReply, Some e => negb (Json.is_null e) | _, _ => false end.
Definition accepts (v : Json.Value) : bool :=
  match kind_of v, Json.get "result" v with SubmitReply, Some _ => negb (rejects v) | _, _ => false end.

Definition event_value (e : event) : option Json.Value :=
  match e with Line _ _ l => from_str (Text.trim l) | _ => None end.

Definition count (f : Json.Value -> bool) (es : list event) : Z :=
  Z.of_nat (length (filter (fun v => f v = true) (omap event_value es))).

End Effects.

(** ** Reconnecting *)

Definition RECONNECT_MAX_DELAY_MS : Z := 10 * 1000.
Definition RECONNECT_BASE_DELAY_MS : Z := 500.
Definition HEALTHY_SESSION_THRESHOLD : Z := 30 * 10 ^ 9.

Definition capped_ms (consecutive_failures : Z) : Z :=
  let exp := Z.min (Z.max 0 (consecutive_failures - 1)) 30 in
  Z.min (u64_saturating_mul RECONNECT_BASE_DELAY_MS (Z.shiftl 1 exp)) RECONNECT_MAX_DELAY_MS.

(** [random] is the draw of [rand::random::<f64>()]; the delay is in milliseconds. *)
Definition reconnect_delay (random : F.f64) (consecutive_failures : Z) : Z :=
  if consecutive_failures =? 0 then 0
  else
    let jitter := F.add (F.lit 8 10) (F.mul (F.lit 4 10) random) in
    let jittered := F.as_u64 (F.mul (F.of_Z (capped_ms consecutive_failures)) jitter) in
    Z.max jittered 50.

(** One turn of the loop after a session: the failures counted, and the metrics. *)
Definition after_session (now_ms elapsed : Z) (m : Metrics.t) : Z * Metrics.t :=
  let '(was_connected, m) := Metrics.mark_upstream_disconnected now_ms m in
  if was_connected && (elapsed >=? HEALTHY_SESSION_THRESHOLD)
  then (1, Metrics.with_upstream m (Metrics.upstream_connected m) (Metrics.upstream_last_change_unix_ms m) 1
             (Metrics.upstream_submit_rejects_total m) (Metrics.upstream_submit_accepts_total m))
  else Metrics.record_upstream_failure m.

Definition run_loop_turn (random : F.f64) (now_ms elapsed : Z) (m : Metrics.t) : Z * Metrics.t :=
  let '(failures, m') := after_session now_ms elapsed m in (reconnect_delay random failures, m').

(** ** Theorems *)

Section Theorems.
Context `{Hx : Hex}.
Variables (from_str : string -> option Json.Value) (write_ok : list Session.Request -> Session.Request -> bool).

Lemma publish_job_sent now p s :
  Jobs.sent (up_jobs (publish_job now p s)) = Jobs.sent (up_jobs s) ++ option_list (parse_job p) /\
  up_metrics (publish_job now p s) = up_metrics s /\ up_sent (publish_job now p s) = up_sent s.
Proof. unfold publish_job. destruct (parse_job p); simpl; [done|by rewrite app_nil_r]. Qed.

(** The counters of a state. *)
Definition n_rejects (s : UState) : Z := Metrics.upstream_submit_rejects_total (up_metrics s).
Definition n_accepts (s : UState) : Z := Metrics.upstream_submit_accepts_total (up_metrics s).

Lemma on_message_spec now now_ms v s s' :
  on_message now now_ms v s = Ok s' -> is_u64 (n_rejects s) -> is_u64 (n_accepts s) ->
  Jobs.sent (up_jobs s') = Jobs.sent (up_jobs s) ++ option_list (carried_job v) /\
  n_rejects s' = wrap_u64 (n_rejects s + if rejects v then 1 else 0) /\
  n_accepts s' = wrap_u64 (n_accepts s + if accepts v then 1 else 0) /\
  up_sent s' = up_sent s.
Proof.
  unfold on_message, carried_job, accepts, rejects, n_rejects, n_accepts.
  assert (Hk : kind_of v = kind_of v) by done. unfold kind_of at 1 in Hk.
  destruct (match Json.get_str "method" v with Some m => _ | None => _ end);
    [|destruct (is_int _ _); [|destruct (match Json.get_str "id" v with Some i => _ | None => _ end)]];
    rewrite <- Hk; intros Hm Hr Ha.
  - simplify_eq. destruct (Json.get "params" v) as [p|]; simpl.
    + destruct (publish_job_sent now p s) as (-> & -> & ->). by rewrite !Z.add_0_r, !wrap_u64_id.
    + by rewrite app_nil_r, !Z.add_0_r, !wrap_u64_id.
  - unfold on_login_reply in Hm. destruct (Json.get "result" v) as [r|]; simpl.
    + simplify_eq. destruct (Json.get_str "id" r), (Json.get "job" r) as [j|]; simpl;
        try (match goal with |- context [publish_job now j ?x] => destruct (publish_job_sent now j x) as (-> & -> & ->) end; simpl);
        rewrite ?app_nil_r, !Z.add_0_r, !wrap_u64_id by done; done.
    + destruct (Json.get "error" v); simplify_eq. by rewrite app_nil_r, !Z.add_0_r, !wrap_u64_id.
  - simplify_eq. unfold on_submit_reply. simpl. rewrite app_nil_r.
    destruct (Json.get "error" v) as [e|]; [destruct (Json.is_null e)|]; destruct (Json.get "result" v); simpl;
      rewrite ?Z.add_0_r, ?(wrap_u64_id _ Hr), ?(wrap_u64_id _ Ha); done.
  - simplify_eq. by rewrite app_nil_r, !Z.add_0_r, !wrap_u64_id.
Qed.

Lemma count_cons f e es :
  count from_str f (e :: es) =
  match event_value from_str e with Some v => if f v then 1 else 0 | None => 0 end + count from_str f es.
Proof.
  unfold count. simpl. destruct (event_value from_str e) as [v|]; [|done].
  rewrite filter_cons. destruct (f v); [|done]. rewrite decide_True by done. cbn [length]. rewrite Nat2Z.inj_succ, <- Z.add_1_l. done.
Qed.

(** The shares of a list of events, and the request that forwards one: it names the job, the
    nonce and the result, and its session id is empty. *)
Definition submitted (es : list event) : list Session.UpstreamSubmit :=
  omap (fun e => match e with Submit u => Some u | _ => None end) es.

Definition forwards (u : Session.UpstreamSubmit) (q : Session.Request) : Prop :=
  Session.req_method q = "submit"%string /\ Session.req_id q = Json.Str ("submit:" +:+ Session.us_job_id u) /\
  Json.get_str "job_id" (Session.req_params q) = Some (Session.us_job_id u) /\
  Json.get_str "nonce" (Session.req_params q) = Some (Session.us_nonce_hex u) /\
  Json.get_str "result" (Session.req_params q) = Some (Session.us_result_hex u) /\
  Json.get_str "id" (Session.req_params q) = Some ""%string.

Lemma on_event_spec e s s' :
  on_event from_str write_ok e s = Ok s' -> is_u64 (n_rejects s) -> is_u64 (n_accepts s) ->
  Jobs.sent (up_jobs s') = Jobs.sent (up_jobs s) ++ option_list (event_value from_str e ≫= carried_job) /\
  n_rejects s' = wrap_u64 (n_rejects s + match event_value from_str e with Some v => if rejects v then 1 else 0 | None => 0 end) /\
  n_accepts s' = wrap_u64 (n_accepts s + match event_value from_str e with Some v => if accepts v then 1 else 0 | None => 0 end) /\
  exists qs, up_sent s' = up_sent s ++ qs /\ Forall2 forwards (submitted [e]) qs.
Proof.
  destruct e as [now now_ms l| |u]; simpl; [|done|].
  - destruct (String.eqb l ""); [done|]. destruct (from_str (Text.trim l)) as [v|].
    + intros Hm Hr Ha. destruct (on_message_spec now now_ms v s s' Hm Hr Ha) as (H1 & H2 & H3 & H4).
      split_and!; [done..|]. exists []. rewrite H4, app_nil_r. by split; [|constructor].
    + intros [= <-] Hr Ha. rewrite !app_nil_r, !Z.add_0_r, !wrap_u64_id by done. split_and!; [done..|].
      exists []. rewrite app_nil_r. by split; [|constructor].
  - unfold write_req. destruct (write_ok _ _); [|done]. intros [= <-] Hr Ha.
    rewrite app_nil_r, !Z.add_0_r, !wrap_u64_id by done. split_and!; [done..|].
    exists [submit_request u]. split; [done|]. by repeat constructor.
Qed.

(** What a session did of its events. *)
Definition effects (es : list event) (s s' : UState) : Prop :=
  Jobs.sent (up_jobs s') = Jobs.sent (up_jobs s) ++ omap (fun e => event_value from_str e ≫= carried_job) es /\
  n_rejects s' = wrap_u64 (n_rejects s + count from_str rejects es) /\
  n_accepts s' = wrap_u64 (n_accepts s + count from_str accepts es) /\
  exists qs, up_sent s' = up_sent s ++ qs /\ Forall2 forwards (submitted es) qs.

Lemma effects_nil s : is_u64 (n_rejects s) -> is_u64 (n_accepts s) -> effects [] s s.
Proof.
  intros Hr Ha. unfold effects, count. simpl. rewrite app_nil_r, !Z.add_0_r, !wrap_u64_id by done. split_and!; [done..|].
  exists []. rewrite app_nil_r. by split; [|constructor].
Qed.

Lemma effects_cons e es s s1 s' :
  on_event from_str write_ok e s = Ok s1 -> is_u64 (n_rejects s) -> is_u64 (n_accepts s) -> effects es s1 s' -> effects (e :: es) s s'.
Proof.
  intros E1 Hr Ha (Hj' & Hr' & Ha' & qs' & Hs' & Hq'). destruct (on_event_spec _ _ _ E1 Hr Ha) as (Hj & Hr1 & Ha1 & qs & Hs & Hq).
  unfold effects. rewrite Hj', Hr', Ha', Hs', Hj, Hr1, Ha1, Hs, !count_cons, !wrap_u64_add, <- !app_assoc.
  split_and!; [|f_equal; lia|f_equal; lia|].
  - f_equal. simpl. by destruct (event_value from_str e ≫= carried_job).
  - exists (qs ++ qs'). split; [done|]. change (e :: es) with ([e] ++ es). unfold submitted in *. rewrite omap_app. by apply Forall2_app.
Qed.

(** A session handles its events up to the one that ends it. *)
Lemma session_prefix es s r s' :
  is_u64 (n_rejects s) -> is_u64 (n_accepts s) -> session_events from_str write_ok es s = (r, s') ->
  exists done rest, es = done ++ rest /\ effects done s s' /\
    match r with Ok _ => rest = [] | Err x => exists e rest', rest = e :: rest' /\ on_event from_str write_ok e s' = Err x end.
Proof.
  revert s. induction es as [|e es IH]; intros s Hr Ha He; simpl in He.
  - simplify_eq. exists [], []. split_and!; [done|by apply effects_nil|done].
  - destruct (on_event from_str write_ok e s) as [s1|x] eqn:E1.
    + destruct (on_event_spec _ _ _ E1 Hr Ha) as (_ & Hr1 & Ha1 & _).
      destruct (IH s1) as (dn & rest & -> & Hd & Hrest); [rewrite Hr1; apply wrap_u64_range|rewrite Ha1; apply wrap_u64_range|done|].
      exists (e :: dn), rest. split_and!; [done|by eapply effects_cons|done].
    + simplify_eq. exists [], (e :: es). split_and!; [done|by apply effects_nil|eauto].
Qed.

(** ** Framing *)

Definition wire (l : string) : list ascii := String.list_ascii_of_string l ++ [LF].

(** A line the upstream pool may send. *)
Definition whole_line (l : string) : Prop :=
  Forall (fun c => c <> LF) (String.list_ascii_of_string l) /\ Text.utf8_valid (l +:+ String LF EmptyString) = true.

Lemma split_app line a b :
  split_lines line (a ++ b)
  = let '(ls, line') := split_lines line a in let '(ls', line'') := split_lines line' b in (ls ++ ls', line'').
Proof.
  revert line. induction a as [|x a IH]; intros line; simpl; [by destruct (split_lines line b)|].
  destruct (Ascii.eqb x LF); rewrite IH.
  - destruct (split_lines [] a) as [ls line']. by destruct (split_lines line' b).
  - by destruct (split_lines (line ++ [x]) a).
Qed.

Lemma split_line l line b :
  Forall (fun c => c <> LF) l ->
  split_lines line (l ++ LF :: b) = let '(ls, rest) := split_lines [] b in ((line ++ l ++ [LF]) :: ls, rest).
Proof.
  intros Hl. revert line. induction Hl as [|x l Hne Hl IH]; intros line; simpl; [done|].
  rewrite (proj2 (Ascii.eqb_neq _ _) Hne), IH. destruct (split_lines [] b). by rewrite <- app_assoc.
Qed.

Lemma split_wire ls : Forall whole_line ls -> split_lines [] (concat (wire <$> ls)) = (wire <$> ls, []).
Proof.
  induction 1 as [|l ls (Hl & _) _ IH]; [done|]. cbn [fmap list_fmap concat]. unfold wire at 1. rewrite <- app_assoc. cbn [app].
  rewrite split_line by done. by rewrite IH.
Qed.

Lemma arrivals_chunks line now now_ms bs inputs :
  arrivals line (map (Bytes now now_ms) bs ++ inputs)
  = (line_event now now_ms <$> (split_lines line (concat bs)).1) ++ arrivals (split_lines line (concat bs)).2 inputs.
Proof.
  revert line. induction bs as [|b bs IH]; intros line; [done|]. simpl. rewrite split_app.
  destruct (split_lines line b) as [ls line']. rewrite IH. destruct (split_lines line' (concat bs)) as [ls' line''].
  simpl. by rewrite fmap_app, app_assoc.
Qed.

Lemma line_event_wire now now_ms l : whole_line l -> line_event now now_ms (wire l) = Line now now_ms (l +:+ String LF EmptyString).
Proof.
  intros (_ & Hu). unfold line_event, wire. change [LF] with (String.list_ascii_of_string (String LF EmptyString)).
  assert (E : forall a b, String.list_ascii_of_string a ++ String.list_ascii_of_string b = String.list_ascii_of_string (a +:+ b)).
  { intros a b. induction a as [|c a IH]; simpl; [done|by rewrite IH]. }
  by rewrite E, String.string_of_list_ascii_of_string, Hu.
Qed.

(** Lines in pieces, and then a share. *)
Record burst : Type := { b_now : Z; b_now_ms : Z; b_lines : list string; b_pieces : list (list ascii); b_share : Session.UpstreamSubmit }.
Definition burst_ok (b : burst) : Prop := Forall whole_line (b_lines b) /\ concat (b_pieces b) = concat (wire <$> b_lines b).
Definition burst_inputs (b : burst) : list input := map (Bytes (b_now b) (b_now_ms b)) (b_pieces b) ++ [Forward (b_share b)].
Definition burst_events (b : burst) : list event :=
  ((fun l => Line (b_now b) (b_now_ms b) (l +:+ String LF EmptyString)) <$> b_lines b) ++ [Submit (b_share b)].

Lemma bursts_arrive bs : Forall burst_ok bs -> arrivals [] (concat (burst_inputs <$> bs)) = concat (burst_events <$> bs).
Proof.
  induction 1 as [|b bs (Hl & Hc) _ IH]; [done|]. cbn [fmap list_fmap concat].
  unfold burst_inputs at 1, burst_events at 1. rewrite <- !app_assoc, arrivals_chunks, Hc, split_wire by done.
  cbn [fst snd app arrivals]. rewrite IH. f_equal. rewrite <- list_fmap_compose. apply Forall_fmap_ext_1.
  eapply Forall_impl; [exact Hl|]. apply line_event_wire.
Qed.

(** C38: over a session with the upstream pool, whatever arrives on it, in whatever pieces,
    the events up to the one that ends the session have exactly these effects: the jobs
    handed to the miners are the well-formed jobs of its job notices and login replies, in
    order; the accept and reject counters grow by the replies that accept and that reject
    a share, an explicit null error being no rejection, modulo 64 bits; and every share
    handed over is written, in order, as a submit request with its job, nonce and
    result, and with an empty session id, whichever id the login reply gave.  When shares are
    handed over between the lines, the events are the lines sent and the shares, in
    order; one handed over in the middle of a line loses the part of it that was read. *)
Theorem session_effects :
  (forall inputs s r s',
     is_u64 (n_rejects s) -> is_u64 (n_accepts s) -> session_events from_str write_ok (arrivals [] inputs) s = (r, s') ->
     exists done rest, arrivals [] inputs = done ++ rest /\ effects done s s' /\
       match r with Ok _ => rest = [] | Err x => exists e rest', rest = e :: rest' /\ on_event from_str write_ok e s' = Err x end) /\
  (forall bs, Forall burst_ok bs -> arrivals [] (concat (burst_inputs <$> bs)) = concat (burst_events <$> bs)).
Proof. split; [intros inputs s r s'; apply session_prefix|apply bursts_arrive]. Qed.

(** The job a session serves a miner, read the way the pool reads its own
    upstream's jobs, is the job served: same id, seed and height, the stamped blob, and
    a difficulty no lower than the one advertised, equal to it up to 65535. *)
Lemma served_job_parses (HL : HexLaws Hx) id j d w v :
  Session.job_to_json id j d w = Some v -> is_u64 d ->
  match Jobs.height j with Some h => is_u64 h | None => True end ->
  exists j', parse_job v = Some j' /\
    Jobs.job_id j' = Jobs.job_id j /\ Jobs.seed_hex j' = Jobs.seed_hex j /\ Jobs.height j' = Jobs.height j /\
    Session.stamp_worker_byte (Jobs.blob_hex j) w = Some (Jobs.blob_hex j') /\
    d <= Jobs.upstream_diff j' /\ (1 <= d <= 65535 -> Jobs.upstream_diff j' = d).
Proof.
  unfold Session.job_to_json. destruct (Session.stamp_worker_byte _ _) as [b|]; [|done]. intros [= <-] Hd Hh.
  destruct (Stratum.target_back Hx HL d Hd) as (d' & Ht & Hle & Hs).
  unfold parse_job. simpl. rewrite Ht. eexists. split; [done|]. simpl. split_and!; auto.
  destruct (Jobs.height j) as [h|]; simpl; [|done]. unfold Json.get_u64. simpl. by rewrite decide_True.
Qed.

(** With a pin in any notation (colons, white space), the connection accepts
    exactly the certificates with that SHA-256 fingerprint. *)
Lemma pin_accepts_exactly (HL : HexLaws Hx) sha256 text fp :
  Forall is_u8 fp -> length fp = 32%nat -> clean text = encode fp ->
  exists check, cert_check sha256 (Some text) = Ok check /\
    forall cert, check cert = Ok tt <-> sha256 cert = fp.
Proof.
  intros Hf Hl Hc. unfold cert_check, parse_fingerprint. rewrite Hc, hl_roundtrip by done. rewrite Hl. simpl.
  eexists. split; [done|]. intros cert. unfold verify_server_cert. by case_decide.
Qed.

End Theorems.

(** Text without the separator has no split; text after it is found whole. *)
Lemma rsplit_once_none sep s : Forall (fun c => c <> sep) (String.list_ascii_of_string s) -> rsplit_once sep s = None.
Proof.
  induction s as [|c s IH]; intros Hf; simpl in *; [done|]. apply Forall_cons_1 in Hf as [Hc Hf].
  rewrite IH by done. destruct (Ascii.eqb_spec c sep); done.
Qed.

Lemma rsplit_once_app sep a b : rsplit_once sep b = None -> rsplit_once sep (a +:+ String sep b) = Some (a, b).
Proof.
  intros Hb. induction a as [|c a IH]; simpl; [rewrite Hb, Ascii.eqb_refl; done|]. by rewrite IH.
Qed.

Lemma host_port_split h p :
  0 <= p <= 2 ^ 16 - 1 ->
  rsplit_once ":" (h +:+ String ":" (Text.show p)) = Some (h, Text.show p) /\ Text.parse_u16 (Text.show p) = Some p.
Proof.
  intros Hp. split; [|by apply Text.parse_uint_show].
  apply rsplit_once_app, rsplit_once_none. eapply Forall_impl; [apply Text.show_digits; lia|].
  intros c Hc ->. by apply Hc.
Qed.

(** A URL made of a scheme, a host (which may itself contain colons) and a
    port parses to that host, port and transport. *)
Theorem parse_endpoint_roundtrip pre tls h p :
  (pre, tls) ∈ [("stratum+ssl://", true); ("stratum+tcp://", false); ("ssl://", true); ("tcp://", false)] ->
  0 <= p <= 2 ^ 16 - 1 ->
  parse_endpoint (pre +:+ h +:+ String ":" (Text.show p)) = Ok {| host := h; port := p; use_tls := tls |}.
Proof.
  intros Hpre Hp. destruct (host_port_split h p Hp) as [Hs Hn].
  rewrite !elem_of_cons, elem_of_nil in Hpre. unfold parse_endpoint.
  assert (scheme (pre +:+ h +:+ String ":" (Text.show p)) = (tls, h +:+ String ":" (Text.show p))) as ->
    by (naive_solver).
  by rewrite Hs, Hn.
Qed.

(** The delay before the jitter: doubling from half a second, capped at ten seconds. *)
Lemma capped_ms_spec f : 1 <= f -> capped_ms f = Z.min (500 * 2 ^ (f - 1)) 10000.
Proof.
  intros Hf. unfold capped_ms, RECONNECT_BASE_DELAY_MS, RECONNECT_MAX_DELAY_MS, u64_saturating_mul.
  rewrite Z.shiftl_1_l. destruct (Z.le_gt_cases (f - 1) 30) as [Hle|Hgt].
  - rewrite (Z.max_r 0) by lia. rewrite (Z.min_l (f - 1)) by lia.
    assert (2 ^ (f - 1) <= 2 ^ 30) by (apply Z.pow_le_mono_r; lia). rewrite (Z.min_r u64_max) by (unfold u64_max; lia). lia.
  - rewrite (Z.max_r 0), (Z.min_r (f - 1)) by lia.
    assert (2 ^ 30 <= 2 ^ (f - 1)) by (apply Z.pow_le_mono_r; lia).
    change (Z.min u64_max (500 * 2 ^ 30)) with (500 * 2 ^ 30). lia.
Qed.

Lemma reconnect_delay_min r f : f <> 0 -> 50 <= reconnect_delay r f.
Proof. intros Hf. unfold reconnect_delay. destruct (Z.eqb_spec f 0); lia. Qed.

(** An eight-byte target is divided into the four-byte maximum: the target of
    difficulty 10^10 is read as difficulty 2. *)
Example eight_byte_target_misread :
  Stratum.target_hex_to_diff (Hx := text_hex) (Text.hex_encode (to_le_bytes 8 (u64_max / 10 ^ 10))) = Some 2.
Proof. by vm_compute. Qed.

(** ** Concrete inputs *)

Definition demo_job_json : Json.Value :=
  Json.Object [("job_id", Json.Str "a"); ("blob", Json.Str "00"); ("target", Json.Str "c5a70000"); ("height", Json.Int 10)].

(** A job notice, an accept with an explicit null error, and a reject. *)
Definition demo_parse (s : string) : option Json.Value :=
  if String.eqb s "job" then Some (Json.Object [("method", Json.Str "job"); ("params", demo_job_json)])
  else if String.eqb s "acc" then
    Some (Json.Object [("id", Json.Str "submit:a"); ("result", Json.Object [("status", Json.Str "OK")]); ("error", Json.Null)])
  else if String.eqb s "rej" then
    Some (Json.Object [("id", Json.Str "submit:a"); ("error", Json.Object [("code", Json.Int 1); ("message", Json.Str "low")])])
  else None.

Definition demo_state : UState :=
  {| up_jobs := Jobs.new; up_metrics := Metrics.new 0; up_session_id := ""; up_sent := [] |}.
Definition demo_share : Session.UpstreamSubmit :=
  {| Session.us_job_id := "a"; Session.us_nonce_hex := "00000001"; Session.us_result_hex := "" |}.
(** The job notice in two pieces, a share, and its replies. *)
Definition demo_bursts : list burst := [
  {| b_now := 1; b_now_ms := 1; b_lines := ["job"]; b_pieces := [["j"%char; "o"%char]; ["b"%char; LF]]; b_share := demo_share |};
  {| b_now := 2; b_now_ms := 2; b_lines := ["acc"; "rej"; "?"]; b_pieces := [concat (wire <$> ["acc"; "rej"; "?"])]; b_share := demo_share |}]%string.
Definition demo_inputs : list input := concat (burst_inputs <$> demo_bursts).
Definition demo_run : result string unit * UState :=
  session_events (Hx := text_hex) demo_parse (fun _ _ => true) (arrivals [] demo_inputs) demo_state.

Lemma session_effects_witness :
  n_accepts demo_run.2 = 1 /\ n_rejects demo_run.2 = 1 /\ length (up_sent demo_run.2) = 2%nat /\
  (exists done rest, arrivals [] demo_inputs = done ++ rest /\ effects (Hx := text_hex) demo_parse done demo_state demo_run.2) /\
  arrivals [] demo_inputs = concat (burst_events <$> demo_bursts).
Proof.
  split; [by vm_compute|]. split; [by vm_compute|]. split; [by vm_compute|]. split.
  - destruct (proj1 (session_effects (Hx := text_hex) demo_parse (fun _ _ => true)) demo_inputs demo_state demo_run.1 demo_run.2)
      as (dn & rest & E & He & _); [vm_compute; split; discriminate|vm_compute; split; discriminate|apply surjective_pairing|].
    exists dn, rest. split; [exact E|exact He].
  - apply (proj2 (session_effects (Hx := text_hex) demo_parse (fun _ _ => true)) demo_bursts).
    repeat constructor; try done; unfold LF; discriminate.
Defined.

(** A share in the middle of the job notice: the job is lost. *)
Example share_splits_line :
  arrivals [] [Bytes 1 1 ["j"%char; "o"%char]; Forward demo_share; Bytes 1 1 ["b"%char; LF]]
  = [Submit demo_share; Line 1 1 (String "b" (String LF EmptyString))].
Proof. by vm_compute. Qed.

Lemma demo_json : exists v,
  Session.job_to_json (Hx := text_hex) "x" (Jobs.sample_job "a" 10) 5000 7 = Some v.
Proof. eexists. by vm_compute. Qed.

Lemma parse_endpoint_roundtrip_witness :
  parse_endpoint "stratum+ssl://pool.hashvault.pro:443" = Ok {| host := "pool.hashvault.pro"; port := 443; use_tls := true |}.
Proof.
  apply (parse_endpoint_roundtrip "stratum+ssl://" true "pool.hashvault.pro" 443); [by left|lia].
Defined.

End Upstream.
