(* ===== verification/Rofl.v ===== *)
(** The program inside its enclave: the market and account records read from the
    ROFL daemon and the choice of a rent top-up (pool-core/src/appd.rs), the agent
    that pays the rent (mining-pool/src/self_fund.rs), and the guard against a second
    live instance (mining-pool/src/single_active.rs).

    The daemon's socket and the CBOR decoder are parameters: what the code works on is
    the decoded value. *)
From Stdlib Require Import Ascii.
From S2P Require Import Prelude Text Floats Hex.

Module Rofl.

(** ** CBOR values ([ciborium::Value]) *)

Inductive Value : Type :=
| Integer (z : Z)
| Bytes (b : list Z)
| Float (f : F.f64)
| CText (s : string)
| Bool (b : bool)
| Null
| Tag (t : Z) (v : Value)
| Array (vs : list Value)
| Map (m : list (Value * Value)).

Definition is_text (key : string) (v : Value) : bool :=
  match v with CText s => String.eqb s key | _ => false end.

Definition map_get (v : Value) (key : string) : option Value :=
  match v with
  | Map m => (fun r => r.2.2) <$> list_find (fun p => is_text key p.1 = true) m
  | _ => None
  end.

(** [u128::from_be_bytes] of the bytes, padded on the left. *)
Definition from_be_bytes (b : list Z) : Z := from_le_bytes (reverse b).

Definition cbor_to_u128 (v : Value) : option Z :=
  match v with
  | Integer i => if 0 <=? i then Some i else None
  | Bytes b => if (length b <=? 16)%nat then Some (from_be_bytes b) else None
  | _ => None
  end.

(** ** Records *)

Record InstanceInfo : Type := { paid_until : option Z; terms : gmap Z Z }.

Fixpoint insert_terms (m : list (Value * Value)) (acc : gmap Z Z) : gmap Z Z :=
  match m with
  | [] => acc
  | (k, v) :: m' =>
      insert_terms m'
        match cbor_to_u128 k, cbor_to_u128 v with
        | Some term, Some price => if (1 <=? term) && (term <=? 3) then <[term := price]> acc else acc
        | _, _ => acc
        end
  end.

Definition instance_of (v : Value) : InstanceInfo :=
  {| paid_until := wrap_u64 <$> (map_get v "paid_until" ≫= cbor_to_u128);
     terms := match (map_get v "payment" ≫= fun p => map_get p "native") ≫= fun n => map_get n "terms" with
              | Some (Map m) => insert_terms m ∅
              | _ => ∅
              end |}.

Definition is_empty_bytes (v : Value) : bool := match v with Bytes [] => true | _ => false end.

Definition native_balance_of (v : Value) : Z :=
  match map_get v "balances" with
  | Some (Map m) =>
      match list_find (fun p => is_empty_bytes p.1 = true) m with
      | Some (_, (_, val)) => opt_or 0 (cbor_to_u128 val)
      | None => match m with [(_, val)] => opt_or 0 (cbor_to_u128 val) | _ => 0 end
      end
  | _ => 0
  end.

(** [discover_instances], on the decoded reply: the 8-byte ids of the accepted
    instances of our app. *)
Definition bytes_eqb (a b : list Z) : bool := bool_decide (a = b).

Definition live_instance (app_id : list Z) (inst : Value) : option (list Z) :=
  match map_get inst "status" ≫= cbor_to_u128 with
  | Some 1 =>
      match map_get inst "deployment" ≫= fun d => map_get d "app_id" with
      | Some (Bytes b) =>
          if bytes_eqb b app_id then
            match map_get inst "id" with
            | Some (Bytes i) => if (length i =? 8)%nat then Some i else None
            | _ => None
            end
          else None
      | _ => None
      end
  | _ => None
  end.

Definition discover_instances (app_id : list Z) (reply : Value) : list (list Z) :=
  match reply with Array items => omap (live_instance app_id) items | _ => [] end.

(** ** The choice of a term *)

Definition TERM_SECS : list (Z * Z) := [(1, 3600); (2, 2592000); (3, 31536000)].

Definition affordable (spendable max_term : Z) (tms : gmap Z Z) (t : Z) : option Z :=
  if max_term <? t then None
  else match tms !! t with
       | Some price => if (price =? 0) || (spendable <? price) then None else Some price
       | None => None
       end.

Definition eps : F.f64 := F.lit 1 (10 ^ 15).

Definition fabs (x : F.f64) : F.f64 := if F.ltb x F.zero then F.sub F.zero x else x.

Definition better (per_sec : F.f64) (dur : Z) (best : option (Z * F.f64 * Z)) : bool :=
  match best with
  | None => true
  | Some (_, bp, bd) =>
      F.ltb per_sec (F.sub bp eps) || (F.leb (fabs (F.sub per_sec bp)) eps && (bd <? dur))
  end.

Fixpoint scan_terms (spendable max_term : Z) (tms : gmap Z Z) (ts : list (Z * Z)) (best : option (Z * F.f64 * Z))
    : option (Z * F.f64 * Z) :=
  match ts with
  | [] => best
  | (t, dur) :: ts' =>
      scan_terms spendable max_term tms ts'
        match affordable spendable max_term tms t with
        | None => best
        | Some price =>
            let per_sec := F.div (F.of_Z price) (F.of_Z dur) in
            if better per_sec dur best then Some (t, per_sec, dur) else best
        end
  end.

Definition plan_topup (balance floor : Z) (tms : gmap Z Z) (max_term : Z) : option (Z * Z) :=
  let spendable := u128_saturating_sub balance floor in
  (fun b => (b.1.1, 1)) <$> scan_terms spendable max_term tms TERM_SECS None.

(** ** Bech32 *)

Definition CHARSET : string := "qpzry9x8gf2tvdw0s3jn54khce6mua7l".

Fixpoint position (c : ascii) (s : string) (i : Z) : option Z :=
  match s with
  | EmptyString => None
  | String x s' => if Ascii.eqb x c then Some i else position c s' (i + 1)
  end.

Fixpoint symbols (f : ascii -> ascii) (s : string) : option (list Z) :=
  match s with
  | EmptyString => Some []
  | String c s' =>
      match position (f c) CHARSET 0, symbols f s' with
      | Some i, Some l => Some (i :: l)
      | _, _ => None
      end
  end.

(** [rfind('1')]: what is before and after the last separator. *)
Fixpoint rsplit1 (s : string) : option (string * string) :=
  match s with
  | EmptyString => None
  | String c s' =>
      match rsplit1 s' with
      | Some (a, b) => Some (String c a, b)
      | None => if Ascii.eqb c "1" then Some (EmptyString, s') else None
      end
  end.

(** The loop of [bech32_to_21]: [while bits >= 8], which needs at most two turns. *)
Fixpoint flush (fuel : nat) (acc bits : Z) (out : list Z) : Z * list Z :=
  match fuel with
  | O => (bits, out)
  | S n => if bits >=? 8 then flush n acc (bits - 8) (out ++ [Z.shiftr acc (bits - 8) mod 256]) else (bits, out)
  end.

Fixpoint regroup_while (vals : list Z) (acc bits : Z) (out : list Z) : list Z :=
  match vals with
  | [] => out
  | v :: vals' =>
      let acc := Z.lor (wrap_u32 (Z.shiftl acc 5)) v in
      let '(bits, out) := flush 2 acc (bits + 5) out in
      regroup_while vals' acc bits out
  end.

(** The loop of [bech32_decode], with [if bits >= 8]. *)
Fixpoint regroup_if (vals : list Z) (acc bits : Z) (out : list Z) : list Z :=
  match vals with
  | [] => out
  | v :: vals' =>
      let acc := Z.lor (wrap_u32 (Z.shiftl acc 5)) v in
      let bits := bits + 5 in
      if bits >=? 8 then regroup_if vals' acc (bits - 8) (out ++ [Z.shiftr acc (bits - 8) mod 256])
      else regroup_if vals' acc bits out
  end.

(** [bech32_to_21] of appd.rs. *)
Definition bech32_to_21 (s : string) : anyhow (list Z) :=
  match rsplit1 (Text.trim s) with
  | None => Err "no bech32 separator"
  | Some (_, data) =>
      match symbols (fun c => c) data with
      | None => Err "bad bech32 char"
      | Some vals =>
          if (length vals <? 6)%nat then Err "bech32 too short"
          else let out := regroup_while (take (length vals - 6) vals) 0 0 [] in
               if negb (length out =? 21)%nat then Err "bech32 decoded to the wrong length" else Ok out
      end
  end.

(** [bech32_decode] of single_active.rs.  The source lowers the prefix by Unicode rules;
    it is only compared with ASCII letters that no other character lowers to. *)
Definition bech32_decode (s : string) : anyhow (string * list Z) :=
  match rsplit1 (Text.trim s) with
  | None => Err "bech32 missing separator"
  | Some (hrp, data) =>
      match symbols Text.lower data with
      | None => Err "bech32 bad char"
      | Some vals =>
          if (length vals <? 6)%nat then Err "bech32 data too short"
          else Ok (Text.to_ascii_lowercase hrp, regroup_if (take (length vals - 6) vals) 0 0 [])
      end
  end.

(** ** The rent agent *)

Record SelfFundConfig : Type := {
  safety_window_secs : Z;
  max_topup_term : Z;
  min_topup_interval_secs : Z;
  min_check_interval_secs : Z;
  max_check_interval_secs : Z;
  force_first_topup : bool;
}.

Definition adaptive_sleep (runway : option Z) (cfg : SelfFundConfig) : Z :=
  let mn := Z.max (min_check_interval_secs cfg) 1 in
  let mx := Z.max (max_check_interval_secs cfg) mn in
  match runway with Some r => clamp mn mx (r / 4) | None => mn end.

(** What the agent remembers between ticks. *)
Record AgentState : Type := { last_topup : Z; forced_done : bool }.

(** What a tick sees: the clock, the replies of the two queries (decoded when the
    query succeeded) and the reply to the submission of a term and a count. *)
Record Observation : Type := {
  ob_now : Z;
  ob_instance : anyhow (anyhow Value);
  ob_balance : anyhow (anyhow Value);
  ob_submit : Z -> Z -> anyhow string;
}.

(** Whether a top-up is due, with the guard against running away. *)
Definition topup_due (cfg : SelfFundConfig) (now : Z) (runway : option Z) (st : AgentState) : bool :=
  let force := force_first_topup cfg && negb (forced_done st) in
  let since := u64_saturating_sub now (last_topup st) in
  let due := match runway with
             | Some r => force || (r <? safety_window_secs cfg)
             | None => force || (since >=? min_topup_interval_secs cfg)
             end in
  if due && negb force && (since <? min_topup_interval_secs cfg) then false else due.

(** The term to buy: the plan when the reserve and the prices were read, else the
    shortest. *)
Definition choose_term (cfg : SelfFundConfig) (reserve_floor : Z) (balance : option Z) (tms : option (gmap Z Z))
    : option (Z * Z) :=
  match balance, tms with
  | Some bal, Some tms =>
      if bool_decide (tms = ∅) then Some (1, 1) else plan_topup bal reserve_floor tms (max_topup_term cfg)
  | _, _ => Some (1, 1)
  end.

(** A tick returns its result, the state after it and the top-up it submitted. *)
Definition sf_tick (cfg : SelfFundConfig) (reserve_floor : Z) (o : Observation) (st : AgentState)
    : anyhow (option Z) * AgentState * option (Z * Z) :=
  let now := ob_now o in
  let inst := match ob_instance o with
              | Ok (Ok v) => Ok (Some (instance_of v))
              | Ok (Err e) => Err e
              | Err _ => Ok None
              end in
  match inst with
  | Err e => (Err e, st, None)
  | Ok inst =>
      let runway := (fun p => u64_saturating_sub p now) <$> (inst ≫= paid_until) in
      if negb (topup_due cfg now runway st) then (Ok runway, st, None)
      else
        let balance := match ob_balance o with Ok (Ok v) => Some (native_balance_of v) | _ => None end in
        match choose_term cfg reserve_floor balance (terms <$> inst) with
        | None => (Ok runway, st, None)
        | Some (term, count) =>
            match ob_submit o term count with
            | Err e => (Err e, st, Some (term, count))
            | Ok _ => (Ok runway, {| last_topup := now; forced_done := true |}, Some (term, count))
            end
        end
  end.

(** The acknowledged top-ups of a run of ticks: when, and of which term. *)
Fixpoint sf_run (cfg : SelfFundConfig) (floor : Z) (os : list Observation) (st : AgentState) : list (Z * Z) :=
  match os with
  | [] => []
  | o :: os' =>
      let '(r, st', a) := sf_tick cfg floor o st in
      match r, a with
      | Ok _, Some (term, _) => (ob_now o, term) :: sf_run cfg floor os' st'
      | _, _ => sf_run cfg floor os' st'
      end
  end.

(** ** The single-instance guard *)

(** Derived equality of CBOR values. *)
Fixpoint value_eqb (a b : Value) : bool :=
  match a, b with
  | Integer x, Integer y => x =? y
  | Bytes x, Bytes y => bytes_eqb x y
  | Float x, Float y => F.eqb x y
  | CText x, CText y => String.eqb x y
  | Bool x, Bool y => eqb x y
  | Null, Null => true
  | Tag s x, Tag t y => (s =? t) && value_eqb x y
  | Array xs, Array ys =>
      (fix go (xs ys : list Value) : bool :=
         match xs, ys with
         | [], [] => true
         | x :: xs', y :: ys' => value_eqb x y && go xs' ys'
         | _, _ => false
         end) xs ys
  | Map xs, Map ys =>
      (fix go (xs ys : list (Value * Value)) : bool :=
         match xs, ys with
         | [], [] => true
         | (k, x) :: xs', (k', y) :: ys' => value_eqb k k' && value_eqb x y && go xs' ys'
         | _, _ => false
         end) xs ys
  | _, _ => false
  end.

Fixpoint distinct_from (seen values : list Value) : nat :=
  match values with
  | [] => length seen
  | v :: vs => if existsb (fun s => value_eqb s v) seen then distinct_from seen vs else distinct_from (seen ++ [v]) vs
  end.
Definition distinct_count (values : list Value) : nat := distinct_from [] values.

Inductive Decision : Type := Proceed | StandDown | Skipped.

(** The reason of a stand-down is only logged. *)
Definition guard_decide (nodes : list Value) (node_aware : bool) : Decision :=
  if node_aware then (if (distinct_count nodes <=? 1)%nat then Proceed else StandDown)
  else if (length nodes <=? 1)%nat then Proceed else StandDown.

(** The node id of every registration in the reply. *)
Definition node_ids (reply : Value) : anyhow (list Value) :=
  match reply with
  | Array a => Ok (map (fun r => default Null (map_get r "node_id")) a)
  | _ => Err "rofl.AppInstances did not return an array"
  end.

Definition MAX_ERRORS : Z := 6.

(** [app_id_bytes]: the app id of the daemon's reply. *)
Definition app_id_bytes (body : string) : anyhow (list Z) :=
  match bech32_decode body with
  | Err e => Err e
  | Ok (hrp, data) => if negb (String.eqb hrp "rofl") then Err "unexpected app-id hrp" else Ok data
  end.

(** The loop, on the checks made one after another: [None] while it waits; otherwise
    the number of checks made when it lets the pool start. *)
Fixpoint await_checks (node_aware : bool) (checks : list (anyhow (list Value))) (errors : Z) : option nat :=
  match checks with
  | [] => None
  | Ok nodes :: cs =>
      match guard_decide nodes node_aware with
      | Proceed | Skipped => Some 1%nat
      | StandDown => S <$> await_checks node_aware cs 0
      end
  | Err _ :: cs =>
      let errors := errors + 1 in
      if errors >=? MAX_ERRORS then Some 1%nat else S <$> await_checks node_aware cs errors
  end.

Definition await_sole_instance (socket_exists enabled node_aware : bool) (checks : list (anyhow (list Value))) : option nat :=
  if negb socket_exists then Some 0%nat
  else if negb enabled then Some 0%nat
  else await_checks node_aware checks 0.

(** ** The choice of a term *)

Lemma affordable_Some sp mt tms t p :
  affordable sp mt tms t = Some p <-> t <= mt /\ tms !! t = Some p /\ p <> 0 /\ p <= sp.
Proof.
  unfold affordable. destruct (Z.ltb_spec mt t); [split; [done|lia]|].
  destruct (tms !! t) as [q|]; [|naive_solver].
  destruct (Z.eqb_spec q 0), (Z.ltb_spec sp q); simpl; split; intros; simplify_eq; naive_solver lia.
Qed.

Lemma scan_terms_spec sp mt tms ts best :
  match scan_terms sp mt tms ts best with
  | Some (t, _, _) => (exists x y, best = Some (t, x, y)) \/ (exists d p, (t, d) ∈ ts /\ affordable sp mt tms t = Some p)
  | None => best = None /\ forall t d, (t, d) ∈ ts -> affordable sp mt tms t = None
  end.
Proof.
  revert best. induction ts as [|[t d] ts IH]; intros best; simpl.
  - destruct best as [[[t x] y]|]; [left; eauto|]. split; [done|]. by intros ? ? ?%elem_of_nil.
  - destruct (affordable sp mt tms t) as [p|] eqn:Ea.
    + match goal with |- context [scan_terms _ _ _ ts ?b] => specialize (IH b); destruct (scan_terms sp mt tms ts b) as [[[t' x] y]|] end.
      * destruct IH as [(x' & y' & Hb)|(d' & p' & Hin & Hp)]; [|right; exists d', p'; split; [by right|done]].
        case_ifs_in Hb; [|by left; eauto]. simplify_eq. right. exists y', p. split; [by left|done].
      * destruct IH as [Hb _]. destruct best as [b|]; simpl in Hb; [by case_ifs_in Hb|done].
    + specialize (IH best). destruct (scan_terms sp mt tms ts best) as [[[t' x] y]|].
      * destruct IH as [Hb|(d' & p' & Hin & Hp)]; [by left|right; exists d', p'; split; [by right|done]].
      * destruct IH as [Hb Hn]. split; [done|]. intros t' d' [[= -> ->]|Hin]%elem_of_cons; eauto.
Qed.

(** A top-up is planned for one term, allowed by the configured maximum,
    with a known price that leaves the reserve at or above its floor; and none is
    planned only when no allowed term has such a price. *)
Theorem plan_topup_spec balance floor tms max_term :
  match plan_topup balance floor tms max_term with
  | Some (t, count) =>
      count = 1 /\ (t = 1 \/ t = 2 \/ t = 3) /\ t <= max_term /\
      exists p, tms !! t = Some p /\ p <> 0 /\ p <= Z.max 0 (balance - floor)
  | None =>
      forall t p, t = 1 \/ t = 2 \/ t = 3 -> t <= max_term -> tms !! t = Some p ->
      p = 0 \/ Z.max 0 (balance - floor) < p
  end.
Proof.
  unfold plan_topup. set (sp := u128_saturating_sub balance floor).
  pose proof (scan_terms_spec sp max_term tms TERM_SECS None) as Hs.
  destruct (scan_terms _ _ _ _ _) as [[[t x] y]|]; simpl.
  - destruct Hs as [(? & ? & ?)|(d & p & Hin & (Ht & Hp & Hne & Hle)%affordable_Some)]; [done|].
    split; [done|]. split; [unfold TERM_SECS in Hin; set_solver|]. eauto.
  - destruct Hs as [_ Hn]. intros t p Ht Hm Hp.
    assert (exists d, (t, d) ∈ TERM_SECS) as [d Hin] by (unfold TERM_SECS; set_solver).
    specialize (Hn t d Hin). destruct (decide (p = 0)) as [|Hne]; [by left|right].
    destruct (Z.le_gt_cases p sp) as [Hle|]; [|done].
    assert (affordable sp max_term tms t = Some p) by (by apply affordable_Some). congruence.
Qed.

(** ** The rent agent *)

Lemma adaptive_sleep_bounds r cfg :
  let mn := Z.max (min_check_interval_secs cfg) 1 in
  1 <= mn /\ mn <= adaptive_sleep r cfg <= Z.max (max_check_interval_secs cfg) mn.
Proof.
  intros mn. unfold adaptive_sleep. fold mn. split; [lia|]. destruct r; [apply clamp_range; lia|lia].
Qed.

Lemma topup_due_spaced cfg now runway st :
  topup_due cfg now runway st = true -> forced_done st = true ->
  min_topup_interval_secs cfg <= Z.max 0 (now - last_topup st).
Proof.
  unfold topup_due. intros Hd Hf. rewrite Hf, andb_false_r in Hd. simpl in Hd. unfold u64_saturating_sub in Hd.
  destruct runway; [destruct (_ <? safety_window_secs cfg)|rewrite Z.geb_leb in Hd; destruct (_ <=? _)]; simpl in Hd; try done;
    destruct (Z.ltb_spec (Z.max 0 (now - last_topup st)) (min_topup_interval_secs cfg)); done.
Qed.

(** An acknowledged top-up moves the clock of the agent; one that was not forced
    comes the configured interval after the one before. *)
Lemma sf_tick_spec cfg floor o st r st' a :
  sf_tick cfg floor o st = (r, st', a) ->
  match r, a with
  | Ok _, Some _ =>
      last_topup st' = ob_now o /\ forced_done st' = true /\
      (forced_done st = true -> min_topup_interval_secs cfg <= Z.max 0 (ob_now o - last_topup st))
  | _, _ => st' = st
  end.
Proof.
  unfold sf_tick. destruct (match ob_instance o with Ok _ => _ | Err _ => _ end) as [inst|e]; [|by intros; simplify_eq].
  destruct (topup_due _ _ _ _) eqn:Ed; simpl; [|by intros; simplify_eq].
  destruct (choose_term _ _ _ _) as [[term cnt]|]; [|by intros; simplify_eq].
  destruct (ob_submit o term cnt); intros; simplify_eq; [|done]. split_and!; [done|done|]. by eapply topup_due_spaced.
Qed.

Lemma sf_run_first cfg floor os st i b :
  forced_done st = true -> sf_run cfg floor os st !! 0%nat = Some b -> i = 0%nat ->
  min_topup_interval_secs cfg <= Z.max 0 (b.1 - last_topup st).
Proof.
  intros Hf Hb _. induction os as [|o os IH]; simpl in Hb; [done|].
  destruct (sf_tick cfg floor o st) as [[r st'] a] eqn:Et. apply sf_tick_spec in Et.
  destruct r as [r|e], a as [[term cnt]|]; simpl in *; subst; auto.
  destruct Et as (_ & _ & Hs). simplify_eq/=. auto.
Qed.

(** The agent cannot run away with the reserve: over any run of ticks, two
    top-ups the daemon acknowledged one after the other are at least the configured
    interval apart, whatever was read in between. *)
Lemma sf_run_spaced cfg floor os st i a b :
  sf_run cfg floor os st !! i = Some a -> sf_run cfg floor os st !! S i = Some b ->
  min_topup_interval_secs cfg <= Z.max 0 (b.1 - a.1).
Proof.
  revert st i. induction os as [|o os IH]; intros st i Ha Hb; simpl in Ha, Hb; [done|].
  destruct (sf_tick cfg floor o st) as [[r st'] tp] eqn:Et. apply sf_tick_spec in Et.
  destruct r as [r|e], tp as [[term cnt]|]; eauto. destruct Et as (Hl & Hf & _).
  destruct i as [|i]; simpl in *; [|eauto]. simplify_eq/=. rewrite <- Hl. by eapply sf_run_first.
Qed.

(** ** The guard *)

Lemma distinct_from_ge seen vs : (length seen <= distinct_from seen vs)%nat.
Proof.
  revert seen. induction vs as [|v vs IH]; intros seen; simpl; [done|]. case_ifs; [done|].
  specialize (IH (seen ++ [v])). rewrite length_app in IH. simpl in IH. lia.
Qed.

Lemma distinct_from_one b l :
  (distinct_from [Bytes b] (Bytes <$> l) <= 1)%nat <-> Forall (eq b) l.
Proof.
  induction l as [|c l IH]; simpl; [split; [constructor|lia]|]. rewrite orb_false_r, Forall_cons.
  unfold bytes_eqb. case_bool_decide as Hbc; [rewrite IH; tauto|].
  pose proof (distinct_from_ge [Bytes b; Bytes c] (Bytes <$> l)) as Hge.
  split; [|naive_solver]. intros Hle. exfalso. apply (Nat.lt_irrefl 1).
  eapply Nat.lt_le_trans; [exact Hge|exact Hle].
Qed.

Lemma guard_decide_nodes ids :
  guard_decide (Bytes <$> ids) true = Proceed <-> forall x y, x ∈ ids -> y ∈ ids -> x = y.
Proof.
  unfold guard_decide, distinct_count. destruct ids as [|b l];
    [|change (distinct_from [] _) with (distinct_from [Bytes b] (Bytes <$> l))].
  - split; [by intros _ x y ?%elem_of_nil|done].
  - pose proof (distinct_from_one b l) as Hone. rewrite Forall_forall in Hone.
    destruct (Nat.leb_spec (distinct_from [Bytes b] (Bytes <$> l)) 1) as [Hle|Hgt]; split; try done.
    + intros _ x y Hx Hy. pose proof (proj1 Hone Hle) as Hall. rewrite elem_of_cons in Hx, Hy.
      assert (Heq : forall z, z = b \/ z ∈ l -> z = b) by (intros z [->|Hz]; [done|by rewrite (Hall z)]).
      by rewrite (Heq x), (Heq y).
    + intros Hall. exfalso. eapply Nat.lt_irrefl, Nat.lt_le_trans; [exact Hgt|]. apply Hone. intros x Hx. apply Hall; [by left|by right].
Qed.

(** The checks before the last one that let the pool start. *)
Lemma await_checks_spec na checks : forall errors n,
  0 <= errors < MAX_ERRORS -> await_checks na checks errors = Some n ->
  (exists k nodes, n = S k /\ checks !! k = Some (Ok nodes) /\ guard_decide nodes na = Proceed) \/
  (MAX_ERRORS <= Z.of_nat n + errors /\
   forall i, (Z.of_nat n - MAX_ERRORS <= Z.of_nat i < Z.of_nat n) -> exists e, checks !! i = Some (Err e)).
Proof.
  unfold MAX_ERRORS. induction checks as [|[nodes|e] cs IH]; intros errors n He Hn; simpl in Hn; [done| |].
  - destruct (guard_decide nodes na) eqn:Eg; simplify_eq; [left; by exists 0%nat, nodes| |].
    + destruct (await_checks na cs 0) as [m|] eqn:Em; simplify_eq/=.
      destruct (IH 0 m ltac:(lia) Em) as [(k & ns & -> & Hk & Hg)|[Hm Hall]].
      * left. by exists (S k), ns.
      * right. split; [lia|]. intros [|i] Hi; [lia|]. apply Hall. lia.
    + unfold guard_decide in Eg. by case_ifs_in Eg.
  - unfold MAX_ERRORS in Hn. destruct (Z.geb_spec (errors + 1) 6).
    + simplify_eq. right. split; [lia|]. intros i Hi. replace i with 0%nat by lia. by exists e.
    + destruct (await_checks na cs (errors + 1)) as [m|] eqn:Em; simplify_eq/=.
      destruct (IH (errors + 1) m ltac:(lia) Em) as [(k & ns & -> & Hk & Hg)|[Hm Hall]].
      * left. by exists (S k), ns.
      * right. split; [lia|]. intros [|i] Hi; [by exists e|]. apply Hall. lia.
Qed.

(** Inside the enclave, with the guard enabled, the pool starts only after a
    check that found a single live instance (one registration in strict mode; one
    node, when the registrations' node ids are told apart), or after six checks in a
    row that failed. *)
Lemma await_lets_start na checks n :
  await_sole_instance true true na checks = Some n ->
  (exists k nodes, n = S k /\ checks !! k = Some (Ok nodes) /\
     (na = false -> (length nodes <= 1)%nat) /\
     (na = true -> forall ids, nodes = Bytes <$> ids -> forall x y, x ∈ ids -> y ∈ ids -> x = y)) \/
  (6 <= Z.of_nat n /\
   forall i, Z.of_nat n - 6 <= Z.of_nat i < Z.of_nat n -> exists e, checks !! i = Some (Err e)).
Proof.
  intros Hn. apply await_checks_spec in Hn; [|unfold MAX_ERRORS; lia].
  destruct Hn as [(k & nodes & -> & Hk & Hg)|[Hm Hall]]; [left|right; unfold MAX_ERRORS in *; split; [lia|done]].
  exists k, nodes. split_and!; [done|done| |].
  - intros ->. unfold guard_decide in Hg. by destruct (Nat.leb_spec (length nodes) 1).
  - intros -> ids ->. by apply guard_decide_nodes.
Qed.

(** ** Bech32 *)

Lemma flush_once fuel acc bits out :
  0 <= bits < 8 -> flush (S (S fuel)) acc (bits + 5) out =
  if bits + 5 >=? 8 then (bits + 5 - 8, out ++ [Z.shiftr acc (bits + 5 - 8) mod 256]) else (bits + 5, out).
Proof.
  intros Hb. cbn [flush]. destruct (Z.geb_spec (bits + 5) 8); [|done].
  destruct (Z.geb_spec (bits + 5 - 8) 8); [lia|done].
Qed.

Lemma regroup_agree vals : forall acc bits out, 0 <= bits < 8 -> regroup_while vals acc bits out = regroup_if vals acc bits out.
Proof.
  induction vals as [|v vals IH]; intros acc bits out Hb; [done|]. cbn [regroup_while regroup_if].
  rewrite flush_once by done. destruct (Z.geb_spec (bits + 5) 8); apply IH; lia.
Qed.

Lemma charset_lower c i : position c CHARSET 0 = Some i -> Text.lower c = c.
Proof. by destruct c as [[] [] [] [] [] [] [] []]. Qed.

Lemma symbols_lower s l : symbols (fun c => c) s = Some l -> symbols Text.lower s = Some l.
Proof.
  revert l. induction s as [|c s IH]; intros l Hl; cbn [symbols] in *; [done|].
  destruct (position c CHARSET 0) as [i|] eqn:Ep; [|done]. rewrite (charset_lower _ _ Ep), Ep.
  destruct (symbols (fun c => c) s) as [l'|]; [|done]. by rewrite (IH l' eq_refl).
Qed.

(** The two bech32 decoders of the program agree: whatever the one used for
    the market decodes to a 21-byte id, the one used by the guard decodes to the same
    bytes. *)
Theorem bech32_decoders_agree s out :
  bech32_to_21 s = Ok out -> length out = 21%nat /\ exists hrp, bech32_decode s = Ok (hrp, out).
Proof.
  unfold bech32_to_21, bech32_decode. destruct (rsplit1 (Text.trim s)) as [[hrp data]|]; [|done].
  destruct (symbols (fun c => c) data) as [vals|] eqn:Es; [|done]. rewrite (symbols_lower _ _ Es).
  destruct (length vals <? 6)%nat; [done|]. rewrite regroup_agree by lia.
  destruct (Nat.eqb_spec (length (regroup_if (take (length vals - 6) vals) 0 0 [])) 21); simpl; [|done].
  intros [= <-]. eauto.
Qed.

(** ** Concrete inputs *)

Definition demo_id : string := "rofl1qqn9xndja7e2pnxhttktmecvwzz0yqwxsquqyxdf".

Lemma demo_id_decodes : exists out, bech32_to_21 demo_id = Ok out.
Proof. eexists. by vm_compute. Qed.

Lemma bech32_decoders_agree_witness :
  exists out, bech32_to_21 demo_id = Ok out /\ (length out = 21%nat /\ exists hrp, bech32_decode demo_id = Ok (hrp, out)).
Proof. destruct demo_id_decodes as [out Ho]. exists out. split; [exact Ho|]. exact (bech32_decoders_agree demo_id out Ho). Defined.

(** An id in JSON quotes is not decoded by the guard, which then starts without a
    check after six failures. *)
Example quoted_id_disables_the_guard :
  let q := ascii_of_nat 34 in
  app_id_bytes demo_id <> Err "bech32 bad char" /\
  app_id_bytes (String q (demo_id +:+ String q "")) = Err "bech32 bad char" /\
  await_sole_instance true true false (replicate 6 (Err "bech32 bad char")) = Some 6%nat.
Proof. by vm_compute. Qed.

End Rofl.
