(* ===== verification/Periphery.v ===== *)
(** The small contracts around the pool and their clients: the rent reservoir
    (contracts/src/RentPayer.sol) with the targeting of the rent agent
    (mining-pool/src/self_fund.rs), the fee seller (contracts/src/FeeSwapper.sol), and the
    registry of the miner-facing endpoints (contracts/src/PoolEndpointRegistry.sol) with its
    writer (mining-pool/src/endpoint_registry.rs).

    The check that a transaction comes from the enclave's app, the runtime's reply to a
    message and the exchange are parameters; a revert is [None]. *)
From Stdlib Require Import Ascii.
From S2P Require Import Prelude Text Floats Hex Rofl.
Import Rofl.

Module Periphery.

(** ** CBOR, as the runtime reads it (RFC 8949): shortest heads, and the keys of a map in
    order of their length, then of their bytes *)

Definition head (major n : Z) : list Z :=
  if n <? 24 then [32 * major + n]
  else if n <? 2 ^ 8 then 32 * major + 24 :: to_be_bytes 1 n
  else if n <? 2 ^ 16 then 32 * major + 25 :: to_be_bytes 2 n
  else if n <? 2 ^ 32 then 32 * major + 26 :: to_be_bytes 4 n
  else 32 * major + 27 :: to_be_bytes 8 n.

Inductive item : Type :=
| UInt (n : Z)
| BStr (b : list Z)
| TStr (s : list Z).

Definition len (l : list Z) : Z := Z.of_nat (length l).

Definition encode_item (i : item) : list Z :=
  match i with
  | UInt n => head 0 n
  | BStr b => head 2 (len b) ++ b
  | TStr s => head 3 (len s) ++ s
  end.

Definition encode_map (m : list (list Z * item)) : list Z :=
  head 5 (Z.of_nat (length m)) ++ concat ((fun kv => encode_item (TStr kv.1) ++ encode_item kv.2) <$> m).

Fixpoint lex_lt (a b : list Z) : bool :=
  match a, b with
  | [], _ :: _ => true
  | x :: a', y :: b' => (x <? y) || ((x =? y) && lex_lt a' b')
  | _, _ => false
  end.
Definition key_lt (a b : list Z) : bool := (len a <? len b) || ((len a =? len b) && lex_lt a b).

Fixpoint canonical (ks : list (list Z)) : bool :=
  match ks with
  | a :: ((b :: _) as ks') => key_lt a b && canonical ks'
  | _ => true
  end.

(** ** RentPayer *)

Record RentPayer : Type := { APP_ID : list Z; provider : list Z; instanceId : list Z }.

Inductive rent_event : Type :=
| ToppedUp (term termCount : Z)
| Funded (from : Address) (amount : Z)
| InstanceUpdated (provider instanceId : list Z).

Definition rent_payer_new (appId provider_ instanceId_ : list Z) : RentPayer :=
  {| APP_ID := appId; provider := provider_; instanceId := instanceId_ |}.

(** [authorized app]: the origin of the transaction is an instance of the app. *)
Definition setInstance (authorized : list Z -> bool) (p i : list Z) (c : RentPayer) : option (RentPayer * list rent_event) :=
  if negb (authorized (APP_ID c)) then None
  else Some ({| APP_ID := APP_ID c; provider := p; instanceId := i |}, [InstanceUpdated p i]).

Definition encodeTopUpBody (c : RentPayer) (term termCount : Z) : option (list Z) :=
  if negb ((1 <=? term) && (term <=? 3)) then None
  else if negb ((1 <=? termCount) && (termCount <? 24)) then None
  else Some ([164] ++
             [98] ++ bytes_of "id" ++ [72] ++ instanceId c ++
             [100] ++ bytes_of "term" ++ [term] ++
             [104] ++ bytes_of "provider" ++ [85] ++ provider c ++
             [106] ++ bytes_of "term_count" ++ [termCount]).

(** [subcall m b]: the runtime's status for the message, [None] when it cannot be sent. *)
Definition topUp (authorized : list Z -> bool) (subcall : string -> list Z -> option Z) (term termCount : Z) (c : RentPayer)
    : option (RentPayer * list rent_event) :=
  if negb (authorized (APP_ID c)) then None
  else match encodeTopUpBody c term termCount with
       | None => None
       | Some body =>
           match subcall "roflmarket.InstanceTopUp" body with
           | None => None
           | Some status => if negb (status =? 0) then None else Some (c, [ToppedUp term termCount])
           end
       end.

Definition receive (sender : Address) (value : Z) (c : RentPayer) : option (RentPayer * list rent_event) :=
  Some (c, [Funded sender value]).

(** ** The targeting of the rent agent *)

Definition parse_hex_n (n : nat) (s : string) : anyhow (list Z) :=
  match Text.hex_decode (let s := Text.trim s in opt_or s (Text.strip_0x s)) with
  | None => Err "not valid hex"
  | Some b => if (length b =? n)%nat then Ok b else Err "wrong length"
  end.

Record Target : Type := { t_rent_payer : list Z; t_provider : list Z; t_instance_id : list Z }.

(** The targeting of [run]: [None] leaves the agent idle. *)
Definition targeting (rent_payer_address provider_hex instance_id_hex : string) : option Target :=
  match parse_hex_n 20 rent_payer_address, parse_hex_n 21 provider_hex, parse_hex_n 8 instance_id_hex with
  | Ok rp, Ok pv, Ok iid => Some {| t_rent_payer := rp; t_provider := pv; t_instance_id := iid |}
  | _, _, _ => None
  end.

(** The call [set_instance] submits, as the contract receives it. *)
Definition set_instance (authorized : list Z -> bool) (t : Target) (c : RentPayer) : option (RentPayer * list rent_event) :=
  setInstance authorized (t_provider t) (t_instance_id t) c.

(** ** FeeSwapper *)

Record FeeSwapper : Type := {
  miningPoolToken : Address;
  router : Address;
  wrappedNative : Address;
  fs_APP_ID : list Z;
  reservoir : Address;
  fs_owner : Address;
}.

Inductive swap_event : Type :=
| ReservoirUpdated (reservoir : Address)
| FeeSwapped (mptIn minOut roseOut : Z) (reservoir : Address).

Section FeeSwapper.
(** The exchange, over the state [X] of the rest of the chain: the wrapped native token,
    a quote, a swap for native tokens, and a balance. *)
Context {X : Type}.
Variable WETH : Address -> Address.
Variable getAmountsOut : Z -> list Address -> X -> option (list Z).
Variable swapExactTokensForETH : Z -> Z -> list Address -> Address -> Z -> X -> option X.
Variable balance : Address -> X -> Z.
Variable approve : Address -> Address -> Z -> X -> option X.

Definition fee_swapper_new (sender token router_ reservoir_ : Address) (appId : list Z) (x : X)
    : option (FeeSwapper * X * list swap_event) :=
  if (token =? 0) || (router_ =? 0) || (reservoir_ =? 0) then None
  else match approve token router_ u256_max x with
       | None => None
       | Some x' =>
           Some ({| miningPoolToken := token; router := router_; wrappedNative := WETH router_; fs_APP_ID := appId;
                    reservoir := reservoir_; fs_owner := sender |}, x', [ReservoirUpdated reservoir_])
       end.

Definition setReservoir (sender reservoir_ : Address) (c : FeeSwapper) : option (FeeSwapper * list swap_event) :=
  if negb (sender =? fs_owner c) then None
  else if reservoir_ =? 0 then None
  else Some ({| miningPoolToken := miningPoolToken c; router := router c; wrappedNative := wrappedNative c;
                fs_APP_ID := fs_APP_ID c; reservoir := reservoir_; fs_owner := fs_owner c |},
             [ReservoirUpdated reservoir_]).

(** The inherited [transferOwnership] and [renounceOwnership]. *)
Definition with_owner (o : Address) (c : FeeSwapper) : FeeSwapper :=
  {| miningPoolToken := miningPoolToken c; router := router c; wrappedNative := wrappedNative c;
     fs_APP_ID := fs_APP_ID c; reservoir := reservoir c; fs_owner := o |}.

Definition fs_transferOwnership (sender new_owner : Address) (c : FeeSwapper) : option FeeSwapper :=
  if new_owner =? 0 then None else if negb (sender =? fs_owner c) then None else Some (with_owner new_owner c).

Definition fs_renounceOwnership (sender : Address) (c : FeeSwapper) : option FeeSwapper :=
  if negb (sender =? fs_owner c) then None else Some (with_owner 0 c).

Definition path (c : FeeSwapper) : list Address := [miningPoolToken c; wrappedNative c].

Definition quoteRoseOut (mptIn : Z) (c : FeeSwapper) (x : X) : option Z :=
  match getAmountsOut mptIn (path c) x with Some amounts => last amounts | None => None end.

Definition swapFeeToRose (authorized : list Z -> bool) (mptIn minOut deadline : Z) (c : FeeSwapper) (x : X)
    : option (Z * X * list swap_event) :=
  if negb (authorized (fs_APP_ID c)) then None
  else if negb (0 <? mptIn) then None
  else
    let balBefore := balance (reservoir c) x in
    match swapExactTokensForETH mptIn minOut (path c) (reservoir c) deadline x with
    | None => None
    | Some x' =>
        if balance (reservoir c) x' <? balBefore then None
        else
          let roseOut := balance (reservoir c) x' - balBefore in
          Some (roseOut, x', [FeeSwapped mptIn minOut roseOut (reservoir c)])
    end.

End FeeSwapper.

(** ** PoolEndpointRegistry *)

Record Registry : Type := { reg_APP_ID : list Z; onion : string; tlsFingerprint : list Z; updatedAt : Z }.

Definition registry_new (appId : list Z) : Registry :=
  {| reg_APP_ID := appId; onion := ""; tlsFingerprint := replicate 32 0; updatedAt := 0 |}.

(** The event, which repeats the three fields, is left out. *)
Definition setEndpoints (authorized : list Z -> bool) (timestamp : Z) (onion_ : string) (fp : list Z) (c : Registry)
    : option Registry :=
  if negb (authorized (reg_APP_ID c)) then None
  else Some {| reg_APP_ID := reg_APP_ID c; onion := onion_; tlsFingerprint := fp; updatedAt := wrap_u64 timestamp |}.

Definition endpoints (c : Registry) : string * list Z * Z := (onion c, tlsFingerprint c, updatedAt c).

(** ** The writer of the registry *)

Definition parse_fingerprint (hex_str : string) : anyhow (list Z) :=
  match Text.hex_decode (Text.trim_0x (Text.trim hex_str)) with
  | None => Err "tls fingerprint is not valid hex"
  | Some b => if (length b =? 32)%nat then Ok b else Err "wrong length"
  end.

(** [advertise], over the chain [C]: [read] is the call of [endpoints()], [submit] the
    transaction through the daemon, whose acceptance is all that is known of it. *)
Section Advertise.
Context {C : Type}.
Variable parse_address : string -> option Address.
Variable parse_url : string -> bool.
Variable read : Address -> C -> anyhow (string * list Z * Z).
Variable submit : Address -> string -> list Z -> C -> anyhow string * C.

Definition needs_update (cur : string * list Z * Z) (onion : string) (fp : list Z) : bool :=
  (cur.2 =? 0) || negb (String.eqb cur.1.1 onion) || negb (bool_decide (cur.1.2 = fp)).

Definition advertise (http_url registry_addr onion tls_fingerprint_hex : string) (c : C) : anyhow unit * C :=
  match parse_address registry_addr with
  | None => (Err "registry address", c)
  | Some registry =>
      match parse_fingerprint tls_fingerprint_hex with
      | Err e => (Err e, c)
      | Ok fp =>
          if negb (parse_url http_url) then (Err "l2 http url", c)
          else match read registry c with
               | Err e => (Err e, c)
               | Ok cur =>
                   if negb (needs_update cur onion fp) then (Ok tt, c)
                   else let '(r, c') := submit registry onion fp c in
                        (match r with Ok _ => Ok tt | Err e => Err e end, c')
               end
      end
  end.

End Advertise.

(** ** Rent *)

Definition rent_wf (c : RentPayer) : Prop := length (provider c) = 21%nat /\ length (instanceId c) = 8%nat.

Definition topup_map (c : RentPayer) (term termCount : Z) : list (list Z * item) :=
  [(bytes_of "id", BStr (instanceId c)); (bytes_of "term", UInt term);
   (bytes_of "provider", BStr (provider c)); (bytes_of "term_count", UInt termCount)].

Lemma encodeTopUpBody_cbor c term n :
  rent_wf c -> 1 <= term <= 3 -> 1 <= n < 24 -> encodeTopUpBody c term n = Some (encode_map (topup_map c term n)).
Proof.
  intros [Hp Hi] Ht Hn. unfold encodeTopUpBody.
  rewrite !(proj2 (Z.leb_le _ _)), (proj2 (Z.ltb_lt _ _)) by lia. cbn [andb negb]. f_equal.
  unfold encode_map, topup_map. cbn [fmap list_fmap concat app length fst snd]. unfold encode_item, len. rewrite Hp, Hi.
  assert (Hh : forall k, k < 24 -> head 0 k = [k]) by (intros k Hk; unfold head; by rewrite (proj2 (Z.ltb_lt k 24) Hk)).
  rewrite !Hh by lia. rewrite <- !app_assoc. reflexivity.
Qed.

(** A body determines the instance, the term, the provider and the count. *)
Lemma encode_map_inj c term n c' term' n' :
  rent_wf c -> rent_wf c' -> 1 <= term <= 3 -> 1 <= n < 24 -> 1 <= term' <= 3 -> 1 <= n' < 24 ->
  encode_map (topup_map c term n) = encode_map (topup_map c' term' n') ->
  instanceId c = instanceId c' /\ provider c = provider c' /\ term = term' /\ n = n'.
Proof.
  intros Hw Hw' Ht Hn Ht' Hn' E. pose proof (encodeTopUpBody_cbor c term n Hw Ht Hn) as E1.
  rewrite E, <- (encodeTopUpBody_cbor c' term' n' Hw' Ht' Hn') in E1. clear E. unfold encodeTopUpBody in E1.
  rewrite !(proj2 (Z.leb_le _ _)), !(proj2 (Z.ltb_lt _ _)) in E1 by lia. cbn [andb negb] in E1. apply (inj Some) in E1.
  destruct Hw as [Hp Hi], Hw' as [Hp' Hi'].
  do 4 (apply app_inj_1 in E1 as [_ E1]; [|done]). apply app_inj_1 in E1 as [Ei E1]; [|congruence].
  do 2 (apply app_inj_1 in E1 as [_ E1]; [|done]). apply app_inj_1 in E1 as [Et E1]; [|done].
  do 3 (apply app_inj_1 in E1 as [_ E1]; [|done]). apply app_inj_1 in E1 as [Ep E1]; [|congruence].
  do 2 (apply app_inj_1 in E1 as [_ E1]; [|done]). apply cons_inv in Et as [Et _], E1 as [En _]. done.
Qed.

Lemma tick_topup_args cfg floor o st r st' term count :
  sf_tick cfg floor o st = (r, st', Some (term, count)) -> 1 <= term <= 3 /\ count = 1.
Proof.
  unfold sf_tick. set (inst := match ob_instance o with Ok (Ok v) => _ | Ok (Err e) => _ | Err _ => _ end).
  destruct inst as [inst|]; [|done]. destruct (negb (topup_due _ _ _ _)); [done|].
  destruct (choose_term _ _ _ _) as [[t n]|] eqn:Ec; [|done].
  assert (Ht : 1 <= t <= 3 /\ n = 1).
  { unfold choose_term in Ec. destruct (match ob_balance o with Ok (Ok v) => _ | _ => _ end) as [bal|]; [|simplify_eq; lia].
    destruct (terms <$> inst) as [tms|]; [|simplify_eq; lia]. case_ifs_in Ec; [simplify_eq; lia|].
    pose proof (plan_topup_spec bal floor tms (max_topup_term cfg)) as Hp. rewrite Ec in Hp. lia. }
  destruct (ob_submit o t n); intros E; simplify_eq; done.
Qed.

Lemma parse_hex_n_length n s b : parse_hex_n n s = Ok b -> length b = n.
Proof.
  unfold parse_hex_n. destruct (Text.hex_decode _) as [b'|]; [|done]. destruct (Nat.eqb_spec (length b') n); [|done].
  by intros [= <-].
Qed.

(** What happens to the reservoir contract: instances of the app, or others, aim it and
    have it pay, and anyone funds it.  [ok]: the transaction comes from an instance of the
    app; a revert changes nothing. *)
Inductive rent_call : Type :=
| Aim (ok : bool) (p i : list Z)
| Pay (ok : bool) (term termCount : Z) (status : option Z)
| Fund (from : Address) (amount : Z).

Definition apply_call (c : RentPayer) (k : rent_call) : RentPayer :=
  match match k with
        | Aim ok p i => setInstance (fun _ => ok) p i c
        | Pay ok term n status => topUp (fun _ => ok) (fun _ _ => status) term n c
        | Fund from amount => receive from amount c
        end with
  | Some (c', _) => c'
  | None => c
  end.

(** [bytes21] and [bytes8]. *)
Definition call_typed (k : rent_call) : Prop :=
  match k with Aim _ p i => length p = 21%nat /\ length i = 8%nat | _ => True end.

Definition retargets (k : rent_call) : bool := match k with Aim ok _ _ => ok | _ => false end.

(** The machine the last aim of an instance of the app named; at first, the constructor's. *)
Definition last_aim (c : RentPayer) (calls : list rent_call) : list Z * list Z :=
  foldl (fun x k => match k with Aim true p i => (p, i) | _ => x end) (provider c, instanceId c) calls.

Lemma apply_call_spec c k :
  APP_ID (apply_call c k) = APP_ID c /\
  (provider (apply_call c k), instanceId (apply_call c k)) = match k with Aim true p i => (p, i) | _ => (provider c, instanceId c) end /\
  (rent_wf c -> call_typed k -> rent_wf (apply_call c k)).
Proof.
  destruct k as [[] p i|ok term n st|from v]; unfold apply_call; simpl; [done|done| |done].
  unfold topUp. repeat case_match; simplify_eq; done.
Qed.

Lemma rent_calls_spec calls c :
  APP_ID (foldl apply_call c calls) = APP_ID c /\
  (provider (foldl apply_call c calls), instanceId (foldl apply_call c calls)) = last_aim c calls /\
  (rent_wf c -> Forall call_typed calls -> rent_wf (foldl apply_call c calls)).
Proof.
  induction calls as [|k calls IH] using rev_ind; [done|]. unfold last_aim in *. rewrite !foldl_snoc.
  destruct IH as (E1 & E2 & Hw). destruct (apply_call_spec (foldl apply_call c calls) k) as (F1 & F2 & Fw).
  rewrite F1, F2, E2. split_and!; [done|done|]. intros Hc [Hl Hk]%Forall_app. exact (Fw (Hw Hc Hl) (Forall_inv Hk)).
Qed.

(** Later calls that do not aim leave the machine. *)
Lemma last_aim_stays c pre p i post :
  Forall (fun k => retargets k = false) post -> last_aim c (pre ++ Aim true p i :: post) = (p, i).
Proof.
  intros Hp. unfold last_aim. rewrite foldl_app. cbn [foldl]. induction Hp as [|k post Hk _ IH]; [done|].
  cbn [foldl]. destruct k as [[] ? ?| |]; done.
Qed.


(** ** Endpoints *)

(** The registry, and how many transactions were submitted to it. *)
Record Chain : Type := { reg : Registry; txs : nat }.

Class ChainEnv := {
  ce_parse_address : string -> option Address;
  ce_parse_url : string -> bool;
  ce_read : Address -> Chain -> anyhow (string * list Z * Z);
  ce_submit : Address -> string -> list Z -> Chain -> anyhow string * Chain;
}.

(** A read may fail; a submitted transaction may be lost, or run in the block at [timestamp]
    whether or not the reply arrives. *)
Class ChainLaws (authorized : list Z -> bool) (timestamp : Z) (E : ChainEnv) : Prop := {
  cl_read : forall a c, ce_read a c = Ok (endpoints (reg c)) \/ exists e, ce_read a c = Err e;
  cl_submit : forall a o f c r c', ce_submit a o f c = (r, c') ->
    txs c' = S (txs c) /\
    (reg c' = reg c \/ setEndpoints authorized timestamp o f (reg c) = Some (reg c'));
}.

Definition boot_advertise (E : ChainEnv) : string -> string -> string -> string -> Chain -> anyhow unit * Chain :=
  advertise ce_parse_address ce_parse_url ce_read ce_submit.

Lemma parse_fingerprint_hex fp :
  Forall is_u8 fp -> length fp = 32%nat -> parse_fingerprint (Text.hex_encode fp) = Ok fp.
Proof.
  intros Hu Hl. unfold parse_fingerprint. rewrite (Text.trim_hex_encode fp Hu), (Text.hex_decode_encode fp Hu), Hl. done.
Qed.

(** The endpoints are written once.  A boot that publishes an onion address and
    the fingerprint of a certificate leaves the registry as it was or holding exactly
    them, whatever fails; and once the registry holds them, no boot that publishes the
    same ones submits a transaction. *)
Lemma endpoints_written_once authorized timestamp E url addr onion_ fp c :
  ChainLaws authorized timestamp E -> Forall is_u8 fp -> length fp = 32%nat ->
  let '(r, c') := boot_advertise E url addr onion_ (Text.hex_encode fp) c in
  (reg c' = reg c \/ endpoints (reg c') = (onion_, fp, wrap_u64 timestamp)) /\ (txs c' <= S (txs c))%nat /\
  forall E2 ts2 url2 addr2 c2, ChainLaws authorized ts2 E2 ->
    (endpoints (reg c2)).1 = (onion_, fp) -> (endpoints (reg c2)).2 <> 0 ->
    (boot_advertise E2 url2 addr2 onion_ (Text.hex_encode fp) c2).2 = c2.
Proof.
  intros HE Hu Hl.
  assert (Hsecond : forall E2 ts2 url2 addr2 c2, ChainLaws authorized ts2 E2 ->
    (endpoints (reg c2)).1 = (onion_, fp) -> (endpoints (reg c2)).2 <> 0 ->
    (boot_advertise E2 url2 addr2 onion_ (Text.hex_encode fp) c2).2 = c2).
  { intros E2 ts2 url2 addr2 c2 H2 He Ht. unfold boot_advertise, advertise. rewrite (parse_fingerprint_hex fp Hu Hl).
    destruct (ce_parse_address addr2) as [a|]; [|done]. destruct (negb (ce_parse_url url2)); [done|].
    destruct (cl_read a c2) as [->|[e ->]]; [|done]. unfold needs_update. rewrite He. simpl.
    rewrite String.eqb_refl, bool_decide_true by done. simpl in Ht. by destruct (Z.eqb_spec (updatedAt (reg c2)) 0). }
  destruct (boot_advertise E url addr onion_ (Text.hex_encode fp) c) as [r c'] eqn:Eb. cut
    ((reg c' = reg c \/ endpoints (reg c') = (onion_, fp, wrap_u64 timestamp)) /\ (txs c' <= S (txs c))%nat); [tauto|].
  unfold boot_advertise, advertise in Eb. rewrite (parse_fingerprint_hex fp Hu Hl) in Eb.
  assert (Hsame : c' = c -> (reg c' = reg c \/ endpoints (reg c') = (onion_, fp, wrap_u64 timestamp)) /\ (txs c' <= S (txs c))%nat).
  { intros ->. split; [by left|lia]. }
  destruct (ce_parse_address addr) as [a|]; [|by simplify_eq; apply Hsame]. destruct (negb (ce_parse_url url)); [by simplify_eq; apply Hsame|].
  destruct (cl_read a c) as [Er|[e Er]]; rewrite Er in Eb; [|by simplify_eq; apply Hsame].
  destruct (negb (needs_update _ _ _)); [by simplify_eq; apply Hsame|].
  destruct (ce_submit a onion_ fp c) as [r' c''] eqn:Es. simplify_eq. destruct (cl_submit _ _ _ _ _ _ Es) as [Htx Hreg].
  split; [|lia]. destruct Hreg as [->|Hset]; [by left|]. right. unfold setEndpoints in Hset.
  destruct (negb _); [done|]. by injection Hset as <-.
Qed.

(** What a router pays at least, the reservoir receives. *)
Lemma swap_pays_reservoir {X} swap (balance : Address -> X -> Z) authorized mptIn minOut deadline c (x x' : X) out evs :
  (forall a m p to d x x', swap a m p to d x = Some x' -> balance to x + m <= balance to x') ->
  swapFeeToRose swap balance authorized mptIn minOut deadline c x = Some (out, x', evs) ->
  0 < mptIn /\ minOut <= out /\ balance (reservoir c) x' = balance (reservoir c) x + out.
Proof.
  intros Hr Hs. unfold swapFeeToRose in Hs. case_ifs_in Hs; try done. destruct (swap _ _ _ _ _ _) as [x1|] eqn:Es; [|done].
  apply Hr in Es. case_ifs_in Hs; [done|]. simplify_eq. bools. lia.
Qed.

(** ** Concrete inputs *)

Module Demo.

Definition cfg : SelfFundConfig :=
  {| safety_window_secs := 3600; max_topup_term := 2; min_topup_interval_secs := 600; min_check_interval_secs := 60;
     max_check_interval_secs := 3600; force_first_topup := true |}.
Definition obs : Observation :=
  {| ob_now := 1000; ob_instance := Err "down"; ob_balance := Err "down"; ob_submit := fun _ _ => Ok "tx" |}.
Definition rp : string := Text.hex_encode (replicate 20 1).
Definition pv : string := Text.hex_encode (replicate 21 2).
Definition iid : string := Text.hex_encode (replicate 8 3).
Definition target : Target :=
  {| t_rent_payer := replicate 20 1; t_provider := replicate 21 2; t_instance_id := replicate 8 3 |}.
Definition stale : RentPayer := {| APP_ID := [7]; provider := replicate 21 0; instanceId := replicate 8 0 |}.
Definition aimed : RentPayer := {| APP_ID := [7]; provider := replicate 21 2; instanceId := replicate 8 3 |}.
Definition calls : list rent_call := [Fund 9 100; Aim true (replicate 21 2) (replicate 8 3); Aim false (replicate 21 5) (replicate 8 5)].

(** A chain on which everything works at time 5. *)
Definition chain : ChainEnv := {|
  ce_parse_address _ := Some 4;
  ce_parse_url _ := true;
  ce_read _ c := Ok (endpoints (reg c));
  ce_submit _ o f c := (Ok "tx", {| reg := default (reg c) (setEndpoints (fun _ => true) 5 o f (reg c)); txs := S (txs c) |});
|}.

Lemma chain_laws : ChainLaws (fun _ => true) 5 chain.
Proof. split; [by left|]. intros a o f c r c' [= <- <-]. split; [done|]. by right. Qed.

Definition fp : list Z := replicate 32 171.
Definition fresh : Chain := {| reg := registry_new [7]; txs := 0 |}.
Definition written : Chain := (boot_advertise chain "u" "r" "abc.onion" (Text.hex_encode fp) fresh).2.

End Demo.


(** A boot whose [setInstance] was refused: the agent's top-up pays for the old machine. *)
Example topup_without_aim :
  let c := foldl apply_call Demo.stale [Aim false (t_provider Demo.target) (t_instance_id Demo.target)] in
  (sf_tick Demo.cfg 0 Demo.obs {| last_topup := 0; forced_done := false |}).2 = Some (1, 1) /\
  instanceId c = replicate 8 0 /\ topUp (fun _ => true) (fun _ _ => Some 0) 1 1 c = Some (c, [ToppedUp 1 1]).
Proof. by vm_compute. Qed.

End Periphery.
