(* ===== verification/Wallet.v ===== *)
(** The Monero wallet at boot: mining-pool/src/monero_wallet.rs.

    The keys are derived from the enclave's seed; curve and hash are parameters, and so is
    the wallet process, of which the code relies on how it opens and creates files. *)
From S2P Require Import Prelude Text Hex Json.

Module Wallet.

(** ** Keys *)

Inductive Network : Type := Mainnet | Testnet | Stagenet.

Record DerivedKeys : Type := { spend_priv_hex : string; view_priv_hex : string; address : string }.

(** The order of the ed25519 group, and [Scalar::from_bytes_mod_order]. *)
Definition L : Z := 2 ^ 252 + 27742317777372353535851937790883648493.
Definition from_bytes_mod_order (b : list Z) : list Z := to_le_bytes 32 (from_le_bytes b mod L).

(** Keccak-256, the public key of a private one, and the text of an address. *)
Class Curve := {
  keccak256 : list Z -> list Z;
  public_key : list Z -> list Z;
  address_text : Network -> list Z -> list Z -> string;
}.

Definition derive_address `{Curve} (seed : list Z) (network : Network) : DerivedKeys :=
  let spend_priv := from_bytes_mod_order seed in
  let view_priv := from_bytes_mod_order (keccak256 spend_priv) in
  {| spend_priv_hex := Text.hex_encode spend_priv; view_priv_hex := Text.hex_encode view_priv;
     address := address_text network (public_key spend_priv) (public_key view_priv) |}.

(** ** The wallet process *)

(** A JSON-RPC call, the height of the network, and the clock, which sleeping moves; and
    the text of a JSON value. *)
Class WalletEnv (W : Type) := {
  show_json : Json.Value -> string;
  rpc_call : string -> Json.Value -> W -> anyhow Json.Value * W;
  current_height : W -> anyhow Z * W;
  clock_ms : W -> Z;
  sleep_ms : Z -> W -> W;
}.

Record WalletBootstrap : Type := { primary_address : string; created : bool }.

Section Boot.
Context {W : Type} `{WalletEnv W} `{Curve}.

Definition open_params (filename password : string) : Json.Value :=
  Json.Object [("filename", Json.Str filename); ("password", Json.Str password)].

Definition try_open_wallet (filename password : string) (w : W) : anyhow unit * W :=
  let '(r, w) := rpc_call "open_wallet" (open_params filename password) w in
  (match r with
   | Err e => Err e
   | Ok v =>
       match Json.get "result" v with
       | Some _ => Ok tt
       | None => Err ("open_wallet returned error: " +:+ show_json (opt_or Json.Null (Json.get "error" v)))
       end
   end, w).

Definition generate_params (filename password : string) (k : DerivedKeys) (restore_height : Z) : Json.Value :=
  Json.Object [("restore_height", Json.Int restore_height); ("filename", Json.Str filename);
               ("password", Json.Str password); ("address", Json.Str (address k));
               ("spendkey", Json.Str (spend_priv_hex k)); ("viewkey", Json.Str (view_priv_hex k));
               ("autosave_current", Json.Bool true)].

Definition generate_from_keys (filename password : string) (k : DerivedKeys) (restore_height : Z) (w : W) : anyhow unit * W :=
  let '(r, w) := rpc_call "generate_from_keys" (generate_params filename password k restore_height) w in
  (match r with
   | Err e => Err e
   | Ok v =>
       match Json.get "error" v with
       | Some err => if negb (Json.is_null err) then Err ("generate_from_keys failed: " +:+ show_json err) else Ok tt
       | None => Ok tt
       end
   end, w).

(** The height a new wallet scans from. *)
Definition restore_height (restore_lookback onchain_restore_height : Z) (w : W) : anyhow Z * W :=
  if 0 <? onchain_restore_height then (Ok onchain_restore_height, w)
  else let '(r, w) := current_height w in
       (match r with Ok tip => Ok (u64_saturating_sub tip (Z.max restore_lookback 1)) | Err _ => Err "fetching restore_height from monerod" end, w).

Definition bootstrap_wallet (filename password : string) (seed : list Z) (network : Network)
    (restore_lookback onchain_restore_height : Z) (w : W) : anyhow WalletBootstrap * W :=
  let keys := derive_address seed network in
  match try_open_wallet filename password w with
  | (Ok tt, w) => (Ok {| primary_address := address keys; created := false |}, w)
  | (Err open_err, w) =>
      match restore_height restore_lookback onchain_restore_height w with
      | (Err e, w) => (Err e, w)
      | (Ok h, w) =>
          match generate_from_keys filename password keys h w with
          | (Err gen_err, w) =>
              (Err ("wallet bootstrap failed: open_wallet error: " +:+ open_err +:+
                    "; generate_from_keys error: " +:+ gen_err), w)
          | (Ok tt, w) => (Ok {| primary_address := address keys; created := true |}, w)
          end
      end
  end.

(** The wait for the process; [None] when the fuel runs out. *)
Fixpoint wait_loop (fuel : nat) (deadline : Z) (w : W) : option (anyhow unit * W) :=
  match fuel with
  | O => None
  | S fuel' =>
      let '(r, w) := rpc_call "get_version" (Json.Object []) w in
      if is_ok r then Some (Ok tt, w)
      else if deadline <? clock_ms w then Some (Err "wallet-rpc did not become ready within 60s", w)
      else wait_loop fuel' deadline (sleep_ms 500 w)
  end.

Definition wait_for_wallet_rpc (fuel : nat) (w : W) : option (anyhow unit * W) :=
  wait_loop fuel (clock_ms w + 60000) w.

End Boot.

(** ** What the wallet process does *)

(** The wallet files, each with its address and the height it scans from, and the one
    that is open.  A call may fail before or after it took effect. *)
Class WalletLaws (W : Type) `{WalletEnv W} := {
  files : W -> gmap string (string * Z);
  opened : W -> option string;
  wl_open : forall f p w r w', rpc_call "open_wallet" (open_params f p) w = (r, w') ->
    files w' = files w /\
    forall v, r = Ok v -> Json.get "result" v <> None -> is_Some (files w !! f) /\ opened w' = Some f;
  wl_generate : forall f p k h w r w', rpc_call "generate_from_keys" (generate_params f p k h) w = (r, w') ->
    (files w' = files w \/ files w !! f = None /\ files w' = <[f := (address k, h)]> (files w)) /\
    forall v, r = Ok v -> (forall e, Json.get "error" v = Some e -> Json.is_null e = true) ->
      files w !! f = None /\ files w' = <[f := (address k, h)]> (files w) /\ opened w' = Some f;
  wl_height : forall w r w', current_height w = (r, w') -> files w' = files w;
  wl_clock : forall m p w r w', rpc_call m p w = (r, w') -> clock_ms w <= clock_ms w';
  wl_sleep : forall ms w, 0 <= ms -> clock_ms w + ms <= clock_ms (sleep_ms ms w);
}.

Section Properties.
Context {W : Type} `{WalletLaws W} `{Curve}.
Implicit Types w : W.

Lemma restore_height_files look onchain w r w' :
  restore_height look onchain w = (r, w') ->
  files w' = files w /\
  forall h, r = Ok h -> (0 < onchain -> h = onchain) /\
    (onchain <= 0 -> exists tip w1, current_height w = (Ok tip, w1) /\ h = Z.max 0 (tip - Z.max look 1)).
Proof.
  unfold restore_height. destruct (Z.ltb_spec 0 onchain).
  - intros [= <- <-]. split; [done|]. intros h [= <-]. split; [done|lia].
  - destruct (current_height w) as [[tip|e] w1] eqn:Eh; intros [= <- <-]; (split; [by eapply wl_height|]); [|done].
    intros h [= <-]. split; [lia|]. intros _. exists tip, w1. split; [done|]. unfold u64_saturating_sub. lia.
Qed.

Lemma try_open_spec f p w r w' :
  try_open_wallet f p w = (r, w') ->
  files w' = files w /\ (r = Ok tt -> is_Some (files w !! f) /\ opened w' = Some f).
Proof.
  unfold try_open_wallet. destruct (rpc_call _ _ w) as [v w1] eqn:Er. intros [= <- <-].
  destruct (wl_open _ _ _ _ _ Er) as [Hf Ho]. split; [done|]. destruct v as [v|]; [|done].
  destruct (Json.get "result" v) eqn:Eg; [|done]. intros _. apply (Ho v); [done|congruence].
Qed.

Lemma generate_spec f p k h w r w' :
  generate_from_keys f p k h w = (r, w') ->
  (files w' = files w \/ files w !! f = None /\ files w' = <[f := (address k, h)]> (files w)) /\
  (r = Ok tt -> files w !! f = None /\ files w' = <[f := (address k, h)]> (files w) /\ opened w' = Some f).
Proof.
  unfold generate_from_keys. destruct (rpc_call _ _ w) as [v w1] eqn:Er. intros [= <- <-].
  destruct (wl_generate _ _ _ _ _ _ _ Er) as [Hf Hg]. split; [done|]. destruct v as [v|]; [|done]. intros Hr.
  apply (Hg v eq_refl). intros e Ee. rewrite Ee in Hr. by destruct (Json.is_null e).
Qed.

(** The height a wallet that is created scans from: the one recorded on chain, or the
    configured number of blocks below the tip when there is none. *)
Definition scans_from (look onchain h : Z) : Prop :=
  (0 < onchain -> h = onchain) /\
  (onchain <= 0 -> exists tip w1 w2, current_height w1 = (Ok tip, w2) /\ h = Z.max 0 (tip - Z.max look 1)).

(** One boot, on the files alone. *)
Lemma bootstrap_files filename password seed network look onchain w r w' :
  bootstrap_wallet filename password seed network look onchain w = (r, w') ->
  let a := address (derive_address seed network) in
  (files w' = files w \/ files w !! filename = None /\ exists h, files w' = <[filename := (a, h)]> (files w)) /\
  match r with
  | Err _ => True
  | Ok b =>
      primary_address b = a /\ opened w' = Some filename /\
      if created b then files w !! filename = None /\ exists h, files w' = <[filename := (a, h)]> (files w) /\ scans_from look onchain h
      else files w' = files w /\ is_Some (files w !! filename)
  end.
Proof.
  intros Hb a. unfold bootstrap_wallet in Hb.
  destruct (try_open_wallet filename password w) as [[[]|eo] w1] eqn:Eo; apply try_open_spec in Eo as [Hf Hopen].
  { injection Hb as <- <-. destruct (Hopen eq_refl). split; [by left|]. by split_and!. }
  destruct (restore_height look onchain w1) as [[h|eh] w2] eqn:Eh; apply restore_height_files in Eh as [Hf2 Hh];
    rewrite Hf in Hf2; [|injection Hb as <- <-; split; [by left|done]].
  destruct (generate_from_keys filename password _ h w2) as [[[]|eg] w3] eqn:Eg;
    apply generate_spec in Eg as [Hf3 Hgen]; rewrite Hf2 in Hf3, Hgen; injection Hb as <- <-.
  - destruct (Hgen eq_refl) as (Hn & Hins & Hop). split; [right; eauto|]. simpl. split_and!; [done..|].
    exists h. split; [done|]. specialize (Hh h eq_refl) as [Hh1 Hh2].
    split; [done|]. intros Hz. destruct (Hh2 Hz) as (tip & w4 & Hc & ->). eauto.
  - split; [|done]. destruct Hf3 as [Hf3|[Hn Hins]]; [by left|right; eauto].
Qed.

(** ** Boot after boot *)

Section Boots.
Variables (filename password : string) (seed : list Z) (network : Network).
Abbreviation addr := (address (derive_address seed network)).

(** What happened: a boot, with what it was configured with and what it returned, or a wipe
    of the storage. *)
Inductive happening : Type :=
| Booted (look onchain : Z) (r : anyhow WalletBootstrap)
| Wiped.

(** Between the boots the wallet process may restart; the files stay, unless they are wiped. *)
Inductive boots (w0 : W) : list happening -> W -> Prop :=
| boots_none : boots w0 [] w0
| boots_boot l w1 w2 look onchain r w3 :
    boots w0 l w1 -> files w2 = files w1 -> bootstrap_wallet filename password seed network look onchain w2 = (r, w3) ->
    boots w0 (l ++ [Booted look onchain r]) w3
| boots_wipe l w1 w2 : boots w0 l w1 -> files w2 !! filename = None -> boots w0 (l ++ [Wiped]) w2.

(** What happened since the last wipe. *)
Definition since_wipe (l : list happening) : list happening :=
  foldl (fun acc e => match e with Wiped => [] | _ => acc ++ [e] end) [] l.

Lemma since_wipe_boot l look onchain r : since_wipe (l ++ [Booted look onchain r]) = since_wipe l ++ [Booted look onchain r].
Proof. unfold since_wipe. by rewrite foldl_app. Qed.
Lemma since_wipe_wiped l : since_wipe (l ++ [Wiped]) = [].
Proof. unfold since_wipe. by rewrite foldl_app. Qed.

Definition told (pre : list happening) (e : happening) : Prop :=
  match e with
  | Booted _ _ (Ok b) =>
      primary_address b = addr /\ (created b = true -> forall look onchain b', Booted look onchain (Ok b') ∉ since_wipe pre)
  | _ => True
  end.

Record BInv (l : list happening) w : Prop := {
  b_file : forall x, files w !! filename = Some x -> x.1 = addr;
  b_stands : forall look onchain b, Booted look onchain (Ok b) ∈ since_wipe l ->
    exists h, files w !! filename = Some (addr, h) /\ (created b = true -> scans_from look onchain h);
  b_told : history told l;
}.

(** A boot in which the file is not there is the first one with a success. *)
Lemma boot_BInv l w1 w2 look onchain r w3 :
  BInv l w1 -> files w2 = files w1 -> bootstrap_wallet filename password seed network look onchain w2 = (r, w3) ->
  BInv (l ++ [Booted look onchain r]) w3.
Proof.
  intros [Hf Hs Ht] E Hb. apply bootstrap_files in Hb as [Hw Hr]. rewrite E in Hw, Hr.
  assert (Hkeep : forall x, files w1 !! filename = Some x -> files w3 !! filename = Some x).
  { intros x Hx. destruct Hw as [->|[Hn _]]; congruence. }
  split.
  - intros x. destruct Hw as [->|[_ [h ->]]]; [apply Hf|]. rewrite lookup_insert_eq. by intros [= <-].
  - intros lk oc b. rewrite since_wipe_boot, elem_of_app, list_elem_of_singleton. intros [Hin|[= <- <- <-]].
    + destruct (Hs _ _ _ Hin) as (h & Hx & Hh). eauto.
    + destruct Hr as (_ & _ & Hr). destruct (created b) eqn:Ec.
      * destruct Hr as (_ & h & -> & Hh). exists h. by rewrite lookup_insert_eq.
      * destruct Hr as [_ [[a h] Hx]]. pose proof (Hf _ Hx) as Ea. simpl in Ea. subst a. exists h. split; [by apply Hkeep|done].
  - apply history_snoc; [done|]. destruct r as [b|]; [|done]. destruct Hr as (Ha & _ & Hr). split; [done|]. intros Ec lk oc b' Hin.
    rewrite Ec in Hr. destruct Hr as [Hn _]. destruct (Hs _ _ _ Hin) as (h & Hx & _). congruence.
Qed.

(** C26: one wallet over all boots.  Starting without the wallet file, over any boots with the
    same seed, whichever calls of the wallet process fail, and any wipes of the storage
    between them: the file, whenever it is there, is that of the seed's address; every
    success reports that address; since the last wipe a file is created only when no earlier
    boot succeeded, and after a success the file stays, scanning, when it was created, from the
    height recorded on chain or from the configured number of blocks below the tip.  The wallet
    process opens the file it is asked for and creates none in the place of another. *)
Theorem bootstrap_same_wallet w0 l w :
  files w0 !! filename = None -> boots w0 l w ->
  (forall x, files w !! filename = Some x -> x.1 = addr) /\
  (forall look onchain b, Booted look onchain (Ok b) ∈ since_wipe l ->
     exists h, files w !! filename = Some (addr, h) /\ (created b = true -> scans_from look onchain h)) /\
  (forall pre look onchain b post, l = pre ++ Booted look onchain (Ok b) :: post ->
     primary_address b = addr /\ (created b = true -> forall lk oc b', Booted lk oc (Ok b') ∉ since_wipe pre)).
Proof.
  intros Hnone Hr. assert (Hi : BInv l w).
  { induction Hr as [|l w1 w2 lk oc r w3 _ IH E Hb|l w1 w2 _ IH E].
    - split; [intros x; by rewrite Hnone|by intros ? ? ? ?%elem_of_nil|apply history_nil].
    - by eapply boot_BInv.
    - split; [intros x; by rewrite E|rewrite since_wipe_wiped; by intros ? ? ? ?%elem_of_nil|].
      apply history_snoc; [apply IH|done]. }
  destruct Hi as [Hf Hs Ht]. split_and!; [done..|]. intros pre lk oc b post E. exact (Ht _ _ _ E).
Qed.

End Boots.

(** The wait for the wallet process ends: however long its calls take, it has returned
    within 122 turns. *)
Lemma wait_terminates w : exists r w', wait_for_wallet_rpc 122 w = Some (r, w').
Proof.
  unfold wait_for_wallet_rpc. assert (Hgen : forall n deadline w, deadline < clock_ms w + 500 * Z.of_nat n ->
    exists r w', wait_loop (S n) deadline w = Some (r, w')).
  { induction n as [|n IH]; intros deadline w0 Hd; cbn [wait_loop]; destruct (rpc_call _ _ w0) as [r w1] eqn:Er;
      apply wl_clock in Er; (destruct (is_ok r); [eauto|]); (destruct (Z.ltb_spec deadline (clock_ms w1)); [eauto|]); [lia|].
    apply IH. pose proof (wl_sleep 500 w1). lia. }
  apply (Hgen 121%nat). lia.
Qed.

End Properties.
(** ** A wallet process *)

Module Demo.

Record world : Type := { fs : gmap string (string * Z); op : option string; clk : Z }.

Definition str (k : string) (v : Json.Value) : string := opt_or "" (Json.get_str k v).
Definition int (k : string) (v : Json.Value) : Z := match Json.get k v with Some (Json.Int z) => z | _ => 0 end.
Definition ok_reply : Json.Value := Json.Object [("result", Json.Object [])].
Definition error_reply : Json.Value := Json.Object [("error", Json.Str "no")].

#[export] Instance env : WalletEnv world := {
  show_json _ := EmptyString;
  rpc_call m p w :=
    let f := str "filename" p in
    if String.eqb m "open_wallet" then
      if bool_decide (is_Some (fs w !! f)) then (Ok ok_reply, {| fs := fs w; op := Some f; clk := clk w |})
      else (Ok error_reply, w)
    else if String.eqb m "generate_from_keys" then
      if bool_decide (fs w !! f = None)
      then (Ok ok_reply, {| fs := <[f := (str "address" p, int "restore_height" p)]> (fs w); op := Some f; clk := clk w |})
      else (Ok error_reply, w)
    else (Err "down", w);
  current_height w := (Ok 3000, w);
  clock_ms := clk;
  sleep_ms ms w := {| fs := fs w; op := op w; clk := clk w + ms |};
}.

#[export] Instance laws : WalletLaws world.
Proof.
  refine {| files := fs; opened := op |}.
  - intros f p w r w' E. simpl in E. unfold str, Json.get_str in E. simpl in E. case_bool_decide; simplify_eq/=; split; try done.
    intros v [= <-]. done.
  - intros f p k h w r w' E. simpl in E. unfold str, Json.get_str in E. simpl in E. case_bool_decide; simplify_eq/=; split; auto.
    intros v [= <-] Hn. by specialize (Hn (Json.Str "no") eq_refl).
  - by intros w r w' [= _ <-].
  - intros m p w r w' E. simpl in E. repeat case_match; simplify_eq/=; lia.
  - intros ms w Hm. simpl. lia.
Defined.

#[export] Instance curve : Curve := {
  keccak256 b := b; public_key b := b; address_text _ s v := Text.hex_encode (take 2 s);
}.

Definition start : world := {| fs := ∅; op := None; clk := 0 |}.
Definition seed : list Z := replicate 32 5.
Definition boot_with (w : world) : anyhow WalletBootstrap * world := bootstrap_wallet "pool" "pw" seed Stagenet 720 0 w.
(** A boot, another one, a wipe and a third. *)
Definition first : anyhow WalletBootstrap * world := boot_with start.
Definition second : anyhow WalletBootstrap * world := boot_with first.2.
Definition third : anyhow WalletBootstrap * world := boot_with start.
Definition story : list happening := [Booted 720 0 first.1; Booted 720 0 second.1; Wiped; Booted 720 0 third.1].

(** A file that is there and is another wallet's is opened, and the seed's address reported. *)
Definition foreign : world := {| fs := <["pool"%string := ("other"%string, 5)]> ∅; op := None; clk := 0 |}.

End Demo.

#[local] Existing Instances Demo.env Demo.laws Demo.curve.

Example opened_wallet_not_checked :
  (Demo.boot_with Demo.foreign).1 = Ok {| primary_address := "0505"; created := false |} /\
  files (Demo.boot_with Demo.foreign).2 !! "pool"%string = Some ("other"%string, 5).
Proof. by vm_compute. Qed.

Lemma bootstrap_same_wallet_witness :
  Demo.story = [Booted 720 0 (Ok {| primary_address := "0505"; created := true |});
                Booted 720 0 (Ok {| primary_address := "0505"; created := false |}); Wiped;
                Booted 720 0 (Ok {| primary_address := "0505"; created := true |})] /\
  forall x, files Demo.third.2 !! "pool"%string = Some x -> x.1 = address (derive_address Demo.seed Stagenet).
Proof.
  split; [by vm_compute|].
  refine (proj1 (bootstrap_same_wallet "pool" "pw" Demo.seed Stagenet Demo.start Demo.story Demo.third.2 _ _)); [by vm_compute|].
  refine (boots_boot _ _ _ _ _ [_; _; _] Demo.start Demo.start 720 0 _ _ _ eq_refl (surjective_pairing _)).
  refine (boots_wipe _ _ _ _ _ [_; _] Demo.second.2 Demo.start _ _); [|by vm_compute].
  refine (boots_boot _ _ _ _ _ [_] Demo.first.2 Demo.first.2 720 0 _ _ _ eq_refl (surjective_pairing _)).
  refine (boots_boot _ _ _ _ _ [] Demo.start Demo.start 720 0 _ _ _ eq_refl (surjective_pairing _)). apply boots_none.
Defined.

End Wallet.
