(* ===== verification/Oracle.v ===== *)
(** The block-hash oracle (crossroads-oracle/src): the report and what its digest is
    taken of (lib.rs), the quorum of the RPC committee (source.rs), the filter of the
    committee's URLs (ssrf.rs) and the registration at boot (register.rs).

    Keccak-256, the replies of the committee, the URL parser, the resolver and the
    registry contract are parameters.  The order in which a [HashMap] is iterated is one
    as well: any listing of its entries. *)
From stdpp Require Import sorting.
From Stdlib Require Import Ascii ZifyBool.
From S2P Require Import Prelude Text Json Hex.

Module Oracle.

(** ** The report *)

Record BlockHashReport : Type := {
  source_chain_id : Z;
  block_number : Z;
  block_hash : Z;
  required_confirmations : Z;
  observed_confirmations : Z;
  quorum_tip_ : Z;
  observed_quorum : Z;
  require_finalized : bool;
  finalized_block_number : Z;
  expires_at : Z;
  signer_epoch : Z;
}.

(** A 32-byte word of an integer, an address and a boolean. *)
Definition w (v : Z) : list Z := to_be_bytes 32 v.
Definition addr_word (a : Address) : list Z := replicate 12 0 ++ to_be_bytes 20 a.
Definition bool_word (b : bool) : list Z := replicate 31 0 ++ [Z.b2z b].

Definition BLOCK_HASH_DOMAIN : list Z := bytes_of "CROSSROADS_EVM_BLOCK_HASH_V1".

(** The buffer the digest is taken of, after the word of the domain. *)
Definition report_fields (sapphire_chain_id : Z) (oracle : Address) (r : BlockHashReport) : list (list Z) :=
  [w sapphire_chain_id; addr_word oracle; w (source_chain_id r); w (block_number r); w (block_hash r);
   w (required_confirmations r); w (observed_confirmations r); w (quorum_tip_ r); w (observed_quorum r);
   bool_word (require_finalized r); w (finalized_block_number r); w (expires_at r); w (signer_epoch r)].

Definition report_buffer (domain : list Z) (sapphire_chain_id : Z) (oracle : Address) (r : BlockHashReport) : list Z :=
  domain ++ concat (report_fields sapphire_chain_id oracle r).

Definition report_digest (keccak256 : list Z -> list Z) (sapphire_chain_id : Z) (oracle : Address) (r : BlockHashReport)
    : list Z :=
  keccak256 (report_buffer (keccak256 BLOCK_HASH_DOMAIN) sapphire_chain_id oracle r).

(** ** The quorum *)

(** [None] when the index is out of bounds: the task panics. *)
Definition quorum_tip (tips : list Z) (quorum : Z) : option (option Z) :=
  if Z.of_nat (length tips) <? quorum then Some None
  else if quorum =? 0 then None
  else Some (merge_sort desc tips !! Z.to_nat (quorum - 1)).

Definition count_votes (votes : list Z) : gmap Z Z :=
  foldl (fun m v => <[v := default 0 (m !! v) + 1]> m) ∅ votes.

(** [max_by_key]: the last of the entries with the greatest count. *)
Definition pick (best : option (Z * Z)) (x : Z * Z) : option (Z * Z) :=
  match best with
  | None => Some x
  | Some b => if b.2 <=? x.2 then Some x else best
  end.
Definition max_by_count (l : list (Z * Z)) : option (Z * Z) := foldl pick None l.

(** How a map is listed. *)
Class HashIter := hash_iter : gmap Z Z -> list (Z * Z).
Class HashIterLaws (H : HashIter) : Prop := hash_iter_perm : forall m, hash_iter m ≡ₚ map_to_list m.

Definition quorum_hash `{HashIter} (votes : list Z) (quorum : Z) : option (Z * Z) :=
  match max_by_count (hash_iter (count_votes votes)) with
  | Some (h, n) => if quorum <=? n then Some (h, n) else None
  | None => None
  end.

(** ** The committee *)

(** [u64::from_str_radix(s, 16)]. *)
Fixpoint hex_digits (acc : Z) (s : string) : option Z :=
  match s with
  | EmptyString => Some acc
  | String c s' => match Text.nibble c with Some d => hex_digits (16 * acc + d) s' | None => None end
  end.

Definition u64_from_hex (s : string) : option Z :=
  let s := match s with String "+" (String _ _ as s') => s' | _ => s end in
  match s with
  | EmptyString => None
  | _ => match hex_digits 0 s with Some n => if n <=? u64_max then Some n else None | None => None end
  end.

Definition parse_u64_hex (v : Json.Value) : option Z := (Json.as_str v ≫= Text.strip_0x) ≫= u64_from_hex.

(** [format!("0x{n:x}")] of an [u64]: at most 16 digits. *)
Fixpoint hex_go (fuel : nat) (n : Z) (acc : string) : string :=
  match fuel with
  | O => acc
  | S f =>
      let acc := String (Text.nibble_char (n mod 16)) acc in
      if n / 16 =? 0 then acc else hex_go f (n / 16) acc
  end.
Definition block_tag (n : Z) : string := String "0" (String "x" (hex_go 16 n "")).

(** What the HTTP client gives for a request to a member, by its place in the
    committee, its URL and the block asked for; and the parser of [B256]. *)
Class Committee := {
  post : nat -> string -> string -> anyhow Json.Value;
  parse_b256 : string -> option Z;
}.

Definition rpc `{Committee} (i : nat) (url tag : string) : anyhow Json.Value :=
  match post i url tag with
  | Err e => Err e
  | Ok v =>
      match Json.get "error" v with
      | Some e => if Json.is_null e then Ok (opt_or Json.Null (Json.get "result" v)) else Err "rpc error"
      | None => Ok (opt_or Json.Null (Json.get "result" v))
      end
  end.

Record Vote : Type := { v_tip : option Z; v_finalized : option Z; v_hash : option Z }.

Definition number_of (r : anyhow Json.Value) : option Z := (ok r ≫= Json.get "number") ≫= parse_u64_hex.

Definition poll_member `{Committee} (i : nat) (url : string) (block : Z) (want_finalized : bool) : Vote :=
  {| v_tip := number_of (rpc i url "latest");
     v_finalized := if want_finalized then number_of (rpc i url "finalized") else None;
     v_hash := ((ok (rpc i url (block_tag block)) ≫= Json.get "hash") ≫= Json.as_str) ≫= parse_b256 |}.

Record Confirmed : Type := {
  c_block_hash : Z;
  c_quorum_tip : Z;
  c_observed_confirmations : Z;
  c_observed_quorum : Z;
  c_finalized_block_number : Z;
}.

Definition poll `{Committee} (urls : list string) (block : Z) (want_finalized : bool) : list Vote :=
  imap (fun i u => poll_member i u block want_finalized) urls.

(** The finality of the block, where it is asked for. *)
Definition finality (votes : list Vote) (quorum block : Z) (mandate_finalized : bool) : outcome Z :=
  if mandate_finalized then
    match quorum_tip (omap v_finalized votes) quorum with
    | None => OCrash
    | Some None => OErr "finalized quorum unavailable"
    | Some (Some f) => if f <? block then OErr "not finalized by committee quorum" else ORet f
    end
  else ORet 0.

(** [fetch_confirmed], on the votes. *)
Definition confirm_votes `{HashIter} (votes : list Vote) (quorum block min_confirmations : Z) (mandate_finalized : bool)
    : outcome Confirmed :=
  match quorum_tip (omap v_tip votes) quorum with
  | None => OCrash
  | Some None => OErr "not enough committee members returned a tip"
  | Some (Some tip) =>
      if wrap_u64 (block + min_confirmations) >? tip then OErr "not yet confirmed"
      else
        match finality votes quorum block mandate_finalized with
        | OErr e => OErr e
        | OCrash => OCrash
        | ORet f =>
            match quorum_hash (omap v_hash votes) quorum with
            | None => OErr "committee did not reach quorum on the block hash"
            | Some (h, n) =>
                ORet {| c_block_hash := h; c_quorum_tip := tip;
                        c_observed_confirmations := wrap_u64 (tip - block);
                        c_observed_quorum := n; c_finalized_block_number := f |}
            end
        end
  end.

Definition fetch_confirmed `{HashIter} `{Committee} (urls : list string) (quorum block min_confirmations : Z)
    (mandate_finalized : bool) : outcome Confirmed :=
  confirm_votes (poll urls block mandate_finalized) quorum block min_confirmations mandate_finalized.

(** ** Addresses on the public internet *)

(** An address by its 32- or 128-bit value. *)
Inductive IpAddr : Type :=
| V4 (a : Z)
| V6 (a : Z).

Definition octet (i : Z) (a : Z) : Z := (a / 2 ^ (24 - 8 * i)) mod 256.
Definition segment (i : Z) (a : Z) : Z := (a / 2 ^ (112 - 16 * i)) mod 65536.

(** The tests of [Ipv4Addr]. *)
Definition is_private (a : Z) : bool :=
  (octet 0 a =? 10) || ((octet 0 a =? 172) && (16 <=? octet 1 a) && (octet 1 a <=? 31))
  || ((octet 0 a =? 192) && (octet 1 a =? 168)).
Definition is_loopback (a : Z) : bool := octet 0 a =? 127.
Definition is_link_local (a : Z) : bool := (octet 0 a =? 169) && (octet 1 a =? 254).
Definition is_broadcast (a : Z) : bool := a =? u32_max.
Definition is_documentation (a : Z) : bool :=
  ((octet 0 a =? 192) && (octet 1 a =? 0) && (octet 2 a =? 2))
  || ((octet 0 a =? 198) && (octet 1 a =? 51) && (octet 2 a =? 100))
  || ((octet 0 a =? 203) && (octet 1 a =? 0) && (octet 2 a =? 113)).
Definition is_unspecified (a : Z) : bool := a =? 0.
Definition is_multicast (a : Z) : bool := (224 <=? octet 0 a) && (octet 0 a <=? 239).

Definition is_global_v4 (a : Z) : bool :=
  negb (is_private a || is_loopback a || is_link_local a || is_broadcast a || is_documentation a
        || is_unspecified a || is_multicast a || (octet 0 a =? 0)
        || ((octet 0 a =? 100) && (Z.land (octet 1 a) 192 =? 64)) || (240 <=? octet 0 a)).

(** [Ipv6Addr::to_ipv4]: mapped and compatible addresses. *)
Definition to_ipv4 (a : Z) : option Z :=
  if (segment 0 a =? 0) && (segment 1 a =? 0) && (segment 2 a =? 0) && (segment 3 a =? 0) && (segment 4 a =? 0)
     && ((segment 5 a =? 0) || (segment 5 a =? 65535))
  then Some (segment 6 a * 65536 + segment 7 a) else None.

Definition is_global_v6 (a : Z) : bool :=
  match to_ipv4 a with
  | Some v4 => is_global_v4 v4
  | None =>
      negb ((a =? 1) || (a =? 0) || (Z.land (segment 0 a) 65280 =? 65280)
            || (Z.land (segment 0 a) 65024 =? 64512) || (Z.land (segment 0 a) 65472 =? 65152))
  end.

Definition is_global (ip : IpAddr) : bool :=
  match ip with V4 a => is_global_v4 a | V6 a => is_global_v6 a end.

(** [url_parse] gives the scheme, the host and the port; [lookup_host] the addresses
    of a host at the time. *)
Class UrlEnv (X : Type) := {
  url_parse : string -> option (string * option string * option Z);
  lookup_host : string -> Z -> X -> anyhow (list IpAddr) * X;
}.

Definition assert_public_url {X} `{UrlEnv X} (raw : string) (x : X) : anyhow unit * X :=
  match url_parse raw with
  | None => (Err "bad url", x)
  | Some (scheme, host, port) =>
      if negb (String.eqb scheme "http" || String.eqb scheme "https") then (Err "disallowed scheme", x)
      else match host with
           | None => (Err "no host", x)
           | Some host =>
               let '(r, x) := lookup_host host (opt_or 443 port) x in
               (match r with
                | Err e => Err e
                | Ok addrs =>
                    if existsb (fun ip => negb (is_global ip)) addrs then Err "non-global IP"
                    else if (length addrs =? 0)%nat then Err "host did not resolve"
                    else Ok tt
                end, x)
           end
  end.

(** ** Registration at boot *)

Inductive RegCall : Type :=
| registerSigner (signer : Address) (commitment : list Z)
| rotateSigner (signer : Address) (commitment : list Z)
| setEndpoint (onion : string).

Definition SIGNER_DOMAIN : list Z := bytes_of "CROSSROADS_EVM_BLOCK_HASH_SIGNER_V1".

(** The 21 bytes of an app id are padded on the right. *)
Definition commitment_fields (chain_id : Z) (registry : Address) (app_id : list Z) (signer : Address) (epoch : Z)
    : list (list Z) :=
  [w chain_id; addr_word registry; app_id ++ replicate 11 0; addr_word signer; w epoch].

Definition commitment (keccak256 : list Z -> list Z) (chain_id : Z) (registry : Address) (app_id : list Z)
    (signer : Address) (epoch : Z) : list Z :=
  keccak256 (keccak256 SIGNER_DOMAIN ++ concat (commitment_fields chain_id registry app_id signer epoch)).

(** The registry contract, behind an RPC URL that may not parse, and the signing
    daemon, as boot finds them. *)
Record RegistryEnv : Type := {
  reg_signer : anyhow Address;
  reg_epoch : anyhow Z;
  reg_endpoint : anyhow string;
  reg_app_id : anyhow (list Z);
  reg_submit : RegCall -> anyhow string;
}.

(** [register]: the epoch and the call submitted. *)
Definition register (keccak256 : list Z -> list Z) (e : RegistryEnv) (chain_id : Z) (registry signer : Address)
    (epoch : Z) (rotate : bool) : anyhow Z * list RegCall :=
  match reg_app_id e with
  | Err m => (Err m, [])
  | Ok app_id =>
      let com := commitment keccak256 chain_id registry app_id signer epoch in
      let c := if rotate then rotateSigner signer com else registerSigner signer com in
      match reg_submit e c with
      | Err m => (Err m, [c])
      | Ok _ => (Ok epoch, [c])
      end
  end.

Definition effective_epoch (keccak256 : list Z -> list Z) (e : RegistryEnv) (chain_id : Z) (registry : Address)
    (allow_signer_rotation : bool) (signer onchain_signer : Address) (onchain_epoch : Z) : anyhow Z * list RegCall :=
  if onchain_signer =? 0 then register keccak256 e chain_id registry signer (wrap_u64 (onchain_epoch + 1)) false
  else if onchain_signer =? signer then (Ok onchain_epoch, [])
  else if allow_signer_rotation then register keccak256 e chain_id registry signer (wrap_u64 (onchain_epoch + 1)) true
  else (Err "registry signer is not ours", []).

(** [boot]: the epoch reports are signed in, and the calls submitted. *)
Definition boot (keccak256 : list Z -> list Z) (e : RegistryEnv) (chain_id : Z) (registry : Address)
    (allow_signer_rotation : bool) (signer : Address) (onion : option string) : anyhow Z * list RegCall :=
  match reg_signer e, reg_epoch e with
  | Err m, _ => (Err m, [])
  | _, Err m => (Err m, [])
  | Ok onchain_signer, Ok onchain_epoch =>
      match effective_epoch keccak256 e chain_id registry allow_signer_rotation signer onchain_signer onchain_epoch with
      | (Err m, cs) => (Err m, cs)
      | (Ok epoch, cs) =>
          match onion with
          | None => (Ok epoch, cs)
          | Some onion =>
              match reg_endpoint e with
              | Err m => (Err m, cs)
              | Ok current =>
                  if String.eqb current onion then (Ok epoch, cs)
                  else match reg_submit e (setEndpoint onion) with
                       | Err m => (Err m, cs ++ [setEndpoint onion])
                       | Ok _ => (Ok epoch, cs ++ [setEndpoint onion])
                       end
              end
          end
      end
  end.

(** ** Tips *)

(** How many of the numbers are at least [x]. *)
Definition at_least (x : Z) (l : list Z) : Z := Z.of_nat (length (filter (fun t => x <= t) l)).

Lemma sorted_nth l k t :
  StronglySorted desc l -> l !! k = Some t -> forall x, x <= t <-> (k < length (filter (fun y => (x <= y)%Z) l))%nat.
Proof.
  intros Hs. revert k. induction Hs as [|a l Hs IH Ha]; intros k Hk x; [done|].
  rewrite Forall_forall in Ha. unfold desc in Ha. rewrite filter_cons. destruct (decide (x <= a)) as [Hx|Hx].
  - destruct k as [|k]; simpl in *; [simplify_eq; split; [lia|done]|]. rewrite (IH k Hk x). lia.
  - assert (Hnil : filter (fun y => x <= y) l = []).
    { apply elem_of_nil_inv. intros y [Hy Hin]%list_elem_of_filter. specialize (Ha y Hin). lia. }
    rewrite Hnil. simpl. split; [|lia]. intros Ht. exfalso. destruct k as [|k]; simpl in Hk; [simplify_eq; lia|].
    specialize (Ha t (list_elem_of_lookup_2 _ _ _ Hk)). lia.
Qed.

Lemma at_least_length x l : at_least x l <= Z.of_nat (length l).
Proof. unfold at_least. pose proof (length_filter (fun t => x <= t) l). lia. Qed.

(** The quorum's tip is the largest number at least [q] members are at. *)
Lemma quorum_tip_spec tips q :
  1 <= q ->
  match quorum_tip tips q with
  | Some (Some t) => t ∈ tips /\ forall x, x <= t <-> q <= at_least x tips
  | Some None => Z.of_nat (length tips) < q
  | None => False
  end.
Proof.
  intros Hq. unfold quorum_tip. destruct (Z.ltb_spec (Z.of_nat (length tips)) q); [done|].
  destruct (Z.eqb_spec q 0); [lia|].
  assert (Hp : merge_sort desc tips ≡ₚ tips) by apply merge_sort_Permutation.
  destruct (merge_sort desc tips !! Z.to_nat (q - 1)) as [t|] eqn:Et.
  - split; [rewrite <- Hp; by eapply list_elem_of_lookup_2|]. intros x.
    rewrite (sorted_nth _ _ _ (StronglySorted_merge_sort desc tips) Et x). unfold at_least.
    rewrite <- (filter_Permutation (fun y => x <= y) _ _ Hp). lia.
  - apply lookup_ge_None in Et. rewrite Hp in Et. lia.
Qed.

(** ** Votes for a hash *)

(** How many votes are for [h]. *)
Definition votes_for (h : Z) (l : list Z) : Z := Z.of_nat (length (filter (fun x => x = h) l)).

Lemma votes_for_snoc h l v : votes_for h (l ++ [v]) = votes_for h l + (if decide (v = h) then 1 else 0).
Proof. unfold votes_for. rewrite filter_app, length_app, filter_cons, filter_nil. case_decide; simpl; lia. Qed.

Lemma count_votes_spec l h :
  count_votes l !! h = if decide (votes_for h l = 0) then None else Some (votes_for h l).
Proof.
  unfold count_votes. induction l as [|v l IH] using rev_ind; [done|].
  rewrite foldl_app, votes_for_snoc. cbn [foldl]. set (m := foldl _ _ _) in *.
  pose proof (Nat2Z.is_nonneg (length (filter (fun x => x = h) l))) as Hn. fold (votes_for h l) in Hn.
  destruct (decide (v = h)) as [->|Hne].
  - rewrite lookup_insert_eq, IH. destruct (decide (votes_for h l = 0)) as [E|E]; simpl;
      rewrite decide_False by lia; f_equal; lia.
  - by rewrite lookup_insert_ne, IH, Z.add_0_r by done.
Qed.

Lemma max_by_count_acc l best :
  match foldl pick best l with
  | None => best = None /\ l = []
  | Some m => (m ∈ l \/ best = Some m) /\ (forall x, x ∈ l -> x.2 <= m.2) /\ (forall b, best = Some b -> b.2 <= m.2)
  end.
Proof.
  revert best. induction l as [|x l IH]; intros best; cbn [foldl].
  - destruct best as [b|]; [|done]. split_and!; [by right|by intros ? ?%elem_of_nil|]. by intros ? [= ->].
  - match goal with |- context [foldl _ ?b l] => specialize (IH b); destruct (foldl _ b l) as [m|] end.
    + destruct IH as (Hm & Hl & Hb). destruct best as [b|]; unfold pick in *.
      * destruct (Z.leb_spec b.2 x.2) as [Hle|Hlt].
        -- specialize (Hb _ eq_refl). split_and!; [set_solver| |intros ? [= <-]; lia].
           intros y [->|Hy]%elem_of_cons; [done|by apply Hl].
        -- specialize (Hb _ eq_refl). split_and!; [set_solver| |intros ? [= <-]; lia].
           intros y [->|Hy]%elem_of_cons; [lia|by apply Hl].
      * specialize (Hb _ eq_refl). split_and!; [set_solver| |done].
        intros y [->|Hy]%elem_of_cons; [done|by apply Hl].
    + destruct IH as [IH _]. destruct best as [b|]; [|done]. simpl in IH. by destruct (b.2 <=? x.2).
Qed.

(** The hash with the most votes, when it has a quorum. *)
Lemma quorum_hash_spec (HI : HashIter) (HL : HashIterLaws HI) l q :
  1 <= q ->
  match quorum_hash l q with
  | Some (h, n) => n = votes_for h l /\ q <= n /\ forall h', votes_for h' l <= n
  | None => forall h', votes_for h' l < q
  end.
Proof.
  intros Hq. unfold quorum_hash, max_by_count.
  pose proof (max_by_count_acc (hash_iter (count_votes l)) None) as Hm.
  assert (Hin : forall h n, (h, n) ∈ hash_iter (count_votes l) <-> n = votes_for h l /\ n <> 0).
  { intros h n. rewrite hash_iter_perm, elem_of_map_to_list, count_votes_spec. case_decide; naive_solver. }
  destruct (foldl pick None _) as [[h n]|].
  - destruct Hm as ([Hm|[=]] & Hmax & _). apply Hin in Hm as [-> Hne].
    assert (Hall : forall h', votes_for h' l <= votes_for h l).
    { intros h'. destruct (decide (votes_for h' l = 0)) as [E|E]; [unfold votes_for in *; lia|].
      apply (Hmax (h', votes_for h' l)). by apply Hin. }
    destruct (Z.leb_spec q (votes_for h l)); [done|]. intros h'. specialize (Hall h'). lia.
  - destruct Hm as [_ Hnil]. intros h'. destruct (decide (votes_for h' l = 0)) as [->|E]; [lia|].
    assert (Hi : (h', votes_for h' l) ∈ hash_iter (count_votes l)) by (by apply Hin).
    rewrite Hnil in Hi. by apply elem_of_nil in Hi.
Qed.

(** Two hashes share the votes. *)
Lemma votes_for_disjoint h h' l : h <> h' -> votes_for h l + votes_for h' l <= Z.of_nat (length l).
Proof.
  intros Hne. unfold votes_for. induction l as [|x l IH]; [done|]. rewrite !filter_cons.
  destruct (decide (x = h)), (decide (x = h')); simpl; lia.
Qed.

(** ** The committee *)

Lemma hex_digits_nonneg s : forall acc n, 0 <= acc -> hex_digits acc s = Some n -> 0 <= n.
Proof.
  induction s as [|c s IH]; intros acc n Ha Hn; simpl in Hn; [by simplify_eq|].
  destruct (Text.nibble c) as [d|] eqn:Ed; [|done]. apply IH in Hn; [done|]. pose proof (nibble_range _ _ Ed). lia.
Qed.

Lemma parse_u64_hex_range v n : parse_u64_hex v = Some n -> is_u64 n.
Proof.
  unfold parse_u64_hex. destruct (Json.as_str v) as [s|]; [|done]. simpl. destruct (Text.strip_0x s) as [s'|]; [|done].
  simpl. unfold u64_from_hex. set (s0 := match s' with String "+" (String _ _ as s1) => s1 | _ => s' end).
  clearbody s0. destruct s0 as [|c s1]; [done|]. destruct (hex_digits 0 (String c s1)) as [z|] eqn:Ez; [|done].
  apply hex_digits_nonneg in Ez; [|lia]. destruct (Z.leb_spec z u64_max); intros [= <-]. done.
Qed.

Lemma poll_tip_range `{Committee} urls block fin t : t ∈ omap v_tip (poll urls block fin) -> is_u64 t.
Proof.
  unfold poll. rewrite list_elem_of_omap. intros (v & Hv & Ht). apply elem_of_lookup_imap in Hv as (i & u & -> & _).
  simpl in Ht. unfold number_of in Ht. destruct (ok _ ≫= _) as [n|]; [|done]. by apply parse_u64_hex_range in Ht.
Qed.

Lemma length_poll `{Committee} urls block fin : length (poll urls block fin) = length urls.
Proof. apply length_imap. Qed.

(** What the committee has to agree on; [need] is the height a tip has to reach. *)
Definition agreed_at (votes : list Vote) (q need block : Z) (fin : bool) (h : Z) : Prop :=
  q <= at_least need (omap v_tip votes) /\
  (fin = true -> q <= at_least block (omap v_finalized votes)) /\
  q <= votes_for h (omap v_hash votes).
Definition agreed (votes : list Vote) (q block min_confirmations : Z) : bool -> Z -> Prop :=
  agreed_at votes q (block + min_confirmations) block.

Lemma finality_spec votes q block fin :
  1 <= q ->
  match finality votes q block fin with
  | ORet f => fin = true -> q <= at_least block (omap v_finalized votes) /\ block <= f
  | OErr _ => fin = true /\ at_least block (omap v_finalized votes) < q
  | OCrash => False
  end.
Proof.
  intros Hq. unfold finality. destruct fin; [|done].
  pose proof (quorum_tip_spec (omap v_finalized votes) q Hq) as Hs.
  destruct (quorum_tip _ q) as [[f|]|]; [|split; [done|]|done].
  - destruct Hs as [_ Hs]. destruct (Z.ltb_spec f block); [|intros _; split; [by apply Hs|done]].
    split; [done|]. specialize (Hs block). lia.
  - pose proof (at_least_length block (omap v_finalized votes)). lia.
Qed.

Lemma confirm_votes_total (HI : HashIter) (HL : HashIterLaws HI) votes q block mc fin :
  (forall t, t ∈ omap v_tip votes -> is_u64 t) -> 0 <= q -> is_u64 block -> is_u64 mc ->
  let need := wrap_u64 (block + mc) in
  match confirm_votes votes q block mc fin with
  | ORet c =>
      agreed_at votes q need block fin (c_block_hash c) /\
      c_observed_quorum c = votes_for (c_block_hash c) (omap v_hash votes) /\
      (forall h, votes_for h (omap v_hash votes) <= c_observed_quorum c) /\
      is_u64 (c_quorum_tip c) /\ need <= c_quorum_tip c /\ c_observed_confirmations c = wrap_u64 (c_quorum_tip c - block) /\
      (Z.of_nat (length votes) < 2 * q -> forall h, agreed_at votes q need block fin h -> h = c_block_hash c)
  | OErr _ => forall h, ~ agreed_at votes q need block fin h
  | OCrash => q = 0
  end.
Proof.
  intros Hv Hq Hb Hm need. unfold confirm_votes. fold need. destruct (decide (q = 0)) as [->|Hne].
  { unfold quorum_tip. destruct (Z.ltb_spec (Z.of_nat (length (omap v_tip votes))) 0); [lia|done]. }
  assert (Hq1 : 1 <= q) by lia. pose proof (quorum_tip_spec (omap v_tip votes) q Hq1) as Ht.
  destruct (quorum_tip _ q) as [[tip|]|]; [| |done].
  2:{ intros h (H1 & _). pose proof (at_least_length need (omap v_tip votes)). lia. }
  destruct Ht as [Hin Ht]. pose proof (Hv _ Hin) as Hu. specialize (Ht need).
  rewrite Z.gtb_ltb. destruct (Z.ltb_spec tip need); [intros h (H1 & _); lia|].
  pose proof (finality_spec votes q block fin Hq1) as Hf.
  destruct (finality votes q block fin) as [f|e|]; [|intros h (_ & H2 & _); destruct Hf as [-> Hf]; specialize (H2 eq_refl); lia|done].
  pose proof (quorum_hash_spec HI HL (omap v_hash votes) q Hq1) as Hh.
  destruct (quorum_hash _ q) as [[h n]|]; [|intros h (_ & _ & H3); specialize (Hh h); lia].
  destruct Hh as (Hn & Hqn & Hmax). subst n. simpl.
  split_and!; [by split_and!; [apply Ht; lia|naive_solver|]|done|done|done..|].
  intros Hmaj h' (_ & _ & H3). destruct (decide (h' = h)) as [|Hne']; [done|].
  pose proof (votes_for_disjoint h h' (omap v_hash votes) ltac:(done)) as Hd.
  pose proof (length_omap_le v_hash votes). lia.
Qed.

Lemma confirm_votes_spec (HI : HashIter) (HL : HashIterLaws HI) votes q block mc fin :
  (forall t, t ∈ omap v_tip votes -> is_u64 t) -> 1 <= q -> 0 <= block -> 0 <= mc -> block + mc <= u64_max ->
  match confirm_votes votes q block mc fin with
  | ORet c =>
      agreed votes q block mc fin (c_block_hash c) /\
      c_observed_quorum c = votes_for (c_block_hash c) (omap v_hash votes) /\
      (forall h, votes_for h (omap v_hash votes) <= c_observed_quorum c) /\
      mc <= c_observed_confirmations c /\ c_quorum_tip c = block + c_observed_confirmations c /\
      (Z.of_nat (length votes) < 2 * q -> forall h, agreed votes q block mc fin h -> h = c_block_hash c)
  | OErr _ => forall h, ~ agreed votes q block mc fin h
  | OCrash => False
  end.
Proof.
  intros Hv Hq Hb Hm Hs. pose proof (confirm_votes_total HI HL votes q block mc fin Hv ltac:(lia) ltac:(width_lia) ltac:(width_lia)) as H.
  cbv zeta in H. rewrite wrap_u64_id in H by width_lia. fold (agreed votes q block mc) in H.
  destruct (confirm_votes votes q block mc fin) as [c| |]; [|done|lia].
  destruct H as (H1 & H2 & H3 & H4 & H5 & H6 & H7). rewrite wrap_u64_id in H6 by width_lia. split_and!; [done..|lia|lia|done].
Qed.

(** C18: the committee.  For any quorum, block and number of confirmations of their types: a
    request panics exactly when the quorum is zero; otherwise a block hash is confirmed exactly
    when a quorum of the members agrees on it, a quorum of the tips has reached the block plus
    the confirmations (a sum modulo [2^64]), and, where finality is asked for, a quorum has
    finalized the block; the hash has the most votes and the count reported is the true one.
    While the sum does not wrap, the confirmations reported are the true ones and at least
    those required.  With a quorum of more than half the members no other hash has one. *)
Theorem committee_confirms (HI : HashIter) (HL : HashIterLaws HI) (HC : Committee) urls q block mc fin :
  0 <= q -> is_u64 block -> is_u64 mc ->
  let votes := poll urls block fin in
  let need := wrap_u64 (block + mc) in
  (fetch_confirmed urls q block mc fin = OCrash <-> q = 0) /\
  match fetch_confirmed urls q block mc fin with
  | ORet c =>
      agreed_at votes q need block fin (c_block_hash c) /\
      c_observed_quorum c = votes_for (c_block_hash c) (omap v_hash votes) /\
      (forall h, votes_for h (omap v_hash votes) <= c_observed_quorum c) /\
      c_observed_confirmations c = wrap_u64 (c_quorum_tip c - block) /\
      (block + mc <= u64_max -> mc <= c_observed_confirmations c /\ c_quorum_tip c = block + c_observed_confirmations c) /\
      (Z.of_nat (length urls) < 2 * q -> forall h, agreed_at votes q need block fin h -> h = c_block_hash c)
  | OErr _ => forall h, ~ agreed_at votes q need block fin h
  | OCrash => True
  end.
Proof.
  intros Hq Hb Hm votes need. pose proof (confirm_votes_total HI HL votes q block mc fin) as H. rewrite <- (length_poll urls block fin).
  unfold fetch_confirmed. fold votes. specialize (H (fun t => poll_tip_range urls block fin t) Hq Hb Hm). cbv zeta in H. fold need in H. split.
  - split; [intros E; by rewrite E in H|]. intros ->. unfold confirm_votes, quorum_tip.
    by destruct (Z.ltb_spec (Z.of_nat (length (omap v_tip votes))) 0); [lia|].
  - destruct (confirm_votes votes q block mc fin) as [c| |]; [|done..].
    destruct H as (H1 & H2 & H3 & H4 & H5 & H6 & H7). split_and!; [done..| |done]. intros Hs. unfold need in H5.
    rewrite wrap_u64_id in H5 by width_lia. rewrite H6, wrap_u64_id by width_lia. lia.
Qed.

(** ** The digest *)

Lemma w_inj z z' : is_u256 z -> is_u256 z' -> w z = w z' -> z = z'.
Proof. intros Hz Hz'. apply to_be_bytes_inj; change (256 ^ Z.of_nat 32) with (2 ^ 256); width_lia. Qed.

Lemma addr_word_inj a a' : is_address a -> is_address a' -> addr_word a = addr_word a' -> a = a'.
Proof.
  unfold is_address, addr_word. intros Ha Ha' He%app_inv_head. revert He.
  apply to_be_bytes_inj; change (256 ^ Z.of_nat 20) with (2 ^ 160); width_lia.
Qed.

Lemma bool_word_inj b b' : bool_word b = bool_word b' -> b = b'.
Proof. intros He%app_inv_head. by destruct b, b'. Qed.

Definition report_ok (r : BlockHashReport) : Prop :=
  Forall is_u256 [source_chain_id r; block_number r; block_hash r; required_confirmations r; observed_confirmations r;
                  quorum_tip_ r; observed_quorum r; finalized_block_number r; expires_at r; signer_epoch r].

Lemma report_fields_length c o r : Forall (fun x => length x = 32%nat) (report_fields c o r).
Proof.
  unfold report_fields, w, addr_word, bool_word.
  repeat constructor; rewrite ?length_app, ?length_replicate, to_be_bytes_length || done; done.
Qed.

(** Equal lists of words have equal words. *)
Ltac words H :=
  repeat (let E := fresh "E" in apply cons_inv in H as [E H]);
  repeat match goal with
  | E : w _ = w _ |- _ => apply w_inj in E; [|done..]
  | E : addr_word _ = addr_word _ |- _ => apply addr_word_inj in E; [|done..]
  | E : bool_word _ = bool_word _ |- _ => apply bool_word_inj in E
  end.

(** A signature is good for one report only: the bytes that are hashed
    determine the chain of the registry, the oracle contract it is for, and every field
    of the report. *)
Lemma digest_binds domain domain' c o r c' o' r' :
  is_u256 c -> is_u256 c' -> is_address o -> is_address o' -> report_ok r -> report_ok r' ->
  length domain = length domain' ->
  report_buffer domain c o r = report_buffer domain' c' o' r' ->
  domain = domain' /\ c = c' /\ o = o' /\ r = r'.
Proof.
  intros Hc Hc' Ho Ho' Hr Hr' Hd He. apply app_inj_1 in He as [-> He]; [|done]. split; [done|].
  apply (concat_inj 32) in He; [|apply report_fields_length..|done].
  unfold report_ok in *. rewrite !Forall_cons in Hr, Hr'. destruct_and!.
  unfold report_fields in He. words He.
  destruct r, r'; simpl in *. by subst.
Qed.

(** ** Addresses *)

(** The blocks an address must not be in, each with the length of its prefix. *)
Definition dotted (a b c d : Z) : Z := ((a * 256 + b) * 256 + c) * 256 + d.
Definition reserved_v4 : list (Z * Z) :=
  [(dotted 0 0 0 0, 8); (dotted 10 0 0 0, 8); (dotted 100 64 0 0, 10); (dotted 127 0 0 0, 8);
   (dotted 169 254 0 0, 16); (dotted 172 16 0 0, 12); (dotted 192 0 2 0, 24); (dotted 192 168 0 0, 16);
   (dotted 198 51 100 0, 24); (dotted 203 0 113 0, 24); (dotted 224 0 0 0, 4); (dotted 240 0 0 0, 4)].
Definition in_block (a : Z) (b : Z * Z) : bool := a / 2 ^ (32 - b.2) =? b.1 / 2 ^ (32 - b.2).

Lemma top_two_bits y : 0 <= y < 256 -> (Z.land y 192 =? 64) = (y / 64 =? 1).
Proof.
  intros Hy. assert (Hall : forallb (fun n => eqb (Z.land (Z.of_nat n) 192 =? 64) (Z.of_nat n / 64 =? 1)) (seq 0 256) = true)
    by (by vm_compute).
  rewrite forallb_forall in Hall. specialize (Hall (Z.to_nat y)).
  rewrite Z2Nat.id in Hall by lia. apply eqb_prop, Hall, in_seq. lia.
Qed.

Lemma octets a : is_u32 a -> exists x y z u,
  a = dotted x y z u /\ 0 <= x < 256 /\ 0 <= y < 256 /\ 0 <= z < 256 /\ 0 <= u < 256.
Proof.
  intros Ha. exists (a / 256 / 256 / 256), (a / 256 / 256 mod 256), (a / 256 mod 256), (a mod 256).
  assert (Hr : forall v, 0 <= v mod 256 < 256) by (intros v; by apply Z.mod_pos_bound).
  assert (Hd : forall v, v = v / 256 * 256 + v mod 256) by (intros v; pose proof (Z.div_mod v 256); lia).
  split_and!; try apply Hr; [unfold dotted; by rewrite <- !Hd|..].
  - repeat apply Z.div_pos; width_lia.
  - repeat apply Z.div_lt_upper_bound; width_lia.
Qed.

Lemma dotted_div x y z u :
  0 <= x < 256 -> 0 <= y < 256 -> 0 <= z < 256 -> 0 <= u < 256 ->
  let a := dotted x y z u in
  a / 2 ^ 8 = dotted 0 x y z /\ a / 2 ^ 16 = dotted 0 0 x y /\ a / 2 ^ 24 = x /\
  octet 0 a = x /\ octet 1 a = y /\ octet 2 a = z.
Proof.
  intros Hx Hy Hz Hu a.
  assert (H1 : a / 2 ^ 8 = dotted 0 x y z) by (symmetry; apply Z.div_unique with u; unfold a, dotted; lia).
  assert (H2 : a / 2 ^ 16 = dotted 0 0 x y).
  { replace (2 ^ 16) with (2 ^ 8 * 2 ^ 8) by done. rewrite <- Z.div_div, H1 by lia.
    symmetry. apply Z.div_unique with z; unfold dotted; lia. }
  assert (H3 : a / 2 ^ 24 = x).
  { replace (2 ^ 24) with (2 ^ 16 * 2 ^ 8) by done. rewrite <- Z.div_div, H2 by lia.
    symmetry. apply Z.div_unique with y; unfold dotted; lia. }
  unfold octet. change (24 - 8 * 0) with 24. change (24 - 8 * 1) with 16. change (24 - 8 * 2) with 8.
  rewrite H1, H2, H3. split_and!; try done; [by apply Z.mod_small| |]; symmetry; unfold dotted.
  - apply Z.mod_unique with x; lia.
  - apply Z.mod_unique with (x * 256 + y); lia.
Qed.

Lemma is_global_v4_blocks a : is_u32 a -> is_global_v4 a = negb (existsb (in_block a) reserved_v4).
Proof.
  intros (x & y & z & u & -> & Hx & Hy & Hz & Hu)%octets.
  destruct (dotted_div x y z u Hx Hy Hz Hu) as (H8 & H16 & H24 & E0 & E1 & E2). set (a := dotted x y z u) in *.
  unfold is_global_v4, is_private, is_loopback, is_link_local, is_broadcast, is_documentation, is_unspecified, is_multicast.
  rewrite E0, E1, E2, top_two_bits by done. f_equal. cbn [existsb reserved_v4]. unfold in_block. cbn [fst snd].
  pose proof (Z.div_mod y 64 ltac:(done)). pose proof (Z.mod_pos_bound y 64 eq_refl).
  pose proof (Z.div_mod y 16 ltac:(done)). pose proof (Z.mod_pos_bound y 16 eq_refl).
  pose proof (Z.div_mod x 16 ltac:(done)). pose proof (Z.mod_pos_bound x 16 eq_refl).
  assert (H22 : a / 2 ^ 22 = x * 4 + y / 64).
  { symmetry. apply Z.div_unique with (y mod 64 * 65536 + z * 256 + u); unfold a, dotted; lia. }
  assert (H20 : a / 2 ^ 20 = x * 16 + y / 16).
  { symmetry. apply Z.div_unique with (y mod 16 * 65536 + z * 256 + u); unfold a, dotted; lia. }
  assert (H28 : a / 2 ^ 28 = x / 16).
  { symmetry. apply Z.div_unique with (x mod 16 * 16777216 + y * 65536 + z * 256 + u); unfold a, dotted; lia. }
  change (32 - 8) with 24. change (32 - 10) with 22. change (32 - 16) with 16. change (32 - 12) with 20.
  change (32 - 24) with 8. change (32 - 4) with 28. rewrite H8, H16, H20, H22, H24, H28.
  repeat match goal with |- context [dotted ?p ?q ?r ?s / ?d] =>
    let v := eval vm_compute in (dotted p q r s / d) in change (dotted p q r s / d) with v end.
  assert (B1 : (a =? u32_max) = true -> (240 <=? x) = true) by (unfold a, dotted, u32_max; lia).
  assert (B2 : (a =? 0) = true -> (x =? 0) = true) by (unfold a, dotted; lia).
  replace (x * 4 + y / 64 =? 401) with ((x =? 100) && (y / 64 =? 1)) by lia.
  replace (x * 16 + y / 16 =? 2753) with ((x =? 172) && (16 <=? y) && (y <=? 31)) by lia.
  replace (x / 16 =? 14) with ((224 <=? x) && (x <=? 239)) by lia.
  replace (x / 16 =? 15) with (240 <=? x) by lia.
  assert (P2 : forall p q, 0 <= q < 256 -> (dotted 0 0 x y =? p * 256 + q) = (x =? p) && (y =? q)) by (unfold dotted; lia).
  assert (P3 : forall p q r, 0 <= q < 256 -> 0 <= r < 256 ->
    (dotted 0 x y z =? (p * 256 + q) * 256 + r) = (x =? p) && (y =? q) && (z =? r)) by (unfold dotted; lia).
  change 43518 with (169 * 256 + 254). change 49320 with (192 * 256 + 168).
  change 12582914 with ((192 * 256 + 0) * 256 + 2). change 12989284 with ((198 * 256 + 51) * 256 + 100).
  change 13303921 with ((203 * 256 + 0) * 256 + 113). rewrite !P2, !P3 by lia.
  apply eq_true_iff_eq. rewrite orb_false_r, !orb_true_iff. tauto.
Qed.

(** An IPv4 address written as an IPv6 address, plain ([k = 0]) or mapped. *)
Lemma to_ipv4_embedded k a : k = 0 \/ k = 65535 -> is_u32 a -> to_ipv4 (k * 2 ^ 32 + a) = Some a.
Proof.
  intros Hk Ha. set (b := k * 2 ^ 32 + a). assert (Hb : b / 2 ^ 32 = k) by (symmetry; apply Z.div_unique with a; unfold b; width_lia).
  assert (Hhi : forall i, 0 <= i < 5 -> segment i b = 0).
  { intros i Hi. unfold segment. rewrite Z.div_small; [done|]. split; [unfold b; width_lia|].
    apply Z.lt_le_trans with (2 ^ 48); [unfold b; width_lia|]. apply Z.pow_le_mono_r; lia. }
  assert (H5 : segment 5 b = k) by (unfold segment; change (112 - 16 * 5) with 32; rewrite Hb, Z.mod_small; lia).
  assert (H6 : segment 6 b = a / 65536).
  { unfold segment. change (2 ^ (112 - 16 * 6)) with 65536. symmetry. apply Z.mod_unique with k.
    - left. split; [apply Z.div_pos; width_lia|apply Z.div_lt_upper_bound; width_lia].
    - symmetry. apply Z.div_unique with (a mod 65536); [left; by apply Z.mod_pos_bound|].
      pose proof (Z.div_mod a 65536). unfold b. lia. }
  assert (H7 : segment 7 b = a mod 65536).
  { unfold segment. change (112 - 16 * 7) with 0. rewrite Z.pow_0_r, Z.div_1_r. unfold b.
    replace (k * 2 ^ 32 + a) with (a + k * 65536 * 65536) by lia. apply Z.mod_add. lia. }
  unfold to_ipv4. rewrite !Hhi, H5, H6, H7 by lia. pose proof (Z.div_mod a 65536 ltac:(done)).
  replace ((k =? 0) || (k =? 65535)) with true by lia. simpl. f_equal. lia.
Qed.

(** The filter of RPC addresses refuses exactly the IPv4 blocks that are not
    public (this network, private, shared, loopback, link-local with the cloud's metadata
    service, documentation, multicast, reserved), also when they are written as an IPv6
    address, compatible or mapped. *)
Lemma is_global_refuses a :
  is_u32 a ->
  is_global (V4 a) = negb (existsb (in_block a) reserved_v4) /\
  is_global (V6 a) = is_global (V4 a) /\ is_global (V6 (65535 * 2 ^ 32 + a)) = is_global (V4 a).
Proof.
  intros Ha. cbn [is_global]. unfold is_global_v6.
  assert (E0 : to_ipv4 a = Some a) by (apply (to_ipv4_embedded 0 a); auto).
  rewrite (to_ipv4_embedded 65535 a), E0 by auto.
  split_and!; [by apply is_global_v4_blocks|done|done].
Qed.

(** A URL that passes resolves, and only to public addresses. *)
Lemma public_url_resolves {X} `{UrlEnv X} raw x x' :
  assert_public_url raw x = (Ok tt, x') ->
  exists scheme host port addrs,
    url_parse raw = Some (scheme, Some host, port) /\ (scheme = "http" \/ scheme = "https") /\
    lookup_host host (opt_or 443 port) x = (Ok addrs, x') /\ addrs <> [] /\ Forall (fun ip => is_global ip = true) addrs.
Proof.
  unfold assert_public_url. destruct (url_parse raw) as [[[scheme host] port]|]; [|done].
  destruct (String.eqb scheme "http" || String.eqb scheme "https") eqn:Es; simpl; [|done].
  destruct host as [host|]; [|done]. destruct (lookup_host host _ x) as [[addrs|e] x1] eqn:El; [|done].
  destruct (existsb _ addrs) eqn:Ex; [done|]. destruct addrs as [|ip addrs]; [done|]. intros [= <-].
  apply orb_true_iff in Es. rewrite !String.eqb_eq in Es.
  exists scheme, host, port, (ip :: addrs). split_and!; [done..|]. apply Forall_forall. intros y Hy.
  destruct (is_global y) eqn:Ey; [done|].
  assert (existsb (fun ip => negb (is_global ip)) (ip :: addrs) = true) as Hc; [|congruence].
  apply existsb_exists. exists y. split; [by apply list_elem_of_In|by rewrite Ey].
Qed.

(** ** Boot *)

Lemma register_ok keccak256 e chain_id registry signer epoch rotate r cs :
  register keccak256 e chain_id registry signer epoch rotate = (Ok r, cs) ->
  exists app_id, reg_app_id e = Ok app_id /\ r = epoch /\
    let com := commitment keccak256 chain_id registry app_id signer epoch in
    cs = [if rotate then rotateSigner signer com else registerSigner signer com].
Proof.
  unfold register. destruct (reg_app_id e) as [app_id|]; [|done].
  destruct (reg_submit e _); [|done]. intros [= <- <-]. eauto.
Qed.

(** Boot registers the signer at most once and only when it has to: nothing is
    written when the registry names another signer and rotation is not allowed; a
    successful boot returns the registry's own epoch when the signer is already ours, and
    otherwise the next one, after exactly one call naming our signer with the commitment
    of that epoch; the endpoint is written only when it differs. *)
Theorem boot_registers keccak256 e chain_id registry allow signer onion r cs :
  boot keccak256 e chain_id registry allow signer onion = (r, cs) ->
  (forall s ep, reg_signer e = Ok s -> reg_epoch e = Ok ep -> s <> 0 -> s <> signer -> allow = false ->
     is_ok r = false /\ cs = []) /\
  (forall epoch, r = Ok epoch ->
     exists s ep reg endp,
       reg_signer e = Ok s /\ reg_epoch e = Ok ep /\ cs = reg ++ endp /\
       (s = signer /\ s <> 0 /\ epoch = ep /\ reg = [] \/
        exists app_id, reg_app_id e = Ok app_id /\ epoch = wrap_u64 (ep + 1) /\
          let com := commitment keccak256 chain_id registry app_id signer epoch in
          (s = 0 /\ reg = [registerSigner signer com] \/
           s <> 0 /\ s <> signer /\ allow = true /\ reg = [rotateSigner signer com])) /\
       (endp = [] \/ exists o, onion = Some o /\ reg_endpoint e <> Ok o /\ endp = [setEndpoint o])).
Proof.
  unfold boot. destruct (reg_signer e) as [s|m]; [|by intros [= <- <-]].
  destruct (reg_epoch e) as [ep|m]; [|by intros [= <- <-]]. intros Hb. split.
  - intros s' ep' [= <-] [= <-] Hs0 Hs1 ->. unfold effective_epoch in Hb.
    rewrite (proj2 (Z.eqb_neq s 0)), (proj2 (Z.eqb_neq s signer)) in Hb by done. by simplify_eq.
  - intros epoch ->. destruct (effective_epoch _ _ _ _ _ _ _ _) as [[ep0|] reg] eqn:Ee; [|done].
    assert (Ht : epoch = ep0 /\ exists endp, cs = reg ++ endp /\
      (endp = [] \/ exists o, onion = Some o /\ reg_endpoint e <> Ok o /\ endp = [setEndpoint o])).
    { destruct onion as [o|]; [|simplify_eq; split; [done|]; exists []; rewrite app_nil_r; auto].
      destruct (reg_endpoint e) as [cur|m]; [|done]. destruct (String.eqb_spec cur o) as [Heq|Hne].
      - simplify_eq. split; [done|]. exists []. rewrite app_nil_r. auto.
      - destruct (reg_submit e _); [|done]. simplify_eq. split; [done|]. eexists. split; [done|]. right.
        exists o. split_and!; [done|congruence|done]. }
    destruct Ht as (-> & endp & -> & Hendp). exists s, ep, reg, endp. split_and!; [done..| |done].
    unfold effective_epoch in Ee. destruct (Z.eqb_spec s 0) as [->|Hs0].
    { apply register_ok in Ee as (app_id & Ha & -> & ->). right. exists app_id. auto. }
    destruct (Z.eqb_spec s signer) as [->|Hs1]; [simplify_eq; auto|]. destruct allow; [|done].
    apply register_ok in Ee as (app_id & Ha & -> & ->). right. exists app_id. split_and!; auto.
Qed.

(** ** Concrete inputs *)

Module Demo.

#[export] Instance iter : HashIter := fun m => map_to_list m.
#[export] Instance iter_laws : HashIterLaws iter.
Proof. by intros m. Qed.

(** Three members: the third is behind and on another branch. *)
#[export] Instance committee : Committee := {
  post i url tag :=
    let blk n h := Json.Object [("result", Json.Object [("number", Json.Str n); ("hash", Json.Str h)])] in
    Ok (if (i <=? 1)%nat then blk "0x70" "0xaa" else blk "0x60" "0xbb");
  parse_b256 s := Text.strip_0x s ≫= u64_from_hex;
}.

Definition urls : list string := ["http://a"; "http://b"; "http://c"].

Definition report : BlockHashReport :=
  {| source_chain_id := 1; block_number := 100; block_hash := 170; required_confirmations := 12;
     observed_confirmations := 12; quorum_tip_ := 112; observed_quorum := 2; require_finalized := true;
     finalized_block_number := 112; expires_at := 2000; signer_epoch := 1 |}.

Definition registry_env : RegistryEnv :=
  {| reg_signer := Ok 7; reg_epoch := Ok 3; reg_endpoint := Ok "old.onion"; reg_app_id := Ok (replicate 21 0);
     reg_submit := fun _ => Ok "ok" |}.

Definition confirmed : Confirmed :=
  {| c_block_hash := 170; c_quorum_tip := 112; c_observed_confirmations := 12; c_observed_quorum := 2;
     c_finalized_block_number := 112 |}.

Lemma confirms : fetch_confirmed urls 2 100 12 true = ORet confirmed.
Proof. by vm_compute. Qed.

(** Addresses of documentation and addresses that carry an IPv4 address behind the
    NAT64 prefix pass the filter. *)
Example documentation_v6_passes : is_global (V6 (8193 * 2 ^ 112 + 3512 * 2 ^ 96 + 1)) = true.
Proof. by vm_compute. Qed.
Example nat64_passes : is_global (V6 (100 * 2 ^ 112 + 65435 * 2 ^ 96 + dotted 169 254 169 254)) = true.
Proof. by vm_compute. Qed.

(** A committee of quorum zero, which its contract may name, panics the request. *)
Example zero_quorum_panics : fetch_confirmed urls 0 100 12 true = OCrash.
Proof. by vm_compute. Qed.

(** A block number next to the top of the range wraps past the confirmation check. *)
Example confirmations_wrap :
  fetch_confirmed urls 2 u64_max 12 false
  = ORet {| c_block_hash := 170; c_quorum_tip := 112; c_observed_confirmations := 113; c_observed_quorum := 2;
            c_finalized_block_number := 0 |}.
Proof. by vm_compute. Qed.

End Demo.

#[local] Existing Instance Demo.iter.
#[local] Existing Instance Demo.committee.

Lemma committee_confirms_witness :
  fetch_confirmed Demo.urls 2 100 12 true = ORet Demo.confirmed /\
  agreed_at (poll Demo.urls 100 true) 2 112 100 true 170 /\
  forall h, agreed_at (poll Demo.urls 100 true) 2 112 100 true h -> h = 170.
Proof.
  split; [exact Demo.confirms|].
  pose proof (committee_confirms Demo.iter Demo.iter_laws Demo.committee Demo.urls 2 100 12 true
    ltac:(lia) ltac:(width_lia) ltac:(width_lia)) as Hc.
  cbv zeta in Hc. change (wrap_u64 (100 + 12)) with 112 in Hc. rewrite Demo.confirms in Hc.
  destruct Hc as (_ & Ha & _ & _ & _ & _ & Hu). split; [exact Ha|]. apply Hu. simpl. lia.
Defined.

End Oracle.
