(* ===== verification/Redis.v ===== *)
(** The Redis server behind [pool-core/src/store.rs], as an interface.

    [RedisOps] names the commands the code sends and [RedisLaws] says what the
    server documents of them, through a view of the database as a finite map
    from keys to cells (a value and its expiry) and of the redemption stream as
    the list of its entries.  [LuaOps] and [LuaLaws] do the same for the numbers
    of the scripts the code runs on the server: a Lua number is a double, so a
    value goes through a script unchanged up to [2^53].  [Db] is an instance of
    both, used by the witnesses. *)
From S2P Require Import Prelude Text.

(** ** Keys and values *)

(** A key of the database, or a field of one of its hashes. *)
Inductive rkey : Type :=
| KStr (name : string)
| KAddr (prefix : string) (a : Address)
| KField (hash : string) (field : Z)
| KName (hash field : string).

(** A stored string: [RInt] is the canonical decimal of an integer. *)
Inductive rval : Type :=
| RInt (z : Z)
| RStr (s : string).

(** The fields of a stream entry. *)
Definition fields : Type := list (string * string).

Record cell : Type := Cell { value : rval; expiry : option Z }.

#[global] Instance rkey_eq_dec : EqDecision rkey.
Proof. solve_decision. Defined.
#[global] Instance rval_eq_dec : EqDecision rval.
Proof. solve_decision. Defined.
#[global] Instance cell_eq_dec : EqDecision cell.
Proof. solve_decision. Defined.

#[global] Instance rkey_countable : Countable rkey.
Proof.
  refine (inj_countable'
    (fun k => match k with
      | KStr n => inl (inl n) | KAddr p a => inl (inr (p, a))
      | KField h f => inr (inl (h, f)) | KName h f => inr (inr (h, f)) end)
    (fun x => match x with
      | inl (inl n) => KStr n | inl (inr (p, a)) => KAddr p a
      | inr (inl (h, f)) => KField h f | inr (inr (h, f)) => KName h f end) _).
  by intros [].
Defined.

(** ** Commands *)

Class RedisOps (R : Type) := {
  get : rkey -> R -> option rval;
  set : rkey -> rval -> R -> R;
  expire : rkey -> Z -> R -> R;
  incrby : rkey -> Z -> R -> result string Z * R;
  del : rkey -> R -> R;
  xadd : fields -> R -> string * R;
}.

(** The integer INCRBY starts from: 0 for an absent key. *)
Definition int_of (v : option rval) : option Z :=
  match v with
  | None => Some 0
  | Some (RInt z) => Some z
  | Some (RStr _) => None
  end.

(** The effect of INCRBY on a database: the sum when it is an [i64], the expiry
    kept; no change otherwise. *)
Definition incr_cells (k : rkey) (d : Z) (m : gmap rkey cell) : gmap rkey cell :=
  match int_of (value <$> m !! k) with
  | Some v => if decide (is_i64 (v + d))
              then <[k := Cell (RInt (v + d)) (m !! k ≫= expiry)]> m else m
  | None => m
  end.

Class RedisLaws (R : Type) `{RedisOps R} := {
  db : R -> gmap rkey cell;
  queue : R -> list fields;
  get_db : forall k r, get k r = value <$> db r !! k;
  db_set : forall k v r, db (set k v r) = <[k := Cell v None]> (db r);
  db_expire : forall k s r, db (expire k s r) = alter (fun c => Cell (value c) (Some s)) k (db r);
  db_incrby : forall k d r, db (incrby k d r).2 = incr_cells k d (db r);
  incrby_ok : forall k d r v,
    int_of (get k r) = Some v -> is_i64 (v + d) -> (incrby k d r).1 = Ok (v + d);
  incrby_err : forall k d r,
    (forall v, int_of (get k r) = Some v -> ~ is_i64 (v + d)) -> is_ok (incrby k d r).1 = false;
  db_del : forall k r, db (del k r) = delete k (db r);
  db_xadd : forall e r, db (xadd e r).2 = db r;
  queue_set : forall k v r, queue (set k v r) = queue r;
  queue_expire : forall k s r, queue (expire k s r) = queue r;
  queue_incrby : forall k d r, queue (incrby k d r).2 = queue r;
  queue_del : forall k r, queue (del k r) = queue r;
  queue_xadd : forall e r, queue (xadd e r).2 = queue r ++ [e];
}.

(** Numbers inside a server-side script: [tonumber] of a stored value or an
    argument, and the argument a number becomes in [redis.call]. *)
Class LuaOps := {
  tonumber : rval -> option Z;
  toarg : Z -> rval;
}.

Definition lua_exact (z : Z) : Prop := - 2 ^ 53 <= z <= 2 ^ 53.

Class LuaLaws `{LuaOps} := {
  tonumber_exact : forall z, lua_exact z -> tonumber (RInt z) = Some z;
  toarg_exact : forall z, lua_exact z -> toarg z = RInt z;
}.

(** ** Commands in sequence

    A request to the server returns a value or an error and leaves the database
    changed; a script that errors keeps the writes made before the error. *)

Definition St (R A : Type) : Type := R -> result string A * R.

#[global] Instance St_ret R : MRet (St R) := fun A a r => (Ok a, r).
#[global] Instance St_bind R : MBind (St R) := fun A B f m r =>
  match m r with
  | (Ok a, r') => f a r'
  | (Err e, r') => (Err e, r')
  end.

Section Commands.
Context {R : Type} `{RedisOps R}.

Definition throw {A} (e : string) : St R A := fun r => (Err e, r).
Definition GET (k : rkey) : St R (option rval) := fun r => (Ok (get k r), r).
Definition SET (k : rkey) (v : rval) : St R unit := fun r => (Ok tt, set k v r).
Definition EXPIRE (k : rkey) (s : Z) : St R unit := fun r => (Ok tt, expire k s r).
Definition INCRBY (k : rkey) (d : Z) : St R Z := incrby k d.
Definition XADD (e : fields) : St R string := fun r => let '(i, r') := xadd e r in (Ok i, r').

(** HSETNX: writes an absent field only. *)
Definition HSETNX (k : rkey) (v : rval) : St R Z := fun r =>
  match get k r with Some _ => (Ok 0, r) | None => (Ok 1, set k v r) end.

(** MULTI/EXEC of two commands: both run, and the first error is the answer. *)
Definition multi {A B} (a : St R A) (b : St R B) : St R (A * B) := fun r =>
  let '(x, r1) := a r in
  let '(y, r2) := b r1 in
  (match x, y with
   | Ok x, Ok y => Ok (x, y)
   | Err e, _ => Err e
   | Ok _, Err e => Err e
   end, r2).

(** A reply decoded as [Option<i64>]. *)
Definition as_i64 (v : option rval) : result string (option Z) :=
  match v with
  | None => Ok None
  | Some (RInt z) => if decide (is_i64 z) then Ok (Some z) else Err "not an i64"
  | Some (RStr s) => match Text.parse_i64 s with Some z => Ok (Some z) | None => Err "not an i64" end
  end.

(** A reply decoded as [Option<String>]. *)
Definition as_string (v : option rval) : option string :=
  match v with
  | None => None
  | Some (RInt z) => Some (Text.show z)
  | Some (RStr s) => Some s
  end.

Definition GET_i64 (k : rkey) : St R (option Z) := fun r => (as_i64 (get k r), r).

(** [tonumber(redis.call('GET', k) or '0')], an error where the script would
    compare [nil] with a number. *)
Definition lua_get `{LuaOps} (k : rkey) : St R Z := fun r =>
  match get k r with
  | None => (Ok 0, r)
  | Some v => match tonumber v with Some z => (Ok z, r) | None => (Err "nil", r) end
  end.

(** INCRBY from a script: the number is rendered as an argument first. *)
Definition lua_incrby `{LuaOps} (k : rkey) (d : Z) : St R Z :=
  match toarg d with RInt d' => INCRBY k d' | RStr _ => throw "not an integer" end.

(** DECRBY is INCRBY of the opposite. *)
Definition lua_decrby `{LuaOps} (k : rkey) (d : Z) : St R Z :=
  match toarg d with RInt d' => INCRBY k (- d') | RStr _ => throw "not an integer" end.

(** ** Guarantees

    [guar G f]: whatever the database, the request moves it along [G].  For a
    preorder [G] this composes over sequences and transactions; preserving an
    invariant and leaving a cell alone are both of this form. *)

Definition guar (G : R -> R -> Prop) {A} (f : St R A) : Prop := forall r, G r (f r).2.

End Commands.

(** ** An instance *)

Module Db.

Record t : Type := Mk { cells : gmap rkey cell; stream : list fields }.

Definition empty : t := Mk ∅ [].

#[global] Instance ops : RedisOps t := {
  get k r := value <$> cells r !! k;
  set k v r := Mk (<[k := Cell v None]> (cells r)) (stream r);
  expire k s r := Mk (alter (fun c => Cell (value c) (Some s)) k (cells r)) (stream r);
  incrby k d r :=
    (match int_of (value <$> cells r !! k) with
     | Some v => if decide (is_i64 (v + d)) then Ok (v + d) else Err "overflow"
     | None => Err "not an integer"
     end, Mk (incr_cells k d (cells r)) (stream r));
  del k r := Mk (delete k (cells r)) (stream r);
  xadd e r := (Text.show (Z.of_nat (length (stream r))), Mk (cells r) (stream r ++ [e]));
}.

#[global] Instance laws : RedisLaws t.
Proof.
  refine {| db := cells; queue := stream |}; try done; simpl.
  - intros k d r v -> Hv. by rewrite decide_True.
  - intros k d r Hv. destruct (int_of _) as [v|] eqn:E; [|done].
    rewrite decide_False; [done|]. by apply Hv.
Defined.

(** The nearest double of an integer, ties to even. *)
Definition to_double (z : Z) : Z :=
  let a := Z.abs z in
  let u := 2 ^ Z.max 0 (Z.log2 a - 52) in
  let q := a / u in
  let m := a mod u in
  let q' := if (u <? 2 * m) || ((u =? 2 * m) && Z.odd q) then q + 1 else q in
  Z.sgn z * (q' * u).

#[global] Instance lua_ops : LuaOps := {
  tonumber v := match v with RInt z => Some (to_double z) | RStr _ => None end;
  toarg z := RInt z;
}.

Lemma to_double_exact z : lua_exact z -> to_double z = z.
Proof.
  unfold lua_exact, to_double. intros Hz.
  assert (Hl : Z.abs z < 2 ^ 53 \/ Z.abs z = 2 ^ 53) by lia. destruct Hl as [Hl|Hl].
  - assert (Z.log2 (Z.abs z) <= 52).
    { destruct (decide (z = 0)) as [->|]; [by vm_compute|].
      pose proof (proj1 (Z.log2_lt_pow2 (Z.abs z) 53 ltac:(lia)) Hl). lia. }
    rewrite Z.max_l by lia. change (2 ^ 0) with 1. rewrite Z.div_1_r, Z.mod_1_r. simpl.
    destruct z; simpl; lia.
  - rewrite Hl. assert (z = 2 ^ 53 \/ z = - 2 ^ 53) as [->| ->] by lia; by vm_compute.
Qed.

#[global] Instance lua_laws : LuaLaws.
Proof. split; [|done]. intros z Hz. simpl. by rewrite to_double_exact. Qed.

End Db.

(** ** Lemmas *)

Lemma reply_i64_range v o : as_i64 v = Ok o -> is_i64 (opt_or 0 o).
Proof.
  destruct v as [[z|s]|]; simpl.
  - case_decide; intros; by simplify_eq.
  - destruct (Text.parse_i64 s) as [z|] eqn:E; intros; simplify_eq. by apply Text.parse_i64_range in E.
  - intros; simplify_eq/=. width_lia.
Qed.

(** The first request of a sequence, when its reply is known. *)
Lemma St_bind_ok {R A B} (m : St R A) (f : A -> St R B) r a r' :
  m r = (Ok a, r') -> (m ≫= f) r = f a r'.
Proof. unfold mbind, St_bind. by intros ->. Qed.

Lemma St_bind_err {R A B} (m : St R A) (f : A -> St R B) r e r' :
  m r = (Err e, r') -> (m ≫= f) r = (Err e, r').
Proof. unfold mbind, St_bind. by intros ->. Qed.

Section Lemmas.
Context {R : Type} `{RedisLaws R}.

Lemma get_set k v r : get k (set k v r) = Some v.
Proof. by rewrite get_db, db_set, lookup_insert_eq. Qed.

Lemma get_set_ne k k' v r : k' <> k -> get k (set k' v r) = get k r.
Proof. intros. by rewrite !get_db, db_set, lookup_insert_ne. Qed.

Lemma get_expire k k' s r : get k (expire k' s r) = get k r.
Proof.
  rewrite !get_db, db_expire. destruct (decide (k' = k)) as [->|].
  - rewrite lookup_alter_eq. by destruct (db r !! k).
  - by rewrite lookup_alter_ne.
Qed.

Lemma get_xadd k e r : get k (xadd e r).2 = get k r.
Proof. by rewrite !get_db, db_xadd. Qed.

Lemma get_del k r : get k (del k r) = None.
Proof. by rewrite get_db, db_del, lookup_delete_eq. Qed.

Lemma get_del_ne k k' r : k' <> k -> get k (del k' r) = get k r.
Proof. intros. by rewrite !get_db, db_del, lookup_delete_ne. Qed.

Lemma get_incrby_ne k k' d r : k' <> k -> get k (incrby k' d r).2 = get k r.
Proof.
  intros. rewrite !get_db, db_incrby. unfold incr_cells.
  destruct (int_of _); [|done]. case_decide; [|done]. by rewrite lookup_insert_ne.
Qed.

(** The two outcomes of INCRBY, as equations. *)
Lemma incrby_cases k d r :
  (exists v, int_of (get k r) = Some v /\ is_i64 (v + d)
     /\ (incrby k d r).1 = Ok (v + d) /\ get k (incrby k d r).2 = Some (RInt (v + d)))
  \/ ((forall v, int_of (get k r) = Some v -> ~ is_i64 (v + d))
     /\ (exists e, (incrby k d r).1 = Err e) /\ get k (incrby k d r).2 = get k r).
Proof.
  destruct (int_of (get k r)) as [v|] eqn:E; [destruct (decide (is_i64 (v + d)))|].
  - left. exists v. split_and!; [done..| by apply incrby_ok |].
    rewrite get_db, db_incrby. unfold incr_cells. rewrite <- get_db, E, decide_True by done.
    by rewrite lookup_insert_eq.
  - right. split_and!; [naive_solver|..].
    + pose proof (incrby_err k d r ltac:(naive_solver)). destruct (incrby k d r).1; naive_solver.
    + rewrite !get_db, db_incrby. unfold incr_cells. rewrite <- get_db, E.
      by rewrite decide_False, get_db.
  - right. split_and!; [naive_solver|..].
    + pose proof (incrby_err k d r ltac:(by rewrite E)). destruct (incrby k d r).1; naive_solver.
    + rewrite !get_db, db_incrby. unfold incr_cells. rewrite <- get_db, E. by rewrite get_db.
Qed.

End Lemmas.

Section Guarantees.
Context {R : Type} `{RedisOps R}.
Context (G : R -> R -> Prop) `{!PreOrder G}.

Lemma guar_ret {A} (a : A) : guar G (mret (M := St R) a).
Proof. intros r. reflexivity. Qed.

Lemma guar_throw {A} e : guar G (throw (A := A) e).
Proof. intros r. reflexivity. Qed.

Lemma guar_bind {A B} (m : St R A) (f : A -> St R B) :
  guar G m -> (forall a, guar G (f a)) -> guar G (m ≫= f).
Proof.
  intros Hm Hf r. specialize (Hm r). unfold mbind, St_bind.
  destruct (m r) as [[a|e] r'] eqn:E; simpl in *; [|done].
  etransitivity; [exact Hm | apply Hf].
Qed.

Lemma guar_multi {A B} (a : St R A) (b : St R B) : guar G a -> guar G b -> guar G (multi a b).
Proof.
  intros Ha Hb r. specialize (Ha r). unfold multi.
  destruct (a r) as [x r1]. specialize (Hb r1). destruct (b r1) as [y r2]. simpl in *.
  by etransitivity.
Qed.

Lemma guar_GET k : guar G (GET k).
Proof. intros r. reflexivity. Qed.

Lemma guar_GET_i64 k : guar G (GET_i64 k).
Proof. intros r. reflexivity. Qed.

Lemma guar_lua_get `{LuaOps} k : guar G (lua_get k).
Proof. intros r. unfold lua_get. destruct (get k r); [destruct (tonumber _)|]; reflexivity. Qed.

Lemma guar_SET k v : (forall r, G r (set k v r)) -> guar G (SET k v).
Proof. intros HG r. apply HG. Qed.

Lemma guar_HSETNX k v : (forall r, G r (set k v r)) -> guar G (HSETNX k v).
Proof. intros HG r. unfold HSETNX. destruct (get k r); [reflexivity | apply HG]. Qed.

Lemma guar_EXPIRE k s : (forall r, G r (expire k s r)) -> guar G (EXPIRE k s).
Proof. intros HG r. apply HG. Qed.

Lemma guar_INCRBY k d : (forall r, G r (incrby k d r).2) -> guar G (INCRBY k d).
Proof. intros HG r. apply HG. Qed.

Lemma guar_lua_incrby `{LuaOps} k d :
  (forall d r, G r (incrby k d r).2) -> guar G (lua_incrby k d).
Proof. intros HG. unfold lua_incrby. destruct (toarg d); [by apply guar_INCRBY | apply guar_throw]. Qed.

Lemma guar_lua_decrby `{LuaOps} k d :
  (forall d r, G r (incrby k d r).2) -> guar G (lua_decrby k d).
Proof. intros HG. unfold lua_decrby. destruct (toarg d); [by apply guar_INCRBY | apply guar_throw]. Qed.

Lemma guar_XADD e : (forall r, G r (xadd e r).2) -> guar G (XADD e).
Proof. intros HG r. specialize (HG r). unfold XADD. by destruct (xadd e r). Qed.

End Guarantees.

(** Leaving the cell of a key alone. *)
Definition frame {R} `{RedisLaws R} (k : rkey) (r r' : R) : Prop := db r' !! k = db r !! k.

#[global] Instance frame_preorder {R} `{RedisLaws R} k : PreOrder (frame (R := R) k).
Proof. unfold frame. split; [done | intros ?? ? -> ->; done]. Qed.

Section Frame.
Context {R : Type} `{RedisLaws R}.
Implicit Types r : R.

Lemma frame_set k k' v r : k' <> k -> frame k r (set k' v r).
Proof. intros. unfold frame. by rewrite db_set, lookup_insert_ne. Qed.

Lemma frame_expire k k' s r : k' <> k -> frame k r (expire k' s r).
Proof. intros. unfold frame. by rewrite db_expire, lookup_alter_ne. Qed.

Lemma frame_incrby k k' d r : k' <> k -> frame k r (incrby k' d r).2.
Proof.
  intros. unfold frame. rewrite db_incrby. unfold incr_cells.
  destruct (int_of _); [|done]. case_decide; [|done]. by rewrite lookup_insert_ne.
Qed.

Lemma frame_xadd k e r : frame k r (xadd e r).2.
Proof. unfold frame. by rewrite db_xadd. Qed.

Lemma frame_get k r r' : frame k r r' -> get k r' = get k r.
Proof. unfold frame. intros E. by rewrite !get_db, E. Qed.

End Frame.

(** Walk over a request: the tactic leaves one goal per write. *)
Ltac guar_step :=
  first
    [ apply guar_ret; [typeclasses eauto] | apply guar_throw; [typeclasses eauto]
    | apply guar_GET; [typeclasses eauto] | apply guar_GET_i64; [typeclasses eauto]
    | apply guar_lua_get; [typeclasses eauto]
    | apply guar_multi; [typeclasses eauto|..]
    | apply guar_bind; [typeclasses eauto|..]
    | apply guar_SET | apply guar_HSETNX; [typeclasses eauto|] | apply guar_EXPIRE | apply guar_INCRBY
    | apply guar_lua_incrby; [typeclasses eauto|] | apply guar_lua_decrby; [typeclasses eauto|]
    | apply guar_XADD
    | match goal with
      | |- guar _ (if ?b then _ else _) => destruct b
      | |- guar _ (match ?x with _ => _ end) => destruct x
      | |- forall _, _ => intros ?
      end ].
Ltac guar_walk := repeat guar_step.

#[export] Hint Resolve frame_set frame_expire frame_incrby frame_xadd : pool.

Create Rewrite HintDb redis.
#[export] Hint Rewrite @get_set @get_expire @get_xadd @get_del using (first [done | typeclasses eauto]) : redis.
