(* ===== verification/Effects.v ===== *)
(** Programs that talk to Redis and to the world outside the process.

    A computation threads the database, the environment and a log of the
    outward-facing actions, and returns a value, an error or a crash of the
    process.  Before every call the other tasks of the process and the server's
    own evictions may have run ([interfere]), and every call
    may fail before it takes effect, fail after it took effect (the reply is
    lost), or coincide with a crash ([fault]). *)
From S2P Require Import Prelude Redis.

Inductive fault : Type := NoFault | FailBefore | FailAfter | CrashBefore | CrashAfter.

(** The scheduler: what the rest of the system does between two calls (to the
    database, to the environment, and by its own events), and which calls fail. *)
Class World (R W Ev : Type) := {
  interfere : R -> W -> R * W * list Ev;
  next_fault : W -> fault * W;
}.

Section Monad.
Context {R W Ev : Type} `{World R W Ev}.

Record st : Type := St_ { redis : R; env : W; log : list Ev }.

Definition M (A : Type) : Type := st -> outcome A * st.

Definition ret {A} (a : A) : M A := fun s => (ORet a, s).
Definition fail {A} (e : string) : M A := fun s => (OErr e, s).
Definition bind {A B} (m : M A) (f : A -> M B) : M B := fun s =>
  match m s with
  | (ORet a, s') => f a s'
  | (OErr e, s') => (OErr e, s')
  | (OCrash, s') => (OCrash, s')
  end.

Definition of_result {A} (r : result string A) : outcome A :=
  match r with Ok a => ORet a | Err e => OErr e end.

(** One call, [f], with the events its taking effect adds to the log. *)
Definition call {A} (f : R -> W -> result string A * R * W) (ev : result string A -> list Ev) : M A :=
  fun s =>
  let '(r0, w0, evs) := interfere (redis s) (env s) in
  let '(flt, w1) := next_fault w0 in
  let '(a, r2, w2) := f r0 w1 in
  let before := St_ r0 w1 (log s ++ evs) in
  let after := St_ r2 w2 (log s ++ evs ++ ev a) in
  match flt with
  | NoFault => (of_result a, after)
  | FailBefore => (OErr "io", before)
  | FailAfter => (OErr "io", after)
  | CrashBefore => (OCrash, before)
  | CrashAfter => (OCrash, after)
  end.

(** A request to Redis, with the events it stands for. *)
Definition rcall_ev {A} (f : St R A) (ev : result string A -> list Ev) : M A :=
  call (fun r w => let '(a, r') := f r in (a, r', w)) ev.
Definition rcall {A} (f : St R A) : M A := rcall_ev f (fun _ => []).

(** A request to the environment. *)
Definition ecall {A} (f : W -> result string A * W) (ev : result string A -> list Ev) : M A :=
  call (fun r w => let '(a, w') := f w in (a, r, w')) ev.

(** A change of the environment inside the process: it cannot fail. *)
Definition modify (f : W -> W) : M unit := fun s => (ORet tt, St_ (redis s) (f (env s)) (log s)).

(** A value read from the environment inside the process. *)
Definition gets {A} (f : W -> A) : M A := fun s => (ORet (f (env s)), s).

(** The error of a computation as a value: [match m.await], [.ok()],
    [.unwrap_or(..)].  A crash is not caught. *)
Definition attempt {A} (m : M A) : M (result string A) := fun s =>
  match m s with
  | (ORet a, s') => (ORet (Ok a), s')
  | (OErr e, s') => (ORet (Err e), s')
  | (OCrash, s') => (OCrash, s')
  end.

Definition lift {A} (r : result string A) : M A := fun s => (of_result r, s).

(** [m.await.map_err(f)?] in a function with its own error type. *)
Definition try_map {A B E} (m : M A) (f : string -> E) (k : A -> M (result E B)) : M (result E B) :=
  bind (attempt m) (fun r => match r with Ok a => k a | Err e => ret (Err (f e)) end).

End Monad.

Arguments st : clear implicits.
Arguments M : clear implicits.

Notation "x <- m ;; k" := (bind m (fun x => k)) (at level 80, m at next level, right associativity).
Notation "m ;;; k" := (bind m (fun _ => k)) (at level 80, right associativity).

Section Rules.
Context {R W Ev : Type} `{World R W Ev}.
Implicit Types s : st R W Ev.

(** [hoare P m Q E]: from a state in [P], a value leaves the state in [Q], and an
    error or a crash leaves it in [E]. *)
Definition hoare (P : st R W Ev -> Prop) {A} (m : M R W Ev A) (Q : A -> st R W Ev -> Prop)
    (E : st R W Ev -> Prop) : Prop :=
  forall s, P s -> match m s with
                   | (ORet a, s') => Q a s'
                   | (OErr _, s') | (OCrash, s') => E s'
                   end.

(** A predicate no interference can break. *)
Definition stable (P : st R W Ev -> Prop) : Prop :=
  forall s r w evs w', P s -> interfere (redis s) (env s) = (r, w, evs) ->
    P (St_ r w' (log s ++ evs)).

Lemma hoare_ret (P : st R W Ev -> Prop) {A} (a : A) (Q : A -> st R W Ev -> Prop) E :
  (forall s, P s -> Q a s) -> hoare P (ret a) Q E.
Proof. intros HQ s Hs. by apply HQ. Qed.

Lemma hoare_fail (P : st R W Ev -> Prop) {A} e (Q : A -> st R W Ev -> Prop) (E : st R W Ev -> Prop) :
  (forall s, P s -> E s) -> hoare P (fail e) Q E.
Proof. intros HE s Hs. by apply HE. Qed.

Lemma hoare_gets (P : st R W Ev -> Prop) {A} (f : W -> A) (Q : A -> st R W Ev -> Prop) E :
  (forall s, P s -> Q (f (env s)) s) -> hoare P (gets f) Q E.
Proof. intros HQ s Hs. by apply HQ. Qed.

Lemma hoare_modify (P : st R W Ev -> Prop) (f : W -> W) (Q : unit -> st R W Ev -> Prop) E :
  (forall s, P s -> Q tt (St_ (redis s) (f (env s)) (log s))) -> hoare P (modify f) Q E.
Proof. intros HQ s Hs. by apply HQ. Qed.

Lemma hoare_bind (P : st R W Ev -> Prop) {A B} (m : M R W Ev A) (f : A -> M R W Ev B) Q S E :
  hoare P m S E -> (forall a, hoare (S a) (f a) Q E) -> hoare P (bind m f) Q E.
Proof.
  intros Hm Hf s Hs. specialize (Hm s Hs). unfold bind.
  destruct (m s) as [[a|e|] s']; [by apply Hf | done..].
Qed.

Lemma hoare_attempt (P : st R W Ev -> Prop) {A} (m : M R W Ev A) Q (E : st R W Ev -> Prop) :
  hoare P m (fun a => Q (Ok a)) E -> (forall e s, E s -> Q (Err e) s) -> hoare P (attempt m) Q E.
Proof.
  intros Hm He s Hs. specialize (Hm s Hs). unfold attempt.
  destruct (m s) as [[a|e|] s']; auto.
Qed.

Lemma hoare_try_map (P : st R W Ev -> Prop) {A B X} (m : M R W Ev A) (f : string -> X)
    (k : A -> M R W Ev (result X B)) Q S (E : st R W Ev -> Prop) :
  hoare P m S E -> (forall a, hoare (S a) (k a) Q E) -> (forall e s, E s -> Q (Err e) s) ->
  hoare P (try_map m f k) Q E.
Proof.
  intros Hm Hk He. apply (hoare_bind P _ _ _ (fun r s => match r with Ok a => S a s | Err _ => E s end)).
  - apply hoare_attempt; auto.
  - intros [a|e]; [apply Hk|]. apply hoare_ret. auto.
Qed.

Lemma hoare_conseq (P P' : st R W Ev -> Prop) {A} (m : M R W Ev A) (Q Q' : A -> st R W Ev -> Prop) (E E' : st R W Ev -> Prop) :
  hoare P' m Q' E' -> (forall s, P s -> P' s) -> (forall a s, Q' a s -> Q a s) -> (forall s, E' s -> E s) ->
  hoare P m Q E.
Proof.
  intros Hm HP HQ HE s Hs. specialize (Hm s (HP s Hs)). destruct (m s) as [[a|e|] s']; auto.
Qed.

Lemma hoare_pre (P P' : st R W Ev -> Prop) {A} (m : M R W Ev A) (Q : A -> st R W Ev -> Prop) (E : st R W Ev -> Prop) :
  (forall s, P s -> P' s) -> hoare P' m Q E -> hoare P m Q E.
Proof. intros HP Hm s Hs. by apply Hm, HP. Qed.

Lemma hoare_pure (phi : Prop) (P : st R W Ev -> Prop) {A} (m : M R W Ev A) (Q : A -> st R W Ev -> Prop) (E : st R W Ev -> Prop) :
  (phi -> hoare P m Q E) -> hoare (fun s => phi /\ P s) m Q E.
Proof. intros Hm s [Hphi Hs]. by apply Hm. Qed.

(** A predicate, of the environment too, that no interference can break. *)
Definition withstands (P : st R W Ev -> Prop) : Prop :=
  forall s r w evs f w', P s -> interfere (redis s) (env s) = (r, w, evs) -> next_fault w = (f, w') ->
    P (St_ r w' (log s ++ evs)).

(** A call: what it needs withstands interference, is kept when the call does not
    happen, and the call's effect leads from it to the postcondition. *)
Lemma hoare_call_withstands (P : st R W Ev -> Prop) {A} f ev (Q : A -> st R W Ev -> Prop) (E : st R W Ev -> Prop) :
  withstands P -> (forall s, P s -> E s) ->
  (forall s a r2 w2, P s -> f (redis s) (env s) = (a, r2, w2) ->
     let s' := St_ r2 w2 (log s ++ ev a) in
     E s' /\ match a with Ok x => Q x s' | Err _ => True end) ->
  hoare P (call f ev) Q E.
Proof.
  intros Hst HE Hf s Hs. unfold call.
  destruct (interfere (redis s) (env s)) as [[r0 w0] evs] eqn:Ei.
  destruct (next_fault w0) as [flt w1] eqn:Efl. destruct (f r0 w1) as [[a r2] w2] eqn:Ef.
  pose proof (Hst _ _ _ _ _ w1 Hs Ei Efl) as Hb. pose proof (Hf _ _ _ _ Hb Ef) as [He Hq]. simpl in He, Hq.
  rewrite <- app_assoc in He, Hq.
  destruct flt; simpl; auto. destruct a; auto.
Qed.

Lemma hoare_call (P : st R W Ev -> Prop) {A} f ev (Q : A -> st R W Ev -> Prop) (E : st R W Ev -> Prop) :
  stable P -> (forall s, P s -> E s) ->
  (forall s a r2 w2, P s -> f (redis s) (env s) = (a, r2, w2) ->
     let s' := St_ r2 w2 (log s ++ ev a) in
     E s' /\ match a with Ok x => Q x s' | Err _ => True end) ->
  hoare P (call f ev) Q E.
Proof. intros Hst. apply hoare_call_withstands. intros s r w evs flt w' Hs Hi _. by eapply Hst. Qed.

Lemma hoare_rcall_ev (P : st R W Ev -> Prop) {A} (f : St R A) ev (Q : A -> st R W Ev -> Prop) (E : st R W Ev -> Prop) :
  stable P -> (forall s, P s -> E s) ->
  (forall s a r2, P s -> f (redis s) = (a, r2) ->
     let s' := St_ r2 (env s) (log s ++ ev a) in
     E s' /\ match a with Ok x => Q x s' | Err _ => True end) ->
  hoare P (rcall_ev f ev) Q E.
Proof.
  intros Hst HE Hf. apply hoare_call; [done..|]. intros s a r2 w2 Hs Ef.
  destruct (f (redis s)) as [a' r'] eqn:E'. simplify_eq. by apply Hf.
Qed.

Lemma hoare_rcall (P : st R W Ev -> Prop) {A} (f : St R A) (Q : A -> st R W Ev -> Prop) (E : st R W Ev -> Prop) :
  stable P -> (forall s, P s -> E s) ->
  (forall s a r2, P s -> f (redis s) = (a, r2) ->
     let s' := St_ r2 (env s) (log s) in
     E s' /\ match a with Ok x => Q x s' | Err _ => True end) ->
  hoare P (rcall f) Q E.
Proof.
  intros Hst HE Hf. apply hoare_rcall_ev; [done..|]. intros s a r2 Hs Ef. simpl.
  rewrite app_nil_r. by apply Hf.
Qed.

Lemma hoare_ecall (P : st R W Ev -> Prop) {A} (f : W -> result string A * W) ev (Q : A -> st R W Ev -> Prop)
    (E : st R W Ev -> Prop) :
  stable P -> (forall s, P s -> E s) ->
  (forall s a w2, P s -> f (env s) = (a, w2) ->
     let s' := St_ (redis s) w2 (log s ++ ev a) in
     E s' /\ match a with Ok x => Q x s' | Err _ => True end) ->
  hoare P (ecall f ev) Q E.
Proof.
  intros Hst HE Hf. apply hoare_call; [done..|]. intros s a r2 w2 Hs Ef.
  destruct (f (env s)) as [a' w'] eqn:E'. simplify_eq. by apply Hf.
Qed.

(** Running a prefix whose outcome is known. *)
Lemma bind_run {A B} (m : M R W Ev A) (f : A -> M R W Ev B) s a s' :
  m s = (ORet a, s') -> bind m f s = f a s'.
Proof. unfold bind. by intros ->. Qed.

Lemma try_map_run {A B X} (m : M R W Ev A) (f : string -> X) (k : A -> M R W Ev (result X B)) s a s' :
  m s = (ORet a, s') -> try_map m f k s = k a s'.
Proof. unfold try_map, bind, attempt. by intros ->. Qed.

(** An environment in which nothing interferes and nothing fails. *)
Class Quiet : Prop := {
  quiet_interfere : forall r w, interfere r w = (r, w, []);
  quiet_fault : forall w, next_fault w = (NoFault, w);
}.

Lemma call_quiet `{Quiet} {A} f (ev : result string A -> list Ev) s :
  call f ev s = let '(a, r2, w2) := f (redis s) (env s) in (of_result a, St_ r2 w2 (log s ++ ev a)).
Proof.
  unfold call. rewrite quiet_interfere, quiet_fault. by destruct (f (redis s) (env s)) as [[a r2] w2].
Qed.

Lemma rcall_quiet `{Quiet} {A} (f : St R A) s :
  rcall f s = let '(a, r2) := f (redis s) in (of_result a, St_ r2 (env s) (log s)).
Proof.
  unfold rcall, rcall_ev. rewrite call_quiet. destruct (f (redis s)). by rewrite app_nil_r.
Qed.

Lemma ecall_quiet `{Quiet} {A} (f : W -> result string A * W) ev s :
  ecall f ev s = let '(a, w2) := f (env s) in (of_result a, St_ (redis s) w2 (log s ++ ev a)).
Proof. unfold ecall. rewrite call_quiet. by destruct (f (env s)). Qed.

(** What is kept on every outcome. *)
Lemma hoare_inv (P : st R W Ev -> Prop) {A} (m : M R W Ev A) (Q : A -> st R W Ev -> Prop) (E : st R W Ev -> Prop) s :
  hoare P m Q E -> P s -> (forall a s', Q a s' -> E s') -> E (m s).2.
Proof. intros Hm Hs HQ. specialize (Hm s Hs). destruct (m s) as [[] s']; eauto. Qed.

End Rules.
