(* ===== verification/Tasks.v ===== *)
(** Concurrent tasks over a shared state.

    A task is a sequence of atomic actions: an access to the shared state under its
    lock, or an exchange with the outside.  The server runs a pool of them: at any point
    any task may take its next action, a new one may arrive, one may be cancelled (its
    connection goes away, or it panics) and the outside may change.  [safe] is the proof rule for one task
    among the others, and [pool_safe] puts the tasks together. *)
From S2P Require Import Prelude.

Section Tasks.
Context {St : Type}.

Inductive task (A : Type) : Type :=
| Done (a : A)
| Panic
| Atom (B : Type) (op : St -> B * St) (k : B -> task A).
Arguments Done {A} a.
Arguments Panic {A}.
Arguments Atom {A} B op k.

Definition atom {B} (op : St -> B * St) : task B := Atom B op Done.

Fixpoint task_bind {A B} (t : task A) (f : A -> task B) : task B :=
  match t with
  | Done a => f a
  | Panic => Panic
  | Atom C op k => Atom C op (fun c => task_bind (k c) f)
  end.

(** [t.await?] *)
Definition task_try {A B} (t : task (anyhow A)) (f : A -> task (anyhow B)) : task (anyhow B) :=
  task_bind t (fun r => match r with Ok a => f a | Err e => Done (Err e) end).

(** ** The pool *)

Section Pool.
Context {A : Type} (arrives : task A -> Prop) (outside : St -> St -> Prop).

Inductive pool_step : St * list (task A) -> St * list (task A) -> Prop :=
| step_run i s p B op (k : B -> task A) :
    p !! i = Some (Atom B op k) -> pool_step (s, p) ((op s).2, <[i := k (op s).1]> p)
| step_arrive s p t : arrives t -> pool_step (s, p) (s, p ++ [t])
| step_cancel i s p : pool_step (s, p) (s, delete i p)
| step_outside s s' p : outside s s' -> pool_step (s, p) (s', p).

End Pool.

(** A task that runs alone; [None] when it panics. *)
Fixpoint run {A} (t : task A) (s : St) : option A * St :=
  match t with
  | Done a => (Some a, s)
  | Panic => (None, s)
  | Atom B op k => run (k (op s).1) (op s).2
  end.

Lemma run_pool {A} arrives outside (t : task A) s a s' :
  run t s = (Some a, s') -> rtc (pool_step arrives outside) (s, [t]) (s', [Done a]).
Proof.
  revert s. induction t as [b| |B op k IH]; intros s Hr; simpl in Hr; [by simplify_eq|done|].
  eapply rtc_l; [apply (step_run _ _ 0%nat); reflexivity|]. by apply IH.
Qed.

(** ** Reasoning about one task

    [I] is the invariant of the shared state, and [le] how it grows: the facts a task
    relies on between two of its actions are those that growth keeps. *)
Section Logic.
Context (I : St -> Prop) (le : St -> St -> Prop) `{!PreOrder le}.

Definition grows (P : St -> Prop) : Prop := forall s s', P s -> le s s' -> P s'.

(** From [s] on, however the others act in between, every action of the task keeps the
    invariant and only lets the state grow, and a result satisfies [Q]. *)
Fixpoint safe {A} (Q : A -> St -> Prop) (t : task A) (s : St) : Prop :=
  match t with
  | Done a => Q a s
  | Panic => True
  | Atom B op k => forall s', le s s' -> I s' ->
      I (op s').2 /\ le s' (op s').2 /\ safe Q (k (op s').1) (op s').2
  end.

Lemma safe_grows {A} (Q : A -> St -> Prop) t : (forall a, grows (Q a)) -> grows (safe Q t).
Proof.
  intros HQ s s' Ht Hle. destruct t as [a| |B op k]; simpl in *; [by eapply HQ|done|].
  intros s2 Hle2. apply Ht. by transitivity s'.
Qed.

Lemma safe_mono {A} (Q Q' : A -> St -> Prop) t : (forall a s, Q a s -> Q' a s) -> forall s, safe Q t s -> safe Q' t s.
Proof.
  intros HQ. induction t as [a| |B op k IH]; intros s Ht; simpl in *; [auto|done|].
  intros s' Hle HI. destruct (Ht s' Hle HI) as (H1 & H2 & H3). auto.
Qed.

Lemma safe_bind {A B} (Q : B -> St -> Prop) (t : task A) f s :
  safe (fun a s' => safe Q (f a) s') t s -> safe Q (task_bind t f) s.
Proof.
  revert s. induction t as [a| |C op k IH]; intros s Ht; simpl in *; [done|done|].
  intros s' Hle HI. destruct (Ht s' Hle HI) as (H1 & H2 & H3). auto.
Qed.

(** An action that needs [P], and gives [R] of its result. *)
Lemma safe_atom {A B} (P : St -> Prop) (R : B -> St -> Prop) (Q : A -> St -> Prop) (op : St -> B * St) (f : B -> task A) s :
  grows P -> P s ->
  (forall s', P s' -> I s' -> I (op s').2 /\ le s' (op s').2 /\ R (op s').1 (op s').2) ->
  (forall b s', R b s' -> safe Q (f b) s') ->
  safe Q (task_bind (atom op) f) s.
Proof.
  intros HP Hs Hop Hf s' Hle HI. simpl. destruct (Hop s' (HP _ _ Hs Hle) HI) as (H1 & H2 & H3). auto.
Qed.

(** ** The tasks together *)

Context {A : Type} (arrives : task A -> Prop) (outside : St -> St -> Prop) (Q : A -> St -> Prop).
Hypothesis arrivals_safe : forall t s, arrives t -> safe Q t s.
Hypothesis outside_grows : forall s s', outside s s' -> I s -> I s' /\ le s s'.
Hypothesis Q_grows : forall a, grows (Q a).

Lemma pool_safe s0 c :
  I s0 -> rtc (pool_step arrives outside) (s0, []) c -> I c.1 /\ Forall (fun t => safe Q t c.1) c.2.
Proof.
  intros H0. revert c. apply rtc_ind_r; [by split|]. intros c c' _ Hstep [HI Hp]. destruct Hstep as [i s p B op k Hi|s p t Ht|i s p|s s' p Ho]; simpl in *.
  - pose proof (Forall_lookup_1 _ _ _ _ Hp Hi) as Hk. destruct (Hk s ltac:(reflexivity) HI) as (H1 & H2 & H3).
    split; [done|]. apply Forall_insert; [|done]. eapply Forall_impl; [exact Hp|].
    intros t Ht. exact (safe_grows Q t Q_grows _ _ Ht H2).
  - split; [done|]. apply Forall_app. split; [done|]. constructor; [by apply arrivals_safe|done].
  - split; [done|]. rewrite Forall_forall in *. intros t Ht. apply Hp. revert Ht. rewrite !list_elem_of_lookup.
    intros [j Hj]. destruct (decide (j < i)%nat).
    + exists j. by rewrite list_lookup_delete_lt in Hj.
    + exists (S j). rewrite list_lookup_delete_ge in Hj by lia. done.
  - destruct (outside_grows _ _ Ho HI) as [HI' Hle]. split; [done|]. eapply Forall_impl; [exact Hp|].
    intros t Ht. exact (safe_grows Q t Q_grows _ _ Ht Hle).
Qed.

End Logic.

(** ** One task and the outside

    A task that runs alone while the outside changes: [holds Q t s] when every result it
    can come to from [s] satisfies [Q]. *)
Section Solo.
Context (outside : St -> St -> Prop).

Fixpoint holds {A} (Q : A -> St -> Prop) (t : task A) (s : St) : Prop :=
  match t with
  | Done a => forall s', rtc outside s s' -> Q a s'
  | Panic => True
  | Atom B op k => forall s', rtc outside s s' -> holds Q (k (op s').1) (op s').2
  end.

Definition stable (P : St -> Prop) : Prop := forall s s', outside s s' -> P s -> P s'.

Lemma stable_rtc P s s' : stable P -> rtc outside s s' -> P s -> P s'.
Proof. intros HP Hr. induction Hr as [|s s1 s' Ho _ IH]; [done|]. intros Hs. by apply IH, (HP s). Qed.

Lemma holds_outside {A} (Q : A -> St -> Prop) t s s' : rtc outside s s' -> holds Q t s -> holds Q t s'.
Proof. intros Hr. destruct t; simpl; [|done|]; intros Ht s2 Hr2; apply Ht; by transitivity s'. Qed.

Lemma holds_run {A} (Q : A -> St -> Prop) (t : task A) s c :
  holds Q t s -> rtc (pool_step (fun _ => False) outside) (s, [t]) c -> c.2 = [] \/ exists t', c.2 = [t'] /\ holds Q t' c.1.
Proof.
  intros H0. revert c. apply rtc_ind_r; [right; by exists t|]. intros c c' _ Hstep IH.
  destruct Hstep as [i s1 p B op k Hi|? ? ? []|i s1 p|s1 s2 p Ho]; simpl in *.
  - destruct IH as [->|(t' & -> & Ht)]; [done|]. destruct i as [|i]; [|done]. simpl in Hi. injection Hi as ->.
    right. exists (k (op s1).1). split; [done|]. by apply Ht.
  - destruct IH as [->|(t' & -> & Ht)]; [by left|]. destruct i as [|i]; simpl; [by left|]. right. by exists t'.
  - destruct IH as [->|(t' & -> & Ht)]; [by left|]. right. exists t'. split; [done|]. apply holds_outside with s1; [|done].
    by apply rtc_once.
Qed.

Lemma holds_atom {A B} (P : St -> Prop) (Q : A -> St -> Prop) (op : St -> B * St) (k : B -> task A) s :
  stable P -> P s -> (forall s', P s' -> holds Q (k (op s').1) (op s').2) -> holds Q (task_bind (atom op) k) s.
Proof. intros HP Hs Hk s' Hr. simpl. by apply Hk, (stable_rtc P s). Qed.

Lemma holds_bind {A B} (Q : B -> St -> Prop) (t : task A) f s :
  holds (fun a s' => holds Q (f a) s') t s -> holds Q (task_bind t f) s.
Proof.
  revert s. induction t as [a| |C op k IH]; intros s Ht; simpl in *; [by apply Ht|done|].
  intros s' Hr. by apply IH, Ht.
Qed.

Lemma holds_done {A} (P : St -> Prop) (Q : A -> St -> Prop) a s :
  stable P -> P s -> (forall s', P s' -> Q a s') -> holds Q (Done a) s.
Proof. intros HP Hs HQ s' Hr. by apply HQ, (stable_rtc P s). Qed.

Lemma holds_mono {A} (Q Q' : A -> St -> Prop) t : (forall a s, Q a s -> Q' a s) -> forall s, holds Q t s -> holds Q' t s.
Proof. intros HQ. induction t as [a| |B op k IH]; intros s Ht; simpl in *; auto. Qed.

(** What holds of a success; a task that may fail goes on only with a success. *)
Definition on_ok {A} (Q : A -> St -> Prop) (r : anyhow A) (s : St) : Prop := forall a, r = Ok a -> Q a s.

Lemma holds_try {A B} (R : B -> St -> Prop) (Q : A -> St -> Prop) (t : task (anyhow B)) (k : B -> task (anyhow A)) s :
  holds (on_ok R) t s -> (forall b s', R b s' -> holds (on_ok Q) (k b) s') -> holds (on_ok Q) (task_try t k) s.
Proof.
  intros Ht Hk. apply holds_bind. eapply holds_mono; [|exact Ht]. intros [b|e] s' Hr; simpl; [by apply Hk, Hr|].
  by intros s2 _ a.
Qed.

Lemma holds_op {B} (P : St -> Prop) (R : B -> St -> Prop) (op : St -> anyhow B * St) s :
  stable P -> P s -> (forall b, stable (R b)) -> (forall s' b s2, P s' -> op s' = (Ok b, s2) -> R b s2) ->
  holds (on_ok R) (atom op) s.
Proof.
  intros HP Hs HR Hop s' Hr s2 Hr2 b E. simpl in *. apply (stable_rtc (R b) (op s').2); [done|done|].
  apply (Hop s'); [by apply (stable_rtc P s)|]. by rewrite <- E, <- surjective_pairing.
Qed.

End Solo.
End Tasks.

Arguments task : clear implicits.
Arguments Done {St A} a.
Arguments Panic {St A}.
Arguments Atom {St A} B op k.

Notation "x <~ t ;; k" := (task_bind t (fun x => k)) (at level 80, t at next level, right associativity).
Notation "x <~? t ;; k" := (task_try t (fun x => k)) (at level 80, t at next level, right associativity).
