(* ===== verification/OracleServer.v ===== *)
(** The server of the block-hash oracle (crossroads-oracle/src/server.rs): the
    rate limiter with its eviction of idle circuits, the committee configuration read
    from the oracle contracts and cached, and the signing of a report per request.

    The server runs a task per request (Tasks.v), and their actions interleave in any
    order.  The contracts, the resolver, the committee, the clocks and the signing key are
    parameters. *)
From S2P Require Import Prelude Text Floats Hex Json Oracle Tasks.
Import Oracle.

Module Limiter.

(** ** Token buckets; instants are nanoseconds *)

Record TokenBucket : Type := { tokens : F.f64; rate : F.f64; last : Z }.

Definition bucket_new (r : F.f64) (now : Z) : TokenBucket := {| tokens := r; rate := r; last := now |}.

Definition refill (now : Z) (b : TokenBucket) : TokenBucket :=
  let elapsed := F.secs_f64 (Z.max 0 (now - last b)) in
  {| tokens := F.fmin (F.add (tokens b) (F.mul elapsed (rate b))) (rate b); rate := rate b; last := now |}.

Definition bucket_allow (now : Z) (b : TokenBucket) : bool * TokenBucket :=
  let b := refill now b in
  if F.leb F.one (tokens b)
  then (true, {| tokens := F.sub (tokens b) F.one; rate := rate b; last := last b |})
  else (false, b).

Definition is_full (now : Z) (b : TokenBucket) : bool * TokenBucket :=
  let b := refill now b in (F.leb (rate b) (tokens b), b).

(** ** The limiter; a circuit is known by the text of its address *)

Record CircuitLimiter : Type := {
  per_circuit_rate : F.f64;
  circuits : gmap string TokenBucket;
  global : TokenBucket;
  calls : Z;
}.

Definition SWEEP_EVERY : Z := 256.

Definition limiter_new (per_circuit global_rate : F.f64) (now : Z) : CircuitLimiter :=
  {| per_circuit_rate := per_circuit; circuits := ∅; global := bucket_new global_rate now; calls := 0 |}.

(** [retain]: the test refills the buckets that stay. *)
Definition sweep (now : Z) (m : gmap string TokenBucket) : gmap string TokenBucket :=
  omap (fun b => let '(full, b') := is_full now b in if (full : bool) then None else Some b') m.

(** The steps of a decision, each under its lock. *)
Definition fetch_calls (l : CircuitLimiter) : Z * CircuitLimiter :=
  (calls l, {| per_circuit_rate := per_circuit_rate l; circuits := circuits l; global := global l;
               calls := wrap_u64 (calls l + 1) |}).

Definition retain (f : gmap string TokenBucket -> gmap string TokenBucket) (l : CircuitLimiter) : CircuitLimiter :=
  {| per_circuit_rate := per_circuit_rate l; circuits := f (circuits l); global := global l; calls := calls l |}.

Definition circuit_allow (key : string) (now : Z) (l : CircuitLimiter) : bool * CircuitLimiter :=
  let b := default (bucket_new (per_circuit_rate l) now) (circuits l !! key) in
  let '(ok, b') := bucket_allow now b in
  (ok, {| per_circuit_rate := per_circuit_rate l; circuits := <[key := b']> (circuits l); global := global l;
          calls := calls l |}).

Definition global_allow (now : Z) (l : CircuitLimiter) : bool * CircuitLimiter :=
  let '(ok, g) := bucket_allow now (global l) in
  (ok, {| per_circuit_rate := per_circuit_rate l; circuits := circuits l; global := g; calls := calls l |}).

Definition allow_with (sweep : Z -> gmap string TokenBucket -> gmap string TokenBucket) (key : string) (now : Z)
    (l : CircuitLimiter) : bool * CircuitLimiter :=
  let '(n, l) := fetch_calls l in
  let l := if n mod SWEEP_EVERY =? 0 then retain (sweep now) l else l in
  let '(ok, l) := circuit_allow key now l in
  if ok then global_allow now l else (false, l).

Definition allow : string -> Z -> CircuitLimiter -> bool * CircuitLimiter := allow_with sweep.

(** ** Eviction loses nothing *)

(** The limiter that keeps every bucket. *)
Definition keep (now : Z) (m : gmap string TokenBucket) : gmap string TokenBucket := refill now <$> m.
Definition allow_kept : string -> Z -> CircuitLimiter -> bool * CircuitLimiter := allow_with keep.

(** The decisions on a sequence of requests, each with its circuit and its instant. *)
Fixpoint decisions (f : string -> Z -> CircuitLimiter -> bool * CircuitLimiter) (reqs : list (string * Z))
    (l : CircuitLimiter) : list bool :=
  match reqs with
  | [] => []
  | (k, now) :: reqs' => let '(ok, l') := f k now l in ok :: decisions f reqs' l'
  end.

(** A rate that is a positive number in normal form. *)
Definition good_rate (r : F.f64) : Prop :=
  exists p e, r = S754_finite false p e /\ canonical_mantissa F.prec F.emax p e = true.

(** A full bucket, however old, is a new one. *)
Lemma refill_full r t now : good_rate r -> refill now (bucket_new r t) = bucket_new r now.
Proof.
  intros (p & e & -> & Hc). unfold refill, bucket_new. cbn [tokens rate last]. f_equal.
  assert (Hy : F.not_below (F.mul (F.secs_f64 (Z.max 0 (now - t))) (S754_finite false p e))).
  { apply F.not_below_ops; [apply F.secs_not_below; lia|by left]. }
  destruct Hy as [Hy| ->]; [by apply F.fmin_add|done].
Qed.

Lemma is_full_new r now b : good_rate r -> rate b = r -> (is_full now b).1 = true -> (is_full now b).2 = bucket_new r now.
Proof.
  intros (p & e & -> & _) Hr. unfold is_full, refill, bucket_new. cbn [fst snd tokens rate]. rewrite Hr.
  intros Hf. f_equal. by apply F.fmin_full.
Qed.

(** The buckets of the limiter and of the one that keeps them all. *)
Definition same_buckets (r : F.f64) (m m' : gmap string TokenBucket) : Prop :=
  forall k, match m !! k with
            | Some b => rate b = r /\ m' !! k = Some b
            | None => m' !! k = None \/ exists t, m' !! k = Some (bucket_new r t)
            end.

Lemma same_sweep r now m m' : good_rate r -> same_buckets r m m' -> same_buckets r (sweep now m) (keep now m').
Proof.
  intros Hr Hm k. specialize (Hm k). unfold sweep, keep. rewrite lookup_omap, lookup_fmap.
  destruct (m !! k) as [b|]; [|simpl].
  - destruct Hm as [Hb ->]. pose proof (is_full_new r now b Hr Hb) as Hf.
    cbn [mbind option_bind fmap option_fmap option_map]. change (refill now b) with (is_full now b).2.
    assert (Hb' : rate (is_full now b).2 = r) by exact Hb.
    destruct (is_full now b) as [[] b']; cbn [fst snd] in *; [|done].
    right. exists now. f_equal. by apply Hf.
  - destruct Hm as [-> | [t ->]]; [by left|]. right. exists now. simpl. by rewrite refill_full.
Qed.

(** The two limiters agree. *)
Definition agree (r : F.f64) (l l' : CircuitLimiter) : Prop :=
  per_circuit_rate l = r /\ per_circuit_rate l' = r /\ global l = global l' /\ calls l = calls l' /\
  same_buckets r (circuits l) (circuits l').

Lemma circuit_agree r k now l l' : good_rate r -> agree r l l' ->
  (circuit_allow k now l).1 = (circuit_allow k now l').1 /\ agree r (circuit_allow k now l).2 (circuit_allow k now l').2.
Proof.
  intros Hr (H1 & H2 & Hg & Hc & Hm). unfold circuit_allow. rewrite H1, H2.
  assert (Hb : bucket_allow now (default (bucket_new r now) (circuits l !! k))
               = bucket_allow now (default (bucket_new r now) (circuits l' !! k))
               /\ rate (bucket_allow now (default (bucket_new r now) (circuits l !! k))).2 = r).
  { specialize (Hm k). destruct (circuits l !! k) as [b|]; simpl.
    - destruct Hm as [Hb ->]. split; [done|]. unfold bucket_allow. by case_ifs.
    - split; [|unfold bucket_allow; by case_ifs]. destruct Hm as [-> | [t ->]]; [done|]. simpl.
      unfold bucket_allow. by rewrite !refill_full. }
  destruct Hb as [<- Hrate]. destruct (bucket_allow now (default _ (circuits l !! k))) as [ok b']. simpl in Hrate.
  split; [done|]. split_and!; [done..|]. intros k'. simpl.
  destruct (decide (k' = k)) as [->|Hne]; [by rewrite !lookup_insert_eq|].
  rewrite !lookup_insert_ne by done. apply Hm.
Qed.

Lemma allow_agree r k now l l' : good_rate r -> agree r l l' ->
  (allow k now l).1 = (allow_kept k now l').1 /\ agree r (allow k now l).2 (allow_kept k now l').2.
Proof.
  intros Hr Ha. unfold allow, allow_kept, allow_with, fetch_calls. pose proof Ha as (_ & _ & _ & <- & _).
  set (l1 := if _ =? 0 then retain (sweep now) _ else _). set (l1' := if _ =? 0 then retain (keep now) _ else _).
  assert (Ha1 : agree r l1 l1').
  { destruct Ha as (H1 & H2 & Hg & Hc & Hm). unfold l1, l1'.
    case_ifs; (split_and!; [done..|]); [by apply same_sweep|done]. }
  clearbody l1 l1'. destruct (circuit_agree r k now l1 l1' Hr Ha1) as [E Ha2].
  destruct (circuit_allow k now l1) as [o l2], (circuit_allow k now l1') as [o' l2']. simpl in *. subst o'.
  destruct o; [|done]. destruct Ha2 as (H1 & H2 & Hg & Hc & Hm). unfold global_allow. rewrite <- Hg.
  destruct (bucket_allow now (global l2)) as [ok2 g]. done.
Qed.

(** C28: dropping the buckets of idle circuits loses nothing: on every sequence of
    requests, at whatever instants, the limiter decides as the one that keeps a bucket for
    every circuit it ever saw. *)
Theorem eviction_lossless n m now reqs :
  1 <= n <= u32_max ->
  decisions allow reqs (limiter_new (F.of_Z n) (F.of_Z m) now) = decisions allow_kept reqs (limiter_new (F.of_Z n) (F.of_Z m) now).
Proof.
  intros Hn. assert (Hr : good_rate (F.of_Z n)) by (apply F.of_Z_canonical; unfold F.prec; width_lia).
  assert (Ha : agree (F.of_Z n) (limiter_new (F.of_Z n) (F.of_Z m) now) (limiter_new (F.of_Z n) (F.of_Z m) now)).
  { split_and!; [done..|]. intros k. simpl. by left. }
  revert Ha. generalize (limiter_new (F.of_Z n) (F.of_Z m) now) at 1 3. generalize (limiter_new (F.of_Z n) (F.of_Z m) now).
  induction reqs as [|[k t] reqs IH]; intros l' l Ha; cbn [decisions]; [done|].
  destruct (allow_agree _ k t l l' Hr Ha) as [E Ha'].
  destruct (allow k t l) as [ok l1], (allow_kept k t l') as [ok' l1']. simpl in *. subst ok'. f_equal. by apply IH.
Qed.

Lemma eviction_lossless_witness :
  let reqs := [("a", 0); ("a", 10); ("b", 5000000000); ("a", 6000000000)]%string in
  1 <= 1 <= u32_max /\
  decisions allow reqs (limiter_new (F.of_Z 1) (F.of_Z 2) 0) = decisions allow_kept reqs (limiter_new (F.of_Z 1) (F.of_Z 2) 0) /\
  decisions allow reqs (limiter_new (F.of_Z 1) (F.of_Z 2) 0) = [true; false; true; true].
Proof. split; [width_lia|]. split; [apply (eviction_lossless 1 2 0); width_lia|by vm_compute]. Defined.

End Limiter.

Module Server.

(** ** Configuration and state *)

Record Settings : Type := {
  sapphire_chain_id : Z;
  registry : Address;
  max_source_rpcs : Z;
  rate_limit_per_sec : Z;
  global_rate_limit_per_sec : Z;
  report_ttl_secs : Z;
  allow_signer_rotation : bool;
}.

Record OracleInfo : Type := {
  source_chain_id : Z;
  min_confirmations : Z;
  mandate_finalized : bool;
  rpc_urls : list string;
  quorum : Z;
}.

Record SignedReport : Type := {
  s_oracle : string;
  s_source_chain_id : Z;
  s_block_number : Z;
  s_block_hash : string;
  s_required_confirmations : Z;
  s_observed_confirmations : Z;
  s_quorum_tip : Z;
  s_observed_quorum : Z;
  s_require_finalized : bool;
  s_finalized_block_number : Z;
  s_expires_at : Z;
  s_signer_epoch : Z;
  s_signer : string;
  s_signature : string;
}.

(** What the server learns and does, in order. *)
Inductive event : Type :=
| RegistryRead (oracle : Address) (a : Address)
| ChainIdRead (oracle : Address) (v : Z)
| MinConfirmationsRead (oracle : Address) (v : Z)
| FinalizedRead (oracle : Address) (b : bool)
| UrlsRead (oracle : Address) (urls : list string)
| QuorumRead (oracle : Address) (v : Z)
| PublicUrl (url : string)
| Polled (oracle : Address) (urls : list string) (block : Z) (votes : list Vote)
| Signed (oracle : Address) (r : BlockHashReport) (sig : list Z).

(** The outside: the view functions of the oracle contracts, the clocks, the committee
    as one poll finds it, the key, and how addresses print ([{}] and [{:?}]). *)
Class OracleEnv (W : Type) := {
  oe_registry : Address -> W -> anyhow Address * W;
  oe_chain_id : Address -> W -> anyhow Z * W;
  oe_min_confirmations : Address -> W -> anyhow Z * W;
  oe_finalized : Address -> W -> anyhow bool * W;
  oe_urls : Address -> W -> anyhow (list string) * W;
  oe_quorum : Address -> W -> anyhow Z * W;
  oe_committee : W -> Committee * W;
  instant_now : W -> Z * W;
  unix_now : W -> anyhow Z * W;
  keccak256 : list Z -> list Z;
  sign_hash : list Z -> W -> anyhow (list Z) * W;
  addr_display : Address -> string;
  addr_debug : Address -> string;
}.

Section Server.
Context {W : Type} `{HashIter} `{!UrlEnv W} `{!OracleEnv W}.

Record Shared : Type := {
  limiter : Limiter.CircuitLimiter;
  cache : gmap Address OracleInfo;
  world : W;
  log : list event;
}.

Variable settings : Settings.
Variable signer : Address.
Variable signer_epoch : Z.
Variable sapphire_rpc : string.

Definition oracle_state_new (w : W) : Shared :=
  let '(now, w) := instant_now w in
  let per_circuit := F.of_Z (Z.max (rate_limit_per_sec settings) 1) in
  let global := F.of_Z (Z.max (Z.max (global_rate_limit_per_sec settings) (rate_limit_per_sec settings)) 1) in
  {| limiter := Limiter.limiter_new per_circuit global now; cache := ∅; world := w; log := [] |}.

(** ** Actions *)

(** An exchange with the outside, and what it adds to the log. *)
Definition ask {A} (f : W -> A * W) (ev : A -> list event) (s : Shared) : A * Shared :=
  let '(a, w) := f (world s) in
  (a, {| limiter := limiter s; cache := cache s; world := w; log := log s ++ ev a |}).

(** The event of an answer. *)
Definition on_ok {A} (f : A -> event) (r : anyhow A) : list event :=
  match r with Ok a => [f a] | Err _ => [] end.

Definition limit {A} (f : Limiter.CircuitLimiter -> A * Limiter.CircuitLimiter) (s : Shared) : A * Shared :=
  let '(a, l) := f (limiter s) in (a, {| limiter := l; cache := cache s; world := world s; log := log s |}).

Definition cache_get (oracle : Address) (s : Shared) : option OracleInfo * Shared := (cache s !! oracle, s).

Definition cache_insert (oracle : Address) (info : OracleInfo) (s : Shared) : unit * Shared :=
  (tt, {| limiter := limiter s; cache := <[oracle := info]> (cache s); world := world s; log := log s |}).

(** ** The committee configuration of an oracle *)

(** [v.try_into().unwrap_or(d)] of a 256-bit word to 64 bits. *)
Definition to_u64_or (d v : Z) : Z := if (0 <=? v) && (v <=? u64_max) then v else d.

Fixpoint public_urls (urls : list string) : task Shared (list string) :=
  match urls with
  | [] => Done []
  | u :: urls' =>
      r <~ atom (ask (assert_public_url u) (on_ok (fun _ => PublicUrl u))) ;;
      safe <~ public_urls urls' ;;
      Done (if is_ok r then u :: safe else safe)
  end.

Definition read_config (oracle : Address) : task Shared (anyhow OracleInfo) :=
  match url_parse sapphire_rpc with
  | None => Done (Err "bad rpc url")
  | Some _ =>
      reg <~? atom (ask (oe_registry oracle) (on_ok (RegistryRead oracle))) ;;
      if negb (reg =? registry settings) then Done (Err "oracle trusts a different registry")
      else
        cid <~? atom (ask (oe_chain_id oracle) (on_ok (ChainIdRead oracle))) ;;
        mc <~? atom (ask (oe_min_confirmations oracle) (on_ok (MinConfirmationsRead oracle))) ;;
        fin <~? atom (ask (oe_finalized oracle) (on_ok (FinalizedRead oracle))) ;;
        urls <~? atom (ask (oe_urls oracle) (on_ok (UrlsRead oracle))) ;;
        q <~? atom (ask (oe_quorum oracle) (on_ok (QuorumRead oracle))) ;;
        let q := to_u64_or u64_max q in
        safe <~ public_urls (take (Z.to_nat (max_source_rpcs settings)) urls) ;;
        if Z.of_nat (length safe) <? q then Done (Err "not enough SSRF-safe RPCs")
        else
          let info := {| source_chain_id := to_u64_or 0 cid; min_confirmations := to_u64_or 0 mc;
                         mandate_finalized := fin; rpc_urls := safe; quorum := q |} in
          _ <~ atom (cache_insert oracle info) ;; Done (Ok info)
  end.

Definition oracle_info (oracle : Address) : task Shared (anyhow OracleInfo) :=
  hit <~ atom (cache_get oracle) ;;
  match hit with
  | Some info => Done (Ok info)
  | None => read_config oracle
  end.

(** ** Signing *)

Definition make_report (info : OracleInfo) (block now : Z) (c : Confirmed) : BlockHashReport :=
  {| Oracle.source_chain_id := source_chain_id info; Oracle.block_number := block;
     Oracle.block_hash := c_block_hash c; Oracle.required_confirmations := min_confirmations info;
     Oracle.observed_confirmations := c_observed_confirmations c; Oracle.quorum_tip_ := c_quorum_tip c;
     Oracle.observed_quorum := c_observed_quorum c; Oracle.require_finalized := mandate_finalized info;
     Oracle.finalized_block_number := c_finalized_block_number c;
     Oracle.expires_at := wrap_u64 (now + report_ttl_secs settings); Oracle.signer_epoch := signer_epoch |}.

Definition hex0x (b : list Z) : string := "0x" +:+ Text.hex_encode b.

Definition signed_report (oracle : Address) (r : BlockHashReport) (sig : list Z) : SignedReport :=
  {| s_oracle := addr_display oracle; s_source_chain_id := Oracle.source_chain_id r;
     s_block_number := Oracle.block_number r; s_block_hash := hex0x (to_be_bytes 32 (Oracle.block_hash r));
     s_required_confirmations := Oracle.required_confirmations r;
     s_observed_confirmations := Oracle.observed_confirmations r; s_quorum_tip := Oracle.quorum_tip_ r;
     s_observed_quorum := Oracle.observed_quorum r; s_require_finalized := Oracle.require_finalized r;
     s_finalized_block_number := Oracle.finalized_block_number r; s_expires_at := Oracle.expires_at r;
     s_signer_epoch := Oracle.signer_epoch r; s_signer := addr_debug signer; s_signature := hex0x sig |}.

Definition sign_report (oracle : Address) (r : BlockHashReport) : task Shared (anyhow (list Z)) :=
  atom (ask (sign_hash (report_digest keccak256 (sapphire_chain_id settings) oracle r))
            (on_ok (Signed oracle r))).

(** The poll of the committee: the members answer one by one, their failures are votes. *)
Definition poll_committee (oracle : Address) (urls : list string) (block : Z) (fin : bool) : task Shared (list Vote) :=
  atom (ask (fun w => let '(c, w) := oe_committee w in (@poll c urls block fin, w))
            (fun votes => [Polled oracle urls block votes])).

Definition of_outcome {A} (o : outcome A) : task Shared (anyhow A) :=
  match o with ORet a => Done (Ok a) | OErr e => Done (Err e) | OCrash => Panic end.

Definition sign_for (oracle : Address) (block : Z) : task Shared (anyhow SignedReport) :=
  info <~? oracle_info oracle ;;
  votes <~ poll_committee oracle (rpc_urls info) block (mandate_finalized info) ;;
  c <~? of_outcome (confirm_votes votes (quorum info) block (min_confirmations info) (mandate_finalized info)) ;;
  now <~? atom (ask unix_now (fun _ => [])) ;;
  let r := make_report info block now c in
  sig <~? sign_report oracle r ;;
  Done (Ok (signed_report oracle r sig)).

(** ** The routes *)

Inductive Response : Type :=
| TooManyRequests
| BadRequest
| BadGateway (e : string)
| Report (r : SignedReport)
| Health (registry signer : string) (signer_epoch : Z) (cached_oracles : Z).

Definition allow_request (circuit : string) (now : Z) : task Shared bool :=
  n <~ atom (limit Limiter.fetch_calls) ;;
  _ <~ (if n mod Limiter.SWEEP_EVERY =? 0
        then atom (limit (fun l => (tt, Limiter.retain (Limiter.sweep now) l))) else Done tt) ;;
  ok <~ atom (limit (Limiter.circuit_allow circuit now)) ;;
  if (ok : bool) then atom (limit (Limiter.global_allow now)) else Done false.

(** [q]: the oracle and the block number of the query, where it parses. *)
Definition get_blockhash (circuit : string) (q : option (Address * Z)) : task Shared Response :=
  now <~ atom (ask instant_now (fun _ => [])) ;;
  ok <~ allow_request circuit now ;;
  if negb ok then Done TooManyRequests
  else match q with
       | None => Done BadRequest
       | Some (oracle, block) =>
           r <~ sign_for oracle block ;;
           Done (match r with Ok report => Report report | Err e => BadGateway e end)
       end.

Definition healthz : task Shared Response :=
  n <~ atom (fun s => (Z.of_nat (size (cache s)), s)) ;;
  Done (Health (addr_debug (registry settings)) (addr_debug signer) signer_epoch n).

(** A request of either route; the block number of a query is 64 bits wide. *)
Inductive request : task Shared Response -> Prop :=
| request_blockhash circuit oracle block : is_u64 block -> request (get_blockhash circuit (Some (oracle, block)))
| request_malformed circuit : request (get_blockhash circuit None)
| request_health : request healthz.

(** The outside may change at any time. *)
Definition outside (s s' : Shared) : Prop :=
  limiter s' = limiter s /\ cache s' = cache s /\ log s' = log s.

(** ** What is signed *)

(** The configuration is what the oracle's contract said, and its URLs are public. *)
Definition backed (l : list event) (o : Address) (info : OracleInfo) : Prop :=
  RegistryRead o (registry settings) ∈ l /\
  (exists v, ChainIdRead o v ∈ l /\ source_chain_id info = to_u64_or 0 v) /\
  (exists v, MinConfirmationsRead o v ∈ l /\ min_confirmations info = to_u64_or 0 v) /\
  FinalizedRead o (mandate_finalized info) ∈ l /\
  (exists urls, UrlsRead o urls ∈ l /\
     rpc_urls info `sublist_of` take (Z.to_nat (max_source_rpcs settings)) urls) /\
  (exists v, QuorumRead o v ∈ l /\ quorum info = to_u64_or u64_max v) /\
  Forall (fun u => PublicUrl u ∈ l) (rpc_urls info) /\
  quorum info <= Z.of_nat (length (rpc_urls info)).

(** A report follows from what was learnt before it was signed. *)
Definition justified (l : list event) (o : Address) (r : BlockHashReport) : Prop :=
  exists info votes,
    backed l o info /\ Polled o (rpc_urls info) (Oracle.block_number r) votes ∈ l /\
    Oracle.source_chain_id r = source_chain_id info /\
    Oracle.required_confirmations r = min_confirmations info /\
    Oracle.require_finalized r = mandate_finalized info /\
    Oracle.signer_epoch r = signer_epoch /\
    1 <= quorum info <= Oracle.observed_quorum r /\
    Oracle.observed_quorum r = votes_for (Oracle.block_hash r) (omap v_hash votes) /\
    (Oracle.block_number r + min_confirmations info <= u64_max ->
       agreed votes (quorum info) (Oracle.block_number r) (min_confirmations info) (mandate_finalized info)
         (Oracle.block_hash r) /\
       min_confirmations info <= Oracle.observed_confirmations r).

Definition event_ok (pre : list event) (e : event) : Prop :=
  match e with Signed o r _ => justified pre o r | _ => True end.

Definition Inv (s : Shared) : Prop :=
  (forall o info, cache s !! o = Some info -> backed (log s) o info) /\ history event_ok (log s).

Definition le (s s' : Shared) : Prop := log s `prefix_of` log s'.

#[local] Instance le_preorder : PreOrder le.
Proof. unfold le. split; [intros s; reflexivity|]. intros s1 s2 s3 H1 H2. by etrans. Qed.

Lemma elem_of_prefix {A} (x : A) l l' : x ∈ l -> l `prefix_of` l' -> x ∈ l'.
Proof. intros Hx [k ->]. apply elem_of_app. by left. Qed.

Lemma backed_prefix l l' o info : backed l o info -> l `prefix_of` l' -> backed l' o info.
Proof.
  intros (H1 & (v2 & H2 & E2) & (v3 & H3 & E3) & H4 & (v5 & H5 & E5) & (v6 & H6 & E6) & H7 & H8) Hp.
  split_and!; eauto using elem_of_prefix. eapply Forall_impl; [exact H7|]. intros u Hu. exact (elem_of_prefix _ _ _ Hu Hp).
Qed.

(** Events that are not signatures. *)
Definition is_signed (e : event) : bool := match e with Signed _ _ _ => true | _ => false end.

Lemma Inv_ask {A} (f : W -> A * W) ev s :
  forallb (fun e => negb (is_signed e)) (ev (f (world s)).1) = true ->
  Inv s -> Inv (ask f ev s).2 /\ le s (ask f ev s).2.
Proof.
  unfold ask, le. destruct (f (world s)) as [a w]. simpl. intros He [Hc Hs].
  assert (Hp : log s `prefix_of` log s ++ ev a) by by eexists. split; [|done]. split; simpl.
  - intros o info Ho. by eapply backed_prefix; [apply Hc|].
  - apply history_app; [done|]. intros pre e Hin. rewrite forallb_forall in He.
    specialize (He e (proj1 (list_elem_of_In _ _) Hin)). by destruct e.
Qed.

Lemma safe_ask {A B} (P : Shared -> Prop) (Q : B -> Shared -> Prop) (f : W -> A * W) ev (k : A -> task Shared B) s :
  grows le P -> P s -> (forall a, forallb (fun e => negb (is_signed e)) (ev a) = true) ->
  (forall w a w' s', f w = (a, w') -> P s' -> (forall e, e ∈ ev a -> e ∈ log s') -> safe Inv le Q (k a) s') ->
  safe Inv le Q (task_bind (atom (ask f ev)) k) s.
Proof.
  intros HP Hs He Hk. apply (safe_atom Inv le P (fun a s' => exists w w', f w = (a, w') /\ P s' /\ forall e, e ∈ ev a -> e ∈ log s'));
    [done..| |].
  - intros s' Hs' HI. destruct (Inv_ask f ev s' (He _) HI) as [HI' Hle]. split_and!; [done..|].
    exists (world s'), (f (world s')).2. unfold ask in *. destruct (f (world s')) as [a w]. simpl in *.
    split_and!; [done| |set_solver]. by eapply HP.
  - intros a s' (w & w' & Hf & HP' & Hev). by eapply Hk.
Qed.

(** A question to the outside whose failure ends the request. *)
Lemma safe_try_ask {A B} (P : Shared -> Prop) (Q : anyhow B -> Shared -> Prop) (f : W -> anyhow A * W) ev
    (k : A -> task Shared (anyhow B)) s :
  grows le P -> P s -> (forall a, is_signed (ev a) = false) -> (forall e s', Q (Err e) s') ->
  (forall a s', P s' -> ev a ∈ log s' -> safe Inv le Q (k a) s') ->
  safe Inv le Q (task_try (atom (ask f (on_ok ev))) k) s.
Proof.
  intros HP Hs He Hq Hk. apply (safe_ask P); [done..| |].
  - intros [a|e]; simpl; [by rewrite He|done].
  - intros w [a|e] w' s' _ HP' Hev; [|simpl; apply Hq]. apply Hk; [done|]. apply Hev. simpl. by apply list_elem_of_singleton.
Qed.

Lemma grows_and P P' : grows le P -> grows le P' -> grows le (fun s => P s /\ P' s).
Proof. intros H1 H2 s s' [Hs Hs'] Hle. split; [by eapply H1|by eapply H2]. Qed.

Lemma grows_in e : grows le (fun s => e ∈ log s).
Proof. intros s s' Hs Hle. by eapply elem_of_prefix. Qed.

Lemma grows_pure phi : grows le (fun _ => phi).
Proof. by intros s s' Hs _. Qed.

Lemma grows_backed o info : grows le (fun s => backed (log s) o info).
Proof. intros s s' Hs Hle. by eapply backed_prefix. Qed.

Lemma public_urls_safe P (Q : list string -> Shared -> Prop) urls s :
  grows le P -> P s ->
  (forall safe s', P s' -> safe `sublist_of` urls -> Forall (fun u => PublicUrl u ∈ log s') safe -> Q safe s') ->
  safe Inv le Q (public_urls urls) s.
Proof.
  revert P Q s. induction urls as [|u urls IH]; intros P Q s HP Hs HQ; cbn [public_urls].
  - apply HQ; [done|constructor|constructor].
  - apply (safe_ask P); [done..|by intros []|]. intros w r w' s' _ HP' Hev. apply safe_bind.
    apply (IH (fun s => P s /\ (is_ok r = true -> PublicUrl u ∈ log s))).
    + apply grows_and; [done|]. intros s1 s2 H1 Hle Hr. by eapply elem_of_prefix; [apply H1|].
    + split; [done|]. intros Hr. apply Hev. destruct r; [|done]. simpl. by apply list_elem_of_singleton.
    + intros safe s2 [HP2 Hu] Hsub Hall. simpl. destruct (is_ok r); apply HQ; [done|by constructor| |done|by constructor|done].
      constructor; [by apply Hu|done].
Qed.

(** ** The requests *)

Definition info_ok (o : Address) (r : anyhow OracleInfo) (s : Shared) : Prop :=
  match r with Ok info => backed (log s) o info | Err _ => True end.

(** The events a request knows of. *)
Definition knows (es : list event) (s : Shared) : Prop := Forall (fun e => e ∈ log s) es.

Lemma grows_knows es : grows le (knows es).
Proof. intros s s' Hs Hle. eapply Forall_impl; [exact Hs|]. intros e He. exact (elem_of_prefix _ _ _ He Hle). Qed.

Lemma safe_know {A B} es (Q : anyhow B -> Shared -> Prop) (f : W -> anyhow A * W) ev (k : A -> task Shared (anyhow B)) s :
  knows es s -> (forall a, is_signed (ev a) = false) -> (forall e s', Q (Err e) s') ->
  (forall a s', knows (ev a :: es) s' -> safe Inv le Q (k a) s') ->
  safe Inv le Q (task_try (atom (ask f (on_ok ev))) k) s.
Proof.
  intros Hs He Hq Hk. apply (safe_try_ask (knows es)); [apply grows_knows|done..|].
  intros a s' Hs' Ha. apply Hk. by constructor.
Qed.

Lemma cache_insert_safe o info s : backed (log s) o info -> Inv s ->
  Inv (cache_insert o info s).2 /\ le s (cache_insert o info s).2.
Proof.
  intros Hb [Hc Hs]. split; [|by exists []; simpl; rewrite app_nil_r]. split; [|done]. intros o' info'. simpl.
  destruct (decide (o' = o)) as [->|Hne]; [rewrite lookup_insert_eq; by intros [= <-]|].
  rewrite lookup_insert_ne by done. apply Hc.
Qed.

Lemma read_config_safe o s : safe Inv le (info_ok o) (read_config o) s.
Proof.
  unfold read_config. destruct (url_parse sapphire_rpc); [|done].
  apply (safe_know []); [constructor|done..|]. intros reg s1 H1.
  destruct (Z.eqb_spec reg (registry settings)) as [->|]; [cbn [negb]|done].
  eapply safe_know; [exact H1|done..|]. intros cid s2 H2.
  eapply safe_know; [exact H2|done..|]. intros mc s3 H3.
  eapply safe_know; [exact H3|done..|]. intros fin s4 H4.
  eapply safe_know; [exact H4|done..|]. intros urls s5 H5.
  eapply safe_know; [exact H5|done..|]. intros q s6 H6. clear H1 H2 H3 H4 H5.
  apply safe_bind. eapply public_urls_safe; [apply grows_knows|exact H6|]. clear s6 H6. intros l s7 H7 Hsub Hpub.
  destruct (Z.ltb_spec (Z.of_nat (length l)) (to_u64_or u64_max q)) as [|Hlen]; [done|].
  set (info := {| rpc_urls := l |}). assert (Hb : backed (log s7) o info).
  { unfold knows in H7. rewrite !Forall_cons in H7. destruct H7 as (Eq & Eu & Ef & Em & Ec & Er & _).
    split_and!; simpl; eauto. }
  apply (safe_atom Inv le (fun s => backed (log s) o info) (fun _ s => backed (log s) o info)); [apply grows_backed|done| |].
  - intros s' Hb' HI. destruct (cache_insert_safe _ _ _ Hb' HI). by split_and!.
  - by intros [] s' Hs'.
Qed.

Lemma oracle_info_safe o s : safe Inv le (info_ok o) (oracle_info o) s.
Proof.
  apply (safe_atom Inv le (fun _ => True) (fun hit s' => forall info, hit = Some info -> backed (log s') o info)); [done..| |].
  - intros s' _ HI. split_and!; [done|reflexivity|]. intros info Hc. by apply HI.
  - intros [info|] s' Hh; [by apply Hh|apply read_config_safe].
Qed.

Lemma to_u64_or_range d v : is_u64 d -> is_u64 (to_u64_or d v).
Proof. intros Hd. unfold to_u64_or. destruct (Z.leb_spec 0 v), (Z.leb_spec v u64_max); simpl; width_lia. Qed.

(** What the committee confirmed is a justified report. *)
Lemma confirmed_justified (HL : HashIterLaws _) l o info block now c votes :
  is_u64 block -> (forall t, t ∈ omap v_tip votes -> is_u64 t) ->
  backed l o info -> Polled o (rpc_urls info) block votes ∈ l ->
  confirm_votes votes (quorum info) block (min_confirmations info) (mandate_finalized info) = ORet c ->
  justified l o (make_report info block now c).
Proof.
  intros Hblk Ht Hb Hp Hc. exists info, votes. simpl.
  assert (Hq : 1 <= quorum info).
  { destruct Hb as (_ & _ & _ & _ & _ & (v & _ & Eq) & _).
    pose proof (to_u64_or_range u64_max v ltac:(width_lia)). destruct (decide (quorum info = 0)) as [E|]; [|width_lia].
    rewrite E in Hc. unfold confirm_votes, quorum_tip in Hc. by destruct (Z.ltb_spec (Z.of_nat (length (omap v_tip votes))) 0). }
  assert (Hm : 0 <= min_confirmations info).
  { destruct Hb as (_ & _ & (v & _ & ->) & _). pose proof (to_u64_or_range 0 v ltac:(width_lia)). width_lia. }
  assert (Hh : quorum info <= c_observed_quorum c /\ c_observed_quorum c = votes_for (c_block_hash c) (omap v_hash votes)).
  { unfold confirm_votes in Hc. repeat (case_match; try done). simplify_eq. simpl.
    pose proof (quorum_hash_spec _ HL (omap v_hash votes) _ Hq) as Hs.
    match goal with E : quorum_hash _ _ = _ |- _ => rewrite E in Hs end. naive_solver. }
  split_and!; [done..|lia|lia|tauto|]. intros Hs.
  pose proof (confirm_votes_spec _ HL votes _ block _ (mandate_finalized info) Ht Hq ltac:(width_lia) Hm Hs) as Hv.
  rewrite Hc in Hv. destruct Hv as (H1 & _ & _ & H2 & _). done.
Qed.

Definition report_ok (rep : SignedReport) (s : Shared) : Prop :=
  exists o r sig, Signed o r sig ∈ log s /\ rep = signed_report o r sig.

Lemma sign_report_safe o r s :
  justified (log s) o r ->
  safe Inv le (fun a s' => forall sig, a = Ok sig -> Signed o r sig ∈ log s') (sign_report o r) s.
Proof.
  intros Hj s' [k Hle] [Hc Hs]. unfold ask. destruct (sign_hash _ (world s')) as [a w]. simpl.
  assert (Hp : log s' `prefix_of` log s' ++ on_ok (Signed o r) a) by by eexists.
  split; [split; simpl|split; [done|]].
  - intros o' info Ho. by eapply backed_prefix; [apply Hc|].
  - destruct a as [sg|]; [|by rewrite app_nil_r]. apply history_snoc; [done|]. simpl. rewrite Hle.
    destruct Hj as (info & votes & Hb & Hpl & Hrest). exists info, votes. split; [|split; [|done]].
    + eapply backed_prefix; [exact Hb|by eexists].
    + apply elem_of_app. by left.
  - intros sig ->. simpl. set_solver.
Qed.

Lemma sign_for_safe (HL : HashIterLaws _) o block s :
  is_u64 block -> safe Inv le (fun a s' => forall rep, a = Ok rep -> report_ok rep s') (sign_for o block) s.
Proof.
  intros Hblk. apply safe_bind. eapply safe_mono; [|apply oracle_info_safe].
  intros [info|e] s1 Hb; [simpl in Hb|done].
  apply (safe_ask (fun s => backed (log s) o info)); [apply grows_backed|done..|].
  intros w votes w' s2 Hf Hb2 Hp.
  assert (Ht : forall t, t ∈ omap v_tip votes -> is_u64 t).
  { destruct (oe_committee w) as [C w1]. simplify_eq. intros t. apply poll_tip_range. }
  assert (Hp2 : Polled o (rpc_urls info) block votes ∈ log s2) by (apply Hp; set_solver). clear Hb Hf Hp.
  destruct (confirm_votes _ _ _ _ _) as [c|e|] eqn:Ec; [|done..].
  apply (safe_ask (fun s => backed (log s) o info /\ Polled o (rpc_urls info) block votes ∈ log s));
    [apply grows_and; [apply grows_backed|apply grows_in]|done..|].
  intros w2 [now|e] w2' s3 _ [Hb3 Hp3] _; [|done].
  apply safe_bind. eapply safe_mono; [|apply sign_report_safe; by eapply confirmed_justified].
  intros [sig|e] s4 Hs4 rep Hrep; simplify_eq. do 3 eexists. split; [by apply Hs4|done].
Qed.

Lemma safe_limit {A B} (Q : B -> Shared -> Prop) (f : Limiter.CircuitLimiter -> A * Limiter.CircuitLimiter)
    (k : A -> task Shared B) s :
  (forall a s', safe Inv le Q (k a) s') -> safe Inv le Q (task_bind (atom (limit f)) k) s.
Proof.
  intros Hk s' _ HI. unfold limit. simpl. destruct (f (limiter s')) as [a l]. split_and!; [done| |apply Hk].
  unfold le. simpl. reflexivity.
Qed.

Lemma allow_request_safe (Q : bool -> Shared -> Prop) circuit now s :
  (forall ok s', Q ok s') -> safe Inv le Q (allow_request circuit now) s.
Proof.
  intros HQ. apply safe_limit. intros n s1.
  assert (Hrest : forall s2, safe Inv le Q
    (ok <~ atom (limit (Limiter.circuit_allow circuit now)) ;;
     if (ok : bool) then atom (limit (Limiter.global_allow now)) else Done false) s2).
  { intros s2. apply safe_limit. intros [] s3; [|apply HQ].
    intros s4 _ HI. unfold limit. destruct (Limiter.global_allow now (limiter s4)) as [a l]. split_and!; [done| |apply HQ].
    unfold le. simpl. reflexivity. }
  destruct (n mod Limiter.SWEEP_EVERY =? 0); [|apply Hrest]. apply safe_limit. intros _ s2. apply Hrest.
Qed.

Definition response_ok (a : Response) (s : Shared) : Prop := forall rep, a = Report rep -> report_ok rep s.

Lemma request_safe (HL : HashIterLaws _) t s : request t -> safe Inv le response_ok t s.
Proof.
  assert (Hget : forall circuit q, (forall o block, q = Some (o, block) -> is_u64 block) ->
    safe Inv le response_ok (get_blockhash circuit q) s).
  { intros circuit q Hq. apply (safe_ask (fun _ => True)); [done..|]. intros _ now _ s1 _ _ _.
    apply safe_bind, allow_request_safe. intros [] s2; [cbn [negb]|done]. destruct q as [[o block]|]; [|done].
    apply safe_bind. eapply safe_mono; [|apply sign_for_safe; [done|by eapply Hq]].
    intros [rep|e] s3 Hr rep' E; simplify_eq. by apply Hr. }
  intros [circuit o block Hblk|circuit|].
  - apply Hget. by intros ? ? [= <- <-].
  - by apply Hget.
  - intros s' _ HI. split_and!; [done|simpl; reflexivity|done].
Qed.

(** C17: what the oracle server signs.  However the requests, their
    cancellations and the changes of the outside interleave, every report that was ever
    signed follows from what the server had learnt before: the oracle's contract named our
    registry; the committee polled is part of the first URLs it lists, each of which
    resolved to public addresses only, and is at least the quorum, which is not zero; the
    chain, the confirmations and the finality asked for are the contract's; the count of
    votes is true and reaches the quorum; and unless the block number plus the
    confirmations overflows, a quorum of the members agrees on the hash, is past the
    confirmations and has finalized the block where finality is mandated.  A response
    that carries a report carries a signed one. *)
Theorem signed_reports_backed (HL : HashIterLaws _) w s p :
  rtc (pool_step request outside) (oracle_state_new w, []) (s, p) ->
  (forall pre o r sig post, log s = pre ++ Signed o r sig :: post -> justified pre o r) /\
  (forall i rep, p !! i = Some (Done (Report rep)) ->
     exists o r sig, Signed o r sig ∈ log s /\ rep = signed_report o r sig).
Proof.
  intros Hr. assert (H0 : Inv (oracle_state_new w)).
  { unfold oracle_state_new. destruct (instant_now w) as [now w']. split; simpl; [done|]. apply history_nil. }
  assert (Hw : forall s s', outside s s' -> Inv s -> Inv s' /\ le s s').
  { intros s1 s2 (_ & E2 & E3) [Hc Hs]. unfold Inv, le. rewrite E2, E3. split; [done|reflexivity]. }
  assert (Hg : forall a, grows le (response_ok a)).
  { intros a s1 s2 Hs Hle rep E. destruct (Hs rep E) as (o & r & sig & Hin & ->). exists o, r, sig.
    split; [exact (elem_of_prefix _ _ _ Hin Hle)|done]. }
  destruct (pool_safe Inv le request outside response_ok (fun t s => request_safe HL t s) Hw Hg _ _ H0 Hr) as [[_ HI] Hp].
  split; [intros pre o r sig post E; exact (HI _ _ _ E)|]. intros i rep Hi. exact (Forall_lookup_1 _ _ _ _ Hp Hi rep eq_refl).
Qed.

End Server.

(** ** Concrete inputs *)

Module Demo.

#[export] Instance urls : UrlEnv Z := {
  url_parse u := Some ("http"%string, Some u, None);
  lookup_host host port w := (Ok [V4 (if String.eqb host "http://c" then dotted 10 0 0 1 else dotted 8 8 8 8)], w);
}.

Definition env_with (min_confirmations : Z) (us : list string) : OracleEnv Z := {|
  oe_registry _ w := (Ok 5, w);
  oe_chain_id _ w := (Ok 1, w);
  oe_min_confirmations _ w := (Ok min_confirmations, w);
  oe_finalized _ w := (Ok true, w);
  oe_urls _ w := (Ok us, w);
  oe_quorum _ w := (Ok 2, w);
  oe_committee w := (Oracle.Demo.committee, w);
  instant_now w := (w, w + 1);
  unix_now w := (Ok w, w);
  keccak256 b := b;
  sign_hash d w := (Ok (take 4 d), w);
  addr_display a := Text.show a;
  addr_debug a := Text.show a;
|}.

(** A committee of three, one of which resolves to a private address. *)
#[export] Instance env : OracleEnv Z := env_with 12 ["http://a"; "http://c"; "http://b"]%string.

#[export] Existing Instance Oracle.Demo.iter.

Definition settings : Settings :=
  {| sapphire_chain_id := 23295; registry := 5; max_source_rpcs := 3; rate_limit_per_sec := 1;
     global_rate_limit_per_sec := 10; report_ttl_secs := 60; allow_signer_rotation := false |}.

Definition req : task (Shared (W := Z)) Response := get_blockhash settings 7 1 "http://sapphire" "circuit" (Some (9, 100)).

(** The response and the URLs polled: the private one is not. *)
Definition polled (e : event) : option (list string) := match e with Polled _ us _ _ => Some us | _ => None end.

Lemma served :
  let '(r, s) := run req (oracle_state_new settings 0) in
  r = Some (Report {| s_oracle := "9"; s_source_chain_id := 1; s_block_number := 100;
    s_block_hash := "0x00000000000000000000000000000000000000000000000000000000000000aa";
    s_required_confirmations := 12; s_observed_confirmations := 12; s_quorum_tip := 112; s_observed_quorum := 2;
    s_require_finalized := true; s_finalized_block_number := 112; s_expires_at := 62; s_signer_epoch := 1;
    s_signer := "7"; s_signature := "0x43524f53" |}) /\ omap polled (log s) = [["http://a"; "http://b"]%string].
Proof. by vm_compute. Qed.

Definition reported (r : option Response) : option (Z * Z) :=
  match r with Some (Report rep) => Some (s_required_confirmations rep, s_observed_quorum rep) | _ => None end.

(** A number of confirmations too large for 64 bits is read as none. *)
Example confirmations_read_as_zero :
  reported (run (get_blockhash (OracleEnv0 := env_with (2 ^ 64) ["http://a"; "http://b"]%string)
    settings 7 1 "http://sapphire" "circuit" (Some (9, 100))) (oracle_state_new settings 0)).1 = Some (0, 2).
Proof. by vm_compute. Qed.

(** A member listed twice votes twice. *)
Example duplicate_votes_twice :
  reported (run (get_blockhash (OracleEnv0 := env_with 12 ["http://a"; "http://a"]%string)
    settings 7 1 "http://sapphire" "circuit" (Some (9, 100))) (oracle_state_new settings 0)).1 = Some (12, 2).
Proof. by vm_compute. Qed.

End Demo.

#[local] Existing Instances Demo.urls Demo.env Oracle.Demo.iter.

Lemma signed_reports_backed_witness :
  exists rep s, run Demo.req (oracle_state_new Demo.settings 0) = (Some (Report rep), s) /\
    exists o r sig, Signed o r sig ∈ log s /\ rep = signed_report 7 o r sig.
Proof.
  do 2 eexists. split; [vm_compute; reflexivity|].
  match goal with |- exists o r sig, _ ∈ log ?s0 /\ ?rep0 = _ =>
    apply (proj2 (signed_reports_backed Demo.settings 7 1 "http://sapphire" Oracle.Demo.iter_laws 0 s0 [Done (Report rep0)]
      ltac:(eapply rtc_l; [apply step_arrive, (request_blockhash Demo.settings 7 1 "http://sapphire" "circuit" 9 100); width_lia|];
            apply run_pool; vm_compute; reflexivity)) 0%nat rep0) end.
  reflexivity.
Defined.

End Server.
