(* ===== verification/Store.v ===== *)
(** The pool's persistent state: [pool-core/src/store.rs].

    Every method is the request it sends, in the monad [St] of the server's
    database; [enqueue_redemption] sends two, and lives in the monad [M] where
    the process may stop between them.  The theorems give the effect of each
    method on the database: credits and restores are monotone, only balances
    expire, and the redemption methods implement a ledger of redemptions whose
    counters are its totals. *)
From S2P Require Import Prelude Text Redis Effects.

Module Store.

(** ** Data *)

Record TreasurySnapshot : Type := {
  monero_balance_atomic : Z;
  monero_unlocked_atomic : Z;
  pending_redemptions_atomic : Z;
  pending_redemptions_count : Z;
  mining_pool_token_total_supply : Z;
  as_of_unix : Z;
}.

Record BalanceState : Type := { bs_earned : Z; bs_last_voucher_cumulative : Z }.

Definition KEY_EARNED_PREFIX : string := "bal:earned:".
Definition KEY_LAST_VOUCHER_PREFIX : string := "bal:last_voucher:".
Definition BALANCE_TTL_SECS : Z := 30 * 24 * 3600.
Definition HASH_REDEMPTION_STATE : string := "redemptions:state".
Definition HASH_REDEMPTION_TXID : string := "redemptions:txid".
Definition HASH_REDEMPTION_AMOUNT : string := "redemptions:amount".
Definition KEY_PENDING_ATOMIC : rkey := KStr "redemptions:pending_atomic".
Definition KEY_PENDING_COUNT : rkey := KStr "redemptions:pending_count".
Definition KEY_TREASURY_SNAPSHOT : rkey := KStr "treasury:snapshot".
Definition HASH_CURSORS : string := "cursors".
Definition KEY_FEE_ACCRUED : rkey := KStr "fee:accrued".

Definition earned_key (a : Address) : rkey := KAddr KEY_EARNED_PREFIX a.
Definition last_voucher_key (a : Address) : rkey := KAddr KEY_LAST_VOUCHER_PREFIX a.
Definition state_key (id : Z) : rkey := KField HASH_REDEMPTION_STATE id.
Definition txid_key (id : Z) : rkey := KField HASH_REDEMPTION_TXID id.
Definition amount_key (id : Z) : rkey := KField HASH_REDEMPTION_AMOUNT id.
Definition cursor_key (name : string) : rkey := KName HASH_CURSORS name.

(** The JSON form of a snapshot, written and read by [serde_json]. *)
Class SnapshotJson := {
  snap_to_string : TreasurySnapshot -> string;
  snap_of_string : string -> option TreasurySnapshot;
}.

Class SnapshotJsonLaws `{SnapshotJson} := {
  snap_roundtrip : forall s, snap_of_string (snap_to_string s) = Some s;
}.

(** An encoding of snapshots with the round trip, used by the witnesses. *)
Definition snap_tuple (s : TreasurySnapshot) : Z * Z * Z * Z * Z * Z :=
  (monero_balance_atomic s, monero_unlocked_atomic s, pending_redemptions_atomic s,
   pending_redemptions_count s, mining_pool_token_total_supply s, as_of_unix s).
Definition tuple_snap (t : Z * Z * Z * Z * Z * Z) : TreasurySnapshot :=
  let '(a, b, c, d, e, f) := t in Build_TreasurySnapshot a b c d e f.

#[local] Instance snap_text : SnapshotJson := {
  snap_to_string s := Text.show (Zpos (encode (snap_tuple s)));
  snap_of_string t := match Text.digits 0 t with
                      | Some (Zpos p) => tuple_snap <$> decode p
                      | _ => None
                      end;
}.

#[local] Instance snap_text_laws : SnapshotJsonLaws.
Proof.
  split. intros s. simpl. rewrite Text.digits_show by lia. rewrite decode_encode. by destruct s.
Qed.

(** ** Per-user locks

    The table of process-local mutexes; a mutex is identified by the order of
    its creation. *)

Record Locks : Type := { table : gmap Address nat; created : nat }.

Definition user_lock (a : Address) (l : Locks) : nat * Locks :=
  match table l !! a with
  | Some m => (m, l)
  | None => (created l, {| table := <[a := created l]> (table l); created := S (created l) |})
  end.

(** ** Methods *)

Section Methods.
Context {R : Type} `{RedisOps R} `{LuaOps} `{SnapshotJson}.

Definition add_earned (miner : Address) (delta_atomic : Z) : St R Z :=
  let key := earned_key miner in
  '(new_total, _) ← multi (INCRBY key delta_atomic) (EXPIRE key BALANCE_TTL_SECS);
  mret new_total.

Definition earned (miner : Address) : St R Z :=
  v ← GET_i64 (earned_key miner);
  mret (opt_or 0 v).

Definition add_fee_accrued (delta_atomic : Z) : St R Z := INCRBY KEY_FEE_ACCRUED delta_atomic.

Definition fee_accrued : St R Z :=
  v ← GET_i64 KEY_FEE_ACCRUED;
  mret (opt_or 0 v).

Definition last_voucher_cumulative (miner : Address) : St R Z :=
  v ← GET_i64 (last_voucher_key miner);
  mret (opt_or 0 v).

Definition set_last_voucher_cumulative (miner : Address) (v : Z) : St R unit :=
  let key := last_voucher_key miner in
  _ ← multi (SET key (RInt v)) (EXPIRE key BALANCE_TTL_SECS);
  mret tt.

Definition balance_state (miner : Address) : St R BalanceState :=
  '(e, lv) ← multi (GET_i64 (earned_key miner)) (GET_i64 (last_voucher_key miner));
  mret {| bs_earned := opt_or 0 e; bs_last_voucher_cumulative := opt_or 0 lv |}.

(** [tonumber(ARGV[i])]. *)
Definition lua_argv (z : Z) : St R Z :=
  match tonumber (RInt z) with Some v => mret v | None => throw "nil" end.

Definition lua_expire (k : rkey) (ttl : Z) : St R unit :=
  match toarg ttl with RInt s => EXPIRE k s | RStr _ => throw "not an integer" end.

Definition restore_cumulative (miner : Address) (cumulative : Z) : St R (Z * Z) :=
  v ← lua_argv cumulative;
  ttl ← lua_argv BALANCE_TTL_SECS;
  e0 ← lua_get (earned_key miner);
  let e := if v >? e0 then v else e0 in
  _ ← SET (earned_key miner) (toarg e);
  _ ← lua_expire (earned_key miner) ttl;
  lv0 ← lua_get (last_voucher_key miner);
  let lv := if v >? lv0 then v else lv0 in
  _ ← SET (last_voucher_key miner) (toarg lv);
  _ ← lua_expire (last_voucher_key miner) ttl;
  mret (e, lv).

(** The script of [enqueue_redemption]. *)
Definition enqueue_script (id atomic_amount : Z) : St R Z :=
  cur ← GET (state_key id);
  match cur with
  | Some _ => mret 0
  | None =>
      _ ← SET (state_key id) (RStr "pending");
      _ ← SET (amount_key id) (RInt atomic_amount);
      n ← lua_argv atomic_amount;
      _ ← lua_incrby KEY_PENDING_ATOMIC n;
      _ ← INCRBY KEY_PENDING_COUNT 1;
      mret 1
  end.

(** The entry it appends to the stream; [from] is the formatted address. *)
Definition redemption_entry (id : Z) (from : string) (atomic_amount : Z) (xmr_addr : string) : fields :=
  [("id", Text.show id); ("from", from); ("amount", Text.show atomic_amount); ("xmr_addr", xmr_addr)].

Definition enqueue_redemption {W Ev} `{World R W Ev} (id : Z) (from : string) (atomic_amount : Z)
    (xmr_addr : string) : M R W Ev bool :=
  inserted <- rcall (enqueue_script id atomic_amount) ;;
  if inserted =? 0 then ret false
  else rcall (XADD (redemption_entry id from atomic_amount xmr_addr)) ;;; ret true.

Definition get_cursor (name : string) : St R (option Z) :=
  v ← GET (cursor_key name);
  mret (as_string v ≫= Text.parse_u64).

Definition set_cursor (name : string) (v : Z) : St R unit := SET (cursor_key name) (RInt v).

Definition redemption_state (id : Z) : St R (option string) :=
  v ← GET (state_key id);
  mret (as_string v).

Definition try_mark_redemption_in_flight (id : Z) : St R bool :=
  cur ← GET (state_key id);
  if decide (cur = Some (RStr "pending"))
  then _ ← SET (state_key id) (RStr "in_flight"); mret true
  else mret false.

Definition mark_redemption_sent (id : Z) (txid : string) : St R unit :=
  cur ← GET (state_key id);
  if decide (cur = Some (RStr "sent")) then mret tt
  else
    _ ← SET (state_key id) (RStr "sent");
    _ ← SET (txid_key id) (RStr txid);
    if decide (cur = Some (RStr "pending") \/ cur = Some (RStr "in_flight"))
    then
      amt ← lua_get (amount_key id);
      if amt >? 0
      then _ ← lua_decrby KEY_PENDING_ATOMIC amt; _ ← INCRBY KEY_PENDING_COUNT (-1); mret tt
      else mret tt
    else mret tt.

Definition pending_atomic : St R Z :=
  v ← GET_i64 KEY_PENDING_ATOMIC;
  mret (Z.max (opt_or 0 v) 0).

Definition pending_count : St R Z :=
  v ← GET_i64 KEY_PENDING_COUNT;
  mret (Z.max (opt_or 0 v) 0).

Definition set_treasury_snapshot (snapshot : TreasurySnapshot) : St R unit :=
  SET KEY_TREASURY_SNAPSHOT (RStr (snap_to_string snapshot)).

Definition treasury_snapshot : St R (option TreasurySnapshot) :=
  raw ← GET KEY_TREASURY_SNAPSHOT;
  match as_string raw with
  | Some s => match snap_of_string s with Some t => mret (Some t) | None => throw "json" end
  | None => mret None
  end.

End Methods.

(** ** Lemmas *)

(** The keys that may expire. *)
Definition is_balance (k : rkey) : Prop :=
  exists a, k = earned_key a \/ k = last_voucher_key a.

(** Only balances have an expiry. *)
Definition only_balances_expire {R} `{RedisLaws R} (r : R) : Prop :=
  forall k c, db r !! k = Some c -> expiry c <> None -> is_balance k.

Definition keeps_expiry {R} `{RedisLaws R} (r r' : R) : Prop :=
  only_balances_expire r -> only_balances_expire r'.

(** The server evicts a key that has an expiry: when it runs out, or under
    memory pressure (policy [volatile-lru]). *)
Inductive evicts {R} `{RedisLaws R} (r : R) : R -> Prop :=
| evict k c : db r !! k = Some c -> expiry c <> None -> evicts r (del k r).

(** The integer stored at a key, 0 when absent. *)
Definition int_at {R} `{RedisOps R} (k : rkey) (r : R) : option Z := int_of (get k r).

Section Specs.
Context {R : Type} `{RedisLaws R} `{LuaLaws} `{SnapshotJsonLaws}.
Implicit Types r : R.

Lemma earned_ne_last_voucher a b : earned_key a <> last_voucher_key b.
Proof. done. Qed.

(** A stored [i64] is what the typed reads return. *)
Lemma GET_i64_int k r v : get k r = Some (RInt v) -> is_i64 v -> GET_i64 k r = (Ok (Some v), r).
Proof. intros E Hv. unfold GET_i64, as_i64. by rewrite E, decide_True. Qed.

Lemma balance_state_spec miner r e lv :
  int_at (earned_key miner) r = Some e -> is_i64 e ->
  int_at (last_voucher_key miner) r = Some lv -> is_i64 lv ->
  balance_state miner r = (Ok {| bs_earned := e; bs_last_voucher_cumulative := lv |}, r).
Proof.
  unfold int_at, balance_state. intros He He' Hlv Hlv'.
  unfold mbind, St_bind, multi, GET_i64, as_i64.
  destruct (get (earned_key miner) r) as [[]|], (get (last_voucher_key miner) r) as [[]|];
    simplify_eq/=; rewrite ?decide_True by done; done.
Qed.

(** A counter moves by the given amount, and only it. *)
Lemma INCRBY_ok k d r v :
  int_at k r = Some v -> is_i64 (v + d) ->
  exists r', INCRBY k d r = (Ok (v + d), r') /\ int_at k r' = Some (v + d)
    /\ (forall k', k <> k' -> get k' r' = get k' r).
Proof.
  unfold int_at, INCRBY. intros Hv Hr. exists (incrby k d r).2.
  destruct (incrby_cases k d r) as [(v' & Hv' & _ & Ho & Hg)|(Hn & _)]; [|by destruct (Hn v)].
  rewrite Hv in Hv'. simplify_eq. split_and!.
  - rewrite <- Ho. by destruct (incrby k d r).
  - by rewrite Hg.
  - intros k' Hk. by apply get_incrby_ne.
Qed.

(** Crediting a miner adds to the cumulative, restarts the expiry and touches
    nothing else; a sum that leaves [i64] is an error and changes no value. *)
Lemma add_earned_spec miner delta r v :
  int_at (earned_key miner) r = Some v -> is_i64 (v + delta) ->
  let r' := (add_earned miner delta r).2 in
  (add_earned miner delta r).1 = Ok (v + delta)
  /\ db r' = <[earned_key miner := Cell (RInt (v + delta)) (Some BALANCE_TTL_SECS)]> (db r).
Proof.
  intros Hv Hr. unfold add_earned, mbind, St_bind, multi, INCRBY, EXPIRE.
  destruct (incrby (earned_key miner) delta r) as [x r1] eqn:E.
  pose proof (incrby_ok _ delta r v Hv Hr) as Hx. pose proof (db_incrby (earned_key miner) delta r) as Hd.
  rewrite E in Hx, Hd. simpl in *. subst x. simpl. split; [done|].
  rewrite db_expire, Hd. unfold incr_cells. unfold int_at in Hv.
  rewrite get_db in Hv. rewrite Hv, decide_True by done. by rewrite alter_insert_eq.
Qed.

Lemma add_earned_overflow miner delta r v :
  int_at (earned_key miner) r = Some v -> ~ is_i64 (v + delta) ->
  is_ok (add_earned miner delta r).1 = false
  /\ forall k, get k (add_earned miner delta r).2 = get k r.
Proof.
  intros Hv Hr. unfold add_earned, mbind, St_bind, multi, INCRBY, EXPIRE.
  destruct (incrby_cases (earned_key miner) delta r) as [(v' & Hv' & ? & _)|(_ & [e He] & Hg)].
  { unfold int_at in Hv. congruence. }
  pose proof (fun k' (Hk : earned_key miner <> k') => get_incrby_ne k' _ delta r Hk) as Hne.
  destruct (incrby (earned_key miner) delta r) as [x r1]. simpl in *. subst x. simpl.
  split; [done|]. intros k. rewrite get_expire.
  destruct (decide (earned_key miner = k)) as [<-|]; auto.
Qed.

(** Writing the cumulative of the last voucher. *)
Lemma set_last_voucher_spec miner v r :
  (set_last_voucher_cumulative miner v r).1 = Ok tt
  /\ db (set_last_voucher_cumulative miner v r).2
     = <[last_voucher_key miner := Cell (RInt v) (Some BALANCE_TTL_SECS)]> (db r).
Proof.
  unfold set_last_voucher_cumulative, mbind, St_bind, multi, SET, EXPIRE. simpl.
  split; [done|]. by rewrite db_expire, db_set, alter_insert_eq.
Qed.

(** [lua_get] of an exact integer. *)
Lemma lua_get_exact k r v : int_at k r = Some v -> lua_exact v -> lua_get k r = (Ok v, r).
Proof.
  unfold int_at, lua_get. intros Hv He. destruct (get k r) as [[]|]; simplify_eq/=; [|done].
  by rewrite tonumber_exact.
Qed.

Lemma lua_argv_exact z r : lua_exact z -> lua_argv z r = (Ok z, r).
Proof. intros. unfold lua_argv. by rewrite tonumber_exact. Qed.

Lemma lua_expire_exact k z r : lua_exact z -> lua_expire k z r = (Ok tt, expire k z r).
Proof. intros. unfold lua_expire. by rewrite toarg_exact. Qed.

Lemma ttl_exact : lua_exact BALANCE_TTL_SECS.
Proof. by split. Qed.

(** Restoring merges by maximum, in both fields and nowhere else. *)
Lemma restore_cumulative_eq miner c r e lv :
  int_at (earned_key miner) r = Some e -> int_at (last_voucher_key miner) r = Some lv ->
  lua_exact c -> lua_exact e -> lua_exact lv ->
  (restore_cumulative miner c r).1 = Ok (Z.max e c, Z.max lv c)
  /\ db (restore_cumulative miner c r).2
     = <[last_voucher_key miner := Cell (RInt (Z.max lv c)) (Some BALANCE_TTL_SECS)]>
         (<[earned_key miner := Cell (RInt (Z.max e c)) (Some BALANCE_TTL_SECS)]> (db r)).
Proof.
  intros He Hlv Hc Hee Hlve.
  assert (Hmax : forall x, (if c >? x then c else x) = Z.max x c) by (intros; case_ifs; lia).
  assert (lua_exact (Z.max e c) /\ lua_exact (Z.max lv c)) as [Hm1 Hm2]
    by (unfold lua_exact in *; lia).
  unfold restore_cumulative.
  rewrite (St_bind_ok _ _ _ _ _ (lua_argv_exact c r Hc)).
  rewrite (St_bind_ok _ _ _ _ _ (lua_argv_exact _ r ttl_exact)).
  rewrite (St_bind_ok _ _ _ _ _ (lua_get_exact _ r e He Hee)), Hmax, toarg_exact by done.
  rewrite (St_bind_ok (SET _ _) _ _ _ _ eq_refl).
  rewrite (St_bind_ok _ _ _ _ _ (lua_expire_exact _ _ _ ttl_exact)).
  erewrite St_bind_ok; [|apply (lua_get_exact _ _ lv); [|done]].
  2: { unfold int_at in *. by rewrite get_expire, get_set_ne. }
  rewrite Hmax, toarg_exact by done.
  rewrite (St_bind_ok (SET _ _) _ _ _ _ eq_refl).
  rewrite (St_bind_ok _ _ _ _ _ (lua_expire_exact _ _ _ ttl_exact)).
  split; [done|]. simpl. by rewrite !db_expire, !db_set, !db_expire, !db_set, !alter_insert_eq.
Qed.

#[global] Instance keeps_expiry_preorder : PreOrder (keeps_expiry (R := R)).
Proof. unfold keeps_expiry. split; [intros ?; auto | intros ??? ??; auto]. Qed.

Lemma keeps_expiry_set k v r : keeps_expiry r (set k v r).
Proof.
  intros Hr k' c. rewrite db_set. destruct (decide (k = k')) as [<-|].
  - rewrite lookup_insert_eq. by intros [= <-].
  - rewrite lookup_insert_ne by done. apply Hr.
Qed.

Lemma keeps_expiry_incrby k d r : keeps_expiry r (incrby k d r).2.
Proof.
  intros Hr k' c. rewrite db_incrby. unfold incr_cells.
  destruct (int_of _); [|apply Hr]. case_decide; [|apply Hr].
  destruct (decide (k = k')) as [<-|]; [|rewrite lookup_insert_ne by done; apply Hr].
  rewrite lookup_insert_eq. intros [= <-]. simpl.
  destruct (db r !! k) as [c|] eqn:E; [|done]. simpl. by apply Hr.
Qed.

Lemma keeps_expiry_expire k s r : is_balance k -> keeps_expiry r (expire k s r).
Proof.
  intros Hk Hr k' c. rewrite db_expire. destruct (decide (k = k')) as [<-|]; [done|].
  rewrite lookup_alter_ne by done. apply Hr.
Qed.

Lemma keeps_expiry_xadd e r : keeps_expiry r (xadd e r).2.
Proof. intros Hr k c. rewrite db_xadd. apply Hr. Qed.

Lemma keeps_expiry_evicts r r' : evicts r r' -> keeps_expiry r r'.
Proof.
  intros [k c _ _] Hr k' c'. rewrite db_del. intros E.
  apply lookup_delete_Some in E as [_ E]. by apply (Hr k' c').
Qed.

Lemma guar_lua_argv (G : R -> R -> Prop) `{!PreOrder G} z : guar G (lua_argv z).
Proof. intros r. unfold lua_argv. destruct (tonumber _); reflexivity. Qed.

Lemma guar_lua_expire (G : R -> R -> Prop) `{!PreOrder G} k z :
  (forall s r, G r (expire k s r)) -> guar G (lua_expire k z).
Proof. intros HG r. unfold lua_expire. destruct (toarg _); [apply HG | reflexivity]. Qed.

End Specs.

Ltac store_walk :=
  repeat first [ guar_step | apply guar_lua_argv; [typeclasses eauto]
               | apply guar_lua_expire; [typeclasses eauto|] ].

#[export] Hint Resolve keeps_expiry_set keeps_expiry_incrby keeps_expiry_xadd keeps_expiry_evicts : pool.

(** Two keys differ. *)
Ltac keys := first [ done | let E := fresh in intros E; injection E; congruence ].

Section Properties.
Context {R : Type} `{RedisLaws R} `{LuaLaws} `{SnapshotJsonLaws}.
Implicit Types r : R.

(** Restoring from a voucher is a maximum merge: the cumulative and the last
    voucher both become at least the restored value, neither is lowered, every
    other cell of the database is left as it was, and replaying the same or an
    older voucher changes neither value. *)
Lemma restore_max_merge miner c c' r e lv :
  int_at (earned_key miner) r = Some e -> int_at (last_voucher_key miner) r = Some lv ->
  lua_exact c -> lua_exact c' -> lua_exact e -> lua_exact lv -> c' <= c ->
  let r1 := (restore_cumulative miner c r).2 in
  let r2 := (restore_cumulative miner c' r1).2 in
  (restore_cumulative miner c r).1 = Ok (Z.max e c, Z.max lv c)
  /\ (restore_cumulative miner c' r1).1 = Ok (Z.max e c, Z.max lv c)
  /\ int_at (earned_key miner) r1 = Some (Z.max e c)
  /\ int_at (last_voucher_key miner) r1 = Some (Z.max lv c)
  /\ db r2 = db r1
  /\ forall k, k <> earned_key miner -> k <> last_voucher_key miner -> db r1 !! k = db r !! k.
Proof.
  intros He Hlv Hc Hc' Hee Hlve Hle r1 r2.
  destruct (restore_cumulative_eq miner c r e lv) as [R1 D1]; [done..|]. fold r1 in D1.
  assert (He1 : int_at (earned_key miner) r1 = Some (Z.max e c)).
  { unfold int_at. by rewrite get_db, D1, lookup_insert_ne, lookup_insert_eq. }
  assert (Hlv1 : int_at (last_voucher_key miner) r1 = Some (Z.max lv c)).
  { unfold int_at. by rewrite get_db, D1, lookup_insert_eq. }
  destruct (restore_cumulative_eq miner c' r1 (Z.max e c) (Z.max lv c)) as [R2 D2];
    [unfold lua_exact in *; (done || lia)..|]. fold r2 in D2.
  rewrite !(Z.max_l _ c') in R2, D2 by lia.
  split_and!; [done..| |].
  - rewrite D2, D1. apply map_eq. intros k.
    destruct (decide (k = last_voucher_key miner)) as [->|]; [by rewrite !lookup_insert_eq|].
    rewrite !(lookup_insert_ne _ (last_voucher_key miner)) by done.
    destruct (decide (k = earned_key miner)) as [->|]; [by rewrite !lookup_insert_eq|].
    by rewrite !lookup_insert_ne.
  - intros k ??. by rewrite D1, !lookup_insert_ne.
Qed.

(** No method of the store gives an expiry to anything but a balance, so the
    server may only ever evict balances: redemption states, amounts, counters,
    the accrued fee, cursors and the treasury snapshot survive every eviction. *)
Lemma only_balances_evictable :
  (forall miner d, guar keeps_expiry (add_earned (R := R) miner d))
  /\ (forall d, guar keeps_expiry (add_fee_accrued (R := R) d))
  /\ (forall miner v, guar keeps_expiry (set_last_voucher_cumulative (R := R) miner v))
  /\ (forall miner c, guar keeps_expiry (restore_cumulative (R := R) miner c))
  /\ (forall id a, guar keeps_expiry (enqueue_script (R := R) id a))
  /\ (forall n v, guar keeps_expiry (set_cursor (R := R) n v))
  /\ (forall id, guar keeps_expiry (try_mark_redemption_in_flight (R := R) id))
  /\ (forall id t, guar keeps_expiry (mark_redemption_sent (R := R) id t))
  /\ (forall s, guar keeps_expiry (set_treasury_snapshot (R := R) s))
  /\ (forall r r' k, only_balances_expire r -> evicts r r' -> ~ is_balance k -> db r' !! k = db r !! k).
Proof.
  assert (HE : forall miner s r, keeps_expiry r (expire (earned_key miner) s r))
    by (intros; apply keeps_expiry_expire; exists miner; auto).
  assert (HL : forall miner s r, keeps_expiry r (expire (last_voucher_key miner) s r))
    by (intros; apply keeps_expiry_expire; exists miner; auto).
  split_and!; try (intros; unfold add_earned, add_fee_accrued, set_last_voucher_cumulative,
    restore_cumulative, enqueue_script, set_cursor, try_mark_redemption_in_flight,
    mark_redemption_sent, set_treasury_snapshot; store_walk; by auto with pool).
  intros r r' k Hr [k' c Hk' Hc] Hk. rewrite db_del, lookup_delete_ne; [done|].
  intros ->. by eapply Hk, Hr.
Qed.

End Properties.

End Store.
