(* ===== verification/Operator.v ===== *)
(** The read API (operator-api/src/lib.rs) and the client of the upstream pool's HTTP API
    (hashvault-client/src/lib.rs) whose figures it shows.

    The HTTP exchange with the upstream pool, the parser of addresses and their text are
    parameters. *)
From Stdlib Require Import Ascii.
From S2P Require Import Prelude Text Floats Pps Metrics Json Upstream Redis Store.
Import Store.

Module Operator.

(** ** The upstream pool's API *)

Definition MIN_PAYOUT_ATOMIC : Z := 1000000000.

(** [trim_end_matches('/')]. *)
Fixpoint trim_slashes (s : string) : string :=
  match s with
  | EmptyString => EmptyString
  | String c s' =>
      match trim_slashes s' with
      | EmptyString => if Ascii.eqb c "/"%char then EmptyString else String c EmptyString
      | r => String c r
      end
  end.

Definition threshold_url (base_url wallet : string) : string :=
  trim_slashes base_url +:+ "/v3/monero/wallet/" +:+ wallet +:+ "/private/threshold".

Definition stats_url (base_url wallet : string) : string :=
  trim_slashes base_url +:+ "/v3/monero/wallet/" +:+ wallet +:+
  "/stats?chart=false&inactivityThreshold=10&order=name&period=daily&poolType=false&workers=false".

(** A request: the reply's status and its body, where it is JSON; and the text of the
    HTTP client's error for a status, which names the URL. *)
Class HashvaultEnv (W : Type) := {
  status_error : Z -> string -> string;
  http_get : string -> W -> anyhow (Z * anyhow Json.Value) * W;
  http_post : string -> Json.Value -> W -> anyhow (Z * anyhow Json.Value) * W;
}.

(** [send().context(..)], [error_for_status()] and [json().context(..)]: a context
    replaces the text of an error. *)
Definition reply_json {W} `{HashvaultEnv W} (sending decoding url : string) (r : anyhow (Z * anyhow Json.Value)) : anyhow Json.Value :=
  match r with
  | Err _ => Err sending
  | Ok (status, body) =>
      if (400 <=? status) && (status <? 600) then Err (status_error status url)
      else match body with Ok v => Ok v | Err _ => Err decoding end
  end.

Record Stats : Type := {
  hv_hashrate : Z; avg1h : Z; avg3h : Z; avg6h : Z; avg24h : Z; share_rate : Z; last_share_unix_ms : Z;
  valid_shares : Z; invalid_shares : Z; stale_shares : Z; found_blocks : Z;
  payout_threshold_atomic : Z; confirmed_balance_atomic : Z; total_paid_atomic : Z;
}.

(** [v[k].as_u64().unwrap_or(0)]. *)
Definition u64_or_0 (k : string) (v : Json.Value) : Z := opt_or 0 (Json.get_u64 k v).

Definition stats_of (v : Json.Value) : Stats :=
  let c := opt_or Json.Null (Json.get "collective" v) in
  let r := opt_or Json.Null (Json.get "revenue" v) in
  {| hv_hashrate := u64_or_0 "hashRate" c; avg1h := u64_or_0 "avg1hashRate" c; avg3h := u64_or_0 "avg3hashRate" c;
     avg6h := u64_or_0 "avg6hashRate" c; avg24h := u64_or_0 "avg24hashRate" c; share_rate := u64_or_0 "shareRate" c;
     last_share_unix_ms := opt_or 0 (Json.get_i64 "lastShare" c); valid_shares := u64_or_0 "validShares" c;
     invalid_shares := u64_or_0 "invalidShares" c; stale_shares := u64_or_0 "staleShares" c;
     found_blocks := u64_or_0 "foundBlocks" c; payout_threshold_atomic := u64_or_0 "payoutThreshold" r;
     confirmed_balance_atomic := u64_or_0 "confirmedBalance" r; total_paid_atomic := u64_or_0 "totalPaid" r |}.

Section Hashvault.
Context {W : Type} `{HashvaultEnv W}.
Variable base_url : string.

Definition get_threshold (wallet : string) (w : W) : anyhow Z * W :=
  let url := threshold_url base_url wallet in
  let '(r, w) := http_get url w in
  (match reply_json "GET /threshold" "decode threshold response" url r with
   | Err e => Err e
   | Ok v =>
       match (Json.struct_fields ["threshold"%string] 0 v ≫= Json.field_value "threshold") ≫= Json.as_u64 with
       | Some t => Ok t
       | None => Err "decode threshold response"
       end
   end, w).

Definition set_threshold (wallet : string) (atomic : Z) (w : W) : anyhow unit * W :=
  if atomic <? MIN_PAYOUT_ATOMIC then (Err ("threshold " +:+ Text.show atomic +:+ " below HashVault minimum (" +:+ Text.show MIN_PAYOUT_ATOMIC +:+ ")"), w)
  else
    let url := threshold_url base_url wallet in
    let '(r, w) := http_post url (Json.Object [("threshold"%string, Json.Int atomic)]) w in
    (match reply_json "POST /threshold" "decode threshold POST response" url r with
     | Err e => Err e
     | Ok v =>
         match Json.struct_fields ["status"%string] 1 v with
         | None => Err "decode threshold POST response"
         | Some kvs =>
             match Json.field_value "status" kvs with
             | Some (Json.Str s) =>
                 if String.eqb (Text.to_ascii_lowercase s) "success" then Ok tt else Err ("HashVault threshold set returned: " +:+ s)
             | Some _ => Err "decode threshold POST response"
             | None => Err "HashVault threshold set returned: "
             end
         end
     end, w).

Definition ensure_min_threshold (wallet : string) (w : W) : anyhow (Z * Z) * W :=
  match get_threshold wallet w with
  | (Err e, w) => (Err e, w)
  | (Ok was, w) =>
      if was =? MIN_PAYOUT_ATOMIC then (Ok (was, was), w)
      else match set_threshold wallet MIN_PAYOUT_ATOMIC w with
           | (Err e, w) => (Err e, w)
           | (Ok tt, w) => (Ok (was, MIN_PAYOUT_ATOMIC), w)
           end
  end.

Definition stats (wallet : string) (w : W) : anyhow Stats * W :=
  let url := stats_url base_url wallet in
  let '(r, w) := http_get url w in
  (match reply_json "GET /stats" "decode stats response" url r with Err e => Err e | Ok v => Ok (stats_of v) end, w).

End Hashvault.

(** ** The views *)

Record AppState (R : Type) : Type := {
  store : R;
  metrics : Metrics.t;
  rate : Pps.RateCache;
  upstream_stats : option Stats;
  upstream_stats_as_of_unix : Z;
  onion : option string;
}.
Arguments store {R} _.
Arguments metrics {R} _.
Arguments rate {R} _.
Arguments upstream_stats {R} _.
Arguments upstream_stats_as_of_unix {R} _.
Arguments onion {R} _.

Record OnionView : Type := { ov_onion : option string; ov_stratum : option string; ov_api : option string }.
Record UpstreamStatsView : Type := { us_stats : option Stats; us_as_of_unix : Z }.
Record MinerView : Type := {
  mv_miner : string; mv_cumulative_owed_atomic : Z; mv_last_voucher_cumulative : Z;
  mv_shares : Z; mv_work : Z; mv_last_share_ms : Z;
}.
Record RateView : Type := { rv_atomic_xmr_per_diff : F.f64; rv_set_at_unix : Z }.
Record UpstreamView : Type := {
  uv_connected : bool; uv_last_change_unix : Z; uv_consecutive_failures : Z;
  uv_submit_rejects_total : Z; uv_submit_accepts_total : Z;
}.
Record PoolView : Type := { pv_hashrate : F.f64; pv_total_work : Z; pv_active_miners : Z; pv_upstream : UpstreamView }.
Record TreasuryView : Type := {
  tv_monero_balance_atomic : string;
  tv_monero_unlocked_atomic : string;
  tv_pending_redemptions : string;
  tv_pending_redemptions_count : Z;
  tv_total_supply : string;
  tv_per_base_unit : option F.f64;
  tv_per_token : option F.f64;
  tv_as_of_unix : option Z;
}.

Definition get_onion {R} (s : AppState R) : OnionView :=
  {| ov_stratum := (fun o => o +:+ ":3333") <$> onion s; ov_api := (fun o => "http://" +:+ o) <$> onion s;
     ov_onion := onion s |}.

Definition get_upstream_stats {R} (s : AppState R) : UpstreamStatsView :=
  {| us_stats := upstream_stats s; us_as_of_unix := upstream_stats_as_of_unix s |}.

(** A division of [i64] truncates. *)
Definition upstream_view (m : Metrics.t) : UpstreamView :=
  {| uv_connected := Metrics.upstream_connected m;
     uv_last_change_unix := Z.quot (Metrics.upstream_last_change_unix_ms m) 1000;
     uv_consecutive_failures := Metrics.upstream_consecutive_failures m;
     uv_submit_rejects_total := Metrics.upstream_submit_rejects_total m;
     uv_submit_accepts_total := Metrics.upstream_submit_accepts_total m |}.

Definition get_rate {R} (s : AppState R) : RateView :=
  {| rv_atomic_xmr_per_diff := Pps.RateCache_get (rate s); rv_set_at_unix := Pps.set_at_unix (rate s) |}.

Definition get_pool {R} (now : Z) (s : AppState R) : PoolView :=
  {| pv_hashrate := Metrics.hashrate now (metrics s); pv_total_work := Metrics.total_work (metrics s);
     pv_active_miners := Metrics.active_miners (metrics s); pv_upstream := upstream_view (metrics s) |}.

Section Views.
Context {R : Type} `{RedisOps R} `{SnapshotJson}.
Variable parse_address : string -> option Address.
Variable hex_address : Address -> string.

(** The reply, or the status code of the error. *)
Definition get_miner (addr : string) (s : AppState R) : result Z MinerView :=
  match parse_address addr with
  | None => Err 400
  | Some parsed =>
      match (balance_state parsed (store s)).1 with
      | Err _ => Err 500
      | Ok bs =>
          let snap := Metrics.miner_snapshot parsed (metrics s) in
          Ok {| mv_miner := hex_address parsed; mv_cumulative_owed_atomic := bs_earned bs;
                mv_last_voucher_cumulative := bs_last_voucher_cumulative bs;
                mv_shares := opt_or 0 (Metrics.shares <$> snap); mv_work := opt_or 0 (Metrics.work <$> snap);
                mv_last_share_ms := opt_or 0 (Metrics.last_share_ms <$> snap) |}
      end
  end.

Definition treasury_view (snap : option TreasurySnapshot) : TreasuryView :=
  match snap with
  | Some t =>
      let denom := u128_saturating_add (mining_pool_token_total_supply t) (pending_redemptions_atomic t) in
      let per_base_unit :=
        if 0 <? denom then Some (F.div (F.of_Z (monero_balance_atomic t)) (F.of_Z denom)) else None in
      {| tv_monero_balance_atomic := Text.show (monero_balance_atomic t);
         tv_monero_unlocked_atomic := Text.show (monero_unlocked_atomic t);
         tv_pending_redemptions := Text.show (pending_redemptions_atomic t);
         tv_pending_redemptions_count := pending_redemptions_count t;
         tv_total_supply := Text.show (mining_pool_token_total_supply t);
         tv_per_base_unit := per_base_unit;
         tv_per_token := (fun r => F.mul r (F.of_Z 1000000000000)) <$> per_base_unit;
         tv_as_of_unix := Some (as_of_unix t) |}
  | None =>
      {| tv_monero_balance_atomic := "0"; tv_monero_unlocked_atomic := "0"; tv_pending_redemptions := "0";
         tv_pending_redemptions_count := 0; tv_total_supply := "0"; tv_per_base_unit := None; tv_per_token := None;
         tv_as_of_unix := None |}
  end.

Definition get_treasury (s : AppState R) : result Z TreasuryView :=
  match (treasury_snapshot (store s)).1 with
  | Err _ => Err 500
  | Ok snap => Ok (treasury_view snap)
  end.

End Views.

(** ** What is published *)

Definition snapshot_typed (t : TreasurySnapshot) : Prop :=
  is_u128 (monero_balance_atomic t) /\ is_u128 (monero_unlocked_atomic t) /\ is_u128 (pending_redemptions_atomic t) /\
  is_u64 (pending_redemptions_count t) /\ is_u128 (mining_pool_token_total_supply t) /\ is_i64 (as_of_unix t).

Lemma not_below_zero x : F.not_below x -> F.ltb x F.zero = false.
Proof. intros [Hx| ->]; [|done]. by destruct x as [[]|[]| |[] ? ?]. Qed.

Section Published.
Context {R : Type} `{RedisLaws R} `{SnapshotJsonLaws}.

(** What the treasury endpoint shows is what redemptions are priced from: after
    the refresher stores a snapshot, its numbers can be read back from the reply exactly,
    and a rate is shown exactly when there are tokens or pending redemptions to divide by,
    and is not below zero. *)
Lemma treasury_published t r r' (s : AppState R) :
  snapshot_typed t -> set_treasury_snapshot t r = (Ok tt, r') -> store s = r' ->
  exists v, get_treasury s = Ok v /\
    Text.parse_u128 (tv_monero_balance_atomic v) = Some (monero_balance_atomic t) /\
    Text.parse_u128 (tv_monero_unlocked_atomic v) = Some (monero_unlocked_atomic t) /\
    Text.parse_u128 (tv_pending_redemptions v) = Some (pending_redemptions_atomic t) /\
    Text.parse_u128 (tv_total_supply v) = Some (mining_pool_token_total_supply t) /\
    tv_pending_redemptions_count v = pending_redemptions_count t /\ tv_as_of_unix v = Some (as_of_unix t) /\
    (is_Some (tv_per_base_unit v) <-> mining_pool_token_total_supply t + pending_redemptions_atomic t <> 0) /\
    (forall x, tv_per_base_unit v = Some x -> F.ltb x F.zero = false).
Proof.
  intros (Hb & Hu & Hp & _ & Hs & _) Hset Hst. exists (treasury_view (Some t)). split.
  { unfold get_treasury. rewrite Hst. unfold set_treasury_snapshot, SET in Hset. injection Hset as <-.
    unfold treasury_snapshot, mbind, St_bind, GET. simpl. rewrite get_db, db_set, lookup_insert_eq. simpl.
    by rewrite snap_roundtrip. }
  simpl. unfold Text.parse_u128. rewrite !Text.parse_uint_show by width_lia. split_and!; [done..| |].
  - unfold u128_saturating_add. destruct (Z.ltb_spec 0 (Z.min u128_max (mining_pool_token_total_supply t + pending_redemptions_atomic t))).
    + split; [intros _; width_lia|eauto].
    + split; [intros []; done|width_lia].
  - intros x. unfold u128_saturating_add. destruct (Z.ltb_spec 0 (Z.min u128_max (mining_pool_token_total_supply t + pending_redemptions_atomic t))) as [Hd|]; [|done].
    intros [= <-]. apply not_below_zero, F.not_below_ops; left; apply F.of_Z_nonneg; width_lia.
Qed.

End Published.

(** ** What happened and what is shown *)

(** The operations on the counters. *)
Inductive mop : Type :=
| Share (miner : Address) (difficulty now now_ms : Z)
| Opened
| Closed
| Connected (now_ms : Z)
| SessionEnded (now_ms elapsed : Z)
| Reject
| Accept.

Definition run_mop (m : Metrics.t) (o : mop) : Metrics.t :=
  match o with
  | Share a d now ms => Metrics.record_share a d now ms m
  | Opened => Metrics.session_opened m
  | Closed => Metrics.session_closed m
  | Connected ms => Metrics.mark_upstream_connected ms m
  | SessionEnded ms elapsed => (Upstream.after_session ms elapsed m).2
  | Reject => Metrics.record_upstream_submit_reject m
  | Accept => Metrics.record_upstream_submit_accept m
  end.

(** The counters after what happened, the latest first. *)
Definition run_mops (start : Z) (ops : list mop) : Metrics.t := foldr (fun o m => run_mop m o) (Metrics.new start) ops.

(** The shares, with their work and the reading of the monotonic clock; those of a miner, with
    the reading of the wall clock. *)
Definition observations (ops : list mop) : list (Z * Z) :=
  omap (fun o => match o with Share _ d now _ => Some (d, now) | _ => None end) ops.
Definition shares_of (a : Address) (ops : list mop) : list (Z * Z) :=
  omap (fun o => match o with Share b d _ ms => if decide (a = b) then Some (d, ms) else None | _ => None end) ops.

Definition tally (f : mop -> bool) (ops : list mop) : Z := Z.of_nat (length (List.filter f ops)).
Definition is_opened (o : mop) : bool := match o with Opened => true | _ => false end.
Definition is_closed (o : mop) : bool := match o with Closed => true | _ => false end.
Definition is_reject (o : mop) : bool := match o with Reject => true | _ => false end.
Definition is_accept (o : mop) : bool := match o with Accept => true | _ => false end.

(** Whether the last change was a connection. *)
Fixpoint linked (ops : list mop) : bool :=
  match ops with
  | Connected _ :: _ => true
  | SessionEnded _ _ :: _ => false
  | _ :: ops => linked ops
  | [] => false
  end.

(** The time of the last change from one to the other. *)
Fixpoint turned (ops : list mop) : Z :=
  match ops with
  | Connected ms :: ops => if linked ops then turned ops else ms
  | SessionEnded ms _ :: ops => if linked ops then ms else turned ops
  | _ :: ops => turned ops
  | [] => 0
  end.

(** The attempts that ended, from the last one that had been connected for long enough. *)
Fixpoint attempts_ended (ops : list mop) : Z :=
  match ops with
  | SessionEnded _ elapsed :: ops =>
      if linked ops && (elapsed >=? Upstream.HEALTHY_SESSION_THRESHOLD) then 1 else attempts_ended ops + 1
  | _ :: ops => attempts_ended ops
  | [] => 0
  end.

Lemma tally_cons f o ops : tally f (o :: ops) = tally f ops + if f o then 1 else 0.
Proof. unfold tally. simpl. destruct (f o); simpl; lia. Qed.

Lemma run_mops_counts start ops :
  let m := run_mops start ops in
  Metrics.total_work m = wrap_u64 (Metrics.total_observed (observations ops)) /\
  Metrics.hashrate_window m = Metrics.observed start (observations ops) /\
  Metrics.live_sessions m = wrap_i64 (tally is_opened ops - tally is_closed ops) /\
  Metrics.upstream_submit_rejects_total m = wrap_u64 (tally is_reject ops) /\
  Metrics.upstream_submit_accepts_total m = wrap_u64 (tally is_accept ops).
Proof.
  induction ops as [|o ops IH]; [done|]. cbn [run_mops foldr]. fold (run_mops start ops).
  destruct IH as (E1 & E2 & E3 & E4 & E5). rewrite !tally_cons.
  destruct o as [a d now ms| | |ms|ms elapsed| |]; simpl; rewrite ?E1, ?E2, ?E3, ?E4, ?E5, ?Z.add_0_r, ?Z.sub_0_r; try done.
  - split; [|done]. rewrite wrap_u64_add. f_equal. unfold Metrics.total_observed. lia.
  - split_and!; [done..| |done|done]. rewrite wrap_i64_add. f_equal. lia.
  - split_and!; [done..| |done|done]. rewrite <- Z.add_opp_r, wrap_i64_add. f_equal. lia.
  - unfold Upstream.after_session. simpl. case_match; simpl; by rewrite ?E1, ?E2, ?E3, ?E4, ?E5.
  - by rewrite wrap_u64_add.
  - by rewrite wrap_u64_add.
Qed.

Lemma run_mops_upstream start ops :
  let m := run_mops start ops in
  Metrics.upstream_connected m = linked ops /\ Metrics.upstream_last_change_unix_ms m = turned ops /\
  Metrics.upstream_consecutive_failures m = wrap_u32 (attempts_ended ops).
Proof.
  induction ops as [|o ops IH]; [done|]. cbn [run_mops foldr]. fold (run_mops start ops). destruct IH as (E1 & E2 & E3).
  destruct o as [a d now ms| | |ms|ms elapsed| |]; simpl; rewrite ?E1, ?E2, ?E3; try done.
  unfold Upstream.after_session. simpl. rewrite E1. destruct (linked ops && _); simpl; rewrite ?E2, ?E3, ?wrap_u32_add; done.
Qed.

Lemma run_mops_miner start ops a :
  Metrics.miner_snapshot a (run_mops start ops) =
  match shares_of a ops with
  | [] => None
  | (_, ms) :: _ => Some {| Metrics.work := wrap_u64 (Metrics.total_observed (shares_of a ops));
                            Metrics.shares := wrap_u64 (Z.of_nat (length (shares_of a ops))); Metrics.last_share_ms := ms |}
  end.
Proof.
  induction ops as [|o ops IH]; [unfold Metrics.miner_snapshot, Metrics.shard; simpl; by rewrite lookup_empty|].
  cbn [run_mops foldr]. fold (run_mops start ops).
  destruct o as [b d now ms| | |ms|ms elapsed| |]; try exact IH.
  - cbn [run_mop]. rewrite Metrics.record_share_snapshot. simpl. case_decide as E; [|exact IH]. subst b. rewrite IH.
    destruct (shares_of a ops) as [|[d0 ms0] l] eqn:El; [unfold Metrics.total_observed; simpl; by rewrite Z.add_0_r|]. cbn [Metrics.work Metrics.shares].
    rewrite !wrap_u64_add. do 2 f_equal; [|cbn [length]; f_equal; lia]. f_equal. unfold Metrics.total_observed. simpl. lia.
  - cbn [run_mop]. unfold Upstream.after_session. simpl. destruct (_ && _); exact IH.
Qed.

(** C32: the API shows what happened.  After any shares, openings and closings of sessions,
    connections to the upstream pool, their ends and its verdicts, in any order: the pool's
    work is the sum of all shares' difficulties, the active miners are the sessions opened
    and not closed, the verdicts shown are those counted, the connection is up exactly when the
    last change was a connection, and was changed when shown, and the failures are the
    attempts that ended, from the last one that had been connected for long enough; the
    hashrate divides by the window a sum that has every share of its last 115 seconds and
    none older than 120, when the clock did not go back and the work fits; and a miner is shown
    their own shares, the sum of their difficulties and the time of the last.
    Each count is modulo its width. *)
Theorem views_tell_history {R} `{RedisOps R} ops start now parse_address hex_address addr (s : AppState R) :
  metrics s = run_mops start ops ->
  let v := get_pool now s in
  pv_total_work v = wrap_u64 (Metrics.total_observed (observations ops)) /\
  pv_active_miners v = Z.max (wrap_i64 (tally is_opened ops - tally is_closed ops)) 0 /\
  uv_submit_rejects_total (pv_upstream v) = wrap_u64 (tally is_reject ops) /\
  uv_submit_accepts_total (pv_upstream v) = wrap_u64 (tally is_accept ops) /\
  uv_connected (pv_upstream v) = linked ops /\
  uv_last_change_unix (pv_upstream v) = Z.quot (turned ops) 1000 /\
  uv_consecutive_failures (pv_upstream v) = wrap_u32 (attempts_ended ops) /\
  (Metrics.timely start (observations ops) -> Metrics.total_observed (observations ops) <= u64_max ->
   Metrics.latest start (observations ops) <= now -> 120000 <= now ->
   exists w, pv_hashrate v = F.div (F.of_Z w) (F.of_Z 120) /\
     Metrics.shares_since (now - 115000) (observations ops) <= w <= Metrics.shares_since (now - 120000) (observations ops)) /\
  forall mv, get_miner parse_address hex_address addr s = Ok mv ->
    exists a, parse_address addr = Some a /\ mv_miner mv = hex_address a /\
      mv_shares mv = wrap_u64 (Z.of_nat (length (shares_of a ops))) /\
      mv_work mv = wrap_u64 (Metrics.total_observed (shares_of a ops)) /\
      mv_last_share_ms mv = match shares_of a ops with (_, ms) :: _ => ms | [] => 0 end.
Proof.
  intros Hs v. subst v. cbn [get_pool pv_total_work pv_active_miners pv_upstream upstream_view pv_hashrate uv_connected
    uv_last_change_unix uv_consecutive_failures uv_submit_rejects_total uv_submit_accepts_total]. rewrite Hs.
  destruct (run_mops_counts start ops) as (E1 & E2 & E3 & E4 & E5). destruct (run_mops_upstream start ops) as (E6 & E7 & E8).
  unfold Metrics.active_miners, Metrics.hashrate. rewrite E1, E2, E3, E4, E5, E6, E7, E8. split_and!; try done.
  - intros Ht Hw Hl Hn. exists (Metrics.window_total now (Metrics.observed start (observations ops))). unfold Metrics.read.
    unfold Metrics.HASHRATE_WINDOW at 1. rewrite (proj2 (Z.ltb_ge _ _) Hn). split; [done|].
    pose proof (Metrics.window_counts_shares _ _ _ Ht Hw Hl) as Hc. unfold Metrics.HASHRATE_WINDOW, Metrics.BUCKET in Hc.
    by replace (now - 120000 + 5000) with (now - 115000) in Hc by lia.
  - intros mv. unfold get_miner. destruct (parse_address addr) as [a|]; [|done]. destruct (balance_state a (store s)).1; [|done].
    intros [= <-]. exists a. rewrite Hs, run_mops_miner. simpl. by destruct (shares_of a ops) as [|[]].
Qed.

(** A miner with two shares of three, and a session that ended. *)
Module ViewsDemo.

Definition ops : list mop := [SessionEnded 9000 0; Accept; Share 5 300 200500 8; Share 6 40 200000 7; Connected 6000; Share 5 1000 150000 1; Opened].
Definition state : AppState Db.t :=
  {| store := Db.empty; metrics := run_mops 0 ops; rate := Pps.RateCache_new; upstream_stats := None;
     upstream_stats_as_of_unix := 0; onion := None |}.

End ViewsDemo.

Lemma views_tell_history_witness :
  (exists mv, get_miner (fun _ => Some 5) (fun _ => "0x5"%string) "5" ViewsDemo.state = Ok mv /\ mv_work mv = 1300) /\
  uv_last_change_unix (pv_upstream (get_pool 201000 ViewsDemo.state)) = 9 /\
  exists w, pv_hashrate (get_pool 201000 ViewsDemo.state) = F.div (F.of_Z w) (F.of_Z 120) /\ 1340 <= w <= 1340.
Proof.
  destruct (views_tell_history (R := Db.t) ViewsDemo.ops 0 201000 (fun _ => Some 5) (fun _ => "0x5"%string) "5" ViewsDemo.state eq_refl)
    as (_ & _ & _ & _ & _ & Hch & _ & Hh & Hm).
  split; [|split].
  - destruct (get_miner (fun _ => Some 5) (fun _ => "0x5"%string) "5" ViewsDemo.state) as [mv|] eqn:E; [|by vm_compute in E].
    exists mv. split; [done|]. destruct (Hm mv eq_refl) as (a & [= <-] & _ & _ & -> & _). by vm_compute.
  - rewrite Hch. by vm_compute.
  - apply Hh; simpl; [|by vm_compute|lia|lia]. lia.
Defined.

(** ** The payout threshold *)

(** The threshold the upstream pool keeps of a wallet, and the posts it received: a read
    gives it, a post that succeeds sets it; any request may fail. *)
Definition body_of (r : anyhow (Z * anyhow Json.Value)) : option Json.Value :=
  match r with Ok (status, Ok v) => if (400 <=? status) && (status <? 600) then None else Some v | _ => None end.

Class HashvaultLaws (W : Type) `{HashvaultEnv W} := {
  threshold_of : string -> W -> Z;
  posts : W -> nat;
  hl_get : forall url w r w', http_get url w = (r, w') ->
    (forall u, threshold_of u w' = threshold_of u w) /\ posts w' = posts w /\
    forall v t, body_of r = Some v -> Json.get "threshold" v = Some (Json.Int t) -> t = threshold_of url w;
  hl_fields : forall url w r w' v kvs, http_get url w = (r, w') -> body_of r = Some v ->
    Json.struct_fields ["threshold"%string] 0 v = Some kvs -> v = Json.Object kvs;
  hl_post : forall url a w r w', http_post url (Json.Object [("threshold"%string, Json.Int a)]) w = (r, w') ->
    posts w' = S (posts w) /\
    forall v kvs s, body_of r = Some v -> Json.struct_fields ["status"%string] 1 v = Some kvs ->
      Json.field_value "status" kvs = Some (Json.Str s) -> Text.to_ascii_lowercase s = "success"%string ->
      threshold_of url w' = a;
}.

Section Threshold.
Context {W : Type} `{HashvaultLaws W}.
Variable base_url : string.

Lemma reply_json_ok s d url r v : reply_json (W := W) s d url r = Ok v -> body_of r = Some v.
Proof. destruct r as [[st [b|]]|]; simpl; [destruct (_ && _)| |]; try congruence. by destruct (_ && _). Qed.

Lemma get_threshold_spec wallet w t w' :
  get_threshold base_url wallet w = (Ok t, w') ->
  t = threshold_of (threshold_url base_url wallet) w /\
  (forall u, threshold_of u w' = threshold_of u w) /\ posts w' = posts w.
Proof.
  unfold get_threshold. destruct (http_get _ w) as [r w1] eqn:Eg. destruct (hl_get _ _ _ _ Eg) as (Hf & Hp & Ht).
  destruct (reply_json _ _ _ r) as [v|] eqn:Er; [|done]. apply reply_json_ok in Er.
  destruct (Json.struct_fields ["threshold"%string] 0 v) as [kvs|] eqn:Es; [|done]. simpl.
  destruct (Json.field_value "threshold" kvs) as [x|] eqn:Ex; [|done]. simpl.
  destruct (Json.as_u64 x) as [t'|] eqn:Et; [|done]. intros [= -> <-]. split; [|done].
  apply (Ht v t Er). rewrite (hl_fields _ _ _ _ _ _ Eg Er Es). simpl. unfold Json.field_value in Ex. rewrite Ex.
  destruct x; simpl in Et; try done. case_match; simplify_eq. done.
Qed.

(** The minimum is set once: when the call returns, the upstream pool has it, and a
    pool that has it is not asked again. *)
Lemma threshold_ensured wallet w was now_ w' :
  ensure_min_threshold base_url wallet w = (Ok (was, now_), w') ->
  now_ = MIN_PAYOUT_ATOMIC /\ was = threshold_of (threshold_url base_url wallet) w /\
  threshold_of (threshold_url base_url wallet) w' = MIN_PAYOUT_ATOMIC /\
  posts w' = (if was =? MIN_PAYOUT_ATOMIC then posts w else S (posts w)).
Proof.
  unfold ensure_min_threshold. destruct (get_threshold base_url wallet w) as [[t|] w1] eqn:Eg; [|done].
  apply get_threshold_spec in Eg as (-> & Hf & Hp).
  destruct (Z.eqb_spec (threshold_of (threshold_url base_url wallet) w) MIN_PAYOUT_ATOMIC) as [E|E].
  - intros [= <- <- <-]. rewrite Hf, E. done.
  - unfold set_threshold. rewrite Z.ltb_irrefl. destruct (http_post _ _ w1) as [r w2] eqn:Epost.
    destruct (hl_post _ _ _ _ _ Epost) as [Hps Hset]. destruct (reply_json _ _ _ r) as [v|] eqn:Er; [|done]. apply reply_json_ok in Er.
    destruct (Json.struct_fields ["status"%string] 1 v) as [kvs|] eqn:Es; [|done].
    destruct (Json.field_value "status" kvs) as [[]|] eqn:Ex; try done.
    destruct (String.eqb_spec (Text.to_ascii_lowercase s) "success"); [|done]. intros [= <- <- <-].
    split_and!; [done|done|by eapply Hset|]. rewrite (proj2 (Z.eqb_neq _ _) E). congruence.
Qed.

End Threshold.

End Operator.
