(* ===== verification/PoolConfig.v ===== *)
(** The configuration of the pool: pool-core/src/config.rs.

    Every section is a record with its defaults, read from a document as the derived
    [Deserialize] instances read it: a field is required, optional or has a default, and
    other keys are ignored.  The TOML reader is a parameter. *)
From S2P Require Import Prelude Text Floats Json Vardiff Wallet.
Import Wallet.

Module PoolConfig.

(** ** The reader *)

(** A document; [struct_fields]: the value of each of the fields of a structure that the
    document gives; and the values of the basic types.  [de_uint m] reads an unsigned
    integer up to [m]; [de_variant] the name of a variant without fields. *)
Class Toml (V : Type) := {
  from_str : string -> option V;
  struct_fields : list string -> V -> option (list (string * V));
  de_string : V -> option string;
  de_bool : V -> option bool;
  de_uint : Z -> V -> option Z;
  de_f64 : V -> option F.f64;
  de_seq : V -> option (list V);
  de_variant : V -> option string;
}.

Fixpoint find {V} (k : string) (kvs : list (string * V)) : option V :=
  match kvs with
  | [] => None
  | (k', v) :: kvs' => if String.eqb k k' then Some v else find k kvs'
  end.

Section Fields.
Context {V A : Type}.
Implicit Types (kvs : list (string * V)) (de : V -> option A).

(** A field without an attribute, of a type other than [Option]; with
    [#[serde(default = ..)]]; and of type [Option]. *)
Definition required de (k : string) kvs : option A := find k kvs ≫= de.
Definition or_default (d : A) de (k : string) kvs : option A :=
  match find k kvs with Some v => de v | None => Some d end.
Definition optional de (k : string) kvs : option (option A) :=
  match find k kvs with Some v => Some <$> de v | None => Some None end.

End Fields.

(** ** The sections *)

Record EndpointRegistryConfig : Type := { er_enabled : bool; er_address : string }.

Record OracleConfig : Type := {
  or_enabled : bool;
  or_registry_address : string;
  or_bind : string;
  or_signer_kms_label : string;
  or_hidden_service_dir : string;
  or_max_source_rpcs : Z;
  or_rate_limit_per_sec : Z;
  or_global_rate_limit_per_sec : Z;
  or_report_ttl_secs : Z;
  or_allow_signer_rotation : bool;
}.

Definition default_oracle : OracleConfig := {|
  or_enabled := false;
  or_registry_address := "";
  or_bind := "127.0.0.1:8081";
  or_signer_kms_label := "crossroads-evm-block-hash-signer-v1";
  or_hidden_service_dir := "/data/tor/oracle_hs";
  or_max_source_rpcs := 8;
  or_rate_limit_per_sec := 3;
  or_global_rate_limit_per_sec := 30;
  or_report_ttl_secs := 1800;
  or_allow_signer_rotation := false;
|}.

Inductive FeeMode : Type := Fixed | Adaptive.

Record FeeSwapConfig : Type := {
  fs_enabled : bool;
  fs_fee_swapper_address : string;
  fs_rent_floor_wei : string;
  fs_rent_target_wei : string;
  fs_min_swap_atomic : Z;
  fs_max_swap_atomic : Z;
  fs_slippage_bps : Z;
  fs_check_interval_secs : Z;
  fs_jitter_secs : Z;
  fs_min_swap_gas_multiple : Z;
}.

Definition default_min_swap_gas_multiple : Z := 5.
Definition default_rent_floor_wei : string := "5000000000000000000".
Definition default_rent_target_wei : string := "50000000000000000000".
Definition default_min_swap_atomic : Z := 100000000.
Definition default_max_swap_atomic : Z := 5000000000.
Definition default_fee_slippage_bps : Z := 200.
Definition default_fee_check_interval_secs : Z := 600.
Definition default_fee_jitter_secs : Z := 1800.

Definition default_fee_swap : FeeSwapConfig := {|
  fs_enabled := false;
  fs_fee_swapper_address := "";
  fs_rent_floor_wei := default_rent_floor_wei;
  fs_rent_target_wei := default_rent_target_wei;
  fs_min_swap_atomic := default_min_swap_atomic;
  fs_max_swap_atomic := default_max_swap_atomic;
  fs_slippage_bps := default_fee_slippage_bps;
  fs_check_interval_secs := default_fee_check_interval_secs;
  fs_jitter_secs := default_fee_jitter_secs;
  fs_min_swap_gas_multiple := default_min_swap_gas_multiple;
|}.

Record TorConfig : Type := { tor_enabled : bool; tor_socks5h : string; tor_hidden_service_dir : string }.

Definition default_tor_socks : string := "socks5h://127.0.0.1:9050".
Definition default_hidden_service_dir : string := "/data/tor/hidden_service".
Definition default_tor : TorConfig :=
  {| tor_enabled := false; tor_socks5h := default_tor_socks; tor_hidden_service_dir := default_hidden_service_dir |}.

(** [TorConfig::apply]: the proxy of an HTTP client, if any; [proxy_ok]: whether the
    HTTP library takes the address. *)
Definition apply (proxy_ok : string -> bool) (t : TorConfig) : option string :=
  if negb (tor_enabled t) then None
  else if proxy_ok (tor_socks5h t) then Some (tor_socks5h t) else None.

Record SelfFundConfig : Type := {
  sf_enabled : bool;
  sf_rent_payer_address : string;
  sf_provider_hex : string;
  sf_instance_id_hex : string;
  sf_safety_window_secs : Z;
  sf_max_topup_term : Z;
  sf_min_topup_interval_secs : Z;
  sf_min_check_interval_secs : Z;
  sf_max_check_interval_secs : Z;
  sf_reserve_floor_wei : string;
  sf_force_first_topup : bool;
}.

Definition default_safety_window : Z := 1200.
Definition default_max_topup_term : Z := 2.
Definition default_self_fund_check_max : Z := 3600.
Definition default_min_topup_interval : Z := 600.
Definition default_self_fund_check : Z := 120.

Definition default_self_fund : SelfFundConfig := {|
  sf_enabled := false;
  sf_rent_payer_address := "";
  sf_provider_hex := "";
  sf_instance_id_hex := "";
  sf_safety_window_secs := default_safety_window;
  sf_max_topup_term := default_max_topup_term;
  sf_min_topup_interval_secs := default_min_topup_interval;
  sf_min_check_interval_secs := default_self_fund_check;
  sf_max_check_interval_secs := default_self_fund_check_max;
  sf_reserve_floor_wei := "";
  sf_force_first_topup := false;
|}.

Inductive RandomxMode : Type := Light | Full.
Record RandomxConfig : Type := { rx_mode : RandomxMode }.

Record StratumConfig : Type := {
  st_bind : string;
  st_tls_cert : option string;
  st_tls_key : option string;
  st_min_share_difficulty : Z;
  st_target_seconds_per_share : Z;
  st_max_submits_per_second : Z;
  st_verification_warmup : Z;
  st_verification_sample_rate : F.f64;
  st_share_grace_secs : Z;
  st_idle_timeout_secs : Z;
  st_vardiff : Vardiff.VardiffConfig;
}.

Definition default_vardiff : Vardiff.VardiffConfig := {|
  Vardiff.cfg_sample_size := 16;
  Vardiff.cfg_variance_percent := F.of_Z 30;
  Vardiff.cfg_max_gain_factor := F.of_Z 2;
  Vardiff.cfg_max_drop_factor := F.lit 7 10;
|}.

Definition default_verification_warmup : Z := 5.
Definition default_verification_sample_rate : F.f64 := F.lit 1 10.
Definition default_share_grace_secs : Z := 1.
Definition default_idle_timeout_secs : Z := 600.

Record UpstreamConfig : Type := {
  up_url : string;
  up_user : string;
  up_password : string;
  up_keepalive_secs : Z;
  up_socks5h_proxy : option string;
  up_tls_pin_sha256 : option string;
  up_login_address_network : option string;
  up_direct : bool;
}.

Record PpsConfig : Type := {
  pps_pool_fee : F.f64;
  pps_fee_mode : FeeMode;
  pps_fee_min : option F.f64;
  pps_fee_max : option F.f64;
  pps_risk_buffer : F.f64;
  pps_upstream_fee : F.f64;
  pps_operational_cost : Z;
  pps_monerod_rpc : string;
  pps_monerod_rpc_pool : list string;
  pps_quorum_size : Z;
  pps_sample_size : Z;
  pps_refresh_secs : Z;
}.

Definition default_quorum_size : Z := 2.

Record RedisConfig : Type := { redis_url : string }.

Record L2Config : Type := {
  l2_rpc_ws : string;
  l2_chain_id : Z;
  l2_mining_pool_token_address : string;
  l2_signer_key_path : string;
  l2_rpc_http : option string;
  l2_events_from_block : Z;
  l2_events_chunk_size : Z;
  l2_events_poll_secs : Z;
}.

Definition default_events_chunk : Z := 100.
Definition default_events_poll_secs : Z := 5.

Record MoneroConfig : Type := {
  xmr_wallet_rpc : string;
  xmr_wallet_rpc_user : option string;
  xmr_wallet_rpc_pass : option string;
  xmr_min_reserve_ratio : F.f64;
  xmr_per_tx_cap_atomic : Z;
  xmr_per_day_cap_atomic : Z;
  xmr_max_payout_premium_bp : Z;
  xmr_confirm_wait_secs : Z;
  xmr_network : Network;
  xmr_wallet_filename : string;
  xmr_wallet_password : string;
  xmr_restore_height_lookback : Z;
  xmr_treasury_refresh_secs : Z;
}.

Definition default_treasury_refresh_secs : Z := 120.
Definition default_restore_lookback : Z := 720.
Definition default_max_payout_premium_bp : Z := 0.
Definition default_confirm_wait_secs : Z := 600.
Definition default_monero_network : Network := Testnet.
Definition default_wallet_filename : string := "pool".

Record OperatorApiConfig : Type := { api_bind : string }.

Record HashVaultConfig : Type := { hv_enabled : bool; hv_base_url : string; hv_refresh_secs : Z; hv_set_threshold : bool }.
Record SingleActiveConfig : Type := { sa_enabled : bool; sa_settle_secs : Z; sa_node_aware : bool }.

Definition default_settle_secs : Z := 90.
Definition default_single_active : SingleActiveConfig :=
  {| sa_enabled := true; sa_settle_secs := default_settle_secs; sa_node_aware := false |}.

Definition default_hashvault_base : string := "https://api.hashvault.pro".
Definition default_hashvault_refresh : Z := 60.
Definition default_true : bool := true.
Definition default_hashvault : HashVaultConfig :=
  {| hv_enabled := false; hv_base_url := default_hashvault_base; hv_refresh_secs := default_hashvault_refresh; hv_set_threshold := true |}.

Record Config : Type := {
  stratum : StratumConfig;
  upstream : UpstreamConfig;
  pps : PpsConfig;
  redis : RedisConfig;
  l2 : L2Config;
  monero : MoneroConfig;
  operator_api : OperatorApiConfig;
  randomx : RandomxConfig;
  tor : TorConfig;
  hashvault : HashVaultConfig;
  single_active : SingleActiveConfig;
  fee_swap : FeeSwapConfig;
  reveal_wallet_address_once : bool;
  reveal_wallet_pubkey : option string;
  self_fund : SelfFundConfig;
  endpoint_registry : EndpointRegistryConfig;
  oracle : OracleConfig;
}.

(** ** Reading the sections *)

(** [str::replace], over the characters left to skip of a match. *)
Fixpoint replace_go (skip : nat) (pat to_ s : string) : string :=
  match s with
  | EmptyString => EmptyString
  | String c s' =>
      match skip with
      | S k => replace_go k pat to_ s'
      | O => if Text.starts_with pat s then to_ +:+ replace_go (pred (String.length pat)) pat to_ s'
             else String c (replace_go O pat to_ s')
      end
  end.
Definition replace (pat to_ s : string) : string := replace_go O pat to_ s.

Definition http_url (c : L2Config) : string :=
  match l2_rpc_http c with
  | Some u => u
  | None => replace "ws://" "http://" (replace "wss://" "https://" (l2_rpc_ws c))
  end.

Section Read.
Context {V : Type} `{Toml V}.

Definition de_u8 : V -> option Z := de_uint 255.
Definition de_u32 : V -> option Z := de_uint u32_max.
Definition de_u64 : V -> option Z := de_uint u64_max.
Definition de_strings (v : V) : option (list string) := de_seq v ≫= mapM de_string.

Definition de_fee_mode (v : V) : option FeeMode :=
  n ← de_variant v;
  if String.eqb n "fixed" then Some Fixed else if String.eqb n "adaptive" then Some Adaptive else None.

Definition de_randomx_mode (v : V) : option RandomxMode :=
  n ← de_variant v; if String.eqb n "light" then Some Light else if String.eqb n "full" then Some Full else None.

Definition de_network (v : V) : option Network :=
  n ← de_variant v;
  if String.eqb n "mainnet" then Some Mainnet
  else if String.eqb n "testnet" then Some Testnet
  else if String.eqb n "stagenet" then Some Stagenet else None.

Definition de_endpoint_registry (v : V) : option EndpointRegistryConfig :=
  f ← struct_fields ["enabled"; "address"] v;
  enabled ← or_default false de_bool "enabled" f;
  address ← or_default ""%string de_string "address" f;
  Some {| er_enabled := enabled; er_address := address |}.

Definition de_oracle (v : V) : option OracleConfig :=
  f ← struct_fields ["enabled"; "registry_address"; "bind"; "signer_kms_label"; "hidden_service_dir"; "max_source_rpcs";
    "rate_limit_per_sec"; "global_rate_limit_per_sec"; "report_ttl_secs"; "allow_signer_rotation"] v;
  enabled ← or_default (or_enabled default_oracle) de_bool "enabled" f;
  registry_address ← or_default (or_registry_address default_oracle) de_string "registry_address" f;
  bind ← or_default (or_bind default_oracle) de_string "bind" f;
  label ← or_default (or_signer_kms_label default_oracle) de_string "signer_kms_label" f;
  dir ← or_default (or_hidden_service_dir default_oracle) de_string "hidden_service_dir" f;
  rpcs ← or_default (or_max_source_rpcs default_oracle) de_u32 "max_source_rpcs" f;
  per_sec ← or_default (or_rate_limit_per_sec default_oracle) de_u32 "rate_limit_per_sec" f;
  global ← or_default (or_global_rate_limit_per_sec default_oracle) de_u32 "global_rate_limit_per_sec" f;
  ttl ← or_default (or_report_ttl_secs default_oracle) de_u64 "report_ttl_secs" f;
  rotation ← or_default (or_allow_signer_rotation default_oracle) de_bool "allow_signer_rotation" f;
  Some {| or_enabled := enabled; or_registry_address := registry_address; or_bind := bind; or_signer_kms_label := label;
    or_hidden_service_dir := dir; or_max_source_rpcs := rpcs; or_rate_limit_per_sec := per_sec;
    or_global_rate_limit_per_sec := global; or_report_ttl_secs := ttl; or_allow_signer_rotation := rotation |}.

Definition de_fee_swap (v : V) : option FeeSwapConfig :=
  f ← struct_fields ["enabled"; "fee_swapper_address"; "rent_floor_wei"; "rent_target_wei"; "min_swap_atomic"; "max_swap_atomic";
    "slippage_bps"; "check_interval_secs"; "jitter_secs"; "min_swap_gas_multiple"] v;
  enabled ← or_default false de_bool "enabled" f;
  address ← or_default ""%string de_string "fee_swapper_address" f;
  floor ← or_default default_rent_floor_wei de_string "rent_floor_wei" f;
  target ← or_default default_rent_target_wei de_string "rent_target_wei" f;
  min_swap ← or_default default_min_swap_atomic de_u64 "min_swap_atomic" f;
  max_swap ← or_default default_max_swap_atomic de_u64 "max_swap_atomic" f;
  bps ← or_default default_fee_slippage_bps de_u64 "slippage_bps" f;
  check ← or_default default_fee_check_interval_secs de_u64 "check_interval_secs" f;
  jitter ← or_default default_fee_jitter_secs de_u64 "jitter_secs" f;
  multiple ← or_default default_min_swap_gas_multiple de_u64 "min_swap_gas_multiple" f;
  Some {| fs_enabled := enabled; fs_fee_swapper_address := address; fs_rent_floor_wei := floor; fs_rent_target_wei := target;
    fs_min_swap_atomic := min_swap; fs_max_swap_atomic := max_swap; fs_slippage_bps := bps; fs_check_interval_secs := check;
    fs_jitter_secs := jitter; fs_min_swap_gas_multiple := multiple |}.

Definition de_tor (v : V) : option TorConfig :=
  f ← struct_fields ["enabled"; "socks5h"; "hidden_service_dir"] v;
  enabled ← or_default false de_bool "enabled" f;
  socks ← or_default default_tor_socks de_string "socks5h" f;
  dir ← or_default default_hidden_service_dir de_string "hidden_service_dir" f;
  Some {| tor_enabled := enabled; tor_socks5h := socks; tor_hidden_service_dir := dir |}.

Definition de_self_fund (v : V) : option SelfFundConfig :=
  f ← struct_fields ["enabled"; "rent_payer_address"; "provider_hex"; "instance_id_hex"; "safety_window_secs"; "max_topup_term";
    "min_topup_interval_secs"; "min_check_interval_secs"; "max_check_interval_secs"; "reserve_floor_wei"; "force_first_topup"] v;
  enabled ← or_default false de_bool "enabled" f;
  payer ← or_default ""%string de_string "rent_payer_address" f;
  provider ← or_default ""%string de_string "provider_hex" f;
  instance ← or_default ""%string de_string "instance_id_hex" f;
  window ← or_default default_safety_window de_u64 "safety_window_secs" f;
  term ← or_default default_max_topup_term de_u8 "max_topup_term" f;
  interval ← or_default default_min_topup_interval de_u64 "min_topup_interval_secs" f;
  min_check ← or_default default_self_fund_check de_u64 "min_check_interval_secs" f;
  max_check ← or_default default_self_fund_check_max de_u64 "max_check_interval_secs" f;
  floor ← or_default ""%string de_string "reserve_floor_wei" f;
  force ← or_default false de_bool "force_first_topup" f;
  Some {| sf_enabled := enabled; sf_rent_payer_address := payer; sf_provider_hex := provider; sf_instance_id_hex := instance;
    sf_safety_window_secs := window; sf_max_topup_term := term; sf_min_topup_interval_secs := interval;
    sf_min_check_interval_secs := min_check; sf_max_check_interval_secs := max_check; sf_reserve_floor_wei := floor;
    sf_force_first_topup := force |}.

Definition de_randomx (v : V) : option RandomxConfig :=
  f ← struct_fields ["mode"] v; mode ← or_default Light de_randomx_mode "mode" f; Some {| rx_mode := mode |}.

Definition de_vardiff (v : V) : option Vardiff.VardiffConfig :=
  f ← struct_fields ["sample_size"; "variance_percent"; "max_gain_factor"; "max_drop_factor"] v;
  n ← or_default (Vardiff.cfg_sample_size default_vardiff) de_u32 "sample_size" f;
  variance ← or_default (Vardiff.cfg_variance_percent default_vardiff) de_f64 "variance_percent" f;
  gain ← or_default (Vardiff.cfg_max_gain_factor default_vardiff) de_f64 "max_gain_factor" f;
  drop_ ← or_default (Vardiff.cfg_max_drop_factor default_vardiff) de_f64 "max_drop_factor" f;
  Some {| Vardiff.cfg_sample_size := n; Vardiff.cfg_variance_percent := variance; Vardiff.cfg_max_gain_factor := gain;
    Vardiff.cfg_max_drop_factor := drop_ |}.

Definition de_stratum (v : V) : option StratumConfig :=
  f ← struct_fields ["bind"; "tls_cert"; "tls_key"; "min_share_difficulty"; "target_seconds_per_share"; "max_submits_per_second";
    "verification_warmup"; "verification_sample_rate"; "share_grace_secs"; "idle_timeout_secs"; "vardiff"] v;
  bind ← required de_string "bind" f;
  cert ← optional de_string "tls_cert" f;
  key ← optional de_string "tls_key" f;
  min_diff ← required de_u64 "min_share_difficulty" f;
  target ← required de_u32 "target_seconds_per_share" f;
  submits ← required de_u32 "max_submits_per_second" f;
  warmup ← or_default default_verification_warmup de_u32 "verification_warmup" f;
  rate ← or_default default_verification_sample_rate de_f64 "verification_sample_rate" f;
  grace ← or_default default_share_grace_secs de_u32 "share_grace_secs" f;
  idle ← or_default default_idle_timeout_secs de_u32 "idle_timeout_secs" f;
  vardiff ← or_default default_vardiff de_vardiff "vardiff" f;
  Some {| st_bind := bind; st_tls_cert := cert; st_tls_key := key; st_min_share_difficulty := min_diff;
    st_target_seconds_per_share := target; st_max_submits_per_second := submits; st_verification_warmup := warmup;
    st_verification_sample_rate := rate; st_share_grace_secs := grace; st_idle_timeout_secs := idle; st_vardiff := vardiff |}.

Definition de_upstream (v : V) : option UpstreamConfig :=
  f ← struct_fields ["url"; "user"; "password"; "keepalive_secs"; "socks5h_proxy"; "tls_pin_sha256"; "login_address_network";
    "direct"] v;
  url ← required de_string "url" f;
  user ← required de_string "user" f;
  password ← required de_string "password" f;
  keepalive ← required de_u32 "keepalive_secs" f;
  proxy ← optional de_string "socks5h_proxy" f;
  pin ← optional de_string "tls_pin_sha256" f;
  login ← optional de_string "login_address_network" f;
  direct ← or_default false de_bool "direct" f;
  Some {| up_url := url; up_user := user; up_password := password; up_keepalive_secs := keepalive; up_socks5h_proxy := proxy;
    up_tls_pin_sha256 := pin; up_login_address_network := login; up_direct := direct |}.

Definition de_pps (v : V) : option PpsConfig :=
  f ← struct_fields ["pool_fee"; "fee_mode"; "fee_min"; "fee_max"; "risk_buffer"; "upstream_fee";
    "operational_cost_atomic_xmr_per_second"; "monerod_rpc"; "monerod_rpc_pool"; "quorum_size"; "sample_size"; "refresh_secs"] v;
  fee ← required de_f64 "pool_fee" f;
  mode ← or_default Fixed de_fee_mode "fee_mode" f;
  fee_min ← optional de_f64 "fee_min" f;
  fee_max ← optional de_f64 "fee_max" f;
  risk ← required de_f64 "risk_buffer" f;
  up_fee ← required de_f64 "upstream_fee" f;
  cost ← required de_u64 "operational_cost_atomic_xmr_per_second" f;
  rpc ← or_default ""%string de_string "monerod_rpc" f;
  rpc_pool ← or_default [] de_strings "monerod_rpc_pool" f;
  quorum ← or_default default_quorum_size de_u64 "quorum_size" f;
  sample ← or_default 0 de_u64 "sample_size" f;
  refresh ← required de_u32 "refresh_secs" f;
  Some {| pps_pool_fee := fee; pps_fee_mode := mode; pps_fee_min := fee_min; pps_fee_max := fee_max; pps_risk_buffer := risk;
    pps_upstream_fee := up_fee; pps_operational_cost := cost; pps_monerod_rpc := rpc; pps_monerod_rpc_pool := rpc_pool;
    pps_quorum_size := quorum; pps_sample_size := sample; pps_refresh_secs := refresh |}.

Definition de_redis (v : V) : option RedisConfig :=
  f ← struct_fields ["url"] v; url ← required de_string "url" f; Some {| redis_url := url |}.

Definition de_l2 (v : V) : option L2Config :=
  f ← struct_fields ["rpc_ws"; "chain_id"; "mining_pool_token_address"; "signer_key_path"; "rpc_http"; "events_from_block";
    "events_chunk_size"; "events_poll_secs"] v;
  ws ← required de_string "rpc_ws" f;
  chain ← required de_u64 "chain_id" f;
  token ← required de_string "mining_pool_token_address" f;
  key ← required de_string "signer_key_path" f;
  http ← optional de_string "rpc_http" f;
  from ← or_default 0 de_u64 "events_from_block" f;
  chunk ← or_default default_events_chunk de_u64 "events_chunk_size" f;
  poll ← or_default default_events_poll_secs de_u64 "events_poll_secs" f;
  Some {| l2_rpc_ws := ws; l2_chain_id := chain; l2_mining_pool_token_address := token; l2_signer_key_path := key;
    l2_rpc_http := http; l2_events_from_block := from; l2_events_chunk_size := chunk; l2_events_poll_secs := poll |}.

Definition de_monero (v : V) : option MoneroConfig :=
  f ← struct_fields ["wallet_rpc"; "wallet_rpc_user"; "wallet_rpc_pass"; "min_reserve_ratio"; "per_tx_cap_atomic";
    "per_day_cap_atomic"; "max_payout_premium_bp"; "confirm_wait_secs"; "network"; "wallet_filename"; "wallet_password";
    "restore_height_lookback"; "treasury_refresh_secs"] v;
  rpc ← required de_string "wallet_rpc" f;
  rpc_user ← optional de_string "wallet_rpc_user" f;
  rpc_pass ← optional de_string "wallet_rpc_pass" f;
  ratio ← required de_f64 "min_reserve_ratio" f;
  tx_cap ← required de_u64 "per_tx_cap_atomic" f;
  day_cap ← required de_u64 "per_day_cap_atomic" f;
  premium ← or_default default_max_payout_premium_bp de_u32 "max_payout_premium_bp" f;
  wait_ ← or_default default_confirm_wait_secs de_u64 "confirm_wait_secs" f;
  network ← or_default default_monero_network de_network "network" f;
  filename ← or_default default_wallet_filename de_string "wallet_filename" f;
  password ← or_default ""%string de_string "wallet_password" f;
  lookback ← or_default default_restore_lookback de_u64 "restore_height_lookback" f;
  refresh ← or_default default_treasury_refresh_secs de_u64 "treasury_refresh_secs" f;
  Some {| xmr_wallet_rpc := rpc; xmr_wallet_rpc_user := rpc_user; xmr_wallet_rpc_pass := rpc_pass; xmr_min_reserve_ratio := ratio;
    xmr_per_tx_cap_atomic := tx_cap; xmr_per_day_cap_atomic := day_cap; xmr_max_payout_premium_bp := premium;
    xmr_confirm_wait_secs := wait_; xmr_network := network; xmr_wallet_filename := filename; xmr_wallet_password := password;
    xmr_restore_height_lookback := lookback; xmr_treasury_refresh_secs := refresh |}.

Definition de_operator_api (v : V) : option OperatorApiConfig :=
  f ← struct_fields ["bind"] v; bind ← required de_string "bind" f; Some {| api_bind := bind |}.

Definition de_hashvault (v : V) : option HashVaultConfig :=
  f ← struct_fields ["enabled"; "base_url"; "refresh_secs"; "set_threshold"] v;
  enabled ← or_default false de_bool "enabled" f;
  base ← or_default default_hashvault_base de_string "base_url" f;
  refresh ← or_default default_hashvault_refresh de_u32 "refresh_secs" f;
  set ← or_default default_true de_bool "set_threshold" f;
  Some {| hv_enabled := enabled; hv_base_url := base; hv_refresh_secs := refresh; hv_set_threshold := set |}.

Definition de_single_active (v : V) : option SingleActiveConfig :=
  f ← struct_fields ["enabled"; "settle_secs"; "node_aware"] v;
  enabled ← or_default default_true de_bool "enabled" f;
  settle ← or_default default_settle_secs de_u64 "settle_secs" f;
  aware ← or_default false de_bool "node_aware" f;
  Some {| sa_enabled := enabled; sa_settle_secs := settle; sa_node_aware := aware |}.

Definition de_config (v : V) : option Config :=
  f ← struct_fields ["stratum"; "upstream"; "pps"; "redis"; "l2"; "monero"; "operator_api"; "randomx"; "tor"; "hashvault";
    "single_active"; "fee_swap"; "reveal_wallet_address_once"; "reveal_wallet_pubkey"; "self_fund"; "endpoint_registry";
    "oracle"] v;
  stratum_ ← required de_stratum "stratum" f;
  upstream_ ← required de_upstream "upstream" f;
  pps_ ← required de_pps "pps" f;
  redis_ ← required de_redis "redis" f;
  l2_ ← required de_l2 "l2" f;
  monero_ ← required de_monero "monero" f;
  api ← required de_operator_api "operator_api" f;
  randomx_ ← or_default {| rx_mode := Light |} de_randomx "randomx" f;
  tor_ ← or_default default_tor de_tor "tor" f;
  hashvault_ ← or_default default_hashvault de_hashvault "hashvault" f;
  single ← or_default default_single_active de_single_active "single_active" f;
  swap ← or_default default_fee_swap de_fee_swap "fee_swap" f;
  once ← or_default false de_bool "reveal_wallet_address_once" f;
  pubkey ← optional de_string "reveal_wallet_pubkey" f;
  fund ← or_default default_self_fund de_self_fund "self_fund" f;
  registry ← or_default {| er_enabled := false; er_address := "" |} de_endpoint_registry "endpoint_registry" f;
  oracle_ ← or_default default_oracle de_oracle "oracle" f;
  Some {| stratum := stratum_; upstream := upstream_; pps := pps_; redis := redis_; l2 := l2_; monero := monero_;
    operator_api := api; randomx := randomx_; tor := tor_; hashvault := hashvault_; single_active := single; fee_swap := swap;
    reveal_wallet_address_once := once; reveal_wallet_pubkey := pubkey; self_fund := fund; endpoint_registry := registry;
    oracle := oracle_ |}.

Inductive ConfigError : Type := Io | Parse.

(** [Config::load], on what reading the file gave. *)
Definition load (raw : option string) : result ConfigError Config :=
  match raw with
  | None => Err Io
  | Some raw => match from_str raw ≫= de_config with Some c => Ok c | None => Err Parse end
  end.

End Read.

(** ** What is known of a configuration *)

(** An unsigned integer is read within its width. *)
Class TomlLaws (V : Type) `{Toml V} := {
  tl_uint : forall m v z, de_uint m v = Some z -> 0 <= z <= m;
}.

Definition vardiff_typed (c : Vardiff.VardiffConfig) : Prop := is_u32 (Vardiff.cfg_sample_size c).
Definition stratum_typed (c : StratumConfig) : Prop :=
  is_u64 (st_min_share_difficulty c) /\ is_u32 (st_target_seconds_per_share c) /\ is_u32 (st_max_submits_per_second c) /\
  is_u32 (st_verification_warmup c) /\ is_u32 (st_share_grace_secs c) /\ is_u32 (st_idle_timeout_secs c) /\
  vardiff_typed (st_vardiff c).
Definition upstream_typed (c : UpstreamConfig) : Prop := is_u32 (up_keepalive_secs c).
Definition hashvault_typed (c : HashVaultConfig) : Prop := is_u32 (hv_refresh_secs c).
Definition single_active_typed (c : SingleActiveConfig) : Prop := is_u64 (sa_settle_secs c).
Definition pps_typed (c : PpsConfig) : Prop :=
  is_u64 (pps_operational_cost c) /\ is_u64 (pps_quorum_size c) /\ is_u64 (pps_sample_size c) /\ is_u32 (pps_refresh_secs c).
Definition l2_typed (c : L2Config) : Prop :=
  is_u64 (l2_chain_id c) /\ is_u64 (l2_events_from_block c) /\ is_u64 (l2_events_chunk_size c) /\ is_u64 (l2_events_poll_secs c).
Definition monero_typed (c : MoneroConfig) : Prop :=
  is_u64 (xmr_per_tx_cap_atomic c) /\ is_u64 (xmr_per_day_cap_atomic c) /\ is_u32 (xmr_max_payout_premium_bp c) /\
  is_u64 (xmr_confirm_wait_secs c) /\ is_u64 (xmr_restore_height_lookback c) /\ is_u64 (xmr_treasury_refresh_secs c).
Definition fee_swap_typed (c : FeeSwapConfig) : Prop :=
  is_u64 (fs_min_swap_atomic c) /\ is_u64 (fs_max_swap_atomic c) /\ is_u64 (fs_slippage_bps c) /\
  is_u64 (fs_check_interval_secs c) /\ is_u64 (fs_jitter_secs c) /\ is_u64 (fs_min_swap_gas_multiple c).
Definition self_fund_typed (c : SelfFundConfig) : Prop :=
  is_u64 (sf_safety_window_secs c) /\ is_u8 (sf_max_topup_term c) /\ is_u64 (sf_min_topup_interval_secs c) /\
  is_u64 (sf_min_check_interval_secs c) /\ is_u64 (sf_max_check_interval_secs c).
Definition oracle_typed (c : OracleConfig) : Prop :=
  is_u32 (or_max_source_rpcs c) /\ is_u32 (or_rate_limit_per_sec c) /\ is_u32 (or_global_rate_limit_per_sec c) /\
  is_u64 (or_report_ttl_secs c).

Definition config_typed (c : Config) : Prop :=
  stratum_typed (stratum c) /\ upstream_typed (upstream c) /\ pps_typed (pps c) /\ l2_typed (l2 c) /\
  monero_typed (monero c) /\ hashvault_typed (hashvault c) /\ single_active_typed (single_active c) /\
  fee_swap_typed (fee_swap c) /\ self_fund_typed (self_fund c) /\ oracle_typed (oracle c).

Section Typed.
Context {V : Type} `{TomlLaws V}.

Lemma required_sat {A} (P : A -> Prop) (de : V -> option A) k f a :
  (forall v a, de v = Some a -> P a) -> required de k f = Some a -> P a.
Proof. intros Hde. unfold required. destruct (find k f) as [v|]; [|done]. apply Hde. Qed.

Lemma or_default_sat {A} (P : A -> Prop) (d : A) (de : V -> option A) k f a :
  P d -> (forall v a, de v = Some a -> P a) -> or_default d de k f = Some a -> P a.
Proof. intros Hd Hde. unfold or_default. destruct (find k f) as [v|]; [apply Hde|by intros [= <-]]. Qed.

Lemma de_u8_range (v : V) z : de_u8 v = Some z -> is_u8 z.
Proof. intros Hz. apply tl_uint in Hz. width_lia. Qed.
Lemma de_u32_range (v : V) z : de_u32 v = Some z -> is_u32 z.
Proof. intros Hz. apply tl_uint in Hz. width_lia. Qed.
Lemma de_u64_range (v : V) z : de_u64 v = Some z -> is_u64 z.
Proof. intros Hz. apply tl_uint in Hz. width_lia. Qed.

End Typed.

(** The fields of a structure that was read, one by one. *)
Ltac read_fields Hc :=
  repeat match type of Hc with
  | (_ ≫= _) = Some _ => let a := fresh "a" in let E := fresh "E" in apply bind_Some in Hc as (a & E & Hc)
  end; injection Hc as <-.

(** What holds of every value that is read, and of the default, holds of a field. *)
Ltac field_sat :=
  match goal with
  | |- ?P ?x =>
      match goal with
      | E : required ?de ?k ?f = Some x |- _ => refine (required_sat P de k f x _ E)
      | E : or_default ?d ?de ?k ?f = Some x |- _ => refine (or_default_sat P d de k f x _ _ E)
      end
  end.
Ltac field_width :=
  field_sat;
  lazymatch goal with
  | |- forall v a, de_u8 v = Some a -> is_u8 a => exact de_u8_range
  | |- forall v a, de_u32 v = Some a -> is_u32 a => exact de_u32_range
  | |- forall v a, de_u64 v = Some a -> is_u64 a => exact de_u64_range
  | |- forall v a, de_vardiff v = Some a -> _ => idtac
  | |- _ => by vm_compute
  end.

Section Reads.
Context {V : Type} `{TomlLaws V}.

Lemma de_vardiff_typed (v : V) c : de_vardiff v = Some c -> vardiff_typed c.
Proof. unfold de_vardiff. intros Hc. read_fields Hc. unfold vardiff_typed; simpl. field_width. Qed.

Lemma de_stratum_typed (v : V) c : de_stratum v = Some c -> stratum_typed c.
Proof.
  unfold de_stratum. intros Hc. read_fields Hc. unfold stratum_typed; simpl. split_and!; field_width. apply de_vardiff_typed.
Qed.

Lemma de_pps_typed (v : V) c : de_pps v = Some c -> pps_typed c.
Proof. unfold de_pps. intros Hc. read_fields Hc. unfold pps_typed; simpl. split_and!; field_width. Qed.

Lemma de_l2_typed (v : V) c : de_l2 v = Some c -> l2_typed c.
Proof. unfold de_l2. intros Hc. read_fields Hc. unfold l2_typed; simpl. split_and!; field_width. Qed.

Lemma de_monero_typed (v : V) c : de_monero v = Some c -> monero_typed c.
Proof. unfold de_monero. intros Hc. read_fields Hc. unfold monero_typed; simpl. split_and!; field_width. Qed.

Lemma de_fee_swap_typed (v : V) c : de_fee_swap v = Some c -> fee_swap_typed c.
Proof. unfold de_fee_swap. intros Hc. read_fields Hc. unfold fee_swap_typed; simpl. split_and!; field_width. Qed.

Lemma de_self_fund_typed (v : V) c : de_self_fund v = Some c -> self_fund_typed c.
Proof. unfold de_self_fund. intros Hc. read_fields Hc. unfold self_fund_typed; simpl. split_and!; field_width. Qed.

Lemma de_oracle_typed (v : V) c : de_oracle v = Some c -> oracle_typed c.
Proof. unfold de_oracle. intros Hc. read_fields Hc. unfold oracle_typed; simpl. split_and!; field_width. Qed.

Lemma de_upstream_typed (v : V) c : de_upstream v = Some c -> upstream_typed c.
Proof. unfold de_upstream. intros Hc. read_fields Hc. unfold upstream_typed; simpl. field_width. Qed.

Lemma de_hashvault_typed (v : V) c : de_hashvault v = Some c -> hashvault_typed c.
Proof. unfold de_hashvault. intros Hc. read_fields Hc. unfold hashvault_typed; simpl. field_width. Qed.

Lemma de_single_active_typed (v : V) c : de_single_active v = Some c -> single_active_typed c.
Proof. unfold de_single_active. intros Hc. read_fields Hc. unfold single_active_typed; simpl. field_width. Qed.

(** Whatever the file has, a configuration that loads has every number in the width of
    its field. *)
Lemma load_typed raw c : load raw = Ok c -> config_typed c.
Proof.
  unfold load. destruct raw as [raw|]; [|done]. destruct (from_str raw) as [v|]; [|done]. simpl.
  destruct (de_config v) as [c'|] eqn:Hc; [|done]. intros [= ->]. unfold de_config in Hc. read_fields Hc.
  unfold config_typed; simpl. split_and!; field_sat;
    [exact de_stratum_typed|exact de_upstream_typed|exact de_pps_typed|exact de_l2_typed|exact de_monero_typed
    |by vm_compute|exact de_hashvault_typed|by vm_compute|exact de_single_active_typed|by vm_compute|exact de_fee_swap_typed
    |by vm_compute|exact de_self_fund_typed|by vm_compute|exact de_oracle_typed].
Qed.

End Reads.

(** The defaults are in the order the tasks rely on: a drop is not a gain, the slippage
    is within the whole, the floor is below the target and a swap fits its bounds. *)
Lemma defaults_in_order :
  F.leb (Vardiff.cfg_max_drop_factor default_vardiff) (Vardiff.cfg_max_gain_factor default_vardiff) = true /\
  fs_slippage_bps default_fee_swap <= 10000 /\ fs_min_swap_atomic default_fee_swap <= fs_max_swap_atomic default_fee_swap /\
  (exists floor target, Text.parse_u128 (fs_rent_floor_wei default_fee_swap) = Some floor /\
    Text.parse_u128 (fs_rent_target_wei default_fee_swap) = Some target /\ floor < target) /\
  sf_min_check_interval_secs default_self_fund <= sf_max_check_interval_secs default_self_fund /\
  sf_safety_window_secs default_self_fund < 3600.
Proof.
  split; [by vm_compute|]. split; [by vm_compute|]. split; [by vm_compute|]. split; [|split; by vm_compute].
  eexists _, _. split; [by vm_compute|]. split; [by vm_compute|]. by vm_compute.
Qed.

(** ** A concrete document: the shape of deploy/pool.mainnet.toml *)

Module Demo.

Inductive Doc : Type := Text (s : string) | Int (z : Z) | Float (f : F.f64) | Boolean (b : bool) | Seq (l : list Doc) | Table (l : list (string * Doc)).

Definition section (k : string) (l : list (string * Doc)) : string * Doc := (k, Table l).
Definition text (k s : string) : string * Doc := (k, Text s).
Definition int (k : string) (z : Z) : string * Doc := (k, Int z).
Definition float (k : string) (n d : Z) : string * Doc := (k, Float (F.lit n d)).
Definition flag (k : string) (b : bool) : string * Doc := (k, Boolean b).

Definition mainnet : Doc := Table [
  flag "reveal_wallet_address_once" true;
  text "reveal_wallet_pubkey" "age1rqsg0h6c2yv0z7rddyvp57nxhv85hy7nt02xa7uq4lek8p050v0qxw6xs2";
  section "stratum" [text "bind" "0.0.0.0:3333"; int "min_share_difficulty" 10000; int "target_seconds_per_share" 20;
    int "max_submits_per_second" 5; int "verification_warmup" 5; float "verification_sample_rate" 10 100; int "share_grace_secs" 20;
    section "vardiff" [int "sample_size" 16; int "variance_percent" 30; float "max_gain_factor" 2 1; float "max_drop_factor" 7 10]];
  section "upstream" [text "url" "stratum+ssl://pool.hashvault.pro:443"; text "user" "auto"; text "password" "tiny-pool";
    int "keepalive_secs" 60];
  section "pps" [float "pool_fee" 5 100; text "fee_mode" "adaptive"; float "fee_min" 5 100; float "fee_max" 40 100;
    float "risk_buffer" 5 100; float "upstream_fee" 6 1000; int "operational_cost_atomic_xmr_per_second" 10000;
    int "refresh_secs" 60; ("monerod_rpc_pool"%string, Seq [Text "https://rpc.monerosafe.com/json_rpc"; Text "https://node.mon3ro.com/json_rpc"]);
    int "quorum_size" 2; int "sample_size" 3; text "monerod_rpc" ""];
  section "redis" [text "url" "redis://127.0.0.1:6379"];
  section "l2" [text "rpc_ws" "wss://sapphire.oasis.io/ws"; text "rpc_http" "https://sapphire.oasis.io"; int "chain_id" 23294;
    text "mining_pool_token_address" "0x455C6b18d3ea98149618c2478422E97e6d976fD4"; int "events_from_block" 1;
    text "signer_key_path" "/run/secrets/pool_signer.key"];
  section "monero" [text "wallet_rpc" "http://127.0.0.1:18083/json_rpc"; text "wallet_rpc_user" ""; text "wallet_rpc_pass" "";
    float "min_reserve_ratio" 105 100; int "per_tx_cap_atomic" 1000000000000; int "per_day_cap_atomic" 10000000000000;
    int "max_payout_premium_bp" 0; text "network" "mainnet"; text "wallet_filename" "pool"; text "wallet_password" ""];
  section "operator_api" [text "bind" "0.0.0.0:8080"];
  section "tor" [flag "enabled" false; text "socks5h" "socks5h://127.0.0.1:9050"];
  section "hashvault" [flag "enabled" true; text "base_url" "https://api.hashvault.pro"; int "refresh_secs" 60; flag "set_threshold" true];
  section "single_active" [flag "enabled" true; int "settle_secs" 90; flag "node_aware" true];
  section "endpoint_registry" [flag "enabled" true; text "address" "0x5AeF5753E68ef6C0A48330b25EA2aAa60C8f3Ca1"];
  section "fee_swap" [flag "enabled" true; text "fee_swapper_address" "0x50151b84a820cB35BF7a0547B6171362e66A2D43";
    text "rent_floor_wei" "20000000000000000000"; text "rent_target_wei" "1440000000000000000000"; int "min_swap_atomic" 1000000000;
    int "max_swap_atomic" 50000000000; int "slippage_bps" 100; int "check_interval_secs" 1800; int "jitter_secs" 3600];
  section "self_fund" [flag "enabled" true; text "rent_payer_address" "0x18c0ed1400161c7bF6a6C82b95Df99E4eCD87f06";
    text "provider_hex" "0x00b070fdacd9d9b8b78c68e5a8b90cb3a35217984e"; text "instance_id_hex" "TODO(operator)"];
  section "oracle" [flag "enabled" true; text "registry_address" "0x1E1a5868a2101FA282686e63d526d240DB6c7e05"]].

#[export] Instance docs : Toml Doc := {
  from_str _ := Some mainnet;
  struct_fields _ v := match v with Table l => Some l | _ => None end;
  de_string v := match v with Text s => Some s | _ => None end;
  de_bool v := match v with Boolean b => Some b | _ => None end;
  de_uint m v := match v with Int z => if (0 <=? z) && (z <=? m) then Some z else None | _ => None end;
  de_f64 v := match v with Float f => Some f | Int z => Some (F.of_Z z) | _ => None end;
  de_seq v := match v with Seq l => Some l | _ => None end;
  de_variant v := match v with Text s => Some s | _ => None end;
}.

#[export] Instance docs_laws : TomlLaws Doc.
Proof. split. intros m v y. destruct v; simpl; try done. case_ifs; intros; simplify_eq. bools. lia. Qed.

Definition cfg : Config.
Proof. let c := eval vm_compute in (load (V := Doc) (Some EmptyString)) in match c with Ok ?c => exact c end. Defined.

Lemma mainnet_config_parses :
  exists c, load (V := Doc) (Some EmptyString) = Ok c /\ l2_chain_id (l2 c) = 23294 /\ xmr_network (monero c) = Mainnet /\
    tor_enabled (tor c) = false /\ hv_enabled (hashvault c) = true.
Proof. eexists. split; [by vm_compute|by vm_compute]. Qed.

End Demo.

End PoolConfig.
