(* ===== verification/Appd.v ===== *)
(** The clients of the enclave's daemon: mining-pool/src/rofl_kms.rs, pool-core/src/appd.rs
    and the requests of mining-pool/src/single_active.rs.

    The three clients write their HTTP requests by hand and take the replies apart with
    the text functions of the standard library.  The socket, the JSON and CBOR libraries
    and the hash functions are parameters. *)
From Stdlib Require Import Ascii.
From S2P Require Import Prelude Text Hex Json Rofl Periphery.
Import Rofl.

Module Appd.

(** ** Text *)

Definition CRLF : string := String (ascii_of_nat 13) (String (ascii_of_nat 10) EmptyString).
Definition quote : ascii := ascii_of_nat 34.

(** [&s[n..]]. *)
Fixpoint skip (n : nat) (s : string) : string :=
  match n, s with S n', String _ s' => skip n' s' | _, _ => s end.

(** The text before and after the first occurrence. *)
Fixpoint split_once (pat s : string) : option (string * string) :=
  if Text.starts_with pat s then Some (EmptyString, skip (String.length pat) s)
  else match s with
       | EmptyString => None
       | String c s' => (fun p => (String c p.1, p.2)) <$> split_once pat s'
       end.

(** [s.split(pat).next()]. *)
Definition first_piece (pat s : string) : string := match split_once pat s with Some (a, _) => a | None => s end.

(** [split_whitespace], with the word read so far. *)
Fixpoint words (acc : string) (cs : list string) : list string :=
  match cs with
  | [] => if String.eqb acc "" then [] else [acc]
  | c :: cs' =>
      if Text.is_white c then (if String.eqb acc "" then words EmptyString cs' else acc :: words EmptyString cs')
      else words (acc +:+ c) cs'
  end.
Definition split_whitespace (s : string) : list string := words EmptyString (Text.chars s).

(** [trim_matches] on the quotation mark. *)
Fixpoint trim_quotes_start (s : string) : string :=
  match s with String c s' => if Ascii.eqb c quote then trim_quotes_start s' else s | EmptyString => EmptyString end.
Fixpoint trim_quotes_end (s : string) : string :=
  match s with
  | EmptyString => EmptyString
  | String c s' =>
      match trim_quotes_end s' with
      | EmptyString => if Ascii.eqb c quote then EmptyString else String c EmptyString
      | t => String c t
      end
  end.
Definition trim_quotes (s : string) : string := trim_quotes_end (trim_quotes_start s).

(** ** The libraries *)

Class JsonText := { to_string : Json.Value -> string; from_str : string -> option Json.Value }.
Class Cbor := { into_writer : Value -> list Z; from_reader : list Z -> option Value }.

(** The unix socket: the bytes of the reply, read to the end. *)
Class Socket (W : Type) := { exchange : string -> W -> anyhow string * W }.

Section Clients.
Context {W : Type} `{Socket W} `{JsonText} `{Cbor} `{Hex}.

Definition strip_0x (s : string) : string := opt_or s (Text.strip_0x s).

(** A request with a body. *)
Definition post_text (method path body : string) : string :=
  method +:+ " " +:+ path +:+ " HTTP/1.1" +:+ CRLF +:+ "Host: localhost" +:+ CRLF +:+ "Content-Type: application/json" +:+ CRLF
  +:+ "Content-Length: " +:+ Text.show (Z.of_nat (String.length body)) +:+ CRLF +:+ "Connection: close" +:+ CRLF +:+ CRLF +:+ body.

Definition get_text (method path : string) : string :=
  method +:+ " " +:+ path +:+ " HTTP/1.1" +:+ CRLF +:+ "Host: localhost" +:+ CRLF +:+ "Connection: close" +:+ CRLF +:+ CRLF.

(** ** The key service *)

Inductive KeyKind : Type := Secp256k1 | Ed25519 | Raw256.

Definition as_str (k : KeyKind) : string :=
  match k with Secp256k1 => "secp256k1" | Ed25519 => "ed25519" | Raw256 => "raw-256" end.

Definition key_request (key_id : string) (kind : KeyKind) : Json.Value :=
  Json.Object [("key_id", Json.Str key_id); ("kind", Json.Str (as_str kind))].

(** [KeyResp]. *)
Definition key_resp (v : Json.Value) : option string := Json.struct_fields ["key"] 0 v ≫= Json.field_string "key".

(** The reply of [derive_key_at]. *)
Definition read_key (raw : string) : anyhow (list Z) :=
  if negb (Text.utf8_valid raw) then Err "appd response not utf-8"
  else
    let code := opt_or EmptyString (split_whitespace (first_piece CRLF raw) !! 1%nat) in
    match split_once (CRLF +:+ CRLF) raw with
    | None => Err "appd response had no body separator"
    | Some (_, body) =>
        if negb (String.eqb code "200") then Err "appd /keys/generate returned another status"
        else match from_str body ≫= key_resp with
             | None => Err "parsing appd response body"
             | Some key => match decode (strip_0x key) with None => Err "decoding key hex" | Some b => Ok b end
             end
    end.

Definition derive_key (key_id : string) (kind : KeyKind) (w : W) : anyhow (list Z) * W :=
  let '(r, w) := exchange (post_text "POST" "/rofl/v1/keys/generate" (to_string (key_request key_id kind))) w in
  (match r with Err e => Err e | Ok raw => read_key raw end, w).

(** ** The client of appd.rs *)

Definition read_reply (raw : string) : anyhow (Z * string) :=
  if negb (Text.utf8_valid raw) then Err "appd response not utf-8"
  else
    match split_whitespace raw !! 1%nat ≫= Text.parse_u16 with
    | None => Err "malformed appd status line"
    | Some code =>
        match split_once (CRLF +:+ CRLF) raw with
        | None => Err "appd response had no body separator"
        | Some (_, body) => Ok (code, body)
        end
    end.

Definition request (method path : string) (json_body : option string) (w : W) : anyhow (Z * string) * W :=
  let '(r, w) := exchange (match json_body with Some b => post_text method path b | None => get_text method path end) w in
  (match r with Err e => Err e | Ok raw => read_reply raw end, w).

Definition app_id (w : W) : anyhow string * W :=
  let '(r, w) := request "GET" "/rofl/v1/app/id" None w in
  (match r with
   | Err e => Err e
   | Ok (code, body) => if negb (code =? 200) then Err "appd /app/id returned another status" else Ok (trim_quotes (Text.trim body))
   end, w).

Definition app_id_bytes (w : W) : anyhow (list Z) * W :=
  let '(r, w) := app_id w in (match r with Err e => Err e | Ok s => bech32_to_21 s end, w).

Definition query_request (method : string) (args : list Z) : Json.Value :=
  Json.Object [("method", Json.Str method); ("args", Json.Str (encode args))].

Definition query (method : string) (args : list Z) (w : W) : anyhow (list Z) * W :=
  let '(r, w) := request "POST" "/rofl/v1/query" (Some (to_string (query_request method args))) w in
  (match r with
   | Err e => Err e
   | Ok (code, resp) =>
       if negb (code =? 200) then Err "appd /query returned another status"
       else match from_str resp with
            | None => Err "parsing /query response"
            | Some v =>
                match Json.get_str "data" v with
                | None => Err "/query response had no string data"
                | Some data_hex =>
                    match decode (strip_0x data_hex) with None => Err "decoding /query data hex" | Some b => Ok b end
                end
            end
   end, w).

Definition submit_request (to_ data : list Z) (gas_limit : Z) : Json.Value :=
  Json.Object [("encrypt", Json.Bool true);
    ("tx", Json.Object [("kind", Json.Str "eth");
      ("data", Json.Object [("gas_limit", Json.Int gas_limit); ("to", Json.Str (encode to_)); ("value", Json.Str "0");
        ("data", Json.Str (encode data))])])].

Definition sign_submit_eth (to_ data : list Z) (gas_limit : Z) (w : W) : anyhow string * W :=
  let '(r, w) := request "POST" "/rofl/v1/tx/sign-submit" (Some (to_string (submit_request to_ data gas_limit))) w in
  (match r with
   | Err e => Err e
   | Ok (code, resp) => if 300 <=? code then Err "appd /tx/sign-submit returned another status" else Ok resp
   end, w).

(** ** The arguments of the queries *)

Definition encode_instance_args (provider instance_id : list Z) : list Z :=
  into_writer (Map [(CText "id", Bytes instance_id); (CText "provider", Bytes provider)]).

Definition encode_balances_args (addr : list Z) : list Z := into_writer (Map [(CText "address", Bytes addr)]).

Definition oasis_addr_from_eth (sha512_256 : list Z -> list Z) (eth : list Z) : list Z :=
  0 :: take 20 (sha512_256 (bytes_of "oasis-runtime-sdk/address: secp256k1eth" ++ [0] ++ eth)).

Definition parse_instance (data : list Z) : anyhow InstanceInfo :=
  match from_reader data with None => Err "decoding roflmarket.Instance CBOR" | Some v => Ok (instance_of v) end.

Definition parse_native_balance (data : list Z) : anyhow Z :=
  match from_reader data with None => Err "decoding accounts.Balances CBOR" | Some v => Ok (native_balance_of v) end.

Definition discover (provider app : list Z) (w : W) : anyhow (list (list Z)) * W :=
  let '(r, w) := query "roflmarket.Instances" (into_writer (Map [(CText "provider", Bytes provider)])) w in
  (match r with
   | Err e => Err e
   | Ok raw => match from_reader raw with None => Err "decode Instances" | Some v => Ok (discover_instances app v) end
   end, w).

(** ** The client of the single-instance guard *)

Definition read_body (raw : string) : anyhow string :=
  if negb (Text.utf8_valid raw) then Err "appd response not utf-8"
  else
    let code := opt_or EmptyString (split_whitespace (first_piece CRLF raw) !! 1%nat) in
    match split_once (CRLF +:+ CRLF) raw with
    | None => Err "appd response had no body separator"
    | Some (_, body) => if negb (String.eqb code "200") then Err "appd returned another status" else Ok body
    end.

Definition appd_request (raw_req : string) (w : W) : anyhow string * W :=
  let '(r, w) := exchange raw_req w in (match r with Err e => Err e | Ok raw => read_body raw end, w).

Definition appd_get (path : string) (w : W) : anyhow string * W := appd_request (get_text "GET" path) w.

(** [QResp]. *)
Definition query_resp (v : Json.Value) : option string := Json.struct_fields ["data"] 0 v ≫= Json.field_string "data".

Definition appd_query (method : string) (args : list Z) (w : W) : anyhow Value * W :=
  let '(r, w) := appd_request (post_text "POST" "/rofl/v1/query" (to_string (query_request method args))) w in
  (match r with
   | Err e => Err e
   | Ok resp_body =>
       match from_str resp_body ≫= query_resp with
       | None => Err "parsing query response"
       | Some data =>
           match decode (strip_0x data) with
           | None => Err "decoding query data hex"
           | Some cbor => match from_reader cbor with None => Err "decoding query CBOR" | Some v => Ok v end
           end
       end
   end, w).

Definition encode_map (pairs : list (string * Value)) : list Z := into_writer (Map ((fun p => (CText p.1, p.2)) <$> pairs)).

Definition live_node_ids (w : W) : anyhow (list Value) * W :=
  let '(r, w) := appd_get "/rofl/v1/app/id" w in
  match (match r with Ok body => Rofl.app_id_bytes body | Err e => Err e end) with
  | Err e => (Err e, w)
  | Ok app_id =>
      let '(regs, w) := appd_query "rofl.AppInstances" (encode_map [("id", Bytes app_id)]) w in
      (match regs with Err e => Err e | Ok v => node_ids v end, w)
  end.

End Clients.
(** ** The daemon's side *)

(** What a server reads of a request: the method, the path, and as much of the rest as
    the header of the length says. *)
Definition http_read (s : string) : option (string * string * string) :=
  match split_once (CRLF +:+ CRLF) s with
  | None => None
  | Some (head, rest) =>
      match split_whitespace (first_piece CRLF head) with
      | [m; p; _] =>
          match split_once (CRLF +:+ "Content-Length: ") head with
          | None => Some (m, p, EmptyString)
          | Some (_, tail) =>
              match Text.digits 0 (first_piece CRLF tail) with
              | Some n => if n <=? Z.of_nat (String.length rest) then Some (m, p, String.substring 0 (Z.to_nat n) rest) else None
              | None => None
              end
          end
      | _ => None
      end
  end.

(** A reply, with its further headers. *)
Fixpoint headers_text (headers : list string) : string :=
  match headers with [] => EmptyString | h :: hs => CRLF +:+ h +:+ headers_text hs end.
Definition reply_text (status : string) (headers : list string) (body : string) : string :=
  "HTTP/1.1 " +:+ status +:+ headers_text headers +:+ CRLF +:+ CRLF +:+ body.

(** A daemon: the object it answers the JSON of a request with, or the text it answers a
    request without a body with. *)
Definition daemon `{JsonText} (headers : list string) (post : string -> Json.Value -> option Json.Value)
    (get : string -> option string) (req : string) : string :=
  match http_read req with
  | Some (m, p, b) =>
      if String.eqb m "POST" then
        match from_str b ≫= post p with Some v => reply_text "200 OK" headers (to_string v) | None => reply_text "400 Bad Request" headers "" end
      else match get p with Some s => reply_text "200 OK" headers s | None => reply_text "404 Not Found" headers "" end
  | None => reply_text "400 Bad Request" headers ""
  end.

(** ** Lemmas on the text functions *)

Definition cr : ascii := ascii_of_nat 13.
#[local] Arguments cr : simpl never.
#[local] Arguments String.append !_ _ /.
#[local] Arguments Ascii.eqb : simpl never.
#[local] Arguments Text.continues : simpl never.
Definition no_cr (s : string) : Prop := Forall (fun c => c <> cr) (String.list_ascii_of_string s).
Definition ascii_text (s : string) : Prop := Forall (fun c => Text.within 0 127 c = true) (String.list_ascii_of_string s).

Lemma app_assoc_s (a b c : string) : (a +:+ b) +:+ c = a +:+ (b +:+ c).
Proof. induction a as [|x a IH]; simpl; [done|by rewrite IH]. Qed.

Lemma app_nil_s (a : string) : a +:+ "" = a.
Proof. induction a as [|x a IH]; simpl; [done|by rewrite IH]. Qed.

(** A text is not found inside one without its first character. *)
Lemma split_once_past x pat l s :
  Forall (fun c => c <> x) (String.list_ascii_of_string l) ->
  split_once (String x pat) (l +:+ s) = (fun p => (l +:+ p.1, p.2)) <$> split_once (String x pat) s.
Proof.
  induction l as [|c l IH]; intros Hl; simpl in *.
  - by destruct (split_once (String x pat) s) as [[]|].
  - inversion Hl as [|? ? Hc Hl']; subst. replace (Ascii.eqb x c) with false.
    + simpl. rewrite (IH Hl'). by destruct (split_once (String x pat) s) as [[]|].
    + symmetry. apply Ascii.eqb_neq. congruence.
Qed.

Lemma split_once_line pat l s :
  no_cr l -> split_once (String cr pat) (l +:+ s) = (fun p => (l +:+ p.1, p.2)) <$> split_once (String cr pat) s.
Proof. apply split_once_past. Qed.

Lemma first_piece_line l s : no_cr l -> first_piece CRLF (l +:+ CRLF +:+ s) = l.
Proof. intros Hl. unfold first_piece, CRLF at 1. rewrite split_once_line by done. simpl. by rewrite app_nil_s. Qed.

Lemma first_piece_all l : no_cr l -> first_piece CRLF l = l.
Proof.
  intros Hl. unfold first_piece, CRLF. rewrite <- (app_nil_s l) at 1. by rewrite split_once_line.
Qed.

(** The end of the head is after the last header: no header is empty. *)
Definition header (h : string) : Prop := no_cr h /\ h <> EmptyString.

Lemma split_once_skip pat c s :
  Text.starts_with pat (String c s) = false -> split_once pat (String c s) = (fun p => (String c p.1, p.2)) <$> split_once pat s.
Proof. intros E. cbn [split_once]. by rewrite E. Qed.

Lemma split_head_line h s :
  header h -> split_once (CRLF +:+ CRLF) (CRLF +:+ h +:+ s) = (fun p => (CRLF +:+ p.1, p.2)) <$> split_once (CRLF +:+ CRLF) (h +:+ s).
Proof.
  intros [Hh Hne]. destruct h as [|c h]; [done|]. inversion Hh as [|? ? Hc Hh']; subst.
  assert (E : Ascii.eqb cr c = false) by (apply Ascii.eqb_neq; congruence).
  change (CRLF +:+ String c h +:+ s) with (String cr (String (ascii_of_nat 10) (String c h +:+ s))).
  rewrite split_once_skip.
  - rewrite split_once_skip by done. by destruct (split_once _ (String c h +:+ s)) as [[]|].
  - change (Ascii.eqb cr cr && (Ascii.eqb (ascii_of_nat 10) (ascii_of_nat 10) && (Ascii.eqb cr c &&
      Text.starts_with (String (ascii_of_nat 10) EmptyString) (h +:+ s))) = false).
    by rewrite E, !andb_false_r.
Qed.

Lemma split_head headers l s :
  no_cr l -> Forall header headers ->
  split_once (CRLF +:+ CRLF) (l +:+ headers_text headers +:+ CRLF +:+ CRLF +:+ s) = Some (l +:+ headers_text headers, s).
Proof.
  intros Hl Hh. revert l Hl. induction Hh as [|h hs Hh Hhs IH]; intros l Hl;
    change (CRLF +:+ CRLF) with (String cr (String (ascii_of_nat 10) CRLF)) at 1; rewrite split_once_line by done;
    change (String cr (String (ascii_of_nat 10) CRLF)) with (CRLF +:+ CRLF).
  - change (headers_text [] +:+ CRLF +:+ CRLF +:+ s) with ((CRLF +:+ CRLF) +:+ s). reflexivity.
  - cbn [headers_text]. rewrite !app_assoc_s, split_head_line, (IH h) by first [done|apply Hh]. reflexivity.
Qed.

(** Words of ASCII text. *)
Lemma list_ascii_app (a b : string) :
  String.list_ascii_of_string (a +:+ b) = String.list_ascii_of_string a ++ String.list_ascii_of_string b.
Proof. induction a as [|c a IH]; simpl; [done|by rewrite IH]. Qed.

Lemma chars_ascii s : ascii_text s -> Text.chars s = (fun c => String c EmptyString) <$> String.list_ascii_of_string s.
Proof.
  induction s as [|c s IH]; intros Hs; [done|]. inversion Hs as [|? ? Hc Hs']; subst. cbn [Text.chars]. rewrite (IH Hs').
  destruct s as [|c' s]; [done|]. inversion Hs' as [|? ? Hc' _]; subst. simpl.
  unfold Text.within in Hc'. apply andb_true_iff in Hc' as [_ Hc']. apply Nat.leb_le in Hc'.
  assert (Text.continues (String c' EmptyString) = false) as ->; [|done].
  unfold Text.continues. destruct (Nat.leb_spec 128 (nat_of_ascii c')); [lia|done].
Qed.

Definition singles (s : string) : list string := (fun c => String c EmptyString) <$> String.list_ascii_of_string s.

Lemma concat_singles s : String.concat "" (singles s) = s.
Proof.
  induction s as [|c s IH]; [done|]. simpl. rewrite <- IH at 2. unfold singles. simpl.
  by destruct (String.list_ascii_of_string s).
Qed.

Lemma singles_app a b : singles (a +:+ b) = singles a ++ singles b.
Proof. unfold singles. by rewrite list_ascii_app, fmap_app. Qed.

Lemma words_plain l acc cs :
  Forall (fun c => Text.is_space c = false) (String.list_ascii_of_string l) -> acc +:+ l <> EmptyString ->
  words acc (singles l ++ cs) = match cs with [] => [acc +:+ l] | _ => words (acc +:+ l) cs end.
Proof.
  revert acc. induction l as [|c l IH]; intros acc Hl Hne; simpl in *.
  - rewrite app_nil_s in *. destruct cs; [|done]. simpl. by destruct (String.eqb_spec acc EmptyString).
  - inversion Hl as [|? ? Hc Hl']; subst. rewrite Hc, IH; rewrite ?app_assoc_s; done.
Qed.

Lemma words_space acc s :
  acc <> EmptyString -> words acc (singles (" " +:+ s)) = acc :: words EmptyString (singles s).
Proof. intros Ha. simpl. by destruct (String.eqb_spec acc EmptyString). Qed.

Definition token (s : string) : Prop := Forall (fun c => Text.is_plain c = true) (String.list_ascii_of_string s) /\ s <> EmptyString.

Lemma plain_facts c : Text.is_plain c = true -> Text.is_space c = false /\ Text.within 0 127 c = true /\ c <> cr.
Proof. by destruct c as [[] [] [] [] [] [] [] []]. Qed.

Lemma token_ascii s : token s -> ascii_text s.
Proof. intros [Hs _]. eapply Forall_impl; [exact Hs|]. intros c Hc. by apply plain_facts. Qed.
Lemma token_no_cr s : token s -> no_cr s.
Proof. intros [Hs _]. eapply Forall_impl; [exact Hs|]. intros c Hc. by apply plain_facts. Qed.
Lemma token_spaces s : token s -> Forall (fun c => Text.is_space c = false) (String.list_ascii_of_string s).
Proof. intros [Hs _]. eapply Forall_impl; [exact Hs|]. intros c Hc. by apply plain_facts. Qed.

Lemma ascii_text_app a b : ascii_text a -> ascii_text b -> ascii_text (a +:+ b).
Proof. unfold ascii_text. rewrite list_ascii_app. by apply Forall_app_2. Qed.
Lemma no_cr_app a b : no_cr a -> no_cr b -> no_cr (a +:+ b).
Proof. unfold no_cr. rewrite list_ascii_app. by apply Forall_app_2. Qed.

Lemma words_line m p v :
  token m -> token p -> token v -> split_whitespace (m +:+ " " +:+ p +:+ " " +:+ v) = [m; p; v].
Proof.
  intros Hm Hp Hv. unfold split_whitespace. rewrite chars_ascii.
  - assert (Ew : forall a s, token a -> words EmptyString (singles (a +:+ " " +:+ s)) = a :: words EmptyString (singles s)).
    { intros a s Ha. rewrite singles_app, (words_plain a EmptyString) by first [by apply token_spaces|apply Ha].
      by apply words_space, Ha. }
    change (words EmptyString (singles (m +:+ " " +:+ p +:+ " " +:+ v)) = [m; p; v]). rewrite !Ew by done.
    rewrite <- (app_nil_r (singles v)), (words_plain v EmptyString) by first [by apply token_spaces|apply Hv]. done.
  - repeat first [apply ascii_text_app | by apply token_ascii | by repeat constructor].
Qed.

(** ** Requests and replies *)

Lemma substring_all s : String.substring 0 (String.length s) s = s.
Proof. induction s as [|c s IH]; simpl; [done|by rewrite IH]. Qed.

Lemma show_no_cr n : 0 <= n -> no_cr (Text.show n).
Proof.
  intros Hn. eapply Forall_impl; [by apply Text.show_digits|]. intros c Hc ->. by apply Hc.
Qed.

(** A request is read back as it was written: the body is not taken for a header, and
    is read to its last byte. *)
Lemma http_read_post m p b : token m -> token p -> http_read (post_text m p b) = Some (m, p, b).
Proof.
  intros Hm Hp. set (n := Text.show (Z.of_nat (String.length b))).
  set (hs := ["Host: localhost"; "Content-Type: application/json"; "Content-Length: " +:+ n; "Connection: close"]).
  assert (Hn : no_cr n) by (apply show_no_cr; lia).
  assert (Hv : token "HTTP/1.1") by (by split; [repeat constructor|]).
  assert (Hl : no_cr (m +:+ " " +:+ p +:+ " " +:+ "HTTP/1.1")).
  { repeat apply no_cr_app; try (by apply token_no_cr); by repeat constructor. }
  assert (E : post_text m p b = (m +:+ " " +:+ p +:+ " " +:+ "HTTP/1.1") +:+ headers_text hs +:+ CRLF +:+ CRLF +:+ b).
  { unfold post_text, hs. cbn [headers_text]. rewrite !app_assoc_s. reflexivity. }
  unfold http_read. rewrite E, split_head.
  - cbn [headers_text hs]. rewrite first_piece_line, words_line by done.
    change (CRLF +:+ "Content-Length: ") with (String cr (String (ascii_of_nat 10) "Content-Length: ")).
    rewrite split_once_line by done.
    match goal with |- context [split_once ?pat ?s] => assert (E2 : split_once pat s
      = Some (headers_text ["Host: localhost"; "Content-Type: application/json"], n +:+ CRLF +:+ "Connection: close")) by reflexivity end.
    rewrite E2. cbn [fmap option_fmap option_map fst snd]. rewrite first_piece_line by done. unfold n.
    rewrite Text.digits_show by lia.
    rewrite Z.leb_refl, Nat2Z.id. by rewrite substring_all.
  - done.
  - by repeat constructor.
Qed.

Lemma utf8_app a s : ascii_text a -> Text.utf8_valid (a +:+ s) = Text.utf8_valid s.
Proof. induction a as [|c a IH]; intros Ha; simpl; [done|]. inversion Ha as [|? ? Hc Ha']; subst. rewrite Hc. by apply IH. Qed.

Lemma chars_head c s g gs : Text.chars (String c s) = g :: gs -> Text.continues g = Text.continues (String c EmptyString).
Proof.
  cbn [Text.chars]. destruct (Text.chars s) as [|g' gs']; [by intros [= <- <-]|].
  destruct (Text.continues g'); by intros [= <- <-].
Qed.

(** Text that begins with an ASCII character begins a character of its own. *)
Definition begins_ascii (s : string) : Prop := match s with String c _ => Text.within 0 127 c = true | EmptyString => True end.

Lemma chars_cons c s : begins_ascii s -> Text.chars (String c s) = String c EmptyString :: Text.chars s.
Proof.
  intros Hs. cbn [Text.chars]. destruct s as [|c' s]; [done|].
  destruct (Text.chars (String c' s)) as [|g gs] eqn:E; [done|]. rewrite (chars_head _ _ _ _ E).
  assert (Text.continues (String c' EmptyString) = false) as ->; [|done].
  unfold begins_ascii, Text.within in Hs. apply andb_true_iff in Hs as [_ Hs]. apply Nat.leb_le in Hs.
  unfold Text.continues. destruct (Nat.leb_spec 128 (nat_of_ascii c')); [lia|done].
Qed.

Lemma chars_app a s : ascii_text a -> begins_ascii s -> Text.chars (a +:+ s) = singles a ++ Text.chars s.
Proof.
  intros Ha Hs. induction a as [|c a IH]; [done|]. inversion Ha as [|? ? Hc Ha']; subst.
  cbn [String.append]. rewrite chars_cons, (IH Ha'); [done|].
  destruct a as [|c' a]; [done|]. by inversion Ha'.
Qed.

Lemma headers_ascii hs : Forall (fun h => header h /\ ascii_text h) hs -> ascii_text (headers_text hs).
Proof.
  induction 1 as [|h hs [_ Hh] _ IH]; [constructor|]. cbn [headers_text].
  apply ascii_text_app; [by repeat constructor|]. by apply ascii_text_app.
Qed.

Section Replies.
Variables (headers : list string) (body : string).
Hypothesis headers_ok : Forall (fun h => header h /\ ascii_text h) headers.

Lemma headers_headers : Forall header headers.
Proof. eapply Forall_impl; [exact headers_ok|]. by intros h []. Qed.

Lemma reply_split status :
  no_cr status -> split_once (CRLF +:+ CRLF) (reply_text status headers body) = Some ("HTTP/1.1 " +:+ status +:+ headers_text headers, body).
Proof.
  intros Hs. unfold reply_text. rewrite <- (app_assoc_s "HTTP/1.1 " status).
  rewrite split_head; [by rewrite app_assoc_s|by apply no_cr_app; [repeat constructor|]|apply headers_headers].
Qed.

Lemma reply_utf8 status : ascii_text status -> Text.utf8_valid (reply_text status headers body) = Text.utf8_valid body.
Proof.
  intros Hs. unfold reply_text.
  rewrite (utf8_app "HTTP/1.1 "), (utf8_app status), (utf8_app (headers_text headers)), !(utf8_app CRLF);
    [done|by repeat constructor..|by apply headers_ascii|done|by repeat constructor].
Qed.

Lemma reply_status_line status :
  no_cr status -> first_piece CRLF (reply_text status headers body) = "HTTP/1.1 " +:+ status.
Proof.
  intros Hs. unfold reply_text. rewrite <- (app_assoc_s "HTTP/1.1 " status).
  assert (Hl : no_cr ("HTTP/1.1 " +:+ status)) by (by apply no_cr_app; [repeat constructor|]).
  destruct headers as [|h hs]; cbn [headers_text]; [apply (first_piece_line _ (CRLF +:+ body) Hl)|].
  rewrite (app_assoc_s CRLF). by apply first_piece_line.
Qed.

(** The three clients read a reply in the same way. *)
Lemma read_reply_ok : Text.utf8_valid body = true -> read_reply (reply_text "200 OK" headers body) = Ok (200, body).
Proof.
  intros Hb. unfold read_reply. rewrite reply_utf8, Hb, reply_split by by repeat constructor. cbn [negb].
  assert (split_whitespace (reply_text "200 OK" headers body) !! 1%nat = Some "200"%string) as ->; [|done].
  unfold split_whitespace, reply_text.
  rewrite <- (app_assoc_s "HTTP/1.1 " "200 OK"). change ("HTTP/1.1 " +:+ "200 OK") with ("HTTP/1.1 200 " +:+ "OK").
  rewrite (app_assoc_s "HTTP/1.1 200 "), chars_app by by repeat constructor. reflexivity.
Qed.

Lemma read_body_ok : Text.utf8_valid body = true -> read_body (reply_text "200 OK" headers body) = Ok body.
Proof.
  intros Hb. unfold read_body. rewrite reply_utf8, Hb, reply_split, reply_status_line by by repeat constructor. reflexivity.
Qed.

End Replies.

(** ** The clients against the daemon *)

(** An object of strings is text, and is read back with the same fields. *)
Definition strings (kvs : list (string * string)) : list (string * Json.Value) := (fun kv => (kv.1, Json.Str kv.2)) <$> kvs.

Class JsonTextLaws `{JsonText} : Prop := {
  jt_fields : forall kvs, NoDup kvs.*1 -> Forall (fun kv => Text.utf8_valid kv.1 = true /\ Text.utf8_valid kv.2 = true) kvs ->
    Text.utf8_valid (to_string (Json.Object (strings kvs))) = true /\
    exists kvs', from_str (to_string (Json.Object (strings kvs))) = Some (Json.Object kvs') /\
      forall k, Json.assoc k kvs' = Json.assoc k (strings kvs) /\ (Json.count_key k kvs' <= 1)%nat;
}.

Section Daemon.
Context {W : Type} `{Socket W} `{HJ : JsonText} `{!JsonTextLaws} `{Cbor} `{Hx : Hex} `{!HexLaws Hx}.
Variables (headers : list string) (kms : string -> string -> list Z) (answer : string -> list Z -> option (list Z)).

(** The key service and the queries of the daemon. *)
Definition serve (path : string) (v : Json.Value) : option Json.Value :=
  if String.eqb path "/rofl/v1/keys/generate" then
    key_id ← Json.get_str "key_id" v; kind ← Json.get_str "kind" v;
    Some (Json.Object (strings [("key", encode (kms key_id kind))]))
  else if String.eqb path "/rofl/v1/query" then
    method ← Json.get_str "method" v; text ← Json.get_str "args" v; args ← decode text; data ← answer method args;
    Some (Json.Object (strings [("data", encode data)]))
  else None.

Hypothesis headers_ok : Forall (fun h => header h /\ ascii_text h) headers.
Variable texts : string -> option string.
Hypothesis served : forall req w raw, (exchange req w).1 = Ok raw -> raw = daemon headers serve texts req.
Hypothesis kms_bytes : forall key_id kind, Forall is_u8 (kms key_id kind).
Hypothesis answer_bytes : forall method args data, answer method args = Some data -> Forall is_u8 data.

Lemma encode_ascii b : Forall is_u8 b -> ascii_text (encode b).
Proof.
  intros Hb. rewrite hl_text by done. eapply Forall_impl; [by apply Text.hex_encode_alphabet|].
  intros c Hc. apply Text.hex_digit_plain in Hc. by apply plain_facts.
Qed.

Lemma ascii_utf8 s : ascii_text s -> Text.utf8_valid s = true.
Proof. intros Hs. rewrite <- (app_nil_s s). by rewrite utf8_app. Qed.

Lemma strip_0x_encode b : Forall is_u8 b -> strip_0x (encode b) = encode b.
Proof.
  intros Hb. rewrite hl_text by done. pose proof (Text.hex_encode_alphabet b Hb) as Hf.
  unfold strip_0x. destruct (Text.hex_encode b) as [|c [|c' s]]; [done|by destruct c as [[] [] [] [] [] [] [] []]|].
  inversion Hf as [|? ? _ Hs]; subst. inversion Hs as [|? ? Hc _]; subst.
  destruct c as [[] [] [] [] [] [] [] []]; try done; by destruct c' as [[] [] [] [] [] [] [] []].
Qed.

(** The reply to a request with an object of strings, when the daemon serves it. *)
Lemma post_served path kvs out w raw :
  token path -> NoDup kvs.*1 -> Forall (fun kv => Text.utf8_valid kv.1 = true /\ Text.utf8_valid kv.2 = true) kvs ->
  (forall kvs', (forall k, Json.assoc k kvs' = Json.assoc k (strings kvs)) -> serve path (Json.Object kvs') = Some out) ->
  (exchange (post_text "POST" path (to_string (Json.Object (strings kvs)))) w).1 = Ok raw ->
  raw = reply_text "200 OK" headers (to_string out).
Proof.
  intros Hp Hd Hu Hs Hx'. apply served in Hx' as ->. unfold daemon.
  rewrite http_read_post by (done || by split; [repeat constructor|]). simpl.
  destruct (jt_fields kvs Hd Hu) as (_ & kvs' & -> & Hk). simpl. rewrite (Hs kvs'); [done|]. intros k. apply Hk.
Qed.

(** The field of a reply with one. *)
Lemma reply_field k s :
  Text.utf8_valid k = true -> Text.utf8_valid s = true ->
  Text.utf8_valid (to_string (Json.Object (strings [(k, s)]))) = true /\
  from_str (to_string (Json.Object (strings [(k, s)]))) ≫= (fun v => Json.struct_fields [k] 0 v ≫= Json.field_string k) = Some s /\
  from_str (to_string (Json.Object (strings [(k, s)]))) ≫= Json.get_str k = Some s.
Proof.
  intros Hk Hs. destruct (jt_fields [(k, s)]) as (Hu & kvs' & -> & Ha); [repeat constructor; set_solver|by repeat constructor|].
  destruct (Ha k) as [Ea Hc]. simpl in Ea. rewrite String.eqb_refl in Ea. split; [done|]. simpl.
  apply Nat.leb_le in Hc. rewrite Hc. simpl. unfold Json.get_str, Json.get, Json.field_string. by rewrite Ea.
Qed.

Lemma read_key_ok b :
  Forall is_u8 b -> read_key (reply_text "200 OK" headers (to_string (Json.Object (strings [("key"%string, encode b)])))) = Ok b.
Proof.
  intros Hb. destruct (reply_field "key" (encode b)) as (Hu & Hf & _); [done|by apply ascii_utf8, encode_ascii|].
  unfold read_key. rewrite reply_utf8, Hu, reply_split, reply_status_line by (done || by repeat constructor).
  cbn [negb]. change (String.eqb _ "200") with true. cbn [negb]. unfold key_resp. rewrite Hf, strip_0x_encode, hl_roundtrip by done. done.
Qed.

Lemma keys_token : token "/rofl/v1/keys/generate".
Proof. split; [by repeat constructor|done]. Qed.
Lemma query_token : token "/rofl/v1/query".
Proof. split; [by repeat constructor|done]. Qed.

(** The request of a client, and its result unless the socket failed. *)
Definition ask (path : string) (v : Json.Value) (w : W) : anyhow string :=
  (exchange (post_text "POST" path (to_string v)) w).1.
Definition unless_failed {A} (r : anyhow string) (a : anyhow A) : anyhow A := match r with Ok _ => a | Err e => Err e end.

Lemma serve_query method args data kvs' :
  Forall is_u8 args -> answer method args = Some data ->
  (forall k, Json.assoc k kvs' = Json.assoc k (strings [("method", method); ("args", encode args)])) ->
  serve "/rofl/v1/query" (Json.Object kvs') = Some (Json.Object (strings [("data"%string, encode data)])).
Proof.
  intros Ha Hd Hk. unfold serve, Json.get_str, Json.get. simpl. rewrite !Hk. simpl. rewrite hl_roundtrip by done. simpl. by rewrite Hd.
Qed.

(** C24: what crosses the socket arrives as it was sent.  Against a daemon that reads the
    request by its length header, the key service gives the pool the key of exactly the
    label and the kind it asked for, whatever the label has in it; and each of the two
    query clients gives the data of exactly the method and the arguments it was given.
    Nothing else is returned but the error of a socket that failed. *)
Theorem daemon_answers_exactly w :
  (forall key_id kind, Text.utf8_valid key_id = true ->
     (derive_key key_id kind w).1
     = unless_failed (ask "/rofl/v1/keys/generate" (key_request key_id kind) w) (Ok (kms key_id (as_str kind)))) /\
  (forall method args data, Text.utf8_valid method = true -> Forall is_u8 args -> answer method args = Some data ->
     (query method args w).1 = unless_failed (ask "/rofl/v1/query" (query_request method args) w) (Ok data) /\
     (appd_query method args w).1
     = unless_failed (ask "/rofl/v1/query" (query_request method args) w)
         (match from_reader data with Some v => Ok v | None => Err "decoding query CBOR" end)).
Proof.
  split.
  - intros key_id kind Hu. unfold derive_key, ask.
    destruct (exchange _ w) as [[raw|e] w'] eqn:E; [|done]. simpl.
    assert (raw = reply_text "200 OK" headers (to_string (Json.Object (strings [("key"%string, encode (kms key_id (as_str kind)))])))) as ->;
      [|by apply read_key_ok].
    apply (post_served "/rofl/v1/keys/generate" [("key_id", key_id); ("kind", as_str kind)] _ w);
      [apply keys_token|apply (bool_decide_unpack _); by vm_compute| | |exact (f_equal fst E)].
    { repeat constructor; [done..|]. by destruct kind. }
    intros kvs' Hk. unfold serve, Json.get_str, Json.get. simpl. by rewrite !Hk.
  - intros method args data Hu Ha Hd. unfold query, appd_query, request, appd_request, ask.
    destruct (exchange _ w) as [[raw|e] w'] eqn:E; [|done]. simpl.
    assert (Hb : Forall is_u8 data) by by eapply answer_bytes.
    destruct (reply_field "data" (encode data)) as (Hud & Hf & Hg); [done|by apply ascii_utf8, encode_ascii|].
    assert (raw = reply_text "200 OK" headers (to_string (Json.Object (strings [("data"%string, encode data)])))) as ->.
    { apply (post_served "/rofl/v1/query" [("method", method); ("args", encode args)] _ w);
        [apply query_token|apply (bool_decide_unpack _); by vm_compute| | |exact (f_equal fst E)].
      - repeat constructor; [done..|]. by apply ascii_utf8, encode_ascii.
      - intros kvs'. by apply serve_query. }
    rewrite read_reply_ok, read_body_ok by done. change (200 =? 200) with true. cbn [negb]. unfold query_resp. rewrite Hf.
    destruct (from_str _) as [v|]; [|done]. cbn [mbind option_bind] in Hg. by rewrite Hg, strip_0x_encode, hl_roundtrip.
Qed.

End Daemon.

(** ** Concrete inputs *)

Module Demo.

(** A numbering of the objects of strings, in decimals, as their text. *)
Definition fields_of (kvs : list (string * Json.Value)) : option (list (string * string)) :=
  mapM (fun kv => (fun s => (kv.1, s)) <$> Json.as_str kv.2) kvs.

#[export] Instance numbered : JsonText := {
  to_string v := match v with
                 | Json.Object kvs => match fields_of kvs with Some l => Text.show (Zpos (countable.encode l)) | None => "0" end
                 | _ => "0"
                 end;
  from_str s := n ← Text.digits 0 s; l ← countable.decode (Z.to_pos n); Some (Json.Object (strings l));
}.

Lemma fields_strings l : fields_of (strings l) = Some l.
Proof. induction l as [|[k s] l IH]; [done|]. unfold fields_of in *. simpl. by rewrite IH. Qed.

Lemma count_strings k l : NoDup l.*1 -> (Json.count_key k (strings l) <= 1)%nat.
Proof.
  unfold Json.count_key. induction l as [|[k' s] l IH]; intros Hd; simpl in *; [lia|]. apply NoDup_cons in Hd as [Hn Hd].
  rewrite filter_cons. case_decide as Ek; [|by apply IH]. simpl in *. subst k'.
  enough (filter (fun p : string * Json.Value => p.1 = k) (strings l) = []) as ->; [done|].
  clear IH Hd. induction l as [|[k' s'] l IH]; [done|]. simpl in *. rewrite filter_cons, decide_False by set_solver.
  apply IH. set_solver.
Qed.

#[export] Instance numbered_laws : JsonTextLaws.
Proof.
  split. intros kvs Hd Hu. unfold to_string, numbered. rewrite fields_strings. split.
  - rewrite <- (app_nil_s (Text.show _)), utf8_app; [done|]. eapply Forall_impl; [by apply Text.show_digits|].
    intros c Hc. by destruct c as [[] [] [] [] [] [] [] []]; try done; exfalso; apply Hc.
  - exists (strings kvs). split; [|intros k; split; [done|by apply count_strings]].
    unfold from_str. rewrite Text.digits_show by lia. simpl. by rewrite countable.decode_encode.
Qed.

Definition kms (key_id kind : string) : list Z := bytes_of (key_id +:+ kind).
Definition answer (method : string) (args : list Z) : option (list Z) := if String.eqb method "rofl.AppInstances" then Some [129; 160] else None.

#[export] Instance cbor : Cbor := { into_writer _ := []; from_reader b := Some (Bytes b) }.
#[export] Instance socket : Socket unit := {
  exchange req w := (Ok (daemon ["server: rofl-appd"] (serve (Hx := text_hex) kms answer) (fun _ => Some "rofl1abc") req), w);
}.

End Demo.

#[local] Existing Instances Demo.numbered Demo.numbered_laws Demo.cbor Demo.socket text_hex.

Lemma daemon_answers_exactly_witness :
  (derive_key "monero-wallet-seed-v1" Raw256 tt).1 = Ok (bytes_of "monero-wallet-seed-v1raw-256") /\
  (query "rofl.AppInstances" [161] tt).1 = Ok [129; 160] /\ (appd_query "rofl.AppInstances" [161] tt).1 = Ok (Bytes [129; 160]).
Proof.
  assert (Hb : forall s, Forall is_u8 (bytes_of s)).
  { intros s. unfold bytes_of. apply Forall_fmap, Forall_forall. intros c _. simpl. pose proof (Ascii.nat_ascii_bounded c). width_lia. }
  destruct (daemon_answers_exactly (HexLaws0 := text_hex_laws) ["server: rofl-appd"] Demo.kms Demo.answer) with (w := tt)
    (texts := fun _ : string => Some "rofl1abc"%string) as [Hk Hq].
  - repeat constructor; done.
  - intros req w raw [= <-]. reflexivity.
  - intros. apply Hb.
  - intros method args data. unfold Demo.answer. destruct (String.eqb method _); [|done]. intros [= <-].
    repeat constructor; width_lia.
  - split; [exact (Hk "monero-wallet-seed-v1" Raw256 eq_refl)|]. apply (Hq "rofl.AppInstances" [161] [129; 160] eq_refl);
      [repeat constructor; width_lia|done].
Defined.

End Appd.
