(* ===== verification/Wire.v ===== *)
(** Bytes off a socket: the lines of a miner's connection and the choice between TLS and
    plain text (stratum-proxy/src/session.rs), and the PROXY header in front of a request to
    the oracle (crossroads-oracle/src/proxy.rs, and the accept loop of server.rs).

    A connection is the sequence of what happens on it: bytes that arrive, in pieces of any
    size, and what interrupts the reading of them.  The parser of socket addresses is a
    parameter. *)
From Stdlib Require Import Ascii.
From S2P Require Import Prelude Text Session Appd.

Module Wire.

Definition LF : ascii := ascii_of_nat 10.

(** ** Lines of a miner *)

Module Lines.

Definition MAX_STRATUM_LINE_BYTES : Z := 16 * 1024.

(** [read_capped_line], again and again over the bytes at hand: [acc] is what the current
    call has read.  A call ends with a newline or when the cap is reached. *)
Fixpoint read_capped_lines (acc bytes : list ascii) : list (list ascii) * list ascii :=
  match bytes with
  | [] => ([], acc)
  | b :: bytes =>
      let acc := acc ++ [b] in
      if Ascii.eqb b LF || (Z.of_nat (length acc) =? MAX_STRATUM_LINE_BYTES)
      then let '(ls, rest) := read_capped_lines [] bytes in (acc :: ls, rest)
      else read_capped_lines acc bytes
  end.

(** [read_line] wants UTF-8. *)
Definition read_of (l : list ascii) : Session.read :=
  let s := String.string_of_list_ascii l in if Text.utf8_valid s then Session.Line s else Session.ReadErr.

(** What happens on a connection.  A job wins the [select!]: the call that was reading is
    dropped, and what it had read with it. *)
Inductive arrival : Type := Bytes (b : list ascii) | NewJob | Eof | Timeout | IoError.

Fixpoint reads (acc : list ascii) (es : list arrival) : list Session.read :=
  match es with
  | [] => []
  | Bytes b :: es => let '(ls, acc) := read_capped_lines acc b in (read_of <$> ls) ++ reads acc es
  | NewJob :: es => reads [] es
  | Eof :: _ => [read_of acc]
  | Timeout :: _ => [Session.IdleTimeout]
  | IoError :: _ => [Session.ReadErr]
  end.

(** What a connection holds in memory while it waits. *)
Fixpoint pending (acc : list ascii) (es : list arrival) : list ascii :=
  match es with
  | Bytes b :: es => pending (read_capped_lines acc b).2 es
  | NewJob :: es => pending [] es
  | _ => acc
  end.

(** [run_listener]: how a connection is taken, from the first byte of it if one came in
    time. *)
Inductive transport : Type := Tls | Plain | Dropped.

Definition accept (tls_acceptor : bool) (peek : option ascii) : transport :=
  if tls_acceptor then
    match peek with
    | Some b => if Ascii.eqb b (ascii_of_nat 22) then Tls else Plain
    | None => Dropped
    end
  else Plain.

(** ** Framing *)

Definition wire (l : string) : list ascii := String.list_ascii_of_string l ++ [LF].

(** A line a miner may send. *)
Definition sendable (l : string) : Prop :=
  Forall (fun c => c <> LF) (String.list_ascii_of_string l) /\
  Z.of_nat (String.length l) < MAX_STRATUM_LINE_BYTES /\
  Text.utf8_valid (l +:+ String LF EmptyString) = true.

Lemma read_app acc a b :
  read_capped_lines acc (a ++ b)
  = let '(ls, acc') := read_capped_lines acc a in let '(ls', acc'') := read_capped_lines acc' b in (ls ++ ls', acc'').
Proof.
  revert acc. induction a as [|x a IH]; intros acc; simpl; [by destruct (read_capped_lines acc b)|].
  destruct (Ascii.eqb x LF || _); rewrite IH.
  - destruct (read_capped_lines [] a) as [ls acc']. by destruct (read_capped_lines acc' b).
  - by destruct (read_capped_lines (acc ++ [x]) a).
Qed.

Lemma read_line l acc b :
  Forall (fun c => c <> LF) l -> Z.of_nat (length acc + length l) < MAX_STRATUM_LINE_BYTES ->
  read_capped_lines acc (l ++ LF :: b) = let '(ls, rest) := read_capped_lines [] b in ((acc ++ l ++ [LF]) :: ls, rest).
Proof.
  intros Hl. revert acc. induction Hl as [|x l Hx Hl IH]; intros acc Hn; simpl.
  - done.
  - rewrite length_app. simpl in *. rewrite (proj2 (Ascii.eqb_neq _ _) Hx), (proj2 (Z.eqb_neq _ _)) by (unfold MAX_STRATUM_LINE_BYTES in *; lia).
    simpl. rewrite IH by (rewrite length_app; simpl; lia). destruct (read_capped_lines [] b). by rewrite <- app_assoc.
Qed.

Lemma length_ascii s : length (String.list_ascii_of_string s) = String.length s.
Proof. induction s as [|c s IH]; simpl; [done|by rewrite IH]. Qed.

Lemma read_lines ls : Forall sendable ls -> read_capped_lines [] (concat (wire <$> ls)) = (wire <$> ls, []).
Proof.
  induction 1 as [|l ls (Hl & Hn & _) _ IH]; [done|]. cbn [fmap list_fmap concat]. unfold wire at 1. rewrite <- app_assoc. cbn [app].
  rewrite read_line; [by rewrite IH|done|]. simpl. by rewrite length_ascii.
Qed.

Lemma reads_chunks acc bs es :
  reads acc (map Bytes bs ++ es)
  = (read_of <$> (read_capped_lines acc (concat bs)).1) ++ reads (read_capped_lines acc (concat bs)).2 es.
Proof.
  revert acc. induction bs as [|b bs IH]; intros acc; [done|]. simpl. rewrite read_app.
  destruct (read_capped_lines acc b) as [ls acc']. rewrite IH. destruct (read_capped_lines acc' (concat bs)) as [ls' acc''].
  simpl. by rewrite fmap_app, app_assoc.
Qed.

(** What is held never reaches the cap, and no line passes it. *)
Lemma read_bounded acc b :
  Z.of_nat (length acc) < MAX_STRATUM_LINE_BYTES ->
  Z.of_nat (length (read_capped_lines acc b).2) < MAX_STRATUM_LINE_BYTES /\
  Forall (fun l => Z.of_nat (length l) <= MAX_STRATUM_LINE_BYTES) (read_capped_lines acc b).1.
Proof.
  revert acc. induction b as [|x b IH]; intros acc Hn; [done|]. cbn [read_capped_lines].
  destruct (Ascii.eqb x LF || _) eqn:E.
  - destruct (IH [] ltac:(done)) as [H1 H2]. destruct (read_capped_lines [] b) as [ls rest]. simpl in *. split; [done|].
    constructor; [|done]. rewrite length_app. simpl. lia.
  - apply IH. apply orb_false_iff in E as [_ E%Z.eqb_neq]. rewrite length_app in *. simpl in *. lia.
Qed.

Lemma pending_bounded es acc :
  Z.of_nat (length acc) < MAX_STRATUM_LINE_BYTES -> Z.of_nat (length (pending acc es)) < MAX_STRATUM_LINE_BYTES.
Proof.
  revert acc. induction es as [|[b| | | |] es IH]; intros acc Ha; simpl; try done; apply IH; [by apply read_bounded|done].
Qed.

(** The session's reads of a group of lines. *)
Lemma read_of_wire l : sendable l -> read_of (wire l) = Session.Line (l +:+ String LF EmptyString).
Proof.
  intros (_ & _ & Hu). unfold read_of, wire. change [LF] with (String.list_ascii_of_string (String LF EmptyString)).
  by rewrite <- Appd.list_ascii_app, String.string_of_list_ascii_of_string, Hu.
Qed.

(** C36: a session reads the lines its miner sent.  However the lines are cut into pieces on
    the way, as long as each is shorter than 16 KB and new jobs arrive between the lines,
    the session handles exactly these lines in this order; and whatever arrives, it never
    holds as much as 16 KB of a line. *)
Theorem lines_delivered :
  (forall groups : list (list string * list (list ascii)),
     Forall (fun g => Forall sendable g.1 /\ concat g.2 = concat (wire <$> g.1)) groups ->
     reads [] (concat ((fun g => map Bytes g.2 ++ [NewJob]) <$> groups))
     = (fun l => Session.Line (l +:+ String LF EmptyString)) <$> concat groups.*1) /\
  (forall es, Z.of_nat (length (pending [] es)) < MAX_STRATUM_LINE_BYTES).
Proof.
  split; [|intros es; by apply pending_bounded].
  induction 1 as [|g groups (Hs & Hc) _ IH]; [done|]. cbn [fmap list_fmap concat]. rewrite <- app_assoc, reads_chunks, Hc, read_lines by done.
  cbn [fst snd app reads]. rewrite IH, fmap_app. f_equal. rewrite <- list_fmap_compose. apply Forall_fmap_ext_1.
  eapply Forall_impl; [exact Hs|]. apply read_of_wire.
Qed.

(** A job in the middle of a line: the first half is lost and the second is taken for a
    line. *)
Example job_splits_line :
  reads [] [Bytes (String.list_ascii_of_string "{a"); NewJob; Bytes (wire "b}")] = [Session.Line ("b}" +:+ String LF EmptyString)].
Proof. vm_compute. reflexivity. Qed.

Lemma lines_delivered_witness :
  reads [] [Bytes (String.list_ascii_of_string "{lo"); Bytes (String.list_ascii_of_string "gin}" ++ [LF]); NewJob;
            Bytes (wire "{submit}" ++ wire "{}"); NewJob]
  = (fun l => Session.Line (l +:+ String LF EmptyString)) <$> ["{login}"; "{submit}"; "{}"].
Proof.
  apply (proj1 lines_delivered [
    (["{login}"], [String.list_ascii_of_string "{lo"; String.list_ascii_of_string "gin}" ++ [LF]]);
    (["{submit}"; "{}"], [wire "{submit}" ++ wire "{}"])]).
  repeat constructor; try done; unfold LF; discriminate.
Defined.

End Lines.

(** ** The PROXY header *)

Module Proxy.

Section Proxy.
Context {SocketAddr : Type}.
Variable parse_addr : string -> option SocketAddr.

(** [str::trim_end] and [split(' ')]. *)
Definition trim_end (s : string) : string := String.concat "" (reverse (Text.drop_white (reverse (Text.chars s)))).
Fixpoint split_space (s : string) : list string :=
  match s with
  | EmptyString => [EmptyString]
  | String c s' =>
      if Ascii.eqb c " " then EmptyString :: split_space s'
      else match split_space s' with f :: fs => String c f :: fs | [] => [String c EmptyString] end
  end.

Definition parse_v1_source (line : list ascii) : option SocketAddr :=
  let s := String.string_of_list_ascii line in
  if negb (Text.utf8_valid s) then None
  else match split_space (trim_end s) with
  | tag :: proto :: src_ip :: _dst_ip :: src_port :: _ =>
      if negb (String.eqb tag "PROXY") then None
      else if negb (String.eqb proto "TCP4") && negb (String.eqb proto "TCP6") then None
      else parse_addr (if String.eqb proto "TCP6" then "[" +:+ src_ip +:+ "]:" +:+ src_port else src_ip +:+ ":" +:+ src_port)
  | _ => None
  end.

(** The header, a byte at a time: up to its CRLF, or 108 bytes; [None] when the stream has
    no more bytes. *)
Fixpoint read_header (line stream : list ascii) : option (list ascii * list ascii) :=
  match stream with
  | [] => None
  | b :: stream =>
      let line := line ++ [b] in
      if bool_decide (drop (length line - 2) line = String.list_ascii_of_string Appd.CRLF) || (107 <? Z.of_nat (length line))
      then Some (line, stream) else read_header line stream
  end.

(** A connection: its address, what a peek of six bytes shows, the bytes it sends, and
    whether it closes after them.  A peek waits for the first byte. *)
Record conn : Type := { peer : SocketAddr; peeked : list ascii; stream : list ascii; closes : bool }.

(** [read_source]: still waiting, or the source and the bytes left. *)
Inductive sourced : Type := Waiting | Source (source : option SocketAddr) (rest : list ascii).

Definition PROXY : list ascii := String.list_ascii_of_string "PROXY ".

Definition read_source (c : conn) : sourced :=
  if bool_decide (peeked c = []) && negb (closes c) then Waiting
  else if (length (peeked c) <? 6)%nat || negb (bool_decide (take 6 (peeked c) = PROXY)) then Source None (stream c)
  else match read_header [] (stream c) with
       | Some (line, rest) => Source (parse_v1_source line) rest
       | None => if closes c then Source None [] else Waiting
       end.

(** [serve]: the connections in the order they are accepted, each with the circuit its
    requests are counted under; the header is read before the next one is accepted. *)
Fixpoint serve (cs : list conn) : list (SocketAddr * list ascii) :=
  match cs with
  | [] => []
  | c :: cs => match read_source c with
               | Waiting => []
               | Source source rest => (opt_or (peer c) source, rest) :: serve cs
               end
  end.

(** A header as Tor writes it. *)
Definition v1 (proto src dst sport dport : string) : string :=
  "PROXY " +:+ proto +:+ " " +:+ src +:+ " " +:+ dst +:+ " " +:+ sport +:+ " " +:+ dport +:+ Appd.CRLF.

(** ** What the header gives *)

Definition spaceless (s : string) : Prop := Forall (fun c => c <> " "%char) (String.list_ascii_of_string s).

Lemma split_space_one a : spaceless a -> split_space a = [a].
Proof.
  induction a as [|c a IH]; [done|]. intros [Hc Ha]%Forall_cons. simpl. by rewrite (proj2 (Ascii.eqb_neq _ _) Hc), IH.
Qed.

Lemma split_space_cons a b : spaceless a -> split_space (a +:+ " " +:+ b) = a :: split_space b.
Proof.
  induction a as [|c a IH]; [done|]. intros [Hc Ha]%Forall_cons. simpl. by rewrite (proj2 (Ascii.eqb_neq _ _) Hc), IH.
Qed.

Lemma token_spaceless a : Appd.token a -> spaceless a.
Proof. intros [Ha _]. eapply Forall_impl; [exact Ha|]. by intros c Hc ->. Qed.

Lemma ends_crlf l :
  drop (length l - 2) l = String.list_ascii_of_string Appd.CRLF <-> exists l', l = l' ++ String.list_ascii_of_string Appd.CRLF.
Proof.
  split.
  - intros E. exists (take (length l - 2) l). by rewrite <- E, take_drop.
  - intros [l' ->]. rewrite length_app. apply drop_app_length'. simpl. lia.
Qed.

(** A line is read up to its end. *)
Lemma not_ended acc c : Forall (fun c => c <> Appd.cr) acc -> ~ exists l', acc ++ [c] = l' ++ String.list_ascii_of_string Appd.CRLF.
Proof.
  intros Ha [l' E]. change (String.list_ascii_of_string Appd.CRLF) with ([Appd.cr] ++ [LF]) in E. rewrite app_assoc in E.
  apply app_inj_2 in E as [-> _]; [|done]. apply Forall_app in Ha as [_ Ha]. by apply Forall_cons in Ha as [? _].
Qed.

Lemma read_header_line l acc rest :
  Forall (fun c => c <> Appd.cr) l -> Forall (fun c => c <> Appd.cr) acc -> Z.of_nat (length acc + length l) <= 105 ->
  read_header acc (l ++ String.list_ascii_of_string Appd.CRLF ++ rest) = Some (acc ++ l ++ String.list_ascii_of_string Appd.CRLF, rest).
Proof.
  intros Hl. revert acc. induction Hl as [|c l Hc Hl IH]; intros acc Ha Hn; simpl in Hn.
  - change (String.list_ascii_of_string Appd.CRLF) with [Appd.cr; LF]. cbn [app read_header].
    rewrite bool_decide_false by (rewrite ends_crlf; by apply not_ended).
    rewrite (proj2 (Z.ltb_ge _ _)) by (rewrite length_app; simpl; lia). cbn [orb].
    rewrite bool_decide_true by (apply ends_crlf; exists acc; by rewrite <- app_assoc). cbn [orb]. by rewrite <- app_assoc.
  - cbn [app read_header]. rewrite bool_decide_false by (rewrite ends_crlf; by apply not_ended).
    rewrite (proj2 (Z.ltb_ge _ _)) by (rewrite length_app; simpl; lia). cbn [orb].
    rewrite IH; [by rewrite <- app_assoc|apply Forall_app; by repeat constructor|rewrite length_app; simpl; lia].
Qed.

(** The end of a line is trimmed. *)
Lemma drop_white_token a cs : Appd.token a -> Text.drop_white (reverse (Appd.singles a) ++ cs) = reverse (Appd.singles a) ++ cs.
Proof.
  intros [Ha Hn]. assert (Hw : Forall (fun ch => Text.is_white ch = false) (reverse (Appd.singles a))).
  { apply Forall_reverse, Forall_fmap. eapply Forall_impl; [exact Ha|]. intros c Hc. by apply Appd.plain_facts. }
  destruct (reverse (Appd.singles a)) as [|ch chs] eqn:E; [|apply Forall_cons in Hw as [Hc _]; simpl; by rewrite Hc].
  apply (f_equal length) in E. rewrite length_reverse in E. by destruct a.
Qed.

Lemma trim_end_line s a : Appd.ascii_text s -> Appd.token a -> trim_end (s +:+ a +:+ Appd.CRLF) = s +:+ a.
Proof.
  intros Hs Ha. unfold trim_end. rewrite Appd.chars_ascii by (repeat apply Appd.ascii_text_app; [done|by apply Appd.token_ascii|by repeat constructor]).
  fold (Appd.singles (s +:+ a +:+ Appd.CRLF)). rewrite !Appd.singles_app, !reverse_app, <- app_assoc.
  change (Text.drop_white (reverse (Appd.singles Appd.CRLF) ++ reverse (Appd.singles a) ++ reverse (Appd.singles s)))
    with (Text.drop_white (reverse (Appd.singles a) ++ reverse (Appd.singles s))).
  rewrite drop_white_token, <- reverse_app, reverse_involutive, <- Appd.singles_app by done. apply Appd.concat_singles.
Qed.

(** Who connects: a circuit of Tor with its header and its request, or anyone else. *)
Inductive client : Type :=
| Tor (via : SocketAddr) (v6 : bool) (src dst sport dport : string) (request : list ascii)
| Direct (from : SocketAddr) (request : list ascii).

Definition header_of (v6 : bool) (src dst sport dport : string) : string := v1 (if v6 then "TCP6" else "TCP4") src dst sport dport.

Definition conn_of (c : client) : conn :=
  match c with
  | Tor via v6 src dst sport dport request =>
      {| peer := via; peeked := PROXY; stream := String.list_ascii_of_string (header_of v6 src dst sport dport) ++ request; closes := false |}
  | Direct from request => {| peer := from; peeked := take 6 request; stream := request; closes := false |}
  end.

Definition client_ok (c : client) : Prop :=
  match c with
  | Tor _ v6 src dst sport dport _ =>
      Forall Appd.token [src; dst; sport; dport] /\ Z.of_nat (String.length (header_of v6 src dst sport dport)) <= 107
  | Direct _ request => request <> [] /\ take 6 request <> PROXY
  end.

(** The circuit, and the request as it was sent. *)
Definition seen (c : client) : SocketAddr * list ascii :=
  match c with
  | Tor via v6 src _ sport _ request =>
      (opt_or via (parse_addr (if v6 then "[" +:+ src +:+ "]:" +:+ sport else src +:+ ":" +:+ sport)), request)
  | Direct from request => (from, request)
  end.

Definition before_port (proto src dst sport : string) : string :=
  "PROXY " +:+ proto +:+ " " +:+ src +:+ " " +:+ dst +:+ " " +:+ sport +:+ " ".

Lemma v1_split proto src dst sport dport : v1 proto src dst sport dport = before_port proto src dst sport +:+ dport +:+ Appd.CRLF.
Proof. unfold v1, before_port. by rewrite !Appd.app_assoc_s. Qed.

Lemma before_port_ascii proto src dst sport :
  Appd.token proto -> Appd.token src -> Appd.token dst -> Appd.token sport -> Appd.ascii_text (before_port proto src dst sport).
Proof.
  intros. unfold before_port. repeat apply Appd.ascii_text_app; first [by apply Appd.token_ascii | by repeat constructor].
Qed.

Lemma v1_ascii proto src dst sport dport :
  Appd.token proto -> Appd.token src -> Appd.token dst -> Appd.token sport -> Appd.token dport ->
  Appd.ascii_text (v1 proto src dst sport dport).
Proof.
  intros. rewrite v1_split. apply Appd.ascii_text_app; [by apply before_port_ascii|].
  apply Appd.ascii_text_app; [by apply Appd.token_ascii|by repeat constructor].
Qed.

Lemma v1_fields proto src dst sport dport :
  Appd.token proto -> Appd.token src -> Appd.token dst -> Appd.token sport -> Appd.token dport ->
  split_space (trim_end (v1 proto src dst sport dport)) = ["PROXY"; proto; src; dst; sport; dport].
Proof.
  intros. rewrite v1_split, trim_end_line by (done || by apply before_port_ascii). unfold before_port. rewrite !Appd.app_assoc_s.
  change (split_space (?p +:+ ?x)) with (split_space ("PROXY" +:+ " " +:+ x)).
  repeat (rewrite split_space_cons; [f_equal|first [by apply token_spaceless | by repeat constructor]]).
  by apply split_space_one, token_spaceless.
Qed.

Lemma proto_token (v6 : bool) : Appd.token (if v6 then "TCP6" else "TCP4").
Proof. destruct v6; (split; [by repeat constructor|done]). Qed.

Lemma header_source v6 src dst sport dport :
  Appd.token src -> Appd.token dst -> Appd.token sport -> Appd.token dport ->
  parse_v1_source (String.list_ascii_of_string (header_of v6 src dst sport dport))
  = parse_addr (if v6 then "[" +:+ src +:+ "]:" +:+ sport else src +:+ ":" +:+ sport).
Proof.
  intros. unfold parse_v1_source, header_of. pose proof (proto_token v6).
  rewrite String.string_of_list_ascii_of_string, Appd.ascii_utf8, v1_fields by (done || by apply v1_ascii). by destruct v6.
Qed.

Lemma header_read v6 src dst sport dport request :
  Appd.token src -> Appd.token dst -> Appd.token sport -> Appd.token dport ->
  Z.of_nat (String.length (header_of v6 src dst sport dport)) <= 107 ->
  read_header [] (String.list_ascii_of_string (header_of v6 src dst sport dport) ++ request)
  = Some (String.list_ascii_of_string (header_of v6 src dst sport dport), request).
Proof.
  intros ???? Hn. pose proof (proto_token v6) as Hp. unfold header_of in *. rewrite v1_split, <- Appd.app_assoc_s in *.
  rewrite <- Lines.length_ascii, Appd.list_ascii_app, length_app in Hn. rewrite Appd.list_ascii_app, <- app_assoc, read_header_line.
  - done.
  - rewrite Appd.list_ascii_app. apply Forall_app. split; [|by apply Appd.token_no_cr].
    unfold before_port. repeat apply Appd.no_cr_app; first [by apply Appd.token_no_cr | by repeat constructor].
  - done.
  - simpl in *. lia.
Qed.

Lemma client_sourced c : client_ok c -> exists o, read_source (conn_of c) = Source o (seen c).2 /\ opt_or (peer (conn_of c)) o = (seen c).1.
Proof.
  destruct c as [via v6 src dst sport dport request|from request]; unfold read_source; cbn [conn_of peeked stream closes peer seen fst snd client_ok].
  - intros [Ht Hn]. rewrite !Forall_cons in Ht. destruct Ht as (H1 & H2 & H3 & H4 & _).
    rewrite (bool_decide_false (PROXY = [])) by done. change (length PROXY <? 6)%nat with false. rewrite bool_decide_true by done.
    cbn [andb orb negb]. rewrite header_read, header_source by done. by eexists.
  - intros [Hr Hp]. rewrite (bool_decide_false (take 6 request = [])) by (by destruct request).
    rewrite take_take, bool_decide_false by done. rewrite orb_true_r. by exists None.
Qed.

(** Requests are counted under the circuit they came by.  A connection that Tor opens
    has the source of its header as its circuit and any other one its own address; and
    the request itself is left on the stream as it was sent, whether a header was read in
    front of it or not. *)
Lemma circuits_read cs : Forall client_ok cs -> serve (conn_of <$> cs) = seen <$> cs.
Proof.
  induction 1 as [|c cs Hc _ IH]; [done|]. destruct (client_sourced c Hc) as (o & Es & Eo). cbn [fmap list_fmap serve].
  rewrite Es, Eo, IH. by destruct (seen c).
Qed.

(** A connection that sends nothing holds up every later one: the header is awaited in the
    loop that accepts. *)
Lemma silent_connection_blocks c cs1 cs2 :
  peeked c = [] -> closes c = false -> serve (cs1 ++ c :: cs2) = serve cs1 \/ exists c', c' ∈ cs1 /\ read_source c' = Waiting.
Proof.
  intros Hp Hc. induction cs1 as [|c1 cs1 IH].
  - left. simpl. unfold read_source. by rewrite Hp, Hc, bool_decide_true.
  - simpl. destruct (read_source c1) as [|o rest] eqn:E; [right; exists c1; set_solver|].
    destruct IH as [->|(c' & Hin & Hw)]; [by left|right; exists c'; set_solver].
Qed.

End Proxy.

(** A header of which the peek saw a part: it is taken for the request. *)
Example short_peek_leaves_header :
  let h := String.list_ascii_of_string (v1 "TCP4" "1.2.3.4" "5.6.7.8" "9" "80") in
  read_source (fun s => Some s) {| peer := "p"; peeked := take 3 h; stream := h; closes := false |} = Source None h.
Proof. vm_compute. reflexivity. Qed.

End Proxy.

End Wire.
