(* ===== verification/Agent.v ===== *)
(** The tasks of the enclave that talk to its daemon: the single-instance guard
    (mining-pool/src/single_active.rs) and the rent agent (mining-pool/src/self_fund.rs),
    over the clients of [Appd].

    The decisions are those of [Rofl]; here they are made on what is read over the
    socket, request by request, with the clock and the sleeps. *)
From S2P Require Import Prelude Text Hex Json Rofl Periphery Appd Wallet PoolConfig.
Import Rofl Appd.

Module Agent.

(** The clock, and whether the daemon's socket is there. *)
Class EnclaveEnv (W : Type) := {
  unix_now : W -> Z;
  sleep_secs : Z -> W -> W;
  socket_exists : W -> bool;
}.

Section Tasks.
Context {W : Type} `{Socket W} `{JsonText} `{Cbor} `{Hex} `{EnclaveEnv W}.

(** ** The guard *)

Definition POLL_WAIT : Z := 60.
Definition POLL_ERR : Z := 10.

(** The loop for a number of turns: the checks it made, and the state in which it
    returned, if it did. *)
Fixpoint guard_loop (turns : nat) (node_aware : bool) (errors : Z) (w : W) : list (anyhow (list Value)) * option W :=
  match turns with
  | O => ([], None)
  | S turns' =>
      let '(r, w) := live_node_ids w in
      match r with
      | Ok nodes =>
          match guard_decide nodes node_aware with
          | Proceed | Skipped => ([r], Some w)
          | StandDown => let '(cs, o) := guard_loop turns' node_aware 0 (sleep_secs POLL_WAIT w) in (r :: cs, o)
          end
      | Err _ =>
          let errors := errors + 1 in
          if errors >=? MAX_ERRORS then ([r], Some w)
          else let '(cs, o) := guard_loop turns' node_aware errors (sleep_secs POLL_ERR w) in (r :: cs, o)
      end
  end.

Definition guard (turns : nat) (cfg : PoolConfig.SingleActiveConfig) (w : W) : list (anyhow (list Value)) * option W :=
  if negb (socket_exists w) then ([], Some w)
  else if negb (PoolConfig.sa_enabled cfg) then ([], Some w)
  else guard_loop turns (PoolConfig.sa_node_aware cfg) 0 (sleep_secs (PoolConfig.sa_settle_secs cfg) w).

(** ** The rent agent *)

(** SHA-512/256, and the selector of a function of the reservoir contract. *)
Variable sha512_256 : list Z -> list Z.
Variable selector : string -> list Z.

Definition agent_cfg (c : PoolConfig.SelfFundConfig) : SelfFundConfig := {|
  safety_window_secs := PoolConfig.sf_safety_window_secs c;
  max_topup_term := PoolConfig.sf_max_topup_term c;
  min_topup_interval_secs := PoolConfig.sf_min_topup_interval_secs c;
  min_check_interval_secs := PoolConfig.sf_min_check_interval_secs c;
  max_check_interval_secs := PoolConfig.sf_max_check_interval_secs c;
  force_first_topup := PoolConfig.sf_force_first_topup c;
|}.

(** The calls, as the contract's interface encodes them. *)
Definition top_up_data (term count : Z) : list Z := selector "topUp(uint8,uint8)" ++ to_be_bytes 32 term ++ to_be_bytes 32 count.
Definition set_instance_data (t : Periphery.Target) : list Z :=
  selector "setInstance(bytes21,bytes8)" ++ Periphery.t_provider t ++ replicate 11 0 ++ Periphery.t_instance_id t ++ replicate 24 0.

(** A tick: its result, the state after it, and the top-up it submitted. *)
Definition tick (cfg : SelfFundConfig) (reserve_floor : Z) (t : Periphery.Target) (st : AgentState) (w : W)
    : anyhow (option Z) * AgentState * option (Z * Z) * W :=
  let now := unix_now w in
  let '(r, w) := query "roflmarket.Instance" (encode_instance_args (Periphery.t_provider t) (Periphery.t_instance_id t)) w in
  match (match r with
         | Ok raw => match parse_instance raw with Ok i => Ok (Some i) | Err e => Err e end
         | Err _ => Ok None
         end) with
  | Err e => (Err e, st, None, w)
  | Ok inst =>
      let runway := (fun p => u64_saturating_sub p now) <$> (inst ≫= paid_until) in
      if negb (topup_due cfg now runway st) then (Ok runway, st, None, w)
      else
        let '(b, w) := query "accounts.Balances" (encode_balances_args (oasis_addr_from_eth sha512_256 (Periphery.t_rent_payer t))) w in
        let balance := match b with
                       | Ok raw => match parse_native_balance raw with Ok bal => Some bal | Err _ => None end
                       | Err _ => None
                       end in
        match choose_term cfg reserve_floor balance (terms <$> inst) with
        | None => (Ok runway, st, None, w)
        | Some (term, count) =>
            let '(s, w) := sign_submit_eth (Periphery.t_rent_payer t) (top_up_data term count) 250000 w in
            match s with
            | Err e => (Err e, st, Some (term, count), w)
            | Ok _ => (Ok runway, {| last_topup := now; forced_done := true |}, Some (term, count), w)
            end
        end
  end.

(** The loop of [run] for a number of turns: the acknowledged top-ups, with the time. *)
Fixpoint agent_loop (turns : nat) (cfg : SelfFundConfig) (reserve_floor : Z) (t : Periphery.Target) (sleep : Z) (st : AgentState) (w : W)
    : list (Z * Z) :=
  match turns with
  | O => []
  | S turns' =>
      let w := sleep_secs sleep w in
      let now := unix_now w in
      let '(r, st, a, w) := tick cfg reserve_floor t st w in
      let sleep := match r with Ok runway => adaptive_sleep runway cfg | Err _ => Z.max (min_check_interval_secs cfg) 1 end in
      let rest := agent_loop turns' cfg reserve_floor t sleep st w in
      match r, a with Ok _, Some (term, _) => (now, term) :: rest | _, _ => rest end
  end.

(** [run]: nothing is done without a target. *)
Definition run (turns : nat) (c : PoolConfig.SelfFundConfig) (w : W) : list (Z * Z) :=
  match Periphery.targeting (PoolConfig.sf_rent_payer_address c) (PoolConfig.sf_provider_hex c) (PoolConfig.sf_instance_id_hex c) with
  | None => []
  | Some t =>
      let '(app, w) := app_id_bytes w in
      let w := match app with Ok app => (discover (Periphery.t_provider t) app w).2 | Err _ => w end in
      let reserve_floor := opt_or 0 (Text.parse_u128 (Text.trim (PoolConfig.sf_reserve_floor_wei c))) in
      let '(_, w) := app_id w in
      let '(_, w) := sign_submit_eth (Periphery.t_rent_payer t) (set_instance_data t) 200000 w in
      agent_loop turns (agent_cfg c) reserve_floor t (Z.max (PoolConfig.sf_min_check_interval_secs c) 1)
        {| last_topup := 0; forced_done := false |} w
  end.

(** ** What they see *)

(** The checks of the guard are those the decision was made on. *)
Lemma guard_loop_checks turns na errors w cs w' :
  guard_loop turns na errors w = (cs, Some w') -> await_checks na cs errors = Some (length cs).
Proof.
  revert errors w cs w'. induction turns as [|turns IH]; intros errors w cs w' Hg; simpl in Hg; [done|].
  destruct (live_node_ids w) as [[nodes|e] w1].
  - destruct (guard_decide nodes na) eqn:Ed; [by simplify_eq/=; rewrite Ed| |by simplify_eq/=; rewrite Ed].
    destruct (guard_loop turns na 0 _) as [cs1 o1] eqn:E. simplify_eq/=. rewrite Ed. by rewrite (IH _ _ _ _ E).
  - destruct (errors + 1 >=? MAX_ERRORS) eqn:Em; [by simplify_eq/=; rewrite Em|].
    destruct (guard_loop turns na _ _) as [cs1 o1] eqn:E. simplify_eq/=. rewrite Em. by rewrite (IH _ _ _ _ E).
Qed.

(** A tick is the tick of [Rofl] on what the daemon replied. *)
Lemma tick_observed cfg floor t st w r st' a w' :
  tick cfg floor t st w = (r, st', a, w') -> exists o, ob_now o = unix_now w /\ sf_tick cfg floor o st = (r, st', a).
Proof.
  unfold tick. destruct (query "roflmarket.Instance" _ w) as [ri w1].
  destruct (query "accounts.Balances" _ w1) as [rb w2].
  set (decoded := fun (e : string) (r : anyhow (list Z)) => match r with
    | Ok raw => Ok (match from_reader raw with Some v => Ok v | None => Err e end) | Err e => Err e end).
  intros Ht. exists {| ob_now := unix_now w; ob_instance := decoded "decoding roflmarket.Instance CBOR" ri;
    ob_balance := decoded "" rb; ob_submit := fun term count => (sign_submit_eth (Periphery.t_rent_payer t) (top_up_data term count) 250000 w2).1 |}.
  split; [done|]. unfold sf_tick, decoded, parse_instance, parse_native_balance in *. cbn [ob_now ob_instance ob_balance ob_submit].
  destruct ri as [rawi|ei]; [destruct (from_reader rawi) as [vi|]; [|by simplify_eq]|];
    (destruct (negb (topup_due _ _ _ _)); [by simplify_eq|]);
    (destruct rb as [rawb|eb]; [destruct (from_reader rawb) as [vb|]|]);
    (destruct (choose_term _ _ _ _) as [[term count]|]; [|by simplify_eq]);
    destruct (sign_submit_eth _ _ _ w2) as [[s|e] w3]; by simplify_eq/=.
Qed.

Lemma agent_loop_observed turns cfg floor t sleep st w :
  exists os, agent_loop turns cfg floor t sleep st w = sf_run cfg floor os st.
Proof.
  revert sleep st w. induction turns as [|turns IH]; intros sleep st w; [by exists []|]. simpl.
  destruct (tick cfg floor t st (sleep_secs sleep w)) as [[[r st'] a] w'] eqn:Et.
  destruct (tick_observed _ _ _ _ _ _ _ _ _ Et) as (o & Ho & Eo).
  destruct (IH (match r with Ok runway => adaptive_sleep runway cfg | Err _ => Z.max (min_check_interval_secs cfg) 1 end) st' w') as [os Es].
  exists (o :: os). simpl. rewrite Eo, Ho, Es. by destruct r, a as [[]|].
Qed.

End Tasks.
(** ** The properties *)

(** The pool starts alone.  Inside the enclave, with the guard enabled, the guard
    returns only after a check over the socket that found a single live instance (one
    registration in strict mode; one node, when the registrations' node ids are told
    apart), or after six checks in a row that failed. *)
Lemma guard_lets_start {W : Type} `{Socket W} `{JsonText} `{Cbor} `{Hex} `{EnclaveEnv W} turns cfg (w : W) cs w' :
  guard turns cfg w = (cs, Some w') -> socket_exists w = true -> PoolConfig.sa_enabled cfg = true ->
  (exists k nodes, length cs = S k /\ cs !! k = Some (Ok nodes) /\
     (PoolConfig.sa_node_aware cfg = false -> (length nodes <= 1)%nat) /\
     (PoolConfig.sa_node_aware cfg = true -> forall ids, nodes = Bytes <$> ids -> forall x y, x ∈ ids -> y ∈ ids -> x = y)) \/
  (6 <= Z.of_nat (length cs) /\
   forall i, Z.of_nat (length cs) - 6 <= Z.of_nat i < Z.of_nat (length cs) -> exists e, cs !! i = Some (Err e)).
Proof.
  intros Hg Hs He. unfold guard in Hg. rewrite Hs, He in Hg. cbn [negb] in Hg.
  apply await_lets_start. unfold await_sole_instance. cbn [negb]. by eapply guard_loop_checks.
Qed.

(** The agent cannot run away with the reserve.  Over any run against any daemon,
    two top-ups that were acknowledged one after the other are at least the configured
    interval apart, whatever was read and whatever failed in between. *)
Lemma topups_spaced {W : Type} `{Socket W} `{JsonText} `{Cbor} `{Hex} `{EnclaveEnv W} sha512_256 selector turns c (w : W) i a b :
  run sha512_256 selector turns c w !! i = Some a -> run sha512_256 selector turns c w !! S i = Some b ->
  PoolConfig.sf_min_topup_interval_secs c <= Z.max 0 (b.1 - a.1).
Proof.
  unfold run. destruct (Periphery.targeting _ _ _) as [t|]; [|done]. destruct (app_id_bytes w) as [app w1].
  destruct (app_id _) as [x w2]. destruct (sign_submit_eth _ _ _ w2) as [y w3].
  match goal with |- context [agent_loop ?sh ?se ?n ?cf ?fl ?tt ?sl ?st ?ww] =>
    destruct (agent_loop_observed sh se n cf fl tt sl st ww) as [os ->] end.
  apply (sf_run_spaced (agent_cfg c)).
Qed.

(** ** Concrete inputs *)

Module Demo.

(** A daemon with one reply; the state is the clock. *)
#[export] Instance socket : Socket Z := { exchange _ w := (Ok (reply_text "200 OK" [] demo_id), w) }.
#[export] Instance env : EnclaveEnv Z := { unix_now w := w; sleep_secs d w := w + d; socket_exists _ := true }.
#[export] Instance json : JsonText := { to_string _ := "{}"; from_str _ := Some (Json.Object [("data"%string, Json.Str "00")]) }.

(** Two registrations of one node; and an instance with its prices and the reserve. *)
Definition registrations : Cbor := {|
  into_writer _ := [];
  from_reader _ := Some (Array [Map [(CText "node_id", Bytes [7])]; Map [(CText "node_id", Bytes [7])]]);
|}.
Definition market : Cbor := {|
  into_writer _ := [];
  from_reader _ := Some (Map [(CText "paid_until", Integer 1000);
    (CText "payment", Map [(CText "native", Map [(CText "terms", Map [(Integer 1, Integer 50); (Integer 2, Integer 20000)])])]);
    (CText "balances", Map [(Bytes [], Bytes [3; 232])])]);
|}.

Definition funded : PoolConfig.SelfFundConfig := {|
  PoolConfig.sf_enabled := true;
  PoolConfig.sf_rent_payer_address := "0x18c0ed1400161c7bF6a6C82b95Df99E4eCD87f06";
  PoolConfig.sf_provider_hex := "0x00b070fdacd9d9b8b78c68e5a8b90cb3a35217984e";
  PoolConfig.sf_instance_id_hex := "0000000000000624";
  PoolConfig.sf_safety_window_secs := 1200; PoolConfig.sf_max_topup_term := 2; PoolConfig.sf_min_topup_interval_secs := 600;
  PoolConfig.sf_min_check_interval_secs := 400; PoolConfig.sf_max_check_interval_secs := 3600;
  PoolConfig.sf_reserve_floor_wei := "0"; PoolConfig.sf_force_first_topup := false;
|}.

Definition topped_up : list (Z * Z) := run (H1 := market) (H2 := text_hex) (fun b => b) (fun _ => []) 6 funded 0.

End Demo.

#[local] Existing Instances Demo.socket Demo.env Demo.json text_hex.

End Agent.
