(* ===== verification/TorHs.v ===== *)
(** The onion identity of the pool: mining-pool/src/tor_hs.rs, which the subcommand
    [tor-hs-init] runs before the pool starts, and the reading of the address by
    mining-pool/src/main.rs.

    The hash functions, the curve, the base-32 library and the file system are
    parameters. *)
From Stdlib Require Import Ascii.
From S2P Require Import Prelude Text Hex Appd.

Module TorHs.

(** SHA-512, SHA3-256, and the public key of a scalar. *)
Class Ed25519 := {
  sha512 : list Z -> list Z;
  sha3_256 : list Z -> list Z;
  base_mul : list Z -> list Z;
}.

Class Base32 := { encode_nopad : list Z -> string; decode_nopad : string -> option (list Z) }.

Class FsEnv (W : Type) := {
  create_dir_all : string -> W -> anyhow unit * W;
  set_permissions : string -> Z -> W -> anyhow unit * W;
  fs_write : string -> list Z -> W -> anyhow unit * W;
  fs_read : string -> W -> option (list Z) * W;
}.

(** Text of bytes. *)
Definition string_of (b : list Z) : string := String.string_of_list_ascii ((fun z => ascii_of_nat (Z.to_nat z)) <$> b).

(** [Path::join] of a relative name. *)
Definition join (dir name : string) : string := dir +:+ "/" +:+ name.

Section Identity.
Context `{Ed25519} `{Base32}.

(** The clamp of the first half: [a[0] &= 248; a[31] &= 127; a[31] |= 64]. *)
Definition clamp (a : list Z) : list Z :=
  let a := alter (fun x => Z.land x 248) 0%nat a in
  let a := alter (fun x => Z.land x 127) 31%nat a in
  alter (fun x => Z.lor x 64) 31%nat a.

Definition expand_seed (seed : list Z) : list Z * list Z :=
  let h := sha512 seed in
  let a := clamp (take 32 h) in
  let b := drop 32 h in
  (a ++ b, base_mul a).

Definition checksum (pubkey : list Z) : list Z := take 2 (sha3_256 (bytes_of ".onion checksum" ++ pubkey ++ [3])).

Definition onion_v3_from_pubkey (pubkey : list Z) : string :=
  Text.to_ascii_lowercase (encode_nopad (pubkey ++ checksum pubkey ++ [3])) +:+ ".onion".

Definition secret_header : list Z := bytes_of "== ed25519v1-secret: type0 ==" ++ [0; 0; 0].
Definition public_header : list Z := bytes_of "== ed25519v1-public: type0 ==" ++ [0; 0; 0].

Section Files.
Context {W : Type} `{FsEnv W}.

Definition write_file (path : string) (data : list Z) (mode : Z) (w : W) : anyhow unit * W :=
  let '(r, w) := fs_write path data w in
  match r with
  | Err e => (Err e, w)
  | Ok _ => set_permissions path mode w
  end.

(** 0700 and 0600 in octal are 448 and 384. *)
Definition write_from_seed (seed : list Z) (dir : string) (w : W) : anyhow string * W :=
  let '(r, w) := create_dir_all dir w in
  match r with Err e => (Err e, w) | Ok _ =>
  let '(r, w) := set_permissions dir 448 w in
  match r with Err e => (Err e, w) | Ok _ =>
  let '(expanded, pubkey) := expand_seed seed in
  let '(r, w) := write_file (join dir "hs_ed25519_secret_key") (secret_header ++ expanded) 384 w in
  match r with Err e => (Err e, w) | Ok _ =>
  let '(r, w) := write_file (join dir "hs_ed25519_public_key") (public_header ++ pubkey) 384 w in
  match r with Err e => (Err e, w) | Ok _ =>
  let onion := onion_v3_from_pubkey pubkey in
  let '(r, w) := write_file (join dir "hostname") (bytes_of (onion +:+ String (ascii_of_nat 10) EmptyString)) 384 w in
  match r with Err e => (Err e, w) | Ok _ => (Ok onion, w) end end end end end.

(** The address as main.rs reads it from the directory; [read_to_string] wants UTF-8. *)
Definition read_onion (dir : string) (w : W) : option string * W :=
  let '(r, w) := fs_read (join dir "hostname") w in
  (match r with
   | Some b => if Text.utf8_valid (string_of b)
               then let s := Text.trim (string_of b) in if String.eqb s "" then None else Some s
               else None
   | None => None
   end, w).

End Files.

(** What a Tor client does with an address: the key it names, if the address is whole. *)
Definition upper (c : ascii) : ascii :=
  let n := nat_of_ascii c in if ((97 <=? n) && (n <=? 122))%nat then ascii_of_nat (n - 32) else c.
Fixpoint to_ascii_uppercase (s : string) : string :=
  match s with EmptyString => EmptyString | String c s' => String (upper c) (to_ascii_uppercase s') end.

Definition parse_onion (s : string) : option (list Z) :=
  match Appd.split_once ".onion" s with
  | Some (name, EmptyString) =>
      b ← decode_nopad (to_ascii_uppercase name);
      let pubkey := take 32 b in
      if bool_decide (b = pubkey ++ checksum pubkey ++ [3]) then Some pubkey else None
  | _ => None
  end.

End Identity.
(** ** What the parameters promise *)

Class EdLaws `{Ed25519} : Prop := {
  sha512_bytes : forall b, Forall is_u8 (sha512 b) /\ length (sha512 b) = 64%nat;
  sha3_bytes : forall b, Forall is_u8 (sha3_256 b) /\ length (sha3_256 b) = 32%nat;
  point_bytes : forall b, Forall is_u8 (base_mul b) /\ length (base_mul b) = 32%nat;
}.

(** Capital letters and the digits from 2 to 7. *)
Definition base32_char (c : ascii) : bool :=
  let n := nat_of_ascii c in (((65 <=? n) && (n <=? 90)) || ((50 <=? n) && (n <=? 55)))%nat.

Class Base32Laws `{Base32} : Prop := {
  b32_roundtrip : forall b, Forall is_u8 b -> decode_nopad (encode_nopad b) = Some b;
  b32_alphabet : forall b, Forall (fun c => base32_char c = true) (String.list_ascii_of_string (encode_nopad b));
}.

(** What the files hold: a write that succeeds holds, one that fails may leave anything
    in its file, and a read may fail. *)
Class FsLaws (W : Type) `{FsEnv W} := {
  content : W -> gmap string (list Z);
  fl_mkdir : forall d w, content (create_dir_all d w).2 = content w;
  fl_chmod : forall p m w, content (set_permissions p m w).2 = content w;
  fl_write : forall p b w r w', fs_write p b w = (r, w') ->
    (forall q, q <> p -> content w' !! q = content w !! q) /\ (r = Ok tt -> content w' !! p = Some b);
  fl_read : forall p w, (fs_read p w).1 = None \/ (fs_read p w).1 = content w !! p;
}.

Lemma string_of_bytes s : string_of (bytes_of s) = s.
Proof.
  induction s as [|c s IH]; [done|]. unfold string_of, bytes_of in *. simpl in *. rewrite Nat2Z.id, ascii_nat_embedding. by f_equal.
Qed.

Lemma base32_facts c :
  base32_char c = true -> upper (Text.lower c) = c /\ Text.is_plain (Text.lower c) = true /\ Text.lower c <> "."%char.
Proof. by destruct c as [[] [] [] [] [] [] [] []]. Qed.

Lemma base32_text s :
  Forall (fun c => base32_char c = true) (String.list_ascii_of_string s) ->
  to_ascii_uppercase (Text.to_ascii_lowercase s) = s /\
  Forall (fun c => Text.is_plain c = true /\ c <> "."%char) (String.list_ascii_of_string (Text.to_ascii_lowercase s)).
Proof.
  induction s as [|c s IH]; intros Hs; [by split|]. inversion Hs as [|? ? Hc Hs']; subst. destruct (IH Hs') as [E Hf].
  destruct (base32_facts c Hc) as (Eu & Hp & Hd). simpl. rewrite Eu, E. split; [done|]. by constructor.
Qed.

Section Onion.
Context `{Ed25519} `{!EdLaws} `{Base32} `{!Base32Laws}.

Lemma clamp_eq x m y :
  length m = 30%nat -> clamp (x :: m ++ [y]) = Z.land x 248 :: m ++ [Z.lor (Z.land y 127) 64].
Proof.
  intros Hm. unfold clamp. cbn [alter list_alter]. replace 30%nat with (length m + 0)%nat by lia.
  by rewrite !alter_app_r.
Qed.

(** What holds of every byte, by enumeration. *)
Lemma byte_check (f : Z -> bool) : forallb (fun k => f (Z.of_nat k)) (seq 0 256) = true -> forall x, is_u8 x -> f x = true.
Proof.
  intros Hf x Hx. rewrite forallb_forall in Hf. specialize (Hf (Z.to_nat x)). rewrite Z2Nat.id in Hf by width_lia.
  apply Hf, in_seq. width_lia.
Qed.

Lemma last_byte y : is_u8 y -> Z.lor (Z.land y 127) 64 = 64 + y mod 64.
Proof. intros Hy. apply (byte_check (fun y => Z.lor (Z.land y 127) 64 =? 64 + y mod 64)) in Hy; [|by vm_compute]. by apply Z.eqb_eq. Qed.

Lemma first_byte x : is_u8 x -> Z.land x 248 = 8 * (x / 8).
Proof. intros Hx. apply (byte_check (fun x => Z.land x 248 =? 8 * (x / 8))) in Hx; [|by vm_compute]. by apply Z.eqb_eq. Qed.

(** The scalar of 32 bytes by its value (RFC 8032): the three lowest bits and the highest are
    cleared, the second highest is set. *)
Definition scalar (n : Z) : Z := 2 ^ 254 + 8 * ((n / 8) mod 2 ^ 251).

Lemma scalar_split x m y :
  is_u8 x -> 0 <= m < 2 ^ 240 -> is_u8 y ->
  scalar (x + 256 * (m + 2 ^ 240 * y)) = 8 * (x / 8) + 256 * (m + 2 ^ 240 * (64 + y mod 64)).
Proof.
  intros Hx Hm Hy. unfold scalar. pose proof (Z.div_mod x 8 ltac:(lia)) as Ex. pose proof (Z.mod_pos_bound x 8 ltac:(lia)).
  pose proof (Z.div_mod y 64 ltac:(lia)) as Ey. pose proof (Z.mod_pos_bound y 64 ltac:(lia)).
  assert (0 <= x / 8 < 32) by (split; [apply Z.div_pos; width_lia|apply Z.div_lt_upper_bound; width_lia]).
  replace ((x + 256 * (m + 2 ^ 240 * y)) / 8) with (x / 8 + 32 * m + 2 ^ 245 * y).
  2:{ apply Z.div_unique with (x mod 8); [lia|]. lia. }
  replace ((x / 8 + 32 * m + 2 ^ 245 * y) mod 2 ^ 251) with (x / 8 + 32 * m + 2 ^ 245 * (y mod 64)); [lia|].
  apply Z.mod_unique with (y / 64); [left; lia|lia].
Qed.

Lemma to_from_le_bytes b : Forall is_u8 b -> to_le_bytes (length b) (from_le_bytes b) = b.
Proof.
  induction 1 as [|x b Hx Hb IH]; [done|]. cbn [from_le_bytes length to_le_bytes]. f_equal.
  - rewrite Z.mul_comm, Z.mod_add, Z.mod_small by width_lia. done.
  - rewrite Z.mul_comm, Z.div_add, Z.div_small by width_lia. exact IH.
Qed.

Lemma clamp_scalar a :
  Forall is_u8 a -> length a = 32%nat -> clamp a = to_le_bytes 32 (scalar (from_le_bytes a)).
Proof.
  intros Ha Hl. destruct a as [|x a]; [done|]. simpl in Hl. injection Hl as Hl.
  destruct a as [|y m _] using rev_ind; [done|]. rewrite length_app in Hl. simpl in Hl.
  assert (Hm : length m = 30%nat) by lia. rewrite clamp_eq by done. clear Hl.
  inversion Ha as [|? ? Hx Hmy]; subst. apply Forall_app in Hmy as [Hu Hy]. inversion Hy as [|? ? Hyu _]; subst.
  pose proof (from_le_bytes_range m Hu) as Hr. rewrite Hm in Hr. change (256 ^ Z.of_nat 30) with (2 ^ 240) in Hr.
  rewrite (first_byte x Hx), (last_byte y Hyu). set (b := 8 * (x / 8) :: m ++ [64 + y mod 64]).
  assert (Hb : Forall is_u8 b).
  { pose proof (Z.div_mod x 8 ltac:(lia)). pose proof (Z.mod_pos_bound x 8 ltac:(lia)). pose proof (Z.mod_pos_bound y 64 ltac:(lia)).
    assert (0 <= x / 8) by (apply Z.div_pos; width_lia).
    unfold b. constructor; [width_lia|]. apply Forall_app. split; [done|]. constructor; [width_lia|done]. }
  rewrite <- (to_from_le_bytes b) by done. assert (length b = 32%nat) as -> by (unfold b; simpl; rewrite length_app; simpl; lia).
  f_equal. unfold b. cbn [from_le_bytes]. rewrite !from_le_bytes_app, Hm. cbn [from_le_bytes].
  change (256 ^ Z.of_nat 30) with (2 ^ 240). rewrite !Z.mul_0_r, !Z.add_0_r. by rewrite scalar_split.
Qed.

(** The address names the key. *)
Lemma parse_onion_of pubkey :
  Forall is_u8 pubkey -> length pubkey = 32%nat -> parse_onion (onion_v3_from_pubkey pubkey) = Some pubkey.
Proof.
  intros Hu Hl. unfold parse_onion, onion_v3_from_pubkey. set (b := pubkey ++ checksum pubkey ++ [3]).
  assert (Hb : Forall is_u8 b).
  { apply Forall_app; split; [done|]. apply Forall_app; split; [apply Forall_take, sha3_bytes|repeat constructor; width_lia]. }
  destruct (base32_text (encode_nopad b) (b32_alphabet b)) as [Eu Hf].
  rewrite Appd.split_once_past by (eapply Forall_impl; [exact Hf|]; by intros c []).
  change (Appd.split_once ".onion" ".onion") with (Some (EmptyString, EmptyString)). cbn [fmap option_fmap option_map fst snd].
  rewrite Appd.app_nil_s, Eu, b32_roundtrip by done. simpl.
  assert (take 32 b = pubkey) as -> by (unfold b; rewrite <- Hl; apply take_app_length). by rewrite bool_decide_true.
Qed.

Lemma onion_plain pubkey : Forall (fun c => Text.is_plain c = true) (String.list_ascii_of_string (onion_v3_from_pubkey pubkey)).
Proof.
  unfold onion_v3_from_pubkey. rewrite Appd.list_ascii_app. apply Forall_app. split; [|by repeat constructor].
  eapply Forall_impl; [apply base32_text, b32_alphabet|]. by intros c [].
Qed.

(** The line in the file is read back without its end. *)
Lemma trim_line s : Forall (fun c => Text.is_plain c = true) (String.list_ascii_of_string s) ->
  Text.trim (s +:+ String (ascii_of_nat 10) EmptyString) = s.
Proof.
  intros Hs. unfold Text.trim. rewrite Appd.chars_app.
  - assert (Hc : Forall (fun ch => Text.is_white ch = false) (Appd.singles s)).
    { apply Forall_fmap. eapply Forall_impl; [exact Hs|]. intros c Hc. by apply Appd.plain_facts. }
    change (Text.chars (String (ascii_of_nat 10) EmptyString)) with [String (ascii_of_nat 10) EmptyString].
    destruct s as [|c s]; [done|].
    assert (Text.drop_white (Appd.singles (String c s) ++ [String (ascii_of_nat 10) EmptyString])
      = Appd.singles (String c s) ++ [String (ascii_of_nat 10) EmptyString]) as ->.
    { inversion Hc as [|? ? Hc1 _]; subst. simpl in *. by rewrite Hc1. }
    rewrite reverse_app. change (reverse [String (ascii_of_nat 10) EmptyString]) with [String (ascii_of_nat 10) EmptyString].
    simpl app. cbn [Text.drop_white]. change (Text.is_white (String (ascii_of_nat 10) EmptyString)) with true.
    rewrite Text.drop_white_id by (by apply Forall_reverse). rewrite reverse_involutive. apply Appd.concat_singles.
  - eapply Forall_impl; [exact Hs|]. intros c Hc. by apply Appd.plain_facts.
  - done.
Qed.

Section Written.
Context {W : Type} `{FsEnv W} `{!FsLaws W}.

Lemma write_file_spec path data mode w r w' :
  write_file path data mode w = (r, w') ->
  (forall q, q <> path -> content w' !! q = content w !! q) /\ (r = Ok tt -> content w' !! path = Some data).
Proof.
  unfold write_file. destruct (fs_write path data w) as [[[]|e] w1] eqn:E; destruct (fl_write _ _ _ _ _ E) as [Ho Hk].
  - intros Hr. pose proof (fl_chmod path mode w1) as Ec. rewrite Hr in Ec. simpl in Ec. rewrite Ec. auto.
  - intros [= <- <-]. by split.
Qed.

Lemma join_inj dir a b : join dir a = join dir b -> a = b.
Proof. unfold join. intros E. apply (inj (String.append dir)) in E. by injection E. Qed.

Lemma read_written dir onion w :
  Forall (fun c => Text.is_plain c = true) (String.list_ascii_of_string onion) -> onion <> EmptyString ->
  content w !! join dir "hostname" = Some (bytes_of (onion +:+ String (ascii_of_nat 10) EmptyString)) ->
  (read_onion dir w).1 = if bool_decide (is_Some (fs_read (join dir "hostname") w).1) then Some onion else None.
Proof.
  intros Hp Hne Hc. unfold read_onion. destruct (fl_read (join dir "hostname") w) as [E|E];
    destruct (fs_read (join dir "hostname") w) as [r w']; simpl in *; subst r; [by rewrite bool_decide_false by (by intros [])|]. rewrite Hc.
  rewrite string_of_bytes, (Appd.ascii_utf8 (onion +:+ _)), trim_line, bool_decide_true by first
    [done | apply Appd.ascii_text_app; [|by repeat constructor]; eapply Forall_impl; [exact Hp|]; intros c Hcc; by apply Appd.plain_facts].
  by destruct (String.eqb_spec onion EmptyString).
Qed.

(** C25: the onion identity is that of the seed.  When the subcommand returns an address, the
    secret key file holds, after Tor's header, the scalar of the first half of the SHA-512 of
    the seed (its three lowest bits and the highest cleared, the second highest set) and the
    second half; the public key file holds the point of that scalar; both are of the sizes Tor
    reads; a client that checks the address gets that point from it; and as long as the files
    stay, the pool that starts later reads exactly this address, or none when the file cannot
    be read. *)
Theorem onion_published seed dir w w1 onion :
  write_from_seed seed dir w = (Ok onion, w1) ->
  let h := sha512 seed in
  let a := to_le_bytes 32 (scalar (from_le_bytes (take 32 h))) in
  let secret := secret_header ++ a ++ drop 32 h in
  let public := public_header ++ base_mul a in
  content w1 !! join dir "hs_ed25519_secret_key" = Some secret /\ length secret = 96%nat /\
  content w1 !! join dir "hs_ed25519_public_key" = Some public /\ length public = 64%nat /\
  parse_onion onion = Some (base_mul a) /\
  forall w2, content w2 = content w1 ->
    (read_onion dir w2).1 = if bool_decide (is_Some (fs_read (join dir "hostname") w2).1) then Some onion else None.
Proof.
  destruct (sha512_bytes seed) as [Hu Hl]. intros Hw h.
  assert (Hc : clamp (take 32 h) = to_le_bytes 32 (scalar (from_le_bytes (take 32 h))))
    by (apply clamp_scalar; [by apply Forall_take|unfold h; rewrite length_take; lia]).
  rewrite <- Hc. unfold write_from_seed, expand_seed in Hw. fold h in Hw. intros a. fold a in Hw.
  destruct (create_dir_all dir w) as [[[]|?] w2]; [|done]. destruct (set_permissions dir 448 w2) as [[[]|?] w3]; [|done].
  destruct (write_file (join dir "hs_ed25519_secret_key") _ 384 w3) as [[[]|?] w4] eqn:E4; [|done].
  destruct (write_file (join dir "hs_ed25519_public_key") _ 384 w4) as [[[]|?] w5] eqn:E5; [|done].
  destruct (write_file (join dir "hostname") _ 384 w5) as [[[]|?] w6] eqn:E6; [|done]. injection Hw as <- <-.
  destruct (write_file_spec _ _ _ _ _ _ E4) as [_ K4], (write_file_spec _ _ _ _ _ _ E5) as [O5 K5],
    (write_file_spec _ _ _ _ _ _ E6) as [O6 K6].
  destruct (point_bytes a) as [Hpu Hpl]. assert (La : length a = 32%nat) by (unfold a; rewrite Hc; apply to_le_bytes_length).
  intros secret public. split_and!.
  - rewrite O6, O5 by (intros E%join_inj; done). by apply K4.
  - unfold secret. rewrite !length_app, La, length_drop. unfold h. rewrite Hl. done.
  - rewrite O6 by (intros E%join_inj; done). by apply K5.
  - unfold public. rewrite length_app, Hpl. done.
  - by apply parse_onion_of.
  - intros w2' Ec. apply read_written; [apply onion_plain| |rewrite Ec; by apply K6].
    unfold onion_v3_from_pubkey. by destruct (Text.to_ascii_lowercase _).
Qed.

End Written.
End Onion.
(** ** Concrete inputs *)

Module Demo.

#[export] Instance ed : Ed25519 := {
  sha512 b := to_le_bytes 64 (from_le_bytes b + 1000);
  sha3_256 b := to_le_bytes 32 (from_le_bytes b);
  base_mul b := to_le_bytes 32 (from_le_bytes b);
}.

#[export] Instance ed_laws : EdLaws.
Proof. split; intros b; (split; [apply to_le_bytes_u8|apply to_le_bytes_length]). Qed.

(** The half bytes as letters from A to P. *)
Definition letter (n : Z) : ascii := ascii_of_nat (Z.to_nat (65 + n)).
Definition value (c : ascii) : Z := Z.of_nat (nat_of_ascii c) - 65.
Fixpoint letters (b : list Z) : string :=
  match b with [] => EmptyString | x :: b' => String (letter (x / 16 mod 16)) (String (letter (x mod 16)) (letters b')) end.
Fixpoint unletters (s : string) : option (list Z) :=
  match s with
  | EmptyString => Some []
  | String c (String d s') => (fun b => (16 * value c + value d) :: b) <$> unletters s'
  | _ => None
  end.

#[export] Instance base32 : Base32 := { encode_nopad := letters; decode_nopad := unletters }.

Lemma letter_value n : 0 <= n < 16 -> value (letter n) = n /\ base32_char (letter n) = true.
Proof.
  intros Hn. unfold value, letter, base32_char. rewrite nat_ascii_embedding by lia. split; [lia|].
  apply orb_true_iff. left. apply andb_true_iff. split; apply Nat.leb_le; lia.
Qed.

#[export] Instance base32_laws : Base32Laws.
Proof.
  split; simpl.
  - intros b. induction 1 as [|x b Hx _ IH]; simpl; [done|]. rewrite IH. simpl.
    pose proof (Z.mod_pos_bound x 16 ltac:(lia)) as Hlo. pose proof (Z.mod_pos_bound (x / 16) 16 ltac:(lia)) as Hhi.
    rewrite (proj1 (letter_value _ Hlo)), (proj1 (letter_value _ Hhi)). f_equal. f_equal. pose proof (Z.div_mod x 16 ltac:(lia)).
    rewrite (Z.mod_small (x / 16)); [lia|].
    split; [apply Z.div_pos; width_lia|apply Z.div_lt_upper_bound; width_lia].
  - intros b. induction b as [|x b IH]; simpl; [constructor|].
    repeat constructor; [apply letter_value, Z.mod_pos_bound; lia..|done].
Qed.

#[export] Instance fs : FsEnv (gmap string (list Z)) := {
  create_dir_all _ w := (Ok tt, w);
  set_permissions _ _ w := (Ok tt, w);
  fs_write p b w := (Ok tt, <[p := b]> w);
  fs_read p w := (w !! p, w);
}.

#[export] Instance fs_laws : FsLaws (gmap string (list Z)).
Proof.
  refine {| content w := w |}; [done|done| |by right]. intros p b w r w' [= <- <-].
  split; [|by rewrite lookup_insert_eq]. intros q Hq. by rewrite lookup_insert_ne.
Defined.

Definition seed : list Z := replicate 32 1.
Definition dir : string := "/data/tor/hidden_service".
Definition after : anyhow string * gmap string (list Z) := write_from_seed seed dir ∅.
Definition onion : string := match after.1 with Ok o => o | Err _ => EmptyString end.

End Demo.

#[local] Existing Instances Demo.ed Demo.ed_laws Demo.base32 Demo.base32_laws Demo.fs Demo.fs_laws.

Lemma onion_published_witness :
  Demo.after.1 = Ok Demo.onion /\ String.length Demo.onion = 76%nat /\
  length (to_le_bytes 32 (scalar (from_le_bytes (take 32 (sha512 Demo.seed))))) = 32%nat /\ (read_onion Demo.dir Demo.after.2).1 = Some Demo.onion.
Proof.
  assert (E : Demo.after.1 = Ok Demo.onion) by (vm_compute; reflexivity). split; [exact E|]. split; [vm_compute; reflexivity|].
  split; [vm_compute; reflexivity|].
  destruct (onion_published Demo.seed Demo.dir ∅ Demo.after.2 Demo.onion) as (_ & _ & _ & _ & _ & Hr).
  - rewrite <- E. unfold Demo.after. symmetry. apply surjective_pairing.
  - rewrite (Hr Demo.after.2 eq_refl). rewrite bool_decide_true; [reflexivity|]. vm_compute. eexists. reflexivity.
Defined.

End TorHs.
