(* ===== verification/Boot.v ===== *)
(** The start of the pool, mining-pool/src/main.rs: the identity it derives from the
    enclave's key service, the background tasks around the wallet and the upstream pool's
    API, and what all of that writes to the log, which the operator of the machine can
    read.

    The key service, the wallet process, the upstream pool, the encryption of the reveal and
    the clocks are parameters. *)
From Stdlib Require Import Ascii.
From S2P Require Import Prelude Text Hex Json Wallet Operator PoolConfig.
Import Wallet Operator PoolConfig.

Module Boot.

(** ** The log *)

(** A value of a log line; the text of a ciphertext tells a reader nothing. *)
Inductive val : Type := Txt (s : string) | Cipher (s : string).
Record line : Type := { msg : string; vals : list val }.

Definition visible (l : line) : line :=
  {| msg := msg l; vals := (fun v => match v with Txt s => Txt s | Cipher _ => Cipher EmptyString end) <$> vals l |}.

Definition say (m : string) (vs : list string) : line := {| msg := m; vals := Txt <$> vs |}.

Definition ellipsis : string :=
  String (ascii_of_nat 226) (String (ascii_of_nat 128) (String (ascii_of_nat 166) EmptyString)).

Definition redact_addr (s : string) : string :=
  let cs := Text.chars s in
  let n := length cs in
  if (n <=? 14)%nat then ellipsis
  else String.concat "" (take 6 cs) +:+ ellipsis +:+ String.concat "" (drop (n - 6) cs).

(** ** The nodes *)

Definition first_reachable (pool : list string) (single : string) : option string :=
  match pool with
  | u :: _ => Some u
  | [] => if String.eqb single "" then None else Some single
  end.

(** The reply of [fetch_current_height]. *)
Definition height_of (v : Json.Value) : anyhow Z :=
  match Json.get "result" v ≫= Json.get_u64 "height" with
  | Some h => Ok h
  | None => Err "monerod get_info missing height"
  end.

Section Identity.
Context `{Curve}.
Variable cfg : Config.

(** ** The identity *)

Definition login_network (n : string) : anyhow Network :=
  let l := Text.to_ascii_lowercase n in
  if String.eqb l "mainnet" then Ok Mainnet
  else if String.eqb l "stagenet" then Ok Stagenet
  else if String.eqb l "testnet" then Ok Testnet
  else Err "unknown upstream.login_address_network".

#[global] Instance network_eq_dec : EqDecision Network.
Proof. solve_decision. Defined.

Definition login_address (seed : list Z) : anyhow string * list line :=
  let derived := address (derive_address seed (xmr_network (monero cfg))) in
  match Text.trim <$> up_login_address_network (upstream cfg) with
  | Some n =>
      if String.eqb n "" then (Ok derived, [])
      else match login_network n with
           | Err e => (Err e, [])
           | Ok lnet =>
               if decide (lnet = xmr_network (monero cfg)) then (Ok derived, [])
               else
                 let a := address (derive_address seed lnet) in
                 (Ok a, [say "deriving upstream login address on a separate Monero network" [n; redact_addr a]])
           end
  | None => (Ok derived, [])
  end.

(** The upstream user, which the derived address replaces; [reveal]: the environment
    variable that has it logged. *)
Definition derive_identity (reveal : bool) (seed : list Z) : anyhow string * list line :=
  let l0 := say "Monero primary address derived from ROFL KMS" [redact_addr (address (derive_address seed (xmr_network (monero cfg))))] in
  match login_address seed with
  | (Err e, l1) => (Err e, l0 :: l1)
  | (Ok login, l1) =>
      let l2 := if String.eqb (up_user (upstream cfg)) login then []
                else [say "overriding upstream.user with KMS-derived Monero address" [redact_addr (up_user (upstream cfg)); redact_addr login]] in
      let l3 := if reveal then [say "REVEAL: full upstream login (mining) address" [login]] else [] in
      (Ok login, l0 :: l1 ++ l2 ++ l3)
  end.

(** ** The wallet task *)

Section Bootstrap.
Context {W : Type} `{WalletEnv W}.
Variable encrypt_to_recipient : string -> string -> anyhow string.

Definition retry_delay (attempt : Z) : Z := Z.min 30 (Z.min (2 ^ Z.min attempt 5) u64_max).

Definition reveal_lines (b : WalletBootstrap) : list line :=
  if reveal_wallet_address_once cfg && created b then
    match reveal_wallet_pubkey cfg with
    | Some pk =>
        match encrypt_to_recipient pk (primary_address b) with
        | Ok c => [{| msg := "REVEAL-ONCE (fresh deploy, ENCRYPTED to deployer age key)"; vals := [Cipher c] |}]
        | Err e => [say "REVEAL-ONCE: failed to encrypt wallet address" [e]]
        end
    | None => [say "REVEAL-ONCE (fresh deploy, CLEARTEXT)" [primary_address b]]
    end
  else [].

Definition show_bool (b : bool) : string := if b then "true" else "false".

(** The loop after [attempt] attempts, for as many turns as [fuel]. *)
Fixpoint bootstrap_task (fuel : nat) (seed : list Z) (onchain_restore_height attempt : Z) (w : W)
    : option WalletBootstrap * W * list line :=
  match fuel with
  | O => (None, w, [])
  | S fuel' =>
      let attempt := wrap_u32 (attempt + 1) in
      match bootstrap_wallet (xmr_wallet_filename (monero cfg)) (xmr_wallet_password (monero cfg)) seed (xmr_network (monero cfg))
              (xmr_restore_height_lookback (monero cfg)) onchain_restore_height w with
      | (Ok b, w) =>
          (Some b, w, say "Monero wallet ready" [redact_addr (primary_address b); show_bool (created b); Text.show attempt]
                      :: reveal_lines b)
      | (Err e, w) =>
          let delay := retry_delay attempt in
          let '(b, w, l) := bootstrap_task fuel' seed onchain_restore_height attempt (sleep_ms (1000 * delay) w) in
          (b, w, say "Monero wallet bootstrap failed; will retry" [e; Text.show attempt; Text.show delay] :: l)
      end
  end.

End Bootstrap.

(** ** The upstream pool's API *)

Section Upstream.
Context {V : Type} `{HashvaultEnv V}.
Variable timestamp : V -> Z.
Variable sleep_secs : Z -> V -> V.

(** The statistics shared with the read API, and when they were read. *)
Record Shown : Type := { shown : option Stats; as_of : Z }.

Definition pin_threshold (addr : string) (v : V) : V * list line :=
  if hv_set_threshold (hashvault cfg) then
    match ensure_min_threshold (hv_base_url (hashvault cfg)) addr v with
    | (Ok (was, now), v) =>
        (v, [if negb (was =? now) then say "HashVault threshold pinned to minimum" [Text.show was; Text.show now]
             else say "HashVault threshold already at minimum" []])
    | (Err e, v) => (v, [say "HashVault ensure_min_threshold failed; will keep trying via stats poller" [e]])
    end
  else (v, []).

(** The polling loop, for a number of turns. *)
Fixpoint poll_stats (turns : nat) (addr : string) (x : Shown) (v : V) : Shown * V * list line :=
  match turns with
  | O => (x, v, [])
  | S turns' =>
      let '(r, v) := stats (hv_base_url (hashvault cfg)) addr v in
      let '(x, l) := match r with
                     | Ok s => ({| shown := Some s; as_of := timestamp v |}, [])
                     | Err e => (x, [say "HashVault stats fetch failed" [e]])
                     end in
      let '(x, v, l') := poll_stats turns' addr x (sleep_secs (hv_refresh_secs (hashvault cfg)) v) in
      (x, v, l ++ l')
  end.

Definition hashvault_task (turns : nat) (addr : string) (v : V) : Shown * V * list line :=
  if hv_enabled (hashvault cfg) then
    let '(v, l) := pin_threshold addr v in
    let '(x, v, l') := poll_stats turns addr {| shown := None; as_of := 0 |} v in
    (x, v, l ++ l')
  else ({| shown := None; as_of := 0 |}, v, []).

End Upstream.

(** What the start writes to the log: the identity, then the lines of the two tasks. *)
Definition boot_log {W V} `{WalletEnv W} `{HashvaultEnv V} (encrypt : string -> string -> anyhow string)
    (timestamp : V -> Z) (sleep_secs : Z -> V -> V) (reveal : bool) (attempts turns : nat) (seed : list Z)
    (onchain_restore_height : Z) (w : W) (v : V) : list line :=
  match derive_identity reveal seed with
  | (Err _, l) => l
  | (Ok login, l) =>
      l ++ (bootstrap_task encrypt attempts seed onchain_restore_height 0 w).2
        ++ (hashvault_task timestamp sleep_secs turns login v).2
  end.

End Identity.

(** ** What the log gives away *)

(** The wallet process answers in the same way for two sets of keys; it is told them only
    when a wallet is made. *)
Class BlindWallet (W : Type) `{WalletEnv W} := {
  alike : W -> W -> Prop;
  bw_open : forall f p w1 w2, alike w1 w2 ->
    (rpc_call "open_wallet" (open_params f p) w1).1 = (rpc_call "open_wallet" (open_params f p) w2).1 /\
    alike (rpc_call "open_wallet" (open_params f p) w1).2 (rpc_call "open_wallet" (open_params f p) w2).2;
  bw_generate : forall f p k1 k2 h w1 w2, alike w1 w2 ->
    (rpc_call "generate_from_keys" (generate_params f p k1 h) w1).1 = (rpc_call "generate_from_keys" (generate_params f p k2 h) w2).1 /\
    alike (rpc_call "generate_from_keys" (generate_params f p k1 h) w1).2 (rpc_call "generate_from_keys" (generate_params f p k2 h) w2).2;
  bw_height : forall w1 w2, alike w1 w2 ->
    (current_height w1).1 = (current_height w2).1 /\ alike (current_height w1).2 (current_height w2).2;
  bw_sleep : forall ms w1 w2, alike w1 w2 -> alike (sleep_ms ms w1) (sleep_ms ms w2);
}.

(** Two replies that differ in the text of an error at most. *)
Definition same_reply (r1 r2 : anyhow (Z * anyhow Json.Value)) : Prop :=
  match r1, r2 with
  | Ok (st1, Ok b1), Ok (st2, Ok b2) => st1 = st2 /\ b1 = b2
  | Ok (st1, Err _), Ok (st2, Err _) => st1 = st2
  | Err _, Err _ => True
  | _, _ => False
  end.

(** The upstream pool answers in the same way for two addresses, with any status. *)
Class BlindPool (V : Type) `{HashvaultEnv V} := {
  alike_v : V -> V -> Prop;
  bp_get : forall url b a1 a2 v1 v2, url = threshold_url b \/ url = stats_url b -> alike_v v1 v2 ->
    same_reply (http_get (url a1) v1).1 (http_get (url a2) v2).1 /\ alike_v (http_get (url a1) v1).2 (http_get (url a2) v2).2;
  bp_post : forall b a1 a2 j v1 v2, alike_v v1 v2 ->
    same_reply (http_post (threshold_url b a1) j v1).1 (http_post (threshold_url b a2) j v2).1 /\
    alike_v (http_post (threshold_url b a1) j v1).2 (http_post (threshold_url b a2) j v2).2;
}.

(** Two results that look alike. *)
Definition agree {A X} (rel : X -> X -> Prop) (x y : A * X) : Prop := x.1 = y.1 /\ rel x.2 y.2.

(** Long addresses with the same first six and last six characters. *)
Definition same_ends (a1 a2 : string) : Prop :=
  let ends a := (take 6 (Text.chars a), drop (length (Text.chars a) - 6) (Text.chars a)) in
  (14 < length (Text.chars a1))%nat /\ (14 < length (Text.chars a2))%nat /\ ends a1 = ends a2.

Lemma redact_ends a1 a2 : same_ends a1 a2 -> redact_addr a1 = redact_addr a2.
Proof.
  intros (H1 & H2 & [= Hf Hl]). unfold redact_addr. rewrite Hf, Hl.
  by rewrite (proj2 (Nat.leb_gt _ _) H1), (proj2 (Nat.leb_gt _ _) H2).
Qed.

#[local] Opaque redact_addr derive_address.

Section Redacted.
Context `{Curve} {W V : Type} `{BlindWallet W} `{BlindPool V}.
Variable cfg : Config.
Variables s1 s2 : list Z.
Hypothesis same_addresses : forall net, same_ends (address (derive_address s1 net)) (address (derive_address s2 net)).

Lemma seeds_alike net : redact_addr (address (derive_address s1 net)) = redact_addr (address (derive_address s2 net)).
Proof. apply redact_ends, same_addresses. Qed.

Lemma login_alike :
  (login_address cfg s1).2 = (login_address cfg s2).2 /\
  match (login_address cfg s1).1, (login_address cfg s2).1 with
  | Ok a1, Ok a2 => redact_addr a1 = redact_addr a2
  | Err e1, Err e2 => e1 = e2
  | _, _ => False
  end.
Proof.
  unfold login_address. pose proof (seeds_alike (xmr_network (monero cfg))) as Hn.
  destruct (Text.trim <$> up_login_address_network (upstream cfg)) as [n|]; [|done].
  destruct (String.eqb n ""); [done|]. destruct (login_network n) as [lnet|]; [|done].
  case_decide; [done|]. simpl. by rewrite seeds_alike.
Qed.

Lemma open_agree f p w1 w2 : alike w1 w2 -> agree alike (try_open_wallet f p w1) (try_open_wallet f p w2).
Proof.
  intros Hw. destruct (bw_open f p w1 w2 Hw) as [E1 E2]. unfold try_open_wallet, agree.
  destruct (rpc_call _ _ w1) as [r1 w1'], (rpc_call _ _ w2) as [r2 w2']. simpl in *. by subst.
Qed.

Lemma generate_agree f p k1 k2 h w1 w2 :
  alike w1 w2 -> agree alike (generate_from_keys f p k1 h w1) (generate_from_keys f p k2 h w2).
Proof.
  intros Hw. destruct (bw_generate f p k1 k2 h w1 w2 Hw) as [E1 E2]. unfold generate_from_keys, agree.
  destruct (rpc_call _ _ w1) as [r1 w1'], (rpc_call _ _ w2) as [r2 w2']. simpl in *. by subst.
Qed.

Lemma height_agree look h w1 w2 : alike w1 w2 -> agree alike (restore_height look h w1) (restore_height look h w2).
Proof.
  intros Hw. destruct (bw_height w1 w2 Hw) as [E1 E2]. unfold restore_height, agree. destruct (0 <? h); [done|].
  destruct (current_height w1) as [r1 w1'], (current_height w2) as [r2 w2']. simpl in *. by subst.
Qed.

(** An attempt has the same outcome, but for the address. *)
Lemma bootstrap_agree f p net look h w1 w2 :
  alike w1 w2 ->
  let x := bootstrap_wallet f p s1 net look h w1 in
  let y := bootstrap_wallet f p s2 net look h w2 in
  alike x.2 y.2 /\
  match x.1, y.1 with
  | Ok b1, Ok b2 => created b1 = created b2 /\ redact_addr (primary_address b1) = redact_addr (primary_address b2)
  | Err e1, Err e2 => e1 = e2
  | _, _ => False
  end.
Proof.
  intros Hw. cbv zeta. unfold bootstrap_wallet.
  destruct (open_agree f p w1 w2 Hw) as [E1 Ha1]. destruct (try_open_wallet f p w1) as [r1 w1'], (try_open_wallet f p w2) as [r2 w2'].
  simpl in E1, Ha1. subst r2. destruct r1 as [[]|eo]; [simpl; by rewrite seeds_alike|].
  destruct (height_agree look h _ _ Ha1) as [E2 Ha2]. destruct (restore_height look h w1') as [r1 w1''], (restore_height look h w2') as [r2 w2''].
  simpl in E2, Ha2. subst r2. destruct r1 as [hh|eh]; [|done].
  destruct (generate_agree f p (derive_address s1 net) (derive_address s2 net) hh _ _ Ha2) as [E3 Ha3].
  destruct (generate_from_keys _ _ _ _ w1'') as [r1 x1], (generate_from_keys _ _ _ _ w2'') as [r2 x2].
  simpl in E3, Ha3. subst r2. destruct r1 as [[]|eg]; simpl; [by rewrite seeds_alike|done].
Qed.

Variable encrypt : string -> string -> anyhow string.
Hypothesis encrypt_blind : forall pk a1 a2,
  match encrypt pk a1, encrypt pk a2 with Ok _, Ok _ => True | Err e1, Err e2 => e1 = e2 | _, _ => False end.
Hypothesis reveal_encrypted : reveal_wallet_address_once cfg = true -> is_Some (reveal_wallet_pubkey cfg).

Lemma reveal_alike b1 b2 :
  created b1 = created b2 -> visible <$> reveal_lines cfg encrypt b1 = visible <$> reveal_lines cfg encrypt b2.
Proof.
  intros E. unfold reveal_lines. rewrite E. destruct (reveal_wallet_address_once cfg); [|done]. simpl.
  destruct (created b2); [|done]. destruct (reveal_encrypted eq_refl) as [pk ->].
  pose proof (encrypt_blind pk (primary_address b1) (primary_address b2)).
  by destruct (encrypt pk (primary_address b1)), (encrypt pk (primary_address b2)); simplify_eq.
Qed.

Lemma bootstrap_task_alike fuel h attempt w1 w2 :
  alike w1 w2 ->
  visible <$> (bootstrap_task cfg encrypt fuel s1 h attempt w1).2 = visible <$> (bootstrap_task cfg encrypt fuel s2 h attempt w2).2.
Proof.
  revert attempt w1 w2. induction fuel as [|fuel IH]; intros attempt w1 w2 Hw; [done|]. cbn [bootstrap_task].
  pose proof (bootstrap_agree (xmr_wallet_filename (monero cfg)) (xmr_wallet_password (monero cfg)) (xmr_network (monero cfg)) (xmr_restore_height_lookback (monero cfg)) h w1 w2 Hw) as [Hw' Hr].
  destruct (bootstrap_wallet _ _ s1 _ _ _ w1) as [r1 w1'], (bootstrap_wallet _ _ s2 _ _ _ w2) as [r2 w2']. simpl in Hw', Hr.
  destruct r1 as [b1|e1], r2 as [b2|e2]; [|done|done|].
  - destruct Hr as [Ec Ea]. cbn [snd]. rewrite !fmap_cons, Ec, Ea. f_equal. by apply reveal_alike.
  - subst e2. pose proof (IH (wrap_u32 (attempt + 1)) _ _ (bw_sleep (1000 * retry_delay (wrap_u32 (attempt + 1))) _ _ Hw')) as E.
    destruct (bootstrap_task _ _ fuel s1 _ _ _) as [[? ?] l1], (bootstrap_task _ _ fuel s2 _ _ _) as [[? ?] l2]. cbn [snd] in *. by rewrite !fmap_cons, E.
Qed.

(** ** The upstream pool *)

Abbreviation base := (hv_base_url (hashvault cfg)).

(** The URLs of a wallet. *)
Definition url_of (a u : string) : Prop := u = threshold_url base a \/ u = stats_url base a.

(** Two results that are the same, or are both the HTTP client's error for the same error
    status, whose text has the URL. *)
Definition same_or_status {A} (a1 a2 : string) (x y : anyhow A) : Prop :=
  x = y \/ exists st u1 u2, 400 <= st < 600 /\ url_of a1 u1 /\ url_of a2 u2 /\
    x = Err (status_error (W := V) st u1) /\ y = Err (status_error (W := V) st u2).

Definition agree_v {A} (a1 a2 : string) (x y : anyhow A * V) : Prop := same_or_status a1 a2 x.1 y.1 /\ alike_v x.2 y.2.

(** What follows a request depends on its reply alone. *)
Lemma same_or_status_bind {A B} a1 a2 (x y : anyhow A) (f : A -> anyhow B) :
  same_or_status a1 a2 x y ->
  same_or_status a1 a2 (match x with Ok v => f v | Err e => Err e end) (match y with Ok v => f v | Err e => Err e end).
Proof. intros [->|(st & u1 & u2 & Hst & Hu1 & Hu2 & -> & ->)]; [by left|]. right. by exists st, u1, u2. Qed.

Lemma reply_json_alike s d a1 a2 u1 u2 r1 r2 :
  url_of a1 u1 -> url_of a2 u2 -> same_reply r1 r2 -> same_or_status a1 a2 (reply_json (W := V) s d u1 r1) (reply_json s d u2 r2).
Proof.
  intros Hu1 Hu2 Hr. destruct r1 as [[st [b|]]|], r2 as [[st2 [b2|]]|]; simpl in *; destruct_and?; try done; subst; try by left.
  all: destruct (Z.leb_spec 400 st2), (Z.ltb_spec st2 600); simpl; [|by left..]; right; by exists st2, u1, u2.
Qed.

Lemma stats_agree a1 a2 v1 v2 : alike_v v1 v2 -> agree_v a1 a2 (stats base a1 v1) (stats base a2 v2).
Proof.
  intros Hv. destruct (bp_get (stats_url base) base a1 a2 v1 v2 ltac:(by right) Hv) as [E1 E2].
  unfold stats, agree_v. destruct (http_get _ v1) as [r1 v1'], (http_get _ v2) as [r2 v2']. simpl in *. split; [|done].
  apply (same_or_status_bind _ _ _ _ (fun v => Ok (stats_of v))), reply_json_alike; [by right|by right|done].
Qed.

Lemma get_threshold_agree a1 a2 v1 v2 : alike_v v1 v2 -> agree_v a1 a2 (get_threshold base a1 v1) (get_threshold base a2 v2).
Proof.
  intros Hv. destruct (bp_get (threshold_url base) base a1 a2 v1 v2 ltac:(by left) Hv) as [E1 E2].
  unfold get_threshold, agree_v. destruct (http_get _ v1) as [r1 v1'], (http_get _ v2) as [r2 v2']. simpl in *. split; [|done].
  apply (same_or_status_bind a1 a2 _ _ (fun v => match (Json.struct_fields ["threshold"%string] 0 v ≫= Json.field_value "threshold") ≫= Json.as_u64 with
     | Some t => Ok t | None => Err "decode threshold response" end)), reply_json_alike; [by left|by left|done].
Qed.

Lemma set_threshold_agree a1 a2 t v1 v2 : alike_v v1 v2 -> agree_v a1 a2 (set_threshold base a1 t v1) (set_threshold base a2 t v2).
Proof.
  intros Hv. unfold set_threshold, agree_v. destruct (_ <? _); [split; [by left|done]|]. set (j := Json.Object _).
  destruct (bp_post base a1 a2 j v1 v2 Hv) as [E1 E2].
  destruct (http_post _ j v1) as [r1 v1'], (http_post _ j v2) as [r2 v2']. simpl in *. split; [|done].
  pose proof (reply_json_alike "POST /threshold" "decode threshold POST response" a1 a2 _ _ r1 r2
    (or_introl eq_refl : url_of a1 (threshold_url base a1)) (or_introl eq_refl : url_of a2 (threshold_url base a2)) E1) as Hr.
  destruct Hr as [->|(st & u1 & u2 & Hst & Hu1 & Hu2 & -> & ->)]; [by left|]. right. by exists st, u1, u2.
Qed.

(** A line that looks the same, or names an error status of the upstream pool's API. *)
Definition same_line (a1 a2 : string) (l1 l2 : line) : Prop :=
  visible l1 = visible l2 \/
  exists m st u1 u2, 400 <= st < 600 /\ url_of a1 u1 /\ url_of a2 u2 /\
    l1 = say m [status_error (W := V) st u1] /\ l2 = say m [status_error (W := V) st u2].

Lemma same_lines a1 a2 (l1 l2 : list line) : visible <$> l1 = visible <$> l2 -> Forall2 (same_line a1 a2) l1 l2.
Proof.
  revert l2. induction l1 as [|x l1 IH]; intros [|y l2] E; try done. rewrite !fmap_cons in E. pose proof (f_equal hd_error E) as E1. pose proof (f_equal tail E) as E2. constructor; [left; exact (Some_inj _ _ E1)|exact (IH _ E2)].
Qed.

Lemma error_line {A} m a1 a2 (x y : anyhow A) e1 e2 :
  same_or_status a1 a2 x y -> x = Err e1 -> y = Err e2 -> same_line a1 a2 (say m [e1]) (say m [e2]).
Proof.
  intros [->|(st & u1 & u2 & Hst & Hu1 & Hu2 & -> & ->)] E1 E2; [left; congruence|]. right. simplify_eq. by exists m, st, u1, u2.
Qed.

Lemma pin_alike a1 a2 v1 v2 :
  alike_v v1 v2 ->
  Forall2 (same_line a1 a2) (pin_threshold cfg a1 v1).2 (pin_threshold cfg a2 v2).2 /\
  alike_v (pin_threshold cfg a1 v1).1 (pin_threshold cfg a2 v2).1.
Proof.
  intros Hv. unfold pin_threshold. destruct (hv_set_threshold (hashvault cfg)); [|done].
  assert (Ha : agree_v a1 a2 (ensure_min_threshold base a1 v1) (ensure_min_threshold base a2 v2)).
  { unfold ensure_min_threshold. destruct (get_threshold_agree a1 a2 v1 v2 Hv) as [E1 Ha1].
    destruct (get_threshold _ a1 v1) as [r1 v1'], (get_threshold _ a2 v2) as [r2 v2']. simpl in E1, Ha1.
    destruct E1 as [<-|(st & u1 & u2 & Hst & Hu1 & Hu2 & -> & ->)]; [|split; [right; by exists st, u1, u2|done]].
    destruct r1 as [was|]; [|split; [by left|done]]. destruct (was =? MIN_PAYOUT_ATOMIC); [split; [by left|done]|].
    destruct (set_threshold_agree a1 a2 MIN_PAYOUT_ATOMIC _ _ Ha1) as [E2 Ha2].
    destruct (set_threshold _ a1 _ v1') as [r1 x1], (set_threshold _ a2 _ v2') as [r2 x2]. simpl in E2, Ha2.
    destruct E2 as [<-|(st & u1 & u2 & Hst & Hu1 & Hu2 & -> & ->)]; [|split; [right; by exists st, u1, u2|done]].
    destruct r1 as [[]|]; (split; [by left|done]). }
  destruct Ha as [Hr Ha]. destruct (ensure_min_threshold _ a1 v1) as [[[w1 n1]|e1] x1], (ensure_min_threshold _ a2 v2) as [[[w2 n2]|e2] x2];
    simpl in *; (split; [|done]).
  2,3: by destruct Hr as [?|(? & ? & ? & _ & _ & _ & ? & ?)].
  - destruct Hr as [[= <- <-]|(? & ? & ? & _ & _ & _ & ? & ?)]; [|done]. apply same_lines. done.
  - constructor; [by eapply error_line|constructor].
Qed.

Variable timestamp : V -> Z.
Variable sleep_secs : Z -> V -> V.
Hypothesis sleep_alike : forall d v1 v2, alike_v v1 v2 -> alike_v (sleep_secs d v1) (sleep_secs d v2).

Lemma poll_alike turns a1 a2 x1 x2 v1 v2 :
  alike_v v1 v2 ->
  Forall2 (same_line a1 a2) (poll_stats cfg timestamp sleep_secs turns a1 x1 v1).2 (poll_stats cfg timestamp sleep_secs turns a2 x2 v2).2.
Proof.
  revert x1 x2 v1 v2. induction turns as [|turns IH]; intros x1 x2 v1 v2 Hv; [constructor|]. cbn [poll_stats].
  destruct (stats_agree a1 a2 v1 v2 Hv) as [E Hv'].
  destruct (stats _ a1 v1) as [r1 v1'], (stats _ a2 v2) as [r2 v2']. simpl in E, Hv'.
  destruct r1 as [t1|e1], r2 as [t2|e2];
    [| by destruct E as [?|(? & ? & ? & _ & _ & _ & ? & ?)]| by destruct E as [?|(? & ? & ? & _ & _ & _ & ? & ?)]|];
    match goal with |- context [poll_stats _ _ _ turns a1 ?y1 _] =>
      match goal with |- context [poll_stats _ _ _ turns a2 ?y2 _] =>
        pose proof (IH y1 y2 _ _ (sleep_alike (hv_refresh_secs (hashvault cfg)) _ _ Hv')) as Hl end end;
    destruct (poll_stats _ _ _ turns a1 _ _) as [[? ?] l1], (poll_stats _ _ _ turns a2 _ _) as [[? ?] l2]; simpl in *; [done|].
  constructor; [by eapply error_line|done].
Qed.

Lemma hashvault_alike turns a1 a2 v1 v2 :
  alike_v v1 v2 ->
  Forall2 (same_line a1 a2) (hashvault_task cfg timestamp sleep_secs turns a1 v1).2 (hashvault_task cfg timestamp sleep_secs turns a2 v2).2.
Proof.
  intros Hv. unfold hashvault_task. destruct (hv_enabled (hashvault cfg)); [|constructor]. destruct (pin_alike a1 a2 v1 v2 Hv) as [E Hv'].
  destruct (pin_threshold cfg a1 v1) as [v1' l1], (pin_threshold cfg a2 v2) as [v2' l2]. simpl in E, Hv'.
  set (x := {| shown := None; as_of := 0 |}). pose proof (poll_alike turns a1 a2 x x _ _ Hv') as E'.
  destruct (poll_stats _ _ _ turns a1 _ _) as [[? ?] l3], (poll_stats _ _ _ turns a2 _ _) as [[? ?] l4]. simpl in *. by apply Forall2_app.
Qed.

(** The upstream user of a seed. *)
Definition login_of (s : list Z) : string := opt_or EmptyString (ok (login_address cfg s).1).

(** C27: what the log gives away of the wallet.  Take two seeds whose addresses have the same
    first six and last six characters.  Without the reveal variable, and with the one-time
    reveal off or encrypted, whatever fails and however often the tasks retry, the two logs
    have the same lines, with one exception: where the upstream pool's API answers with an
    error status, the line has the text of the HTTP client's error for that status, and
    with it the URL and the whole address.  It is assumed that the configured user is not one of
    the addresses, and that the wallet process and the upstream pool answer in the same way for
    both seeds, so do not repeat keys or addresses in their replies. *)
Theorem address_redacted attempts turns h w1 w2 v1 v2 :
  (forall s a, (login_address cfg s).1 = Ok a -> s = s1 \/ s = s2 -> up_user (upstream cfg) <> a) ->
  alike w1 w2 -> alike_v v1 v2 ->
  Forall2 (same_line (login_of s1) (login_of s2))
    (boot_log cfg encrypt timestamp sleep_secs false attempts turns s1 h w1 v1)
    (boot_log cfg encrypt timestamp sleep_secs false attempts turns s2 h w2 v2).
Proof.
  intros Hu Hw Hv. unfold boot_log, derive_identity, login_of. destruct login_alike as [El Ea].
  pose proof (Hu s1) as Hu1. pose proof (Hu s2) as Hu2. rewrite (seeds_alike (xmr_network (monero cfg))).
  destruct (login_address cfg s1) as [[a1|e1] l1], (login_address cfg s2) as [[a2|e2] l2]; simpl in El, Ea; try done; subst l2;
    [|by apply same_lines].
  rewrite (proj2 (String.eqb_neq (up_user (upstream cfg)) a1)), (proj2 (String.eqb_neq (up_user (upstream cfg)) a2)) by eauto.
  rewrite Ea. apply Forall2_app; [by apply same_lines|]. apply Forall2_app; [|by apply hashvault_alike].
  by apply same_lines, bootstrap_task_alike.
Qed.

End Redacted.

(** ** Concrete inputs *)

Module Demo.

#[export] Instance curve : Curve := {
  keccak256 b := b;
  public_key b := b;
  address_text _ spend _ := "4Adeal" +:+ Text.hex_encode spend +:+ "faucet";
}.

(** A wallet process that cannot open the file and makes it, and a pool that knows the
    threshold. *)
#[export] Instance wallet : WalletEnv Z := {
  show_json _ := "{}";
  rpc_call m p w := (Ok (if String.eqb m "open_wallet" then Json.Object [("error", Json.Null)] else Json.Object []), w);
  current_height w := (Ok 3000, w);
  clock_ms w := w;
  sleep_ms d w := w + d;
}.

Definition status_text (st : Z) (url : string) : string :=
  "HTTP status server error (" +:+ Text.show st +:+ ") for url (" +:+ url +:+ ")".

#[export] Instance pool : HashvaultEnv unit := {
  status_error := status_text;
  http_get _ v := (Ok (200, Ok (Json.Object [("threshold"%string, Json.Int 5)])), v);
  http_post _ _ v := (Ok (200, Ok (Json.Object [("status"%string, Json.Str "success")])), v);
}.

#[export] Instance blind_wallet : BlindWallet Z.
Proof. refine {| alike := eq |}; intros; subst; done. Defined.
#[export] Instance blind_pool : BlindPool unit.
Proof. refine {| alike_v := eq |}; intros; subst; done. Defined.

Definition seed1 : list Z := replicate 32 1.
Definition seed2 : list Z := replicate 32 2.
Definition log_of (seed : list Z) : list line :=
  boot_log PoolConfig.Demo.cfg (fun _ a => Ok a) (fun _ => 7) (fun _ v => v) false 3 2 seed 0 0 tt.

(** A pool that is down. *)
Definition pool_down : HashvaultEnv unit := {|
  status_error := status_text;
  http_get _ v := (Ok (503, Err "not json"), v);
  http_post _ _ v := (Ok (503, Err "not json"), v);
|}.

(** An error status of the upstream pool puts the whole address into the log. *)
Example status_error_logs_address :
  let a := address (derive_address seed1 Stagenet) in
  existsb (fun l => existsb (fun x => match x with Txt s => Text.contains a s | Cipher _ => false end) (vals l))
    (hashvault_task (H0 := pool_down) PoolConfig.Demo.cfg (fun _ => 7) (fun _ v => v) 1 a tt).2 = true.
Proof. vm_compute. reflexivity. Qed.

End Demo.

#[local] Existing Instances Demo.curve Demo.wallet Demo.pool Demo.blind_wallet Demo.blind_pool.

Lemma address_redacted_witness :
  address (derive_address Demo.seed1 Mainnet) <> address (derive_address Demo.seed2 Mainnet) /\
  length (Demo.log_of Demo.seed1) = 5%nat /\
  Forall2 (same_line (V := unit) PoolConfig.Demo.cfg (login_of PoolConfig.Demo.cfg Demo.seed1) (login_of PoolConfig.Demo.cfg Demo.seed2))
    (Demo.log_of Demo.seed1) (Demo.log_of Demo.seed2).
Proof.
  split; [by vm_compute|]. split; [by vm_compute|].
  refine (address_redacted PoolConfig.Demo.cfg Demo.seed1 Demo.seed2 _ _ _ _ _ _ _ 3 2 0 0 0 tt tt _ eq_refl eq_refl).
  - intros net. unfold same_ends. split; [|split]; vm_compute; [lia|lia|done].
  - done.
  - intros _. by eexists.
  - done.
  - intros s a Ha [->| ->]; revert Ha; vm_compute; intros [= <-]; discriminate.
Defined.

End Boot.
