(* ===== verification/Ledger.v ===== *)
(** What the redemption methods of [pool-core/src/store.rs] implement: a ledger
    of redemptions with a running total of what is still owed.

    [Book] is the specification, a finite map from redemption ids to a state, the amount
    recorded and how often that amount stands in the totals; [Rel] relates a database to
    a book, and the theorems show that each method, and every sequence of them, moves the
    database as the book's operation moves the book. *)
From S2P Require Import Prelude Text Redis Effects Store.
Import Store.

Module Ledger.

(** ** Specification *)

(** [e_amount] is [None] for an id that was given a state and never enqueued. *)
Record entry : Type := Entry { e_state : string; e_amount : option Z; e_weight : Z }.
Abbreviation Book := (gmap Z entry).

Definition amount_of (e : entry) : Z := default 0 (e_amount e).

(** The sum of a measure over a book. *)
Definition sum_by (f : entry -> Z) (b : Book) : Z := map_fold (fun _ e acc => f e + acc) 0 b.

Definition owed : Book -> Z := sum_by (fun e => amount_of e * e_weight e).
Definition outstanding : Book -> Z := sum_by e_weight.

Definition enqueue (id amt : Z) (b : Book) : Book :=
  match b !! id with Some _ => b | None => <[id := Entry "pending" (Some amt) 1]> b end.
Definition claim (id : Z) (b : Book) : Book :=
  match b !! id with
  | Some e => if decide (e_state e = "pending") then <[id := Entry "in_flight" (e_amount e) (e_weight e)]> b else b
  | None => b
  end.

(** A settlement takes the amount off the totals from [pending] and [in_flight] only. *)
Definition debited (e : entry) : Z :=
  if decide ((e_state e = "pending" \/ e_state e = "in_flight") /\ 0 < amount_of e) then 1 else 0.
Definition settle_entry (id : Z) (b : Book) : Book :=
  match b !! id with
  | Some e =>
      if decide (e_state e = "sent") then b else <[id := Entry "sent" (e_amount e) (e_weight e - debited e)]> b
  | None => <[id := Entry "sent" None 0]> b
  end.
Definition park (s : string) (id : Z) (b : Book) : Book :=
  match b !! id with
  | Some e => <[id := Entry s (e_amount e) (e_weight e)]> b
  | None => <[id := Entry s None 0]> b
  end.

(** The operations, as the watcher sequences them: [Park] is the unconditional
    write of a state by the payout loop. *)
Inductive op : Type :=
| Enqueue (id amt : Z)
| Claim (id : Z)
| Settle (id : Z) (txid : string)
| Park (s : string) (id : Z).

Definition spec (o : op) (b : Book) : Book :=
  match o with
  | Enqueue id amt => enqueue id amt b
  | Claim id => claim id b
  | Settle id _ => settle_entry id b
  | Park s id => park s id b
  end.

Definition impl {R} `{RedisOps R} `{LuaOps} (o : op) : St R unit :=
  match o with
  | Enqueue id amt => _ ← enqueue_script id amt; mret tt
  | Claim id => _ ← try_mark_redemption_in_flight id; mret tt
  | Settle id txid => mark_redemption_sent id txid
  | Park s id => SET (state_key id) (RStr s)
  end.

(** The numbers an operation is exact for: a new amount is one a script's number holds,
    and the totals stay [i64]. *)
Definition in_range (b : Book) : Prop := is_i64 (owed b) /\ is_i64 (outstanding b).
Definition allowed (o : op) (b : Book) : Prop :=
  match o with Enqueue id amt => b !! id = None -> 0 <= amt <= 2 ^ 53 | _ => True end /\ in_range (spec o b).

(** An operation that keeps the totals those of the unsettled entries: it enqueues a
    positive amount, settles from [pending], [in_flight] or [sent], or moves an unsettled
    entry to another unsettled state. *)
Definition orderly (o : op) (b : Book) : Prop :=
  match o with
  | Enqueue _ amt => 0 < amt
  | Claim _ => True
  | Settle id _ => exists e, b !! id = Some e /\ (e_state e = "pending" \/ e_state e = "in_flight" \/ e_state e = "sent")
  | Park s id => s <> "sent" /\ exists e, b !! id = Some e /\ e_state e <> "sent"
  end.

Fixpoint along (P : op -> Book -> Prop) (os : list op) (b : Book) : Prop :=
  match os with
  | [] => True
  | o :: os' => P o b /\ along P os' (spec o b)
  end.

Fixpoint run_spec (os : list op) (b : Book) : Book :=
  match os with [] => b | o :: os' => run_spec os' (spec o b) end.

Fixpoint run_impl {R} `{RedisOps R} `{LuaOps} (os : list op) : St R unit :=
  match os with [] => mret tt | o :: os' => _ ← impl o; run_impl os' end.

(** Every unsettled entry stands in the totals once with a positive amount, and no settled
    one does. *)
Definition tallied (b : Book) : Prop := forall id e, b !! id = Some e ->
  0 < amount_of e /\ e_weight e = if decide (e_state e = "sent") then 0 else 1.

(** ** The relation *)

Record Rel {R} `{RedisOps R} (r : R) (b : Book) : Prop := {
  rel_state : forall id, get (state_key id) r = (fun e => RStr (e_state e)) <$> b !! id;
  rel_amount : forall id, get (amount_key id) r = RInt <$> (b !! id ≫= e_amount);
  rel_owed : int_at KEY_PENDING_ATOMIC r = Some (owed b);
  rel_count : int_at KEY_PENDING_COUNT r = Some (outstanding b);
  rel_amounts : forall id e, b !! id = Some e -> 0 <= amount_of e <= 2 ^ 53;
}.

(** ** Lemmas *)

Lemma sum_by_insert f b id e : b !! id = None -> sum_by f (<[id := e]> b) = f e + sum_by f b.
Proof.
  intros Hb. unfold sum_by.
  rewrite (map_fold_insert_L (fun _ e acc => f e + acc) 0 id e b); [done | intros; lia | done].
Qed.

Lemma sum_by_update f b id e e' :
  b !! id = Some e -> sum_by f (<[id := e']> b) = sum_by f b - f e + f e'.
Proof.
  intros Hb. rewrite <- (insert_delete_id b id e Hb), insert_insert_eq.
  rewrite !sum_by_insert by apply lookup_delete_eq. lia.
Qed.

Section Refinement.
Context {R : Type} `{RedisLaws R} `{LuaLaws}.
Implicit Types r : R.

(** Writing one entry: the entry's fields and the two totals are what there is to show. *)
Lemma Rel_insert r r' b id e :
  Rel r b -> let b' := <[id := e]> b in
  get (state_key id) r' = Some (RStr (e_state e)) -> get (amount_key id) r' = RInt <$> e_amount e ->
  (forall id', id <> id' -> get (state_key id') r' = get (state_key id') r) ->
  (forall id', id <> id' -> get (amount_key id') r' = get (amount_key id') r) ->
  int_at KEY_PENDING_ATOMIC r' = Some (owed b') -> int_at KEY_PENDING_COUNT r' = Some (outstanding b') ->
  0 <= amount_of e <= 2 ^ 53 -> Rel r' b'.
Proof.
  intros Hr b' Hs Ha Fs Fa Ho Hc Hpos. split; try done.
  - intros id'. destruct (decide (id = id')) as [<-|]; unfold b'.
    + by rewrite lookup_insert_eq.
    + rewrite lookup_insert_ne, Fs by done. apply Hr.
  - intros id'. destruct (decide (id = id')) as [<-|]; unfold b'.
    + by rewrite lookup_insert_eq.
    + rewrite lookup_insert_ne, Fa by done. apply Hr.
  - intros id' e'. destruct (decide (id = id')) as [<-|]; unfold b'.
    + rewrite lookup_insert_eq. by intros [= <-].
    + rewrite lookup_insert_ne by done. apply Hr.
Qed.

(** What is recorded of an id before a write to it. *)
Definition entry_of (s : string) (o : option entry) : entry := Entry s (o ≫= e_amount) (default 0 (e_weight <$> o)).

Lemma totals_same b id s :
  owed (<[id := entry_of s (b !! id)]> b) = owed b /\ outstanding (<[id := entry_of s (b !! id)]> b) = outstanding b.
Proof.
  unfold owed, outstanding. destruct (b !! id) as [e|] eqn:Hb.
  - rewrite !(sum_by_update _ _ _ _ _ Hb). unfold amount_of. simpl. lia.
  - rewrite !sum_by_insert by done. simpl. lia.
Qed.

(** Writing a state leaves the totals alone, and with it a transaction id. *)
Lemma Rel_set_state r r' b id s :
  Rel r b -> get (state_key id) r' = Some (RStr s) ->
  (forall k, k <> state_key id -> k <> txid_key id -> get k r' = get k r) ->
  Rel r' (<[id := entry_of s (b !! id)]> b).
Proof.
  intros Hr Hs Hk. destruct (totals_same b id s) as [Ho Hc].
  apply (Rel_insert r); rewrite ?Ho, ?Hc; try done; intros; unfold int_at; rewrite ?Hk by keys; try done; try (by apply Hr).
  simpl. destruct (b !! id) as [e|] eqn:E; [exact (rel_amounts _ _ Hr _ _ E)|unfold amount_of; simpl; lia].
Qed.

(** A new redemption. *)
Lemma enqueue_new r b id amt :
  Rel r b -> b !! id = None -> 0 <= amt <= 2 ^ 53 -> let b' := <[id := Entry "pending" (Some amt) 1]> b in
  in_range b' -> exists r', enqueue_script id amt r = (Ok 1, r') /\ Rel r' b'.
Proof.
  intros Hr Hb Hamt b' [Ho Hc]. assert (Hx : lua_exact amt) by (unfold lua_exact; lia).
  assert (owed b' = owed b + amt /\ outstanding b' = outstanding b + 1) as [Hs1 Hs2].
  { unfold owed, outstanding, b'. rewrite !sum_by_insert by done. unfold amount_of. simpl. lia. }
  rewrite Hs1 in Ho. rewrite Hs2 in Hc.
  set (r1 := set (amount_key id) (RInt amt) (set (state_key id) (RStr "pending") r)).
  assert (Hk : forall k, state_key id <> k -> amount_key id <> k -> get k r1 = get k r)
    by (intros; unfold r1; by rewrite !get_set_ne).
  destruct (INCRBY_ok KEY_PENDING_ATOMIC amt r1 (owed b)) as (r2 & E2 & G2 & F2);
    [unfold int_at; rewrite Hk by done; apply Hr | done|].
  destruct (INCRBY_ok KEY_PENDING_COUNT 1 r2 (outstanding b)) as (r3 & E3 & G3 & F3);
    [unfold int_at; rewrite F2, Hk by done; apply Hr | done|].
  exists r3. split.
  { unfold enqueue_script. rewrite (St_bind_ok (GET _) _ r _ _ eq_refl), (rel_state _ _ Hr), Hb. simpl.
    rewrite !(St_bind_ok (SET _ _) _ _ _ _ eq_refl). fold r1.
    rewrite (St_bind_ok _ _ _ _ _ (lua_argv_exact amt _ Hx)).
    unfold lua_incrby. rewrite toarg_exact by done.
    by rewrite (St_bind_ok _ _ _ _ _ E2), (St_bind_ok _ _ _ _ _ E3). }
  apply (Rel_insert r); fold b'; rewrite ?Hs1, ?Hs2; try done; intros;
    rewrite ?F3, ?F2 by done; unfold int_at, r1; rewrite ?F3 by done; try done.
  all: rewrite ?get_set, ?get_set_ne by keys; by rewrite ?get_set, ?get_set_ne by keys.
Qed.

(** A settlement that finds something to take off. *)
Lemma settle_open r b id txid e :
  Rel r b -> b !! id = Some e -> e_state e = "pending" \/ e_state e = "in_flight" -> 0 < amount_of e ->
  let b' := <[id := Entry "sent" (e_amount e) (e_weight e - 1)]> b in
  in_range b' -> exists r', mark_redemption_sent id txid r = (Ok tt, r') /\ Rel r' b'.
Proof.
  intros Hr Hb Hs Hpos b' [Ho Hc]. pose proof (rel_amounts _ _ Hr _ _ Hb) as Ha. set (a := amount_of e) in *.
  assert (Hx : lua_exact a) by (unfold lua_exact; lia).
  assert (Ea : e_amount e = Some a) by (unfold a, amount_of in *; destruct (e_amount e); simpl in *; [done|lia]).
  assert (owed b' = owed b + - a /\ outstanding b' = outstanding b + -1) as [Hs1 Hs2].
  { unfold owed, outstanding, b'. rewrite !(sum_by_update _ _ _ _ _ Hb). fold a. unfold amount_of. simpl. rewrite Ea. simpl. lia. }
  rewrite Hs1 in Ho. rewrite Hs2 in Hc.
  set (r1 := set (txid_key id) (RStr txid) (set (state_key id) (RStr "sent") r)).
  assert (Hk : forall k, state_key id <> k -> txid_key id <> k -> get k r1 = get k r)
    by (intros; unfold r1; by rewrite !get_set_ne).
  destruct (INCRBY_ok KEY_PENDING_ATOMIC (- a) r1 (owed b)) as (r2 & E2 & G2 & F2);
    [unfold int_at; rewrite Hk by done; apply Hr | done|].
  destruct (INCRBY_ok KEY_PENDING_COUNT (-1) r2 (outstanding b)) as (r3 & E3 & G3 & F3);
    [unfold int_at; rewrite F2, Hk by done; apply Hr | done|].
  exists r3. split.
  { unfold mark_redemption_sent.
    rewrite (St_bind_ok (GET _) _ r _ _ eq_refl), (rel_state _ _ Hr), Hb. simpl.
    rewrite decide_False by (destruct Hs as [-> | ->]; done).
    rewrite !(St_bind_ok (SET _ _) _ _ _ _ eq_refl). fold r1.
    rewrite decide_True by (destruct Hs as [-> | ->]; auto).
    erewrite St_bind_ok; [|apply (lua_get_exact _ _ a); [unfold int_at; rewrite Hk, (rel_amount _ _ Hr), Hb by done; simpl; by rewrite Ea | done]].
    replace (a >? 0) with true by (symmetry; lia).
    unfold lua_decrby. rewrite toarg_exact by done.
    by rewrite (St_bind_ok _ _ _ _ _ E2), (St_bind_ok _ _ _ _ _ E3). }
  apply (Rel_insert r); fold b'; rewrite ?Hs1, ?Hs2; try done; intros;
    rewrite ?F3, ?F2 by done; unfold int_at; rewrite ?F3 by done; try done; rewrite ?Hk by keys; try done.
  - unfold r1. by rewrite get_set_ne, get_set.
  - by rewrite (rel_amount _ _ Hr), Hb.
Qed.

(** A settlement with nothing to take off: from another state, of an id never enqueued, or
    of the amount zero. *)
Lemma settle_bare r b id txid :
  Rel r b -> (e_state <$> b !! id) <> Some "sent" -> default 0 (debited <$> b !! id) = 0 ->
  exists r', mark_redemption_sent id txid r = (Ok tt, r') /\ Rel r' (<[id := entry_of "sent" (b !! id)]> b).
Proof.
  intros Hr Hns Hd. set (r1 := set (txid_key id) (RStr txid) (set (state_key id) (RStr "sent") r)). exists r1. split.
  2:{ apply (Rel_set_state r); [done|unfold r1; by rewrite get_set_ne, get_set|].
      intros. unfold r1. by rewrite !get_set_ne by done. }
  unfold mark_redemption_sent. rewrite (St_bind_ok (GET _) _ r _ _ eq_refl), (rel_state _ _ Hr).
  rewrite decide_False by (destruct (b !! id); simpl in *; congruence).
  rewrite !(St_bind_ok (SET _ _) _ _ _ _ eq_refl). fold r1. case_decide as Hp; [|done].
  destruct (b !! id) as [e|] eqn:Hb; simpl in *; [|by destruct Hp].
  pose proof (rel_amounts _ _ Hr _ _ Hb) as Ha.
  assert (amount_of e = 0) by (unfold debited in Hd; case_decide as Hc; [done|]; assert (~ 0 < amount_of e); [|lia];
    intros ?; apply Hc; split; [destruct Hp as [[= ->]|[= ->]]; auto|done]).
  erewrite St_bind_ok; [|apply (lua_get_exact _ _ 0); [|unfold lua_exact; lia]]; [done|].
  unfold int_at, r1. rewrite !get_set_ne, (rel_amount _ _ Hr), Hb by done. simpl.
  unfold amount_of in *. destruct (e_amount e); simpl in *; by subst.
Qed.

(** One operation. *)
Lemma impl_refines o r b :
  Rel r b -> allowed o b -> exists r', impl o r = (Ok tt, r') /\ Rel r' (spec o b).
Proof.
  intros Hr [Ho Hin]. destruct o as [id amt|id|id txid|s id]; simpl in *.
  - unfold enqueue in *. destruct (b !! id) as [e|] eqn:Hb.
    + exists r. split; [|done]. unfold enqueue_script, mbind, St_bind, GET. by rewrite (rel_state _ _ Hr), Hb.
    + destruct (enqueue_new r b id amt) as (r' & E & ?); auto. exists r'. by rewrite (St_bind_ok _ _ _ _ _ E).
  - unfold claim, try_mark_redemption_in_flight. unfold mbind, St_bind, GET, SET. rewrite (rel_state _ _ Hr).
    destruct (b !! id) as [e|] eqn:Hb; simpl; [|eauto].
    destruct (decide (e_state e = "pending")) as [->|]; [|rewrite decide_False by congruence; eauto].
    eexists. split; [done|]. pose proof (Rel_set_state r (set (state_key id) (RStr "in_flight") r) b id "in_flight" Hr) as Hw.
    rewrite Hb in Hw. apply Hw; [apply get_set|]. intros. by rewrite get_set_ne.
  - unfold settle_entry in *. pose proof (settle_bare r b id txid Hr) as Hbare.
    destruct (b !! id) as [e|] eqn:Hb; simpl in *; [|by apply Hbare].
    case_decide as Hs; [exists r; split; [|done]; unfold mark_redemption_sent, mbind, St_bind, GET; by rewrite (rel_state _ _ Hr), Hb; simpl; rewrite Hs|].
    unfold debited in *. case_decide as Hd; [destruct Hd; by apply settle_open|].
    rewrite Z.sub_0_r. apply Hbare; [congruence|done].
  - eexists. split; [done|]. pose proof (Rel_set_state r (set (state_key id) (RStr s) r) b id s Hr) as Hw.
    unfold park. destruct (b !! id) as [e|] eqn:Hb; (apply Hw; [apply get_set|]; intros; by rewrite get_set_ne).
Qed.

Lemma orderly_tallied o b : orderly o b -> tallied b -> tallied (spec o b).
Proof.
  intros Ho Hb id' e'. destruct o as [id amt|id|id txid|s id]; simpl in *; unfold enqueue, claim, settle_entry, park.
  - destruct (b !! id) as [e|] eqn:E; [apply Hb|]. intros [[<- <-]|[_ ?]]%lookup_insert_Some; [done|by eapply Hb].
  - destruct (b !! id) as [e|] eqn:E; [|apply Hb]. case_decide as Hp; [|apply Hb].
    intros [[<- <-]|[_ ?]]%lookup_insert_Some; [|by eapply Hb]. destruct (Hb _ _ E) as [? Hw]. by rewrite Hp in Hw.
  - destruct Ho as (e & E & Hs). rewrite E. case_decide as Hn; [apply Hb|].
    intros [[<- <-]|[_ ?]]%lookup_insert_Some; [|by eapply Hb]. destruct (Hb _ _ E) as [? Hw]. rewrite decide_False in Hw by done.
    split; [done|]. simpl. unfold debited. rewrite decide_True by tauto. lia.
  - destruct Ho as (Hs & e & E & Hn). rewrite E. intros [[<- <-]|[_ ?]]%lookup_insert_Some; [|by eapply Hb].
    destruct (Hb _ _ E) as [? Hw]. rewrite decide_False in Hw by done. split; [done|]. simpl. by rewrite decide_False.
Qed.

Lemma orderly_run os b : along orderly os b -> tallied b -> tallied (run_spec os b).
Proof. revert b. induction os as [|o os IH]; simpl; intros b; [done|]. intros [Ho Hos] Hb. apply IH; [done|by apply orderly_tallied]. Qed.

(** C10: every sequence of enqueues, claims, settlements and writes of a state, whatever the
    states it meets (a settlement from a parked state, [sent] written directly, an id never
    enqueued), succeeds while new amounts are at most [2^53] and the totals stay [i64], and
    leaves the database as the ledger predicts: states and amounts are the book's, and the two
    pending counters are the total and the number of the entries, each as often as it was
    enqueued and not taken off.  When amounts are positive, redemptions are settled from
    [pending] or [in_flight] and a settled one is not touched again, those are exactly the
    unsettled entries, each once. *)
Theorem store_refines_ledger os r b :
  Rel r b -> along allowed os b ->
  (exists r', run_impl os r = (Ok tt, r') /\ Rel r' (run_spec os b)) /\
  (along orderly os b -> tallied b -> tallied (run_spec os b)).
Proof.
  intros Hr Ho. split; [|apply orderly_run]. revert r b Hr Ho. induction os as [|o os IH]; simpl; intros r b Hr Ho; [by eauto|].
  destruct Ho as [Ho Hos]. destruct (impl_refines o r b Hr Ho) as (r1 & E & Hr1).
  destruct (IH r1 (spec o b) Hr1 Hos) as (r2 & E2 & Hr2).
  exists r2. by rewrite (St_bind_ok _ _ _ _ _ E).
Qed.

(** A redemption paid out of a parked state is never taken off the totals:
    [mark_redemption_sent] from [paused] or [failed] writes [sent] and leaves both
    pending counters where they were. *)
Theorem settle_parked_not_debited id txid s r :
  s = "paused" \/ s = "failed" -> get (state_key id) r = Some (RStr s) ->
  let r' := (mark_redemption_sent id txid r).2 in
  get (state_key id) r' = Some (RStr "sent")
  /\ get KEY_PENDING_ATOMIC r' = get KEY_PENDING_ATOMIC r
  /\ get KEY_PENDING_COUNT r' = get KEY_PENDING_COUNT r.
Proof.
  intros Hs Hg r'. subst r'. unfold mark_redemption_sent, mbind, St_bind, GET. rewrite Hg.
  rewrite decide_False by (destruct Hs; by subst).
  rewrite (decide_False (P := _ \/ _)) by (destruct Hs as [->| ->]; by intros [|]). simpl.
  split_and!; [rewrite get_set_ne by done; apply get_set | by rewrite !get_set_ne..].
Qed.

End Refinement.

Definition sample_ops : list op :=
  [Enqueue 0 700; Enqueue 1 900; Enqueue 0 5; Claim 0; Park "pending" 0; Claim 0; Settle 0 "aa"].
(** A redemption parked, then paid: it stays in the totals; and one reopened after it was paid. *)
Definition untidy_ops : list op :=
  sample_ops ++ [Park "paused" 1; Settle 1 "bb"; Park "pending" 0; Settle 0 "cc"; Park "sent" 7; Settle 8 "dd"].

Example untidy_totals :
  owed (run_spec untidy_ops ∅) = 200 /\ outstanding (run_spec untidy_ops ∅) = 0.
Proof. by vm_compute. Qed.

Lemma store_refines_ledger_witness :
  (exists r', run_impl untidy_ops Db.empty = (Ok tt, r') /\ Rel r' (run_spec untidy_ops ∅)) /\
  (exists r', run_impl sample_ops Db.empty = (Ok tt, r') /\ Rel r' (run_spec sample_ops ∅)) /\
  tallied (run_spec sample_ops ∅).
Proof.
  assert (Hr : Rel Db.empty ∅) by (by split).
  split; [apply (store_refines_ledger untidy_ops Db.empty ∅ Hr)|].
  - vm_compute. repeat split; discriminate.
  - destruct (store_refines_ledger sample_ops Db.empty ∅ Hr) as [Hs Ht]; [vm_compute; repeat split; discriminate|].
    split; [exact Hs|]. apply Ht; [|done]. vm_compute. repeat split; try done; eexists; (split; [reflexivity|]); auto; done.
Defined.

End Ledger.
