(* ===== verification/Watcher.v ===== *)
(** The poller of redemption requests (redemption-watcher/src/events.rs) and the
    treasury refresher (treasury.rs).

    The contract, the wallet and the clock are parameters; the requests to Redis and
    to them may fail or coincide with a crash, and other tasks run between them. *)
From S2P Require Import Prelude Text Redis Effects Store.
Import Store.

Module Watcher.

Definition CURSOR_NAME : string := "redemption_events".

Definition u256_to_u64 (v : Z) : anyhow Z :=
  if negb (Z.lor (Z.lor (limb 1 v) (limb 2 v)) (limb 3 v) =? 0) then Err "u256 redemption id too large for u64"
  else Ok (limb 0 v).

Definition u256_to_i64 (v : Z) : anyhow Z :=
  if negb (Z.lor (Z.lor (limb 1 v) (limb 2 v)) (limb 3 v) =? 0) || (limb 0 v >? i64_max)
  then Err "u256 amount too large for i64"
  else Ok (limb 0 v).

(** [u256_to_u128_or_max] of treasury.rs and [u256_to_u128] of fee_swap.rs. *)
Definition u256_to_u128_or_max (v : Z) : Z :=
  if negb (Z.lor (limb 2 v) (limb 3 v) =? 0) then u128_max
  else Z.lor (limb 0 v) (Z.shiftl (limb 1 v) 64).

Record RedemptionRow : Type := { row_user : Address; row_amount : Z; row_xmr_address : string }.

(** The token contract, the wallet and the clock. *)
Class ChainEnv (W : Type) := {
  nextRedemptionId : W -> result string Z * W;
  redemptions : Z -> W -> result string RedemptionRow * W;
  display_address : Address -> string;
  wallet_refresh : W -> result string unit * W;
  wallet_get_balance : W -> result string (Z * Z) * W;
  totalSupply : W -> result string Z * W;
  utc_timestamp : W -> Z;
}.

Record Config : Type := { start_block : Z; chunk_size : Z }.

Section Tasks.
Context {R W Ev : Type} `{RedisOps R} `{LuaOps} `{SnapshotJson} `{World R W Ev} `{ChainEnv W}.
Variable cfg : Config.

Definition read_next_redemption_id : M R W Ev Z :=
  v <- ecall nextRedemptionId (fun _ => []) ;; lift (u256_to_u64 v).

Definition read_redemption (id : Z) : M R W Ev RedemptionRow := ecall (redemptions id) (fun _ => []).

(** [for id in from..=to], over [n] ids. *)
Fixpoint enqueue_range (n : nat) (id enqueued : Z) : M R W Ev Z :=
  match n with
  | O => ret enqueued
  | S n' =>
      r <- read_redemption id ;;
      atomic <- lift (u256_to_i64 (row_amount r)) ;;
      inserted <- enqueue_redemption id (display_address (row_user r)) atomic (row_xmr_address r) ;;
      rcall (set_cursor CURSOR_NAME id) ;;;
      enqueue_range n' (id + 1) (if (inserted : bool) then enqueued + 1 else enqueued)
  end.

Definition tick : M R W Ev Z :=
  c <- rcall (get_cursor CURSOR_NAME) ;;
  let cursor := opt_or (u64_saturating_sub (start_block cfg) 1) c in
  next_id <- read_next_redemption_id ;;
  if next_id <=? cursor then ret 0
  else
    let from := wrap_u64 (cursor + 1) in
    let to := Z.min (wrap_u64 (from + chunk_size cfg - 1)) next_id in
    enqueue_range (Z.to_nat (to - from + 1)) from 0.

(** [run_loop]: a round after another; an error is logged, a crash restarts the
    process on the same database. *)
Fixpoint run_loop (n : nat) (s : st R W Ev) : st R W Ev :=
  match n with
  | O => s
  | S n' => run_loop n' (tick s).2
  end.

(** ** The treasury refresher *)

Definition treasury_tick : M R W Ev TreasurySnapshot :=
  attempt (ecall wallet_refresh (fun _ => [])) ;;;
  resp <- ecall wallet_get_balance (fun _ => []) ;;
  supply <- attempt (ecall totalSupply (fun _ => [])) ;;
  let total_supply := match supply with Ok v => u256_to_u128_or_max v | Err _ => 0 end in
  pa <- rcall pending_atomic ;;
  pc <- rcall pending_count ;;
  now <- gets utc_timestamp ;;
  let snap := {| monero_balance_atomic := resp.1; monero_unlocked_atomic := resp.2;
                 pending_redemptions_atomic := Z.max pa 0; pending_redemptions_count := Z.max pc 0;
                 mining_pool_token_total_supply := total_supply; as_of_unix := now |} in
  rcall (set_treasury_snapshot snap) ;;;
  ret snap.

(** [TreasuryRefresher::run_loop]. *)
Fixpoint treasury_loop (n : nat) (s : st R W Ev) : st R W Ev :=
  match n with O => s | S n' => treasury_loop n' (treasury_tick s).2 end.

End Tasks.

(** ** The conversions *)

Lemma u256_to_u64_spec v : is_u256 v -> u256_to_u64 v = if bool_decide (v <= u64_max) then Ok v else Err "u256 redemption id too large for u64".
Proof.
  intros Hv. unfold u256_to_u64. destruct (Z.lor _ _ =? 0) eqn:E; simpl.
  - apply Z.eqb_eq in E. rewrite !Z.lor_eq_0_iff in E.
    assert (is_u64 v) as Hu by (apply limbs_u64; [done|tauto]). rewrite limb0_id, bool_decide_true by (done || width_lia). done.
  - apply Z.eqb_neq in E. rewrite bool_decide_false; [done|]. intros Hle. apply E.
    rewrite !Z.lor_eq_0_iff. assert (is_u64 v) as Hu by width_lia. apply limbs_u64 in Hu; tauto.
Qed.

(** ** The cursor *)

Section Cursor.
Context {R W Ev : Type} `{RedisLaws R} `{LuaOps} `{SnapshotJson} `{World R W Ev} `{ChainEnv W}.
Variable cfg : Config.

Definition cursor_at (r : R) : option Z := as_string (get (cursor_key CURSOR_NAME) r) ≫= Text.parse_u64.

(** Every id from the first one on up to (and without) [n] has a state. *)
Definition enqueued_below (n : Z) (r : R) : Prop :=
  forall id, Z.max (start_block cfg) 1 <= id < n -> get (state_key id) r <> None.

(** The stream has an entry for the redemption, with the row the contract gave for it. *)
Definition queued (id : Z) (r : R) : Prop := exists (w : W) row amt,
  (redemptions id w).1 = Ok row /\ u256_to_i64 (row_amount row) = Ok amt /\
  redemption_entry id (display_address (row_user row)) amt (row_xmr_address row) ∈ queue r.

(** The cursor never passes an id without a state, and a redemption that has a state is
    on the stream, those of [lost] apart. *)
Definition CInv (lost : list Z) (s : st R W Ev) : Prop :=
  (forall c, cursor_at (redis s) = Some c -> enqueued_below (c + 1) (redis s)) /\
  forall id, get (state_key id) (redis s) <> None -> id ∈ lost \/ queued id (redis s).

(** What nobody undoes: the cursor is the poller's, a redemption keeps a state, an entry
    stays on the stream; and a redemption other than [id] gets a state when it is there. *)
Definition kept (id : option Z) (r r' : R) : Prop :=
  get (cursor_key CURSOR_NAME) r' = get (cursor_key CURSOR_NAME) r /\
  (forall i, get (state_key i) r <> None -> get (state_key i) r' <> None) /\
  queue r ⊆ queue r' /\
  (forall i, get (state_key i) r = None -> get (state_key i) r' <> None -> id = Some i \/ queued i r').

(** The other tasks respect it. *)
Class PollerRely : Prop :=
  poller_rely : forall (r : R) (w : W) r' w' (evs : list Ev), interfere r w = (r', w', evs) -> kept None r r'.

Lemma queued_more id r r' : queue r ⊆ queue r' -> queued id r -> queued id r'.
Proof. intros Hq (w & row & amt & ? & ? & He). exists w, row, amt. split_and!; [done..|by apply Hq]. Qed.

#[export] Instance kept_preorder id : PreOrder (kept id).
Proof.
  split; [intros r; by split_and!|]. intros r1 r2 r3 (E1 & K1 & Q1 & N1) (E2 & K2 & Q2 & N2).
  split_and!; [congruence|auto|by etrans|]. intros i Hn Hs. destruct (get (state_key i) r2) eqn:E; [|by apply N2].
  destruct (N1 i Hn) as [?|?]; [congruence|by left|]. right. by eapply queued_more.
Qed.

Lemma kept_frame id r r' :
  frame (cursor_key CURSOR_NAME) r r' -> (forall i, frame (state_key i) r r') -> queue r ⊆ queue r' -> kept id r r'.
Proof.
  intros Hc Hs Hq. split_and!; [by apply frame_get|..|done|]; intros i; rewrite (frame_get _ _ _ (Hs i)); [done|congruence].
Qed.

Lemma kept_set_state id v r : kept (Some id) r (set (state_key id) v r).
Proof.
  split_and!; [by rewrite get_set_ne by keys| |by rewrite queue_set|]; intros i;
    (destruct (decide (id = i)) as [->|]; [rewrite get_set|rewrite get_set_ne by keys]); try done; by left.
Qed.

Ltac kept_writes := store_walk; intros; first [apply kept_set_state | apply kept_frame; [|intros ?|];
  first [by rewrite queue_set | by rewrite queue_incrby | apply frame_set; keys | apply frame_incrby; keys]].

Lemma kept_enqueue id amt : guar (kept (Some id)) (enqueue_script (R := R) id amt).
Proof. unfold enqueue_script. kept_writes. Qed.

(** After the script, the redemption has a state. *)
Lemma enqueue_has_state id amt r : is_ok (enqueue_script (R := R) id amt r).1 = true ->
  get (state_key id) (enqueue_script id amt r).2 <> None.
Proof.
  unfold enqueue_script. rewrite (St_bind_ok _ _ _ (get (state_key id) r) r) by done.
  destruct (get (state_key id) r) eqn:E; [intros _; simpl; congruence|]. intros _.
  rewrite (St_bind_ok _ _ _ tt (set (state_key id) (RStr "pending") r)) by done.
  match goal with |- get _ (?m ?r0).2 <> None => assert (Hg : guar (kept (Some id)) m) by kept_writes end.
  apply (Hg (set (state_key id) (RStr "pending") r)). by rewrite get_set.
Qed.

(** A script that inserts nothing writes nothing. *)
Lemma enqueue_present id amt r r' : enqueue_script (R := R) id amt r = (Ok 0, r') -> r' = r.
Proof.
  unfold enqueue_script. rewrite (St_bind_ok _ _ _ (get (state_key id) r) r) by done.
  destruct (get (state_key id) r); [by intros [= <-]|]. unfold mbind, St_bind. simpl.
  intros E. repeat (match type of E with context [match ?x with _ => _ end] => destruct x as [[]] end; try done).
Qed.

(** ** The poller keeps the cursor behind *)

Context `{!PollerRely}.

(** One more redemption may be lost to a round that fails. *)
Definition Failed (lost : list Z) (s : st R W Ev) : Prop := exists id, CInv (id :: lost) s.
Definition Upto (lost : list Z) (n : Z) (s : st R W Ev) : Prop := CInv lost s /\ enqueued_below n (redis s).

Lemma kept_below id n r r' : kept id r r' -> enqueued_below n r -> enqueued_below n r'.
Proof. intros (_ & Hk & _) He i Hi. by apply Hk, He. Qed.

Lemma kept_lost lost id s r w l : kept (Some id) (redis s) r -> CInv lost s -> CInv (id :: lost) (St_ r w l).
Proof.
  intros Hk [Hc Hj]. pose proof Hk as (E & Hs & Hq & Hn). split; simpl.
  - intros c. unfold cursor_at. rewrite E. intros Hcur. eapply kept_below; [exact Hk|]. by apply Hc.
  - intros i Hi. rewrite elem_of_cons. destruct (get (state_key i) (redis s)) eqn:Ei.
    + destruct (Hj i) as [?|?]; [congruence|auto|]. right. by eapply queued_more.
    + destruct (Hn i Ei Hi) as [[= ->]|?]; auto.
Qed.

Lemma kept_CInv lost s r w l : kept None (redis s) r -> CInv lost s -> CInv lost (St_ r w l).
Proof.
  intros Hk [Hc Hj]. pose proof Hk as (E & Hs & Hq & Hn). split; simpl.
  - intros c. unfold cursor_at. rewrite E. intros Hcur. eapply kept_below; [exact Hk|]. by apply Hc.
  - intros i Hi. destruct (get (state_key i) (redis s)) eqn:Ei.
    + destruct (Hj i) as [?|?]; [congruence|auto|]. right. by eapply queued_more.
    + destruct (Hn i Ei Hi); [done|auto].
Qed.

Lemma kept_Upto lost n s r w l : kept None (redis s) r -> Upto lost n s -> Upto lost n (St_ r w l).
Proof. intros Hk [Hc Hb]. split; [by eapply kept_CInv|by eapply kept_below]. Qed.

Lemma CInv_failed lost s : CInv lost s -> Failed lost s.
Proof. intros [Hc Hj]. exists 0. split; [done|]. intros i Hi. rewrite elem_of_cons. destruct (Hj i Hi); auto. Qed.

Lemma Upto_failed lost n s : Upto lost n s -> Failed lost s.
Proof. intros [Hc _]. by apply CInv_failed. Qed.

Lemma stable_CInv lost : stable (CInv lost).
Proof. intros s r w evs w' Hs Hi. eapply kept_CInv; [by eapply poller_rely|done]. Qed.

Lemma stable_Upto lost n : stable (Upto lost n).
Proof. intros s r w evs w' Hs Hi. eapply kept_Upto; [by eapply poller_rely|done]. Qed.

(** An entry on the stream takes its redemption off the lost ones. *)
Lemma Upto_found lost id n s : queued id (redis s) -> Upto (id :: lost) n s -> Upto lost n s.
Proof.
  intros Hq [[Hc Hj] Hb]. split; [|done]. split; [done|]. intros i Hi.
  destruct (Hj i Hi) as [[->|?]%elem_of_cons|?]; auto.
Qed.

Lemma enqueue_redemption_upto lost id (w : W) row amt :
  (redemptions id w).1 = Ok row -> u256_to_i64 (row_amount row) = Ok amt ->
  hoare (Upto lost id) (enqueue_redemption (W := W) (Ev := Ev) id (display_address (row_user row)) amt (row_xmr_address row))
    (fun _ => Upto lost (id + 1)) (Failed lost).
Proof.
  intros Hrow Hamt. apply (hoare_bind _ _ _ _ (fun ins => Upto (if ins =? 0 then lost else id :: lost) (id + 1))).
  - apply hoare_rcall; [apply stable_Upto|by intros; eapply Upto_failed|]. intros s a r2 [Hs Hb] Ha. simpl.
    pose proof (kept_enqueue id amt (redis s)) as Hk. rewrite Ha in Hk. simpl in Hk.
    pose proof (kept_lost lost id s r2 (env s) (log s) Hk Hs) as Hl. split; [by exists id|]. destruct a as [n|]; [|done].
    split; [destruct (Z.eqb_spec n 0) as [->|]; [apply enqueue_present in Ha as ->; by destruct s|done]|].
    intros i Hi. simpl. destruct (decide (i = id)) as [->|Hne]; [|apply Hk, Hb; lia].
    pose proof (enqueue_has_state id amt (redis s)) as Hst. rewrite Ha in Hst. by apply Hst.
  - intros ins. destruct (ins =? 0); [by apply hoare_ret|].
    apply (hoare_bind _ _ _ _ (fun _ => Upto lost (id + 1))); [|intros ?; by apply hoare_ret].
    apply hoare_rcall; [apply stable_Upto|by intros s [? _]; exists id|]. intros s a r2 Hs Ha. simpl.
    set (e := redemption_entry _ _ _ _) in Ha. assert (r2 = (xadd e (redis s)).2) as ->
      by (unfold XADD in Ha; by destruct (xadd e (redis s)); simplify_eq).
    pose proof (queue_xadd e (redis s)) as Hq.
    assert (Hk : kept None (redis s) (xadd e (redis s)).2)
      by (apply kept_frame; [apply frame_xadd|intros ?; apply frame_xadd|rewrite Hq; set_solver]).
    apply (kept_Upto _ _ _ _ (env s) (log s) Hk) in Hs. apply Upto_found in Hs.
    + split; [by eapply Upto_failed|by destruct a].
    + exists w, row, amt. split_and!; [done..|]. simpl. rewrite Hq. set_solver.
Qed.

(** Moving the cursor to an id below which everything was enqueued. *)
Lemma set_cursor_upto lost id :
  hoare (Upto lost (id + 1)) (rcall (set_cursor (R := R) CURSOR_NAME id)) (fun _ => Upto lost (id + 1)) (Failed lost).
Proof.
  apply hoare_rcall; [apply stable_Upto|by intros; eapply Upto_failed|]. intros s a r2 [[Hc Hj] Hb] [= <- <-]. simpl.
  assert (Hu : Upto lost (id + 1) (St_ (set (cursor_key CURSOR_NAME) (RInt id) (redis s)) (env s) (log s))).
  { assert (Hb' : enqueued_below (id + 1) (set (cursor_key CURSOR_NAME) (RInt id) (redis s))).
    { intros i Hi. rewrite get_set_ne by keys. by apply Hb. }
    split; [|exact Hb']. split.
    - intros c. unfold cursor_at. simpl. rewrite get_set. simpl. intros ->%Text.parse_uint_show_inv. exact Hb'.
    - intros i. simpl. rewrite get_set_ne by keys. intros [?|?]%Hj; [by left|right]. eapply queued_more; [|done]. by rewrite queue_set. }
  split; [by eapply Upto_failed|exact Hu].
Qed.

(** A reply of the chain. *)
Lemma ecall_upto lost n {A} (f : W -> result string A * W) :
  hoare (Upto lost n) (ecall f (fun _ => [])) (fun x s => (exists w, (f w).1 = Ok x) /\ Upto lost n s) (Failed lost).
Proof.
  apply hoare_ecall; [apply stable_Upto|by intros; eapply Upto_failed|]. intros s a w2 Hs Ef. simpl.
  assert (Hu : Upto lost n (St_ (redis s) w2 (log s ++ []))) by (by eapply kept_Upto).
  split; [by eapply Upto_failed|]. destruct a; [|done]. split; [|done]. exists (env s). by rewrite Ef.
Qed.

Lemma enqueue_range_upto lost n : forall id enq, hoare (Upto lost id) (enqueue_range n id enq) (fun _ => CInv lost) (Failed lost).
Proof.
  induction n as [|n IH]; intros id enq; [apply hoare_ret; by intros s []|]. cbn [enqueue_range].
  eapply hoare_bind; [apply ecall_upto|]. intros row. apply hoare_pure. intros [w Hrow].
  apply (hoare_bind _ _ _ _ (fun amt s => u256_to_i64 (row_amount row) = Ok amt /\ Upto lost id s)).
  { intros s Hs. unfold lift. destruct (u256_to_i64 _); [done|by eapply Upto_failed]. }
  intros atomic. apply hoare_pure. intros Ha. eapply hoare_bind; [by eapply enqueue_redemption_upto|]. intros ins.
  eapply hoare_bind; [apply set_cursor_upto|]. intros ?. apply IH.
Qed.

Lemma read_next_upto lost n :
  hoare (Upto lost n) read_next_redemption_id (fun v s => is_u64 v /\ Upto lost n s) (Failed lost).
Proof.
  eapply hoare_bind; [apply ecall_upto|]. intros v s [_ Hs]. unfold lift, u256_to_u64.
  case_ifs; simpl; [by eapply Upto_failed|]. split; [apply limb_range|done].
Qed.

Lemma tick_cursor lost : 0 <= start_block cfg -> hoare (CInv lost) (tick cfg) (fun _ => CInv lost) (Failed lost).
Proof.
  intros Hstart.
  set (cur := fun c => opt_or (u64_saturating_sub (start_block cfg) 1) c).
  apply (hoare_bind _ _ _ _ (fun c s => 0 <= cur c /\ Upto lost (cur c + 1) s)).
  { apply hoare_rcall; [apply stable_CInv|apply CInv_failed|]. intros s a r2 Hs [= <- <-].
    split; [apply CInv_failed; by destruct s|]. change (as_string _ ≫= _) with (cursor_at (redis s)).
    destruct (cursor_at (redis s)) as [c|] eqn:Ec; (split; [|split; [by destruct s|]]); simpl.
    - unfold cursor_at in Ec. destruct (as_string _); simpl in Ec; [|done]. apply Text.parse_uint_range in Ec. lia.
    - by apply Hs.
    - unfold u64_saturating_sub. lia.
    - intros id Hid. unfold u64_saturating_sub in Hid. lia. }
  intros c. apply hoare_pure. intros Hc.
  eapply hoare_bind; [apply read_next_upto|]. intros next. apply hoare_pure. intros Hn.
  change (opt_or _ c) with (cur c).
  destruct (Z.leb_spec next (cur c)); [apply hoare_ret; by intros s []|].
  rewrite (wrap_u64_id (cur c + 1)) by width_lia. apply enqueue_range_upto.
Qed.

(** The rounds that ended in an error or a crash. *)
Fixpoint failed_rounds (n : nat) (s : st R W Ev) : nat :=
  match n with
  | O => O
  | S n' => ((match (tick cfg s).1 with ORet _ => 0 | _ => 1 end) + failed_rounds n' (tick cfg s).2)%nat
  end.

Lemma run_loop_CInv n s lost :
  0 <= start_block cfg -> CInv lost s ->
  exists lost', (length lost' <= length lost + failed_rounds n s)%nat /\ CInv lost' (run_loop cfg n s).
Proof.
  intros Hst. revert s lost. induction n as [|n IH]; intros s lost Hs; [exists lost; split; [simpl; lia|done]|].
  pose proof (tick_cursor lost Hst s Hs) as Ht. simpl.
  assert (exists lost1, (length lost1 <= length lost + match (tick cfg s).1 with ORet _ => 0 | _ => 1 end)%nat
    /\ CInv lost1 (tick cfg s).2) as (lost1 & Hl & H1').
  { destruct (tick cfg s) as [[x|e|] s']; simpl in *; [exists lost; split; [lia|done]|destruct Ht as [id Ht]; exists (id :: lost); simpl; split; [lia|done]..]. }
  destruct (IH _ _ H1') as (lost' & Hl' & Hc). exists lost'. split; [lia|done].
Qed.

(** C12: the poller skips no redemption but for one per round that fails: on a database
    without redemptions, after any number of rounds, whatever fails or crashes and whatever
    the other tasks do (they leave the cursor and the entries of the stream alone, and write
    a state only for a redemption that is on the stream), every id from the configured start
    up to the saved cursor has a state, and its entry with the contract's row is on the
    stream, but for at most as many ids as rounds ended in an error or a crash. *)
Theorem poller_never_skips n s c :
  0 <= start_block cfg -> cursor_at (redis s) = None -> (forall id, get (state_key id) (redis s) = None) ->
  cursor_at (redis (run_loop cfg n s)) = Some c ->
  exists lost, (length lost <= failed_rounds n s)%nat /\
    forall id, Z.max (start_block cfg) 1 <= id <= c ->
      get (state_key id) (redis (run_loop cfg n s)) <> None /\ (id ∈ lost \/ queued id (redis (run_loop cfg n s))).
Proof.
  intros Hst Hnone Hs Hc. destruct (run_loop_CInv n s [] Hst) as (lost & Hl & Hi & Hj).
  { split; [intros c'; by rewrite Hnone|intros id; by rewrite Hs]. }
  exists lost. split; [done|]. intros id Hid. assert (Hg : get (state_key id) (redis (run_loop cfg n s)) <> None); [|auto].
  apply (Hi c Hc). lia.
Qed.

End Cursor.

(** ** A concrete surrounding *)

Module Demo.

#[local] Existing Instance snap_text.

(** A contract with the given redemptions; [fails] makes the supply unreadable, and the
    process crashes once, before the call numbered [crash]. *)
Record chain : Type := { rows : list RedemptionRow; fails : bool; crash : option nat }.

#[global] Instance chain_env : ChainEnv chain := {
  nextRedemptionId w := (Ok (Z.of_nat (length (rows w))), w);
  redemptions id w := (match rows w !! Z.to_nat (id - 1) with Some r => Ok r | None => Err "no row" end, w);
  display_address a := Text.show a;
  wallet_refresh w := (Ok tt, w);
  wallet_get_balance w := (Ok (5000, 4000), w);
  totalSupply w := (if fails w then Err "rpc" else Ok 3000, w);
  utc_timestamp w := 77;
}.

#[global] Instance chain_world : World Db.t chain unit := {
  interfere r w := (r, w, []);
  next_fault w :=
    match crash w with
    | Some O => (CrashBefore, {| rows := rows w; fails := fails w; crash := None |})
    | Some (S k) => (NoFault, {| rows := rows w; fails := fails w; crash := Some k |})
    | None => (NoFault, w)
    end;
}.

#[global] Instance chain_rely : PollerRely (R := Db.t) (W := chain) (Ev := unit).
Proof. intros r w r' w' evs E. simpl in E. by simplify_eq. Qed.

Definition demo_cfg : Config := {| start_block := 1; chunk_size := 2 |}.
Definition row (a : Z) : RedemptionRow := {| row_user := 7; row_amount := a; row_xmr_address := "4A" |}.
Definition start (k : option nat) : st Db.t chain unit :=
  St_ Db.empty {| rows := [row 10; row 20; row 30]; fails := false; crash := k |} [].

(** Without a crash, and with one between the script of the first redemption and its entry. *)
Definition finish : st Db.t chain unit := run_loop demo_cfg 2 (start None).
Definition crashed : st Db.t chain unit := run_loop demo_cfg 3 (start (Some 4%nat)).

Lemma finish_cursor : cursor_at (redis finish) = Some 3 /\ failed_rounds demo_cfg 2 (start None) = 0%nat.
Proof. by vm_compute. Qed.

Lemma crashed_loses :
  cursor_at (redis crashed) = Some 3 /\ failed_rounds demo_cfg 3 (start (Some 4%nat)) = 1%nat /\
  get (state_key 1) (redis crashed) = Some (RStr "pending") /\
  (fun e => default "" (snd <$> head e)) <$> Db.stream (redis crashed) = ["2"; "3"].
Proof. by vm_compute. Qed.

End Demo.

Lemma poller_never_skips_witness :
  (exists lost, (length lost <= failed_rounds Demo.demo_cfg 2 (Demo.start None))%nat /\
    forall id, 1 <= id <= 3 ->
      get (state_key id) (redis Demo.finish) <> None /\ (id ∈ lost \/ queued (W := Demo.chain) id (redis Demo.finish))) /\
  (exists lost, (length lost <= failed_rounds Demo.demo_cfg 3 (Demo.start (Some 4%nat)))%nat /\
    forall id, 1 <= id <= 3 ->
      get (state_key id) (redis Demo.crashed) <> None /\ (id ∈ lost \/ queued (W := Demo.chain) id (redis Demo.crashed))).
Proof.
  split.
  - refine (poller_never_skips Demo.demo_cfg 2 (Demo.start None) 3 _ _ _ (proj1 Demo.finish_cursor)); [simpl; lia|reflexivity|reflexivity].
  - refine (poller_never_skips Demo.demo_cfg 3 (Demo.start (Some 4%nat)) 3 _ _ _ (proj1 Demo.crashed_loses)); [simpl; lia|reflexivity|reflexivity].
Defined.

(** A supply that cannot be read is written down as zero. *)
Example unreadable_supply_stored_as_zero :
  match treasury_tick (Ev := unit) (H1 := snap_text)
          (St_ Db.empty {| Demo.rows := []; Demo.fails := true; Demo.crash := None |} []) with
  | (ORet snap, _) => mining_pool_token_total_supply snap = 0 /\ monero_unlocked_atomic snap = 4000
  | _ => False
  end.
Proof. by vm_compute. Qed.

End Watcher.
