(* ===== verification/FeeSwap.v ===== *)
(** The fee task and the fee controller (redemption-watcher/src/fee_swap.rs): the
    pool's accrued fee is minted as tokens by a self-signed voucher and sold for the
    native coin that pays the rent.

    The chain, the signature and the clock are parameters. *)
From S2P Require Import Prelude Text Floats Pps Redis Effects Store Watcher.
Import Store.

Module FeeSwap.

Record Config : Type := {
  rent_floor_wei : string;
  min_swap_atomic : Z;
  max_swap_atomic : Z;
  slippage_bps : Z;
  min_swap_gas_multiple : Z;
  reserve_ratio : F.f64;
  token : Address;
  fee_swapper : Address;
}.

(** The calls the task submits. *)
Inductive call : Type :=
| claim (user : Address) (cumulativeAmount signedAt : Z) (sig : list Z)
| swapFeeToRose (mptIn minOut deadline : Z).

(** What the task leaves a trace of: a voucher it signed, a call it submitted. *)
Inductive event : Type :=
| VoucherSigned (user : Address) (cumulativeAmount signedAt : Z)
| Sent (to : Address) (c : call) (gas_limit : Z).

(** The trace of the run the task is part of. *)
Class Emits (Ev : Type) := emit : event -> list Ev.
#[global] Instance emits_own : Emits event := fun e => [e].

(** [sign] signs the voucher of a user, an amount and a time; [appd] is the reply of
    the signing daemon. *)
Class FeeEnv (W : Type) := {
  reservoir : W -> result string Address * W;
  native_balance : Address -> W -> result string Z * W;
  chain_claimed : Address -> W -> result string Z * W;
  quoteRoseOut : Z -> W -> result string Z * W;
  get_gas_price : W -> result string Z * W;
  sign : Address -> Z -> Z -> W -> result string (list Z) * W;
  appd : Address -> call -> Z -> W -> result string string * W;
  fee_now : W -> Z * W;
  parse_u256 : string -> option Z;
}.

Definition mintable_fee (unlocked supply pending : Z) (ratio : F.f64) (max_swap : Z) : Z :=
  let ratio := F.fmax ratio F.one in
  let required := F.mul (F.of_Z (wrap_u128 (supply + pending))) ratio in
  let surplus := F.sub (F.of_Z unlocked) required in
  if F.leb surplus F.zero then 0
  else F.as_u64 (F.fmax (F.fmin (F.floor (F.div surplus ratio)) (F.of_Z max_swap)) F.zero).

Definition swap_delta_atomic (accrued already_minted max_swap : Z) (wallet_cap : option Z) : Z :=
  if accrued <=? already_minted then 0
  else
    let delta := Z.min (accrued - already_minted) max_swap in
    let delta := match wallet_cap with Some cap => Z.min delta cap | None => delta end in
    wrap_u64 delta.

Section Task.
Context {R W Ev : Type} `{RedisOps R} `{SnapshotJson} `{World R W Ev} `{FeeEnv W} `{Emits Ev}.
Variable cfg : Config.

Definition now_secs : M R W Ev Z := fun s =>
  let '(t, w) := fee_now (env s) in (ORet (Z.max t 0), St_ (redis s) w (log s)).

Definition sign_voucher (user : Address) (cum : Z) : M R W Ev (list Z) :=
  t <- now_secs ;;
  ecall (sign user cum t) (fun r => match r with Ok _ => emit (VoucherSigned user cum t) | Err _ => [] end).

(** The daemon's reply is checked for an error field, with its quotes. *)
Definition error_field : string :=
  let q := Ascii.ascii_of_nat 34 in String q ("error" +:+ String q "").


Definition send (to : Address) (c : call) (gas_limit : Z) : M R W Ev unit :=
  resp <- ecall (appd to c gas_limit) (fun _ => emit (Sent to c gas_limit)) ;;
  if Text.contains error_field resp then fail "appd sign-submit reported an error" else ret tt.

Definition tick : M R W Ev (option (Z * Z)) :=
  res <- ecall reservoir (fun _ => []) ;;
  bal <- ecall (native_balance res) (fun _ => []) ;;
  floor <- lift (ok_or "parse rent_floor_wei" (parse_u256 (Text.trim (rent_floor_wei cfg)))) ;;
  if bal >=? floor then ret None
  else
  prev <- ecall (chain_claimed (fee_swapper cfg)) (fun _ => []) ;;
  acc <- rcall fee_accrued ;;
  let accrued := wrap_u128 acc in
  snap <- rcall treasury_snapshot ;;
  let wallet_cap :=
    match snap with
    | Some s => if monero_unlocked_atomic s >? 0
                then Some (mintable_fee (monero_unlocked_atomic s) (mining_pool_token_total_supply s)
                             (pending_redemptions_atomic s) (reserve_ratio cfg) (max_swap_atomic cfg))
                else None
    | None => None
    end in
  let delta := swap_delta_atomic accrued (Watcher.u256_to_u128_or_max prev) (max_swap_atomic cfg) wallet_cap in
  if delta <? min_swap_atomic cfg then ret None
  else
  q <- ecall (quoteRoseOut delta) (fun _ => []) ;;
  let quote := Watcher.u256_to_u128_or_max q in
  if quote =? 0 then ret None
  else
  let min_out := wrap_u128 (quote * wrap_u64 (10000 - slippage_bps cfg)) / 10000 in
  gas_price <- ecall get_gas_price (fun _ => []) ;;
  let swap_gas_cost := u128_saturating_mul gas_price 600000 in
  let gas_floor := u128_saturating_mul swap_gas_cost (Z.max (min_swap_gas_multiple cfg) 1) in
  if min_out <? gas_floor then ret None
  else
  let new_cum := (prev + delta) mod 2 ^ 256 in
  sig <- sign_voucher (fee_swapper cfg) new_cum ;;
  t <- now_secs ;;
  send (token cfg) (claim (fee_swapper cfg) new_cum t sig) 200000 ;;;
  t' <- now_secs ;;
  let deadline := wrap_u64 (t' + 300) in
  send (fee_swapper cfg) (swapFeeToRose delta min_out deadline) 400000 ;;;
  ret (Some (delta, min_out)).

(** [run_loop]: errors are logged, a crash restarts the process. *)
Fixpoint run_loop (n : nat) (s : st R W Ev) : st R W Ev :=
  match n with O => s | S n' => run_loop n' (tick s).2 end.

(** [FeeController::tick]: the fee it publishes, and the cache. *)
Definition controller_tick (critical_wei healthy_wei : Z) (fee_min fee_max : F.f64) (cache : Pps.FeeCache)
    : M R W Ev (F.f64 * Pps.FeeCache) :=
  res <- ecall reservoir (fun _ => []) ;;
  bal <- ecall (native_balance res) (fun _ => []) ;;
  let fee := Pps.effective_pool_fee (Watcher.u256_to_u128_or_max bal) critical_wei healthy_wei fee_min fee_max in
  ret (fee, Pps.FeeCache_set fee cache).

(** [FeeController::run_loop]: a round that fails leaves the cache as it was. *)
Fixpoint controller_loop (n : nat) (critical_wei healthy_wei : Z) (fee_min fee_max : F.f64) (cache : Pps.FeeCache)
    (s : st R W Ev) : Pps.FeeCache * st R W Ev :=
  match n with
  | O => (cache, s)
  | S n' =>
      let '(o, s') := controller_tick critical_wei healthy_wei fee_min fee_max cache s in
      let cache' := match o with ORet (_, c) => c | _ => cache end in
      controller_loop n' critical_wei healthy_wei fee_min fee_max cache' s'
  end.

End Task.

(** ** The controller *)

Section Controller.
Context {R W Ev : Type} `{World R W Ev} `{FeeEnv W}.

(** A fee between 0 and 0.99. *)
Definition fee_ok (c : Pps.FeeCache) : Prop := F.ltb (Pps.fee c) F.zero = false /\ F.ltb Pps.max_fee (Pps.fee c) = false.

Lemma controller_tick_ok critical healthy lo hi cache :
  hoare (fun _ => True) (controller_tick (R := R) (Ev := Ev) critical healthy lo hi cache) (fun p _ => fee_ok p.2) (fun _ => True).
Proof.
  assert (Hread : forall A (f : W -> result string A * W),
    hoare (fun _ : st R W Ev => True) (ecall f (fun _ => [])) (fun _ _ => True) (fun _ => True)).
  { intros A f. apply hoare_ecall; [by intros ?|done|]. intros s a w2 _ _. by destruct a. }
  unfold controller_tick. eapply hoare_bind; [apply Hread|]. intros res. eapply hoare_bind; [apply Hread|]. intros bal. apply hoare_ret. intros s _. apply Pps.effective_pool_fee_range.
Qed.

(** The fee that shares are priced with stays between 0 and 0.99, whatever the chain
    answers. *)
Lemma controller_loop_ok n critical healthy lo hi cache (s : st R W Ev) :
  fee_ok cache -> fee_ok (controller_loop n critical healthy lo hi cache s).1.
Proof.
  revert cache s. induction n as [|n IH]; intros cache s Hc; [done|]. simpl.
  destruct (controller_tick critical healthy lo hi cache s) as [o s'] eqn:E.
  pose proof (controller_tick_ok critical healthy lo hi cache s I) as Ht. rewrite E in Ht.
  apply IH. destruct o as [[f c]| |]; [exact Ht|done..].
Qed.

End Controller.

(** ** What the task may mint *)

Lemma u256_to_u128_or_max_spec v : is_u256 v -> Watcher.u256_to_u128_or_max v = Z.min v u128_max.
Proof.
  intros Hv. unfold Watcher.u256_to_u128_or_max. destruct (Z.lor (limb 2 v) (limb 3 v) =? 0) eqn:E; simpl.
  - apply Z.eqb_eq in E. rewrite Z.lor_eq_0_iff in E. apply limbs_u128 in E; [|done].
    rewrite Z.min_l by width_lia. rewrite lor_shiftl_64; [by apply limb01_id|].
    pose proof (limb_range 0 v). width_lia.
  - apply Z.eqb_neq in E. rewrite Z.min_r; [done|].
    destruct (Z.le_gt_cases v u128_max); [|lia]. destruct E. apply Z.lor_eq_0_iff.
    apply limbs_u128; [done|]. width_lia.
Qed.

Lemma swap_delta_spec accrued minted max_swap cap :
  0 <= max_swap <= u64_max -> match cap with Some c => 0 <= c | None => True end ->
  let d := swap_delta_atomic accrued minted max_swap cap in
  0 <= d <= max_swap /\ (0 < d -> minted + d <= accrued) /\ match cap with Some c => d <= c | None => True end.
Proof.
  intros Hm Hc. unfold swap_delta_atomic. destruct (Z.leb_spec accrued minted); simpl.
  - split; [lia|]. split; [lia|]. by destruct cap.
  - rewrite wrap_u64_id; [|destruct cap; width_lia]. destruct cap; split_and!; lia.
Qed.

Lemma mintable_fee_nonneg u s p r m : 0 <= mintable_fee u s p r m.
Proof.
  unfold mintable_fee. case_ifs; [lia|].
  match goal with |- 0 <= F.as_u64 ?x => pose proof (F.as_u64_range x) end. width_lia.
Qed.

(** ** One round keeps an invariant *)

Section Round.
Context {R W Ev : Type} `{RedisLaws R} `{SnapshotJson} `{World R W Ev} `{FeeEnv W} `{Emits Ev}.
Variable cfg : Config.
Implicit Types s : st R W Ev.

(** The accrual counter as the task reads it. *)
Definition fee_of (r : R) : option Z := ok (fee_accrued r).1.

(** An on-chain amount is 256 bits wide. *)
Definition claimed_u256 : Prop := forall a (w : W) v w', chain_claimed a w = (Ok v, w') -> is_u256 v.

(** What the task may do when [c] has accrued: vouchers and claims up to [c], for
    itself, and sales within the configured bounds. *)
Definition allowed (c : Z) (e : event) : Prop :=
  match e with
  | VoucherSigned u cum _ => u = fee_swapper cfg /\ cum <= c
  | Sent _ (claim u cum _ _) _ => u = fee_swapper cfg /\ cum <= c
  | Sent _ (swapFeeToRose m _ _) _ => min_swap_atomic cfg <= m <= max_swap_atomic cfg
  end.

Hypothesis Hclaimed : claimed_u256.
Hypothesis min_pos : 1 <= min_swap_atomic cfg.
Hypothesis max_u64 : 0 <= max_swap_atomic cfg <= u64_max.

(** [I] is kept, and [A c] says besides that [c] has accrued. *)
Variables (I : st R W Ev -> Prop) (A : Z -> st R W Ev -> Prop).
Hypothesis A_I : forall c s, A c s -> I s.
Hypothesis I_stable : stable I.
Hypothesis A_stable : forall c, stable (A c).
Hypothesis I_env : forall s w, I s -> I (St_ (redis s) w (log s)).
Hypothesis A_env : forall c s w, A c s -> A c (St_ (redis s) w (log s)).
Hypothesis A_read : forall c s, I s -> fee_of (redis s) = Some c -> A c s.
Hypothesis A_event : forall c e s w,
  (0 <= c -> allowed c e) -> A c s -> A c (St_ (redis s) w (log s ++ emit e)).

Lemma read_I {X} (f : W -> result string X * W) : hoare I (ecall f (fun _ => [])) (fun _ => I) I.
Proof.
  apply hoare_ecall; [done..|]. intros s a w2 Hs _. simpl. rewrite app_nil_r.
  split; [by apply I_env|]. destruct a; [by apply I_env|done].
Qed.

Lemma read_A c {X} (f : W -> result string X * W) : hoare (A c) (ecall f (fun _ => [])) (fun _ => A c) I.
Proof.
  apply hoare_ecall; [done|apply A_I|]. intros s a w2 Hs _. simpl. rewrite app_nil_r.
  split; [by eapply A_I, A_env|]. destruct a; [by apply A_env|done].
Qed.

Lemma now_A c : hoare (A c) now_secs (fun _ => A c) I.
Proof. intros s Hs. unfold now_secs. destruct (fee_now (env s)). by apply A_env. Qed.

Lemma sign_A c cum :
  (0 <= c -> cum <= c) -> hoare (A c) (sign_voucher (fee_swapper cfg) cum) (fun _ => A c) I.
Proof.
  intros Hc. eapply hoare_bind; [apply now_A|]. intros t.
  apply hoare_ecall; [done|apply A_I|]. intros s a w2 Hs _. simpl.
  assert (A c (St_ (redis s) w2
    (log s ++ match a with Ok _ => emit (VoucherSigned (fee_swapper cfg) cum t) | Err _ => [] end))) as Ha.
  { destruct a; [by apply A_event; [intros; split; auto|]|]. rewrite app_nil_r. by apply A_env. }
  split; [by eapply A_I|]. by destruct a.
Qed.

Lemma send_A c to call gas :
  (0 <= c -> allowed c (Sent to call gas)) -> hoare (A c) (send to call gas) (fun _ => A c) I.
Proof.
  intros Hc. apply (hoare_bind _ _ _ _ (fun _ => A c)).
  - apply hoare_ecall; [done|apply A_I|]. intros s a w2 Hs _. simpl.
    assert (A c (St_ (redis s) w2 (log s ++ emit (Sent to call gas)))) as Ha by (by apply A_event).
    split; [by eapply A_I|]. by destruct a.
  - intros resp. case_ifs; [apply hoare_fail, A_I|by apply hoare_ret].
Qed.

Lemma accrued_A : hoare I (rcall fee_accrued) (fun acc s => acc <= i64_max /\ A acc s) I.
Proof.
  apply hoare_rcall; [done..|]. intros s a r2 Hs Ha.
  assert (Hf : forall v, a = Ok v -> fee_of (redis s) = Some v) by (intros v ->; unfold fee_of; by rewrite Ha).
  unfold fee_accrued, mbind, St_bind, GET_i64 in Ha. simpl in Ha.
  destruct (as_i64 (get KEY_FEE_ACCRUED (redis s))) as [o|e] eqn:Ei; cbn in Ha;
    injection Ha as <- <-; destruct s; [|done].
  split; [done|]. split; [|by apply A_read; auto].
  assert (is_i64 (opt_or 0 o)) by (by eapply reply_i64_range). width_lia.
Qed.

Lemma snapshot_reads (r : R) : (treasury_snapshot r).2 = r.
Proof.
  unfold treasury_snapshot, mbind, St_bind, GET. simpl. destruct (as_string _); [|done]. by destruct (snap_of_string _).
Qed.

Lemma snapshot_A c : hoare (A c) (rcall treasury_snapshot) (fun _ => A c) I.
Proof.
  apply hoare_rcall; [done|apply A_I|]. intros s a r2 Hs Ha.
  pose proof (snapshot_reads (redis s)) as Hr. rewrite Ha in Hr. simpl in Hr. subst r2. destruct s.
  split; [by eapply A_I|]. by destruct a.
Qed.

(** What is claimed when the delta is worth a swap. *)
Lemma new_cum_bound prev acc cap :
  is_u256 prev -> 0 <= acc <= i64_max -> match cap with Some c => 0 <= c | None => True end ->
  let d := swap_delta_atomic (wrap_u128 acc) (Watcher.u256_to_u128_or_max prev) (max_swap_atomic cfg) cap in
  min_swap_atomic cfg <= d -> (prev + d) mod 2 ^ 256 <= acc /\ d <= max_swap_atomic cfg.
Proof.
  intros Hp Ha Hc. rewrite u256_to_u128_or_max_spec by done.
  assert (Hw : wrap_u128 acc = acc) by (unfold wrap_u128; apply Z.mod_small; width_lia).
  rewrite Hw. intros d Hd. destruct (swap_delta_spec acc (Z.min prev u128_max) (max_swap_atomic cfg) cap max_u64 Hc) as (Hr & Hle & _).
  fold d in Hr, Hle. specialize (Hle ltac:(lia)).
  rewrite Z.mod_small; width_lia.
Qed.

Lemma tick_keeps : hoare I (tick cfg) (fun _ => I) I.
Proof.
  unfold tick. eapply hoare_bind; [apply read_I|]. intros res.
  eapply hoare_bind; [apply read_I|]. intros bal.
  apply (hoare_bind _ _ _ _ (fun _ => I)); [intros s Hs; unfold lift; by destruct (parse_u256 _)|]. intros floor.
  case_ifs; [by apply hoare_ret|].
  apply (hoare_bind _ _ _ _ (fun prev s => is_u256 prev /\ I s)).
  { apply hoare_ecall; [done..|]. intros s a w2 Hs Hc. simpl. rewrite app_nil_r.
    split; [by apply I_env|]. destruct a; [|done]. split; [by eapply Hclaimed|by apply I_env]. }
  intros prev. apply hoare_pure. intros Hp. eapply hoare_bind; [apply accrued_A|]. intros acc. apply hoare_pure. intros Ha.
  eapply hoare_bind; [apply snapshot_A|]. intros snap. cbv zeta.
  match goal with |- context [swap_delta_atomic _ _ _ ?c] => set (cap := c) end.
  assert (Hcap : match cap with Some c => 0 <= c | None => True end).
  { unfold cap. destruct snap as [sn|]; [|done]. destruct (_ >? 0); [|done]. apply mintable_fee_nonneg. }
  pose proof (fun H => new_cum_bound prev acc cap Hp (conj H Ha) Hcap) as Hnc. cbv zeta in Hnc. clearbody cap. clear Hcap.
  pose proof (swap_delta_spec (wrap_u128 acc) (Watcher.u256_to_u128_or_max prev) (max_swap_atomic cfg) cap max_u64) as Hmax.
  set (d := swap_delta_atomic _ _ _ _) in *. clearbody d.
  destruct (Z.ltb_spec d (min_swap_atomic cfg)) as [|Hd]; [apply hoare_ret, A_I|].
  eapply hoare_bind; [apply read_A|]. intros q. destruct (_ =? 0); [apply hoare_ret, A_I|].
  eapply hoare_bind; [apply read_A|]. intros gp. destruct (_ <? _); [apply hoare_ret, A_I|].
  eapply hoare_bind; [apply sign_A; intros Hc; by apply Hnc|]. intros sig.
  eapply hoare_bind; [apply now_A|]. intros t.
  eapply hoare_bind; [apply send_A; intros Hc; by destruct (Hnc Hc Hd)|]. intros ?.
  eapply hoare_bind; [apply now_A|]. intros t'.
  eapply hoare_bind; [apply send_A; intros Hc; destruct (Hnc Hc Hd); simpl; lia|]. intros ?. apply hoare_ret, A_I.
Qed.

Lemma run_loop_keeps n s : I s -> I (run_loop cfg n s).
Proof.
  revert s. induction n as [|n IH]; intros s Hs; [done|]. apply IH.
  by apply (hoare_inv I (tick cfg) (fun _ => I)); [apply tick_keeps|..].
Qed.

End Round.

Section Safety.
Context {R W : Type} `{RedisLaws R} `{SnapshotJson} `{World R W event} `{FeeEnv W}.
Variable cfg : Config.
Implicit Types s : st R W event.

(** The accrual only grows under the other tasks, which make no calls of this task. *)
Class FeeLaws : Prop := {
  fl_rely : forall (r : R) (w : W) r' w' evs, interfere r w = (r', w', evs) ->
    evs = [] /\ forall v, fee_of r = Some v -> exists v', fee_of r' = Some v' /\ v <= v';
  fl_claimed : claimed_u256 (W := W);
}.
Context `{!FeeLaws}.
Hypothesis min_pos : 1 <= min_swap_atomic cfg.
Hypothesis max_u64 : 0 <= max_swap_atomic cfg <= u64_max.

(** At least [c] has accrued, and everything done so far is within the accrual. *)
Definition Acc (c : Z) s : Prop :=
  exists v, fee_of (redis s) = Some v /\ 0 <= c <= v /\ Forall (allowed cfg v) (log s).
Definition FInv s : Prop := Acc 0 s.

Lemma allowed_mono v v' e : v <= v' -> allowed cfg v e -> allowed cfg v' e.
Proof. destruct e as [u c t|to [u c t sig|m out dl] g]; simpl; intuition lia. Qed.

Lemma stable_Acc c : stable (Acc c).
Proof.
  intros s r w evs w' (v & Hv & Hc & Hf) Hi. destruct (fl_rely _ _ _ _ _ Hi) as [-> Hm].
  destruct (Hm v Hv) as (v' & Hv' & Hle). exists v'. simpl. rewrite app_nil_r. split_and!; [done|lia|lia|].
  eapply Forall_impl; [exact Hf|]. intros e. by apply allowed_mono.
Qed.

Lemma run_loop_FInv n s : FInv s -> FInv (run_loop cfg n s).
Proof.
  apply (run_loop_keeps cfg fl_claimed min_pos max_u64 FInv Acc); try done.
  - intros c s' (v & Hv & Hc & Hf). exists v. split_and!; [done|lia|lia|done].
  - apply stable_Acc.
  - apply stable_Acc.
  - intros c s' (v & Hv & Hc & Hf) Hr. simplify_eq. eexists. split_and!; [done|lia|lia|done].
  - intros c e s' w He (v & Hv & Hc & Hf). exists v. split_and!; [done|lia|lia|]. apply Forall_app. split; [done|].
    constructor; [|done]. apply (allowed_mono c); [lia|]. apply He. lia.
Qed.

(** C13: the fee task never mints more than has accrued: whatever the chain
    replies, whatever fails or crashes, over any number of rounds, every voucher it
    signs and every claim it submits is its own and raises the cumulative to at most
    the fee accrued by then, and every swap sells an amount between the configured
    bounds. *)
Theorem fee_mint_within_accrual n s v0 :
  fee_of (redis s) = Some v0 -> 0 <= v0 -> log s = [] ->
  let s' := run_loop cfg n s in
  exists v, fee_of (redis s') = Some v /\
    (forall user cum t, VoucherSigned user cum t ∈ log s' -> user = fee_swapper cfg /\ cum <= v) /\
    (forall to user cum t sig gas, Sent to (claim user cum t sig) gas ∈ log s' ->
       user = fee_swapper cfg /\ cum <= v) /\
    (forall to m out dl gas, Sent to (swapFeeToRose m out dl) gas ∈ log s' ->
       min_swap_atomic cfg <= m <= max_swap_atomic cfg).
Proof.
  intros Hv H0' Hl s'. destruct (run_loop_FInv n s) as (v & Hv' & _ & Hc).
  { exists v0. rewrite Hl. split_and!; [done|lia|lia|done]. }
  rewrite Forall_forall in Hc. exists v. split_and!; [done|..].
  - intros user cum t Hin. exact (Hc _ Hin).
  - intros to user cum t sig gas Hin. exact (Hc _ Hin).
  - intros to m out dl gas Hin. exact (Hc _ Hin).
Qed.

End Safety.

(** ** A concrete surrounding *)

Module Demo.

#[local] Existing Instance snap_text.

Record chain : Type := { on_chain : Z; clock : Z }.

#[global] Instance chain_env : FeeEnv chain := {
  reservoir w := (Ok 9, w);
  native_balance _ w := (Ok 0, w);
  chain_claimed _ w := (Ok (Z.max 0 (Z.min (on_chain w) u256_max)), w);
  quoteRoseOut d w := (Ok (d * 1000000000), w);
  get_gas_price w := (Ok 1, w);
  sign _ _ _ w := (Ok [], w);
  appd _ c _ w := (Ok "ok", match c with claim _ cum _ _ => {| on_chain := cum; clock := clock w |} | _ => w end);
  fee_now w := (clock w, {| on_chain := on_chain w; clock := clock w + 1 |});
  parse_u256 s := Text.parse_u128 s;
}.

#[global] Instance chain_world : World Db.t chain event := {
  interfere r w := (r, w, []);
  next_fault w := (NoFault, w);
}.

#[global] Instance chain_laws : FeeLaws (R := Db.t) (W := chain).
Proof.
  split.
  - intros r w r' w' evs E. simpl in E. simplify_eq. split; [done|]. intros v Hv. exists v. split; [done|lia].
  - intros a w v w' E. simpl in E. simplify_eq. width_lia.
Qed.

Definition demo_cfg : Config :=
  {| rent_floor_wei := "5000"; min_swap_atomic := 100; max_swap_atomic := 5000; slippage_bps := 200;
     min_swap_gas_multiple := 5; reserve_ratio := F.one; token := 1; fee_swapper := 2 |}.

Definition start : st Db.t chain event :=
  St_ (set KEY_FEE_ACCRUED (RInt 7000) Db.empty) {| on_chain := 0; clock := 50 |} [].

(** Two rounds: 5000 and then the remaining 2000; the third has nothing left. *)
Definition amount (e : event) : Z :=
  match e with VoucherSigned _ c _ => c | Sent _ (claim _ c _ _) _ => c | Sent _ (swapFeeToRose m _ _) _ => m end.
Lemma finish_log : amount <$> log (run_loop demo_cfg 3 start) = [5000; 5000; 5000; 7000; 7000; 2000].
Proof. by vm_compute. Qed.

(** The voucher is signed for one reading of the clock and claimed with another. *)
Example claim_time_is_read_twice :
  exists sig, take 2 (log (run_loop demo_cfg 1 start))
    = [VoucherSigned 2 5000 50; Sent 1 (claim 2 5000 51 sig) 200000].
Proof. eexists. by vm_compute. Qed.

End Demo.

Lemma fee_mint_within_accrual_witness :
  let s' := run_loop (H0 := snap_text) Demo.demo_cfg 3 Demo.start in
  exists v, fee_of (redis s') = Some v /\
    (forall user cum t, VoucherSigned user cum t ∈ log s' -> user = 2 /\ cum <= v) /\
    (forall to user cum t sig gas, Sent to (claim user cum t sig) gas ∈ log s' -> user = 2 /\ cum <= v) /\
    (forall to m out dl gas, Sent to (swapFeeToRose m out dl) gas ∈ log s' -> 100 <= m <= 5000).
Proof.
  apply (fee_mint_within_accrual Demo.demo_cfg) with (v0 := 7000);
    [simpl; lia|unfold u64_max; simpl; lia|by vm_compute|lia|reflexivity].
Defined.

(** A supply snapshot of zero lets the task mint against the whole wallet. *)
Example zero_supply_lifts_the_cap :
  mintable_fee 1000000 900000 0 F.one 5000000 = 100000 /\ mintable_fee 1000000 0 0 F.one 5000000 = 1000000.
Proof. by vm_compute. Qed.

End FeeSwap.
