(* ===== verification/Stamp.v ===== *)
(** Redemption stamps: [pool-core/src/redemption.rs].

    The 16-bit tag of a redemption id, hidden in the low bits of the amount
    transferred, is what a wallet restored from its seed still shows of the
    redemption a transfer paid. *)
From S2P Require Import Prelude.

Module Stamp.

Definition STAMP_BITS : Z := 16.
Definition STAMP_MOD : Z := Z.shiftl 1 STAMP_BITS.

Definition stamp_tag (id : Z) : Z := id mod STAMP_MOD.

(** [!(STAMP_MOD - 1)] is the complement at the width of [u128]. *)
Definition stamp_mask : Z := Z.lxor u128_max (STAMP_MOD - 1).

Definition stamp_amount (payout id : Z) : Z :=
  let tag := stamp_tag id in
  let base := Z.land payout stamp_mask in
  let stamped := Z.lor base tag in
  if stamped >? payout then wrap_u128 (stamped - STAMP_MOD) else stamped.

Definition matches_stamp (amount id : Z) : bool := amount mod STAMP_MOD =? stamp_tag id.

(** ** Lemmas *)

Lemma stamp_mod_val : STAMP_MOD = 2 ^ 16.
Proof. done. Qed.

Lemma stamp_tag_range id : 0 <= stamp_tag id < 2 ^ 16.
Proof. unfold stamp_tag. rewrite stamp_mod_val. apply Z.mod_pos_bound. lia. Qed.

(** Masking rounds down to a multiple of [2^16]. *)
Lemma land_mask p : is_u128 p -> Z.land p stamp_mask = 2 ^ 16 * (p / 2 ^ 16).
Proof.
  intros Hp. apply Z.bits_inj'. intros n Hn.
  assert (Hm : Z.testbit stamp_mask n = (16 <=? n) && (n <? 128)).
  { unfold stamp_mask, u128_max, STAMP_MOD. rewrite Z.lxor_spec.
    change (Z.shiftl 1 STAMP_BITS - 1) with (Z.ones 16).
    change (2 ^ 128 - 1) with (Z.ones 128).
    rewrite !Z.testbit_ones_nonneg by lia.
    destruct (n <? 128) eqn:E1, (n <? 16) eqn:E2, (16 <=? n) eqn:E3; simpl; width_lia. }
  rewrite Z.land_spec, Hm, (Z.mul_comm (2 ^ 16)), Z.mul_pow2_bits by lia.
  destruct (16 <=? n) eqn:E1; bools.
  - rewrite Z.div_pow2_bits by lia. replace (n - 16 + 16) with n by lia. simpl.
    destruct (n <? 128) eqn:E2; [by rewrite andb_true_r|]. bools.
    rewrite andb_false_r. symmetry.
    destruct (decide (p = 0)) as [->|]; [apply Z.bits_0|].
    apply Z.bits_above_log2; [width_lia|].
    apply Z.log2_lt_pow2; [width_lia|].
    apply Z.lt_le_trans with (2 ^ 128); [width_lia | apply Z.pow_le_mono_r; lia].
  - rewrite (Z.testbit_neg_r (p / 2 ^ 16)) by lia. by rewrite andb_false_r.
Qed.

(** Or-ing a tag into a rounded amount adds it. *)
Lemma lor_tag q t : 0 <= t < 2 ^ 16 -> Z.lor (2 ^ 16 * q) t = 2 ^ 16 * q + t.
Proof.
  intros Ht. rewrite Z.add_nocarry_lxor, Z.lxor_lor; [done|..];
  apply Z.bits_inj'; intros n Hn; rewrite Z.land_spec, Z.bits_0, (Z.mul_comm (2 ^ 16));
  (destruct (Z.lt_ge_cases n 16); [rewrite Z.mul_pow2_bits_low by lia; done|]);
  (rewrite (Z.bits_above_log2 t); [by rewrite andb_false_r | lia |]);
  (destruct (decide (t = 0)) as [->|]; [simpl; lia |];
   apply Z.lt_le_trans with 16; [apply Z.log2_lt_pow2; lia | lia]).
Qed.

(** The two cases of [stamp_amount], with the bit operations removed. *)
Lemma stamp_amount_eq payout id :
  is_u128 payout -> 2 ^ 16 <= payout ->
  let v := 2 ^ 16 * (payout / 2 ^ 16) + stamp_tag id in
  stamp_amount payout id = if v >? payout then v - 2 ^ 16 else v.
Proof.
  intros Hp Hlo v. pose proof (stamp_tag_range id).
  unfold stamp_amount. rewrite land_mask, lor_tag, stamp_mod_val by done. fold v.
  destruct (v >? payout) eqn:E; [|done]. unfold wrap_u128. apply Z.mod_small.
  subst v. pose proof (Z.div_mod payout (2 ^ 16) ltac:(lia)).
  pose proof (Z.mod_pos_bound payout (2 ^ 16) ltac:(lia)). rewrite Z.gtb_ltb in E. width_lia.
Qed.

Lemma matches_stamp_spec amount id :
  matches_stamp amount id = true <-> amount mod 2 ^ 16 = id mod 2 ^ 16.
Proof. unfold matches_stamp, stamp_tag. rewrite stamp_mod_val. apply Z.eqb_eq. Qed.

(** A stamped amount is positive and carries the tag. *)
Lemma stamp_amount_tag payout id :
  is_u128 payout -> STAMP_MOD <= payout ->
  0 < stamp_amount payout id /\ stamp_amount payout id mod STAMP_MOD = stamp_tag id.
Proof.
  rewrite stamp_mod_val. intros Hp Hlo. pose proof (stamp_tag_range id).
  pose proof (Z.div_mod payout (2 ^ 16) ltac:(lia)).
  pose proof (Z.mod_pos_bound payout (2 ^ 16) ltac:(lia)).
  rewrite stamp_amount_eq by done. simpl. case_ifs; rewrite Z.gtb_ltb in *; bools.
  - split; [lia|]. symmetry. apply Z.mod_unique with (payout / 2 ^ 16 - 1); lia.
  - split; [lia|]. symmetry. apply Z.mod_unique with (payout / 2 ^ 16); lia.
Qed.

Lemma stamp_amount_bounds payout id :
  is_u128 payout -> STAMP_MOD <= payout ->
  0 <= stamp_amount payout id <= payout /\ payout - stamp_amount payout id < 2 * STAMP_MOD.
Proof.
  rewrite stamp_mod_val. intros Hp Hlo. pose proof (stamp_tag_range id).
  pose proof (Z.div_mod payout (2 ^ 16) ltac:(lia)).
  pose proof (Z.mod_pos_bound payout (2 ^ 16) ltac:(lia)).
  split_and!; rewrite stamp_amount_eq by done; simpl; case_ifs; rewrite Z.gtb_ltb in *; width_lia.
Qed.

(** ** Properties *)

(** C19: a stamped amount never exceeds the payout it is made from, carries the
    id's tag, and gives up less than [2^17] atomic units, for every payout of
    at least [2^16]. *)
Theorem stamp_amount_spec payout id :
  is_u128 payout -> STAMP_MOD <= payout ->
  let s := stamp_amount payout id in
  0 <= s <= payout /\ payout - s < 2 * STAMP_MOD /\ s mod STAMP_MOD = stamp_tag id
  /\ matches_stamp s id = true.
Proof.
  intros Hp Hlo s. destruct (stamp_amount_tag payout id Hp Hlo) as [_ Hm].
  destruct (stamp_amount_bounds payout id Hp Hlo) as [Hb Hd].
  split_and!; [apply Hb..|done|done|apply matches_stamp_spec; by rewrite <- stamp_mod_val].
Qed.

Lemma stamp_amount_spec_witness :
  let s := stamp_amount 5000000000 42 in
  0 <= s <= 5000000000 /\ 5000000000 - s < 2 * STAMP_MOD /\ s mod STAMP_MOD = stamp_tag 42
  /\ matches_stamp s 42 = true.
Proof. apply (stamp_amount_spec 5000000000 42); [by split | by vm_compute]. Defined.

End Stamp.
