(* ===== verification/Voucher.v ===== *)
(** Cumulative vouchers: [pool-core/src/voucher.rs] and the conversion of
    [voucher-signer/src/lib.rs] that feeds it. *)
From S2P Require Import Prelude.

Module Voucher.

Record VoucherInputs : Type := {
  earned_cumulative : Z;
  last_voucher_cumulative : Z;
  on_chain_claimed : Z;
  requested_amount : option Z;
}.

Record VoucherDecision : Type := {
  new_cumulative : Z;
  marginal : Z;
}.

Inductive VoucherError : Type :=
| NonPositive
| Insufficient (requested available : Z)
| Empty.

Definition decide (inputs : VoucherInputs) : result VoucherError VoucherDecision :=
  let base := Z.max (Z.max (last_voucher_cumulative inputs) (on_chain_claimed inputs)) 0 in
  let earned := Z.max (earned_cumulative inputs) 0 in
  let available := i64_saturating_sub earned base in
  if available <=? 0 then Err Empty
  else
    let amount := opt_or available (requested_amount inputs) in
    if amount <=? 0 then Err NonPositive
    else if amount >? available then Err (Insufficient amount available)
    else Ok {| new_cumulative := wrap_i64 (base + amount); marginal := amount |}.

Definition u256_to_i64_or (v fallback : Z) : Z :=
  if negb (Z.lor (Z.lor (limb 1 v) (limb 2 v)) (limb 3 v) =? 0) then fallback
  else
    let lo := limb 0 v in
    if lo >? i64_max then fallback else lo.

(** The inputs are [i64]s. *)
Definition inputs_ok (i : VoucherInputs) : Prop :=
  is_i64 (earned_cumulative i) /\ is_i64 (last_voucher_cumulative i)
  /\ is_i64 (on_chain_claimed i) /\ (forall a, requested_amount i = Some a -> is_i64 a).

(** What the pool already covers, and what is left to issue. *)
Definition covered (i : VoucherInputs) : Z :=
  Z.max (Z.max (last_voucher_cumulative i) (on_chain_claimed i)) 0.
Definition available (i : VoucherInputs) : Z := Z.max (earned_cumulative i) 0 - covered i.

(** ** Lemmas *)

Lemma u256_to_i64_or_spec v d :
  is_u256 v -> u256_to_i64_or v d = if bool_decide (v <= i64_max) then v else d.
Proof.
  intros Hv. unfold u256_to_i64_or.
  destruct (Z.lor _ _ =? 0) eqn:E; simpl.
  - apply Z.eqb_eq in E. rewrite !Z.lor_eq_0_iff in E.
    assert (is_u64 v) as Hu by (apply limbs_u64; [done | tauto]). rewrite limb0_id by done.
    case_bool_decide; case_ifs; rewrite ?Z.gtb_ltb in *; width_lia.
  - apply Z.eqb_neq in E. rewrite bool_decide_false; [done|]. intros Hle. apply E.
    rewrite !Z.lor_eq_0_iff. assert (is_u64 v) as Hu by width_lia.
    apply limbs_u64 in Hu; tauto.
Qed.

(** The arithmetic of [decide] never leaves [i64]. *)
Lemma available_saturates i :
  inputs_ok i -> i64_saturating_sub (Z.max (earned_cumulative i) 0) (covered i) = available i.
Proof.
  intros (He & Hl & Hc & _). unfold i64_saturating_sub, available, covered.
  apply clamp_id. width_lia.
Qed.

(** [decide] by cases. *)
Lemma decide_eq i :
  inputs_ok i ->
  decide i =
    if available i <=? 0 then Err Empty
    else let amount := opt_or (available i) (requested_amount i) in
         if amount <=? 0 then Err NonPositive
         else if amount >? available i then Err (Insufficient amount (available i))
         else Ok {| new_cumulative := covered i + amount; marginal := amount |}.
Proof.
  intros Hi. unfold decide. fold (covered i). rewrite available_saturates by done.
  pose proof Hi as (He & Hl & Hc & Hr).
  destruct (available i <=? 0) eqn:E1; [done|]. simpl.
  destruct (opt_or _ _ <=? 0) eqn:E2; [done|]. destruct (_ >? _) eqn:E3; [done|].
  rewrite wrap_i64_id; [done|]. rewrite Z.gtb_ltb in E3.
  unfold available, covered in *. width_lia.
Qed.

Lemma decide_bound i d :
  inputs_ok i -> decide i = Ok d ->
  covered i < new_cumulative d /\ new_cumulative d <= Z.max (earned_cumulative i) 0
  /\ new_cumulative d = covered i + marginal d.
Proof.
  intros Hi. rewrite decide_eq by done. simpl. case_ifs; try done. intros [= <-]. simpl.
  rewrite Z.gtb_ltb in *. unfold available in *. width_lia.
Qed.

(** ** Properties *)

(** The decision of the signer, on every branch.  A voucher is issued exactly
    when something is left beyond what vouchers and claims already cover and the
    request is positive and within it; then its cumulative is above everything
    covered, never above what was earned, and worth the amount requested (all
    that is left when none is).  Otherwise the error says which condition failed,
    with the amounts involved. *)
Lemma decide_spec i :
  inputs_ok i ->
  match decide i with
  | Ok d =>
      covered i < new_cumulative d /\ new_cumulative d <= earned_cumulative i
      /\ is_i64 (new_cumulative d) /\ marginal d = opt_or (available i) (requested_amount i)
      /\ new_cumulative d = covered i + marginal d
  | Err Empty => earned_cumulative i <= covered i
  | Err NonPositive =>
      covered i < earned_cumulative i /\ exists a, requested_amount i = Some a /\ a <= 0
  | Err (Insufficient req avail) =>
      requested_amount i = Some req /\ avail = available i /\ 0 < avail < req
  end.
Proof.
  intros Hi. pose proof Hi as (He & Hl & Hc & Hr). rewrite decide_eq by done. simpl.
  assert (Hcov : 0 <= covered i) by (unfold covered; lia).
  destruct (available i <=? 0) eqn:E1; [unfold available in *; width_lia|].
  destruct (opt_or _ _ <=? 0) eqn:E2.
  - split; [unfold available in *; width_lia|].
    destruct (requested_amount i) as [a|]; simpl in *; [exists a; split; [done|] |]; width_lia.
  - destruct (_ >? _) eqn:E3; simpl; rewrite Z.gtb_ltb in E3.
    + destruct (requested_amount i); simpl in *; [split_and!; [done..| |]|]; width_lia.
    + unfold available in *. width_lia.
Qed.

End Voucher.
