(* ===== verification/Contract.v ===== *)
(** The token contract the pool settles through: [contracts/src/MiningPoolToken.sol].

    The ERC-20 ledger it inherits and the recovery of a voucher's signer are
    interfaces; the contract's own entry points and those of its owner are translated
    whole, a revert being [None]. *)
From S2P Require Import Prelude.

Module Contract.

(** The inherited ledger: [_mint], [_burn] and [totalSupply], and what its own entry
    points may do ([inherited d]: transfers, approvals, and a holder's burn of [d]). *)
Class Erc20 (T : Type) := {
  mint : Address -> Z -> T -> option T;
  burn : Address -> Z -> T -> option T;
  totalSupply : T -> Z;
  inherited : Z -> T -> T -> Prop;
}.

Class Erc20Laws (T : Type) `{Erc20 T} := {
  wf : T -> Prop;
  supply_mint : forall a v t t', wf t -> 0 <= v -> mint a v t = Some t' ->
    wf t' /\ totalSupply t' = totalSupply t + v;
  supply_burn : forall a v t t', wf t -> 0 <= v -> burn a v t = Some t' ->
    wf t' /\ totalSupply t' = totalSupply t - v;
  supply_inherited : forall d t t', wf t -> inherited d t t' ->
    0 <= d /\ wf t' /\ totalSupply t' = totalSupply t - d;
}.

(** OpenZeppelin's [ERC20.sol]: balances and supply, and [_update] with its
    checked and unchecked arithmetic.  The zero address stands for minting and
    burning. *)
Record Ledger20 : Type := { balances : gmap Address Z; supply : Z }.

Definition balanceOf (a : Address) (l : Ledger20) : Z := default 0 (balances l !! a).

Definition update (from to v : Z) (l : Ledger20) : option Ledger20 :=
  let debited :=
    if from =? 0 then
      if supply l + v >? u256_max then None
      else Some {| balances := balances l; supply := supply l + v |}
    else if balanceOf from l <? v then None
    else Some {| balances := <[from := (balanceOf from l - v) mod 2 ^ 256]> (balances l);
                 supply := supply l |} in
  match debited with
  | None => None
  | Some l1 =>
      Some (if to =? 0
            then {| balances := balances l1; supply := (supply l1 - v) mod 2 ^ 256 |}
            else {| balances := <[to := (balanceOf to l1 + v) mod 2 ^ 256]> (balances l1);
                    supply := supply l1 |})
  end.

(** [transfer], [transferFrom], [burn] and [burnFrom], on the balances: allowances only
    restrict who may call them. *)
Inductive inherited20 : Z -> Ledger20 -> Ledger20 -> Prop :=
| in_transfer from to v l l' :
    from <> 0 -> to <> 0 -> 0 <= v -> update from to v l = Some l' -> inherited20 0 l l'
| in_burn from v l l' : from <> 0 -> 0 <= v -> update from 0 v l = Some l' -> inherited20 v l l'.

#[global] Instance ledger20 : Erc20 Ledger20 := {
  mint a v l := if a =? 0 then None else update 0 a v l;
  burn a v l := if a =? 0 then None else update a 0 v l;
  totalSupply := supply;
  inherited := inherited20;
}.

Record StoredRedemption : Type := { user : Address; amount : Z; xmrAddress : string }.

Record Token (T : Type) : Type := {
  erc20 : T;
  authorizedSigner : Address;
  claimed : gmap Address Z;
  redemptions : gmap Z StoredRedemption;
  nextRedemptionId : Z;
  processed : gmap Z bool;
  payoutTxid : gmap Z string;
  restoreHeight : Z;
  redemptionGasSubsidy : Z;
  owner : Address;
}.
Arguments erc20 {T} _.
Arguments authorizedSigner {T} _.
Arguments claimed {T} _.
Arguments redemptions {T} _.
Arguments nextRedemptionId {T} _.
Arguments processed {T} _.
Arguments payoutTxid {T} _.
Arguments restoreHeight {T} _.
Arguments redemptionGasSubsidy {T} _.
Arguments owner {T} _.

Section Entry.
Context {T Sig : Type} `{Erc20 T}.
(** The address that signed the voucher [(user, cumulativeAmount, signedAt)]. *)
Variable recover : Address -> Z -> Z -> Sig -> option Address.

(** A mapping read: zero when never written. *)
Definition claimed_of (u : Address) (t : Token T) : Z := default 0 (claimed t !! u).

Definition claim (u : Address) (cumulativeAmount signedAt : Z) (sig : Sig) (t : Token T)
  : option (Z * Token T) :=
  if cumulativeAmount >? claimed_of u t then
    if decide (recover u cumulativeAmount signedAt sig = Some (authorizedSigner t)) then
      let delta := cumulativeAmount - claimed_of u t in
      match mint u delta (erc20 t) with
      | Some e => Some (delta,
          {| erc20 := e; authorizedSigner := authorizedSigner t;
             claimed := <[u := cumulativeAmount]> (claimed t);
             redemptions := redemptions t; nextRedemptionId := nextRedemptionId t;
             processed := processed t; payoutTxid := payoutTxid t;
             restoreHeight := restoreHeight t; redemptionGasSubsidy := redemptionGasSubsidy t; owner := owner t |})
      | None => None
      end
    else None
  else None.

(** [forwarded]: whether the value call to the signer's account succeeds. *)
Definition redeem (sender : Address) (value amount : Z) (xmrAddress : string) (forwarded : bool)
    (t : Token T) : option (Z * Token T) :=
  if value <? redemptionGasSubsidy t then None
  else match burn sender amount (erc20 t) with
  | None => None
  | Some e =>
      let id := (nextRedemptionId t + 1) mod 2 ^ 256 in
      if (0 <? value) && negb forwarded then None
      else Some (id,
        {| erc20 := e; authorizedSigner := authorizedSigner t; claimed := claimed t;
           redemptions := <[id := {| user := sender; amount := amount; xmrAddress := xmrAddress |}]>
                            (redemptions t);
           nextRedemptionId := id; processed := processed t; payoutTxid := payoutTxid t;
           restoreHeight := restoreHeight t; redemptionGasSubsidy := redemptionGasSubsidy t; owner := owner t |})
  end.

Definition is_processed (id : Z) (t : Token T) : bool := default false (processed t !! id).

Definition markProcessed (sender : Address) (id : Z) (moneroTxid : string) (newRestoreHeight : Z)
    (t : Token T) : option (Token T) :=
  if negb (sender =? authorizedSigner t) then None
  else if negb (negb (id =? 0) && (id <=? nextRedemptionId t)) then None
  else
    let h := if newRestoreHeight >? restoreHeight t then newRestoreHeight else restoreHeight t in
    let mark := negb (is_processed id t) in
    Some {| erc20 := erc20 t; authorizedSigner := authorizedSigner t; claimed := claimed t;
            redemptions := redemptions t; nextRedemptionId := nextRedemptionId t;
            processed := if mark then <[id := true]> (processed t) else processed t;
            payoutTxid := if mark then <[id := moneroTxid]> (payoutTxid t) else payoutTxid t;
            restoreHeight := h; redemptionGasSubsidy := redemptionGasSubsidy t; owner := owner t |}.

(** The owner's entry points, and the inherited ones. *)
Definition with_admin (signer subsidy owner : Z) (t : Token T) : Token T :=
  {| erc20 := erc20 t; authorizedSigner := signer; claimed := claimed t; redemptions := redemptions t;
     nextRedemptionId := nextRedemptionId t; processed := processed t; payoutTxid := payoutTxid t;
     restoreHeight := restoreHeight t; redemptionGasSubsidy := subsidy; owner := owner |}.

Definition with_erc20 (e : T) (t : Token T) : Token T :=
  {| erc20 := e; authorizedSigner := authorizedSigner t; claimed := claimed t; redemptions := redemptions t;
     nextRedemptionId := nextRedemptionId t; processed := processed t; payoutTxid := payoutTxid t;
     restoreHeight := restoreHeight t; redemptionGasSubsidy := redemptionGasSubsidy t; owner := owner t |}.

Definition onlyOwner (sender : Address) (f : Token T -> Token T) (t : Token T) : option (Token T) :=
  if sender =? owner t then Some (f t) else None.

Definition setSigner (sender signer : Address) : Token T -> option (Token T) :=
  onlyOwner sender (fun t => with_admin signer (redemptionGasSubsidy t) (owner t) t).
Definition setRedemptionGasSubsidy (sender : Address) (subsidy : Z) : Token T -> option (Token T) :=
  onlyOwner sender (fun t => with_admin (authorizedSigner t) subsidy (owner t) t).
Definition transferOwnership (sender new_owner : Address) (t : Token T) : option (Token T) :=
  if new_owner =? 0 then None
  else onlyOwner sender (fun t => with_admin (authorizedSigner t) (redemptionGasSubsidy t) new_owner t) t.
Definition renounceOwnership (sender : Address) : Token T -> option (Token T) :=
  onlyOwner sender (fun t => with_admin (authorizedSigner t) (redemptionGasSubsidy t) 0 t).

(** One transaction of anyone, with what it burns outside a redemption. *)
Inductive public_tx : Z -> Token T -> Token T -> Prop :=
| tx_claim t u c at_ sig d t' : claim u c at_ sig t = Some (d, t') -> public_tx 0 t t'
| tx_redeem t a v amt x f id t' : 0 <= amt -> redeem a v amt x f t = Some (id, t') -> public_tx 0 t t'
| tx_mark t a id x h t' : markProcessed a id x h t = Some t' -> public_tx 0 t t'
| tx_erc20 t d e : inherited d (erc20 t) e -> public_tx d t (with_erc20 e t).

(** One transaction, of the owner or of anyone. *)
Inductive tx : Z -> Token T -> Token T -> Prop :=
| tx_public d t t' : public_tx d t t' -> tx d t t'
| tx_signer t a s t' : setSigner a s t = Some t' -> tx 0 t t'
| tx_subsidy t a v t' : setRedemptionGasSubsidy a v t = Some t' -> tx 0 t t'
| tx_ownership t a b t' : transferOwnership a b t = Some t' -> tx 0 t t'
| tx_renounce t a t' : renounceOwnership a t = Some t' -> tx 0 t t'.

(** What was ever claimed, and what was ever redeemed. *)
Definition total_claimed (t : Token T) : Z := map_fold (fun _ v acc => v + acc) 0 (claimed t).
Definition total_redeemed (t : Token T) : Z :=
  map_fold (fun _ s acc => amount s + acc) 0 (redemptions t).

(** Supply plus what was redeemed and what was burned is what was claimed; redemption
    ids are the interval from 1 to the last one issued. *)
Record Inv `{!Erc20Laws T} (burned : Z) (t : Token T) : Prop := {
  inv_supply : totalSupply (erc20 t) + total_redeemed t + burned = total_claimed t;
  inv_ids : forall id, is_Some (redemptions t !! id) <-> 1 <= id <= nextRedemptionId t;
  inv_next : 0 <= nextRedemptionId t;
  inv_claimed : forall u, 0 <= claimed_of u t;
  inv_wf : wf (erc20 t);
}.

End Entry.

(** ** Lemmas *)

Lemma fold_insert_new {A} (f : A -> Z) (m : gmap Z A) i x :
  m !! i = None ->
  map_fold (fun _ v acc => f v + acc) 0 (<[i := x]> m) = f x + map_fold (fun _ v acc => f v + acc) 0 m.
Proof.
  intros Hm. rewrite (map_fold_insert_L (fun _ v acc => f v + acc) 0 i x m); [done | intros; lia | done].
Qed.

Lemma fold_nonneg {A} (f : A -> Z) (m : gmap Z A) :
  (forall i x, m !! i = Some x -> 0 <= f x) -> 0 <= map_fold (fun _ v acc => f v + acc) 0 m.
Proof.
  induction m as [|i x m Hm IH] using map_ind; intros Hf; [done|].
  rewrite fold_insert_new by done. pose proof (Hf i x (lookup_insert_eq _ _ _)).
  enough (0 <= map_fold (fun _ v acc => f v + acc) 0 m) by lia. apply IH.
  intros j y Hy. apply (Hf j). rewrite lookup_insert_ne by congruence. done.
Qed.

Lemma fold_insert {A} (f : A -> Z) (m : gmap Z A) i x :
  map_fold (fun _ v acc => f v + acc) 0 (<[i := x]> m)
  = map_fold (fun _ v acc => f v + acc) 0 m + f x - default 0 (f <$> m !! i).
Proof.
  destruct (m !! i) as [y|] eqn:E.
  - rewrite <- (insert_delete_id m i y E) at 2. rewrite <- (insert_delete_eq m i x).
    rewrite !fold_insert_new by apply lookup_delete_eq. simpl. lia.
  - rewrite fold_insert_new by done. simpl. lia.
Qed.

(** The balances of a ledger sum to its supply. *)
Definition ledger_sum (l : Ledger20) : Z := map_fold (fun _ (v : Z) acc => v + acc) 0 (balances l).
Definition ledger_wf (l : Ledger20) : Prop :=
  ledger_sum l = supply l /\ supply l <= u256_max /\ forall a, 0 <= balanceOf a l.

Lemma ledger_sum_insert (b : gmap Address Z) s a v :
  ledger_sum {| balances := <[a := v]> b; supply := s |}
  = map_fold (fun _ (v : Z) acc => v + acc) 0 b + v - default 0 (b !! a).
Proof.
  unfold ledger_sum. simpl. rewrite (fold_insert (fun v => v)). by destruct (b !! a).
Qed.

Lemma balance_le_supply l a : ledger_wf l -> balanceOf a l <= supply l.
Proof.
  intros (Hs & _ & Hb). rewrite <- Hs. unfold ledger_sum, balanceOf in *.
  destruct (balances l !! a) as [v|] eqn:E; simpl.
  - rewrite <- (insert_delete_id _ _ _ E), (fold_insert_new (fun v => v)) by apply lookup_delete_eq.
    assert (0 <= map_fold (fun _ v acc => v + acc) 0 (delete a (balances l))); [|lia].
    apply (fold_nonneg (fun v => v)). intros i x [_ Hx]%lookup_delete_Some.
    specialize (Hb i). rewrite Hx in Hb. exact Hb.
  - apply (fold_nonneg (fun v => v)). intros i x Hx. specialize (Hb i). rewrite Hx in Hb. exact Hb.
Qed.

Lemma balanceOf_insert b s a v c :
  balanceOf c {| balances := <[a := v]> b; supply := s |} = if decide (a = c) then v else default 0 (b !! c).
Proof.
  unfold balanceOf. simpl. case_decide; subst; [by rewrite lookup_insert_eq | by rewrite lookup_insert_ne].
Qed.

(** A balance moved together with the supply keeps the ledger well formed. *)
Lemma ledger_wf_move l a d :
  ledger_wf l -> 0 <= balanceOf a l + d -> supply l + d <= u256_max ->
  ledger_wf {| balances := <[a := balanceOf a l + d]> (balances l); supply := supply l + d |}.
Proof.
  intros (Hs & Hm & Hb) H0 H1. unfold ledger_wf. rewrite ledger_sum_insert. simpl. split_and!.
  - unfold ledger_sum, balanceOf in *. lia.
  - done.
  - intros c. rewrite balanceOf_insert. case_decide; [done | apply Hb].
Qed.

Lemma transfer_wf from to v l l' :
  ledger_wf l -> from <> 0 -> to <> 0 -> 0 <= v -> update from to v l = Some l' ->
  ledger_wf l' /\ supply l' = supply l.
Proof.
  intros Hwf Hf Ht Hv Hu. pose proof (balance_le_supply l from Hwf) as Hle. unfold update in Hu.
  rewrite (proj2 (Z.eqb_neq _ _) Hf), (proj2 (Z.eqb_neq _ _) Ht) in Hu.
  destruct (Z.ltb_spec (balanceOf from l) v); [done|]. simplify_eq/=. split; [|done].
  pose proof Hwf as (_ & Hm & Hb). pose proof (Hb from). rewrite (Z.mod_small (balanceOf from l - v)) by (unfold u256_max in *; lia).
  pose proof (ledger_wf_move l from (- v) Hwf ltac:(lia) ltac:(lia)) as Hw1.
  set (l1 := {| balances := <[from := balanceOf from l + - v]> (balances l); supply := supply l + - v |}) in Hw1.
  pose proof (balance_le_supply l1 to Hw1) as Hle1. pose proof Hw1 as (_ & _ & Hb1). pose proof (Hb1 to).
  pose proof (ledger_wf_move l1 to v Hw1 ltac:(lia) ltac:(simpl; lia)) as Hw2.
  replace (supply l) with (supply l1 + v) by (simpl; lia).
  rewrite (Z.mod_small (balanceOf to _ + v)); [exact Hw2|]. simpl in Hle1.
  change (balanceOf to {| balances := <[from := balanceOf from l - v]> (balances l); supply := supply l1 + v |})
    with (balanceOf to l1). unfold u256_max in *. lia.
Qed.

#[global] Instance ledger20_laws : Erc20Laws Ledger20.
Proof.
  refine {| wf := ledger_wf |}; simpl.
  3:{ intros d l l' Hwf Hi. revert Hwf. destruct Hi as [from to v l0 l1 Hf Ht Hv Hu|from v l0 l1 Hf Hv Hu]; intros Hwf.
      - split; [done|]. rewrite Z.sub_0_r. exact (transfer_wf _ _ _ _ _ Hwf Hf Ht Hv Hu).
      - split; [done|]. unfold update in Hu. pose proof (balance_le_supply l0 from Hwf).
        pose proof Hwf as (_ & Hm & Hb). pose proof (Hb from). apply Z.eqb_neq in Hf. rewrite Hf in Hu.
        case_ifs_in Hu; try done; simplify_eq/=; bools. rewrite !Z.mod_small by (unfold u256_max in *; lia).
        split; [|done]. apply (ledger_wf_move _ _ (- v)); [done | lia | lia]. }
  all: unfold update; intros a v l l' Hwf Hv Hu;
    pose proof (balance_le_supply l a Hwf); pose proof Hwf as (_ & Hm & Hb); pose proof (Hb a);
    destruct (a =? 0) eqn:Ea; try done; simpl in Hu; rewrite ?Ea, ?Z.gtb_ltb in Hu;
    case_ifs_in Hu; try done; simplify_eq/=; unfold balanceOf in *; simpl in *; bools;
    rewrite !Z.mod_small by (unfold u256_max in *; lia); (split; [|done]).
  - apply ledger_wf_move; [done | unfold balanceOf; lia | lia].
  - apply (ledger_wf_move _ _ (- v)); [done | unfold balanceOf; lia | lia].
Defined.

Section Lemmas.
Context {T Sig : Type} `{Erc20Laws T}.
Variable recover : Address -> Z -> Z -> Sig -> option Address.
Implicit Types t : Token T.

(** A successful claim, taken apart. *)
Lemma claim_inv u c at_ sig t d t' :
  claim recover u c at_ sig t = Some (d, t') ->
  recover u c at_ sig = Some (authorizedSigner t) /\ claimed_of u t < c /\ d = c - claimed_of u t
  /\ mint u d (erc20 t) = Some (erc20 t') /\ claimed t' = <[u := c]> (claimed t)
  /\ redemptions t' = redemptions t /\ nextRedemptionId t' = nextRedemptionId t
  /\ authorizedSigner t' = authorizedSigner t.
Proof.
  unfold claim. rewrite Z.gtb_ltb. case_ifs; try done. destruct (mint _ _ _) eqn:E'; [|done].
  intros [= <- <-]. simpl. split_and!; try done. width_lia.
Qed.

Lemma claimed_of_insert u u' c t t' :
  claimed t' = <[u := c]> (claimed t) ->
  claimed_of u' t' = if decide (u = u') then c else claimed_of u' t.
Proof.
  unfold claimed_of. intros ->. case_decide; subst.
  - by rewrite lookup_insert_eq.
  - by rewrite lookup_insert_ne.
Qed.

Lemma claim_Inv b u c at_ sig t d t' : Inv b t -> claim recover u c at_ sig t = Some (d, t') -> Inv b t'.
Proof.
  intros [Hs Hi Hn Hc Hw] Hcl.
  apply claim_inv in Hcl as (_ & Hlt & -> & Hmint & Hcl & Hrd & Hnx & _).
  apply supply_mint in Hmint as [Hw' Hs']; [|done|lia].
  split; unfold total_claimed, total_redeemed in *; rewrite ?Hrd, ?Hnx; try done.
  - rewrite Hcl, (fold_insert (fun v => v)), Hs'.
    unfold claimed_of. destruct (claimed t !! u) eqn:E; rewrite ?E; simpl; lia.
  - intros u'. rewrite (claimed_of_insert _ _ _ _ _ Hcl). pose proof (Hc u). case_decide; [lia | apply Hc].
Qed.

Lemma redeem_Inv b a v amt x f t id t' :
  nextRedemptionId t < u256_max -> 0 <= amt -> Inv b t -> redeem a v amt x f t = Some (id, t') -> Inv b t'.
Proof.
  intros Hmax Hamt [Hs Hi Hn Hc Hw] Hr. unfold redeem in Hr. case_ifs_in Hr; try done.
  destruct (burn _ _ _) as [e|] eqn:Eb; [|done]. case_ifs_in Hr; try done. simplify_eq/=.
  apply supply_burn in Eb as [Hw' Hs']; [|done..].
  rewrite Z.mod_small by (unfold u256_max in Hmax; lia).
  assert (Hfresh : redemptions t !! (nextRedemptionId t + 1) = None).
  { apply eq_None_not_Some. rewrite Hi. lia. }
  split; simpl; [| |lia|done|done]; unfold total_claimed, total_redeemed in *; simpl.
  - rewrite (fold_insert_new amount), Hs' by done. simpl. lia.
  - intros id. destruct (decide (id = nextRedemptionId t + 1)) as [->|].
    + rewrite lookup_insert_eq. split; [lia | eauto].
    + rewrite lookup_insert_ne, Hi by done. lia.
Qed.

(** The owner changes the signer, the subsidy and the ownership, and nothing else. *)
Definition admin (sender : Address) (t t' : Token T) : Prop :=
  sender = owner t /\ exists signer subsidy o, t' = with_admin signer subsidy o t.

Lemma onlyOwner_admin sender f t t' :
  (forall t, exists signer subsidy o, f t = with_admin signer subsidy o t) ->
  onlyOwner sender f t = Some t' -> admin sender t t'.
Proof.
  intros Hf. unfold onlyOwner. destruct (Z.eqb_spec sender (owner t)); [|done]. intros [= <-]. by split.
Qed.

(** A transaction is of the owner, or of anyone. *)
Lemma tx_inv d t t' : tx recover d t t' -> d = 0 /\ (exists a, admin a t t') \/ public_tx recover d t t'.
Proof.
  destruct 1 as [d t t' Hp|t a s t' Hs|t a v t' Hs|t a b t' Hs|t a t' Hs]; [by right|left; split; [done|]; exists a..].
  3: unfold transferOwnership in Hs; destruct (b =? 0); [done|].
  all: (eapply onlyOwner_admin; [|exact Hs]; eauto).
Qed.

(** Nobody but the owner changes the owner or the signer. *)
Lemma public_keeps d t t' :
  public_tx recover d t t' -> owner t' = owner t /\ authorizedSigner t' = authorizedSigner t.
Proof.
  destruct 1 as [? u c s g m t' Hc|t a v amt x f id t' Ha Hr|t a id x h t' Hm|t d e Hi]; [| | |done].
  - unfold claim in Hc. case_ifs_in Hc; try done. destruct (mint _ _ _); naive_solver.
  - unfold redeem in Hr. case_ifs_in Hr; try done. destruct (burn _ _ _); [|done]. case_ifs_in Hr; naive_solver.
  - unfold markProcessed in Hm. case_ifs_in Hm; naive_solver.
Qed.

Lemma tx_Inv b d t t' : nextRedemptionId t < u256_max -> Inv b t -> tx recover d t t' -> Inv (b + d) t'.
Proof.
  intros Hmax Hi [[-> (a & _ & s & v & o & ->)]|Htx]%tx_inv; [rewrite Z.add_0_r; by destruct Hi|].
  destruct Htx as [? u c s g m t' Hc|t a v amt x f id t' Ha Hr|t a id x h t' Hm|t d e He]; rewrite ?Z.add_0_r.
  - by eapply claim_Inv.
  - by eapply redeem_Inv.
  - unfold markProcessed in Hm. case_ifs_in Hm; try done; simplify_eq/=; by destruct Hi.
  - destruct Hi as [Hs Hi Hn Hc Hw]. apply supply_inherited in He as (Hd & Hw' & Hs'); [|done].
    split; try done. simpl. rewrite Hs'. unfold total_claimed, total_redeemed in *. simpl. lia.
Qed.

End Lemmas.

Section Properties.
Context {T Sig : Type} `{Erc20Laws T}.
Variable recover : Address -> Z -> Z -> Sig -> option Address.
Implicit Types t : Token T.

(** Along every sequence of transactions of anyone, the owner and the holders who
    burn tokens themselves included, the token supply plus everything ever redeemed and
    everything burned equals everything ever claimed, and the redemption ids are exactly
    [1 .. nextRedemptionId]. *)
Lemma supply_conserved x y :
  Inv x.1 x.2 ->
  rtc (fun x y => exists d, tx recover d x.2 y.2 /\ y.1 = x.1 + d /\ nextRedemptionId x.2 < u256_max) x y ->
  totalSupply (erc20 y.2) + total_redeemed y.2 + y.1 = total_claimed y.2 /\
  forall id, is_Some (redemptions y.2 !! id) <-> 1 <= id <= nextRedemptionId y.2.
Proof.
  intros Hx Hr. assert (Hy : Inv y.1 y.2); [|by destruct Hy].
  revert Hx. apply (rtc_invariant _ (fun x => Inv x.1 x.2)) with (2 := Hr).
  intros ? ? Hi (d & Htx & -> & Hn). by eapply tx_Inv.
Qed.

(** Recording a payout is idempotent and never undone: a processed id stays
    processed under every later transaction, keeps the transaction id recorded
    first, and the restore height never goes back. *)
Lemma processed_forever d t t' id :
  tx recover d t t' ->
  (is_processed id t = true -> is_processed id t' = true /\ payoutTxid t' !! id = payoutTxid t !! id)
  /\ restoreHeight t <= restoreHeight t'.
Proof.
  intros [[-> (a & _ & s & v & o & ->)]|Htx]%tx_inv; [done|].
  destruct Htx as [? u c s g m t' Hc|t a v amt x f i t' Ha Hr|t a i x h t' Hm|t d e He].
  - unfold claim in Hc. case_ifs_in Hc; try done. destruct (mint _ _ _); naive_solver lia.
  - unfold redeem in Hr. case_ifs_in Hr; try done. destruct (burn _ _ _); [|done].
    case_ifs_in Hr; naive_solver lia.
  - unfold markProcessed in Hm. case_ifs_in Hm; try done; simplify_eq/=; rewrite Z.gtb_ltb in *;
      unfold is_processed in *; simpl; (split; [|case_ifs; width_lia]); try done.
    all: intros Hp; destruct (decide (i = id)) as [->|]; [by rewrite Hp in * |].
    all: by rewrite !lookup_insert_ne.
  - done.
Qed.

End Properties.

(** A fresh deployment, and a signature scheme in which the one signature there
    is recovers to the signer. *)
Definition genesis (deployer signer subsidy : Z) : Token Ledger20 :=
  {| erc20 := {| balances := ∅; supply := 0 |}; authorizedSigner := signer; claimed := ∅;
     redemptions := ∅; nextRedemptionId := 0; processed := ∅; payoutTxid := ∅;
     restoreHeight := 0; redemptionGasSubsidy := subsidy; owner := deployer |}.

Definition trust (_ _ _ : Z) (_ : unit) : option Address := Some 9.

Definition after_claim : Token Ledger20 :=
  match claim trust 5 700 0 tt (genesis 3 9 2) with Some (_, t) => t | None => genesis 3 9 2 end.
Definition after_redeem : Token Ledger20 :=
  match redeem 5 2 300 "4A" true after_claim with Some (_, t) => t | None => genesis 3 9 2 end.

Lemma genesis_Inv deployer signer subsidy : Inv 0 (genesis deployer signer subsidy).
Proof.
  split; try done.
  intros id. simpl. rewrite lookup_empty. split; [intros [? ?]; done | lia].
Qed.

End Contract.
