(* ===== verification/Governance.v ===== *)
(** contracts/src/PoolGovernance.sol, the timelocked owner of the token.

    An owner call runs code of its target, which may call back before the call returns:
    a transaction is a tree of calls, and the theorems are by induction on it.  The hash
    of an operation and the meaning of call data are parameters. *)
From S2P Require Import Prelude Contract.
Import Contract.

Module Governance.

(** ** PoolGovernance *)

Record Op : Type := { target : Address; value : Z; data : list Z }.

Record Gov : Type := {
  governor : Address;
  renounced : bool;
  queuedAt : gmap Z Z;
}.

(** The owner-only functions of the token. *)
Inductive admin_call : Type :=
| SetSigner (signer : Address)
| SetSubsidy (subsidy : Z)
| TransferOwnership (new_owner : Address)
| RenounceOwnership.

(** The history: the events of the governance contract, a queueing with the time of its
    block, which gives the eta; the call an execution makes, [Called], before the target
    runs; and the owner calls the token accepted, [TokenCalled]. *)
Inductive event : Type :=
| GovernorTransferred (from to : Address)
| Queued (id : Z) (op : Op) (time : Z)
| Cancelled (id : Z)
| Called (id : Z) (op : Op) (time : Z)
| Executed (id : Z) (op : Op)
| Renounced
| TokenCalled (c : admin_call).

(** The chain: the governance contract, the token, the time of the block, and the log. *)
Record Sys (T : Type) : Type := { gov : Gov; tok : Token T; now : Z; log : list event }.
Arguments gov {T} _.
Arguments tok {T} _.
Arguments now {T} _.
Arguments log {T} _.

Section PoolGovernance.
Context {T Sig : Type} `{Erc20 T}.
Variable recover : Address -> Z -> Z -> Sig -> option Address.
(** The addresses of the governance contract and of the token. *)
Variables this token : Address.
(** The accounts, and the contracts other than this one, that may act. *)
Variable acts : Address -> Prop.
Variable delay : Z.
(** [keccak256(abi.encode(target, value, data))], and the function the data name. *)
Variable op_id : Op -> Z.
Variable abi : list Z -> option admin_call.

Implicit Types s : Sys T.

Definition upd (g : Gov) (evs : list event) (s : Sys T) : Sys T :=
  {| gov := g; tok := tok s; now := now s; log := log s ++ evs |}.

Definition set_queue (q : gmap Z Z) (g : Gov) : Gov :=
  {| governor := governor g; renounced := renounced g; queuedAt := q |}.

Definition deploy (governor delay : Z) : option Gov :=
  if governor =? 0 then None else Some {| governor := governor; renounced := false; queuedAt := ∅ |}.

Definition queued (id : Z) (g : Gov) : Z := default 0 (queuedAt g !! id).

Definition onlyGovernor (sender : Address) (f : Sys T -> option (Sys T)) (s : Sys T) : option (Sys T) :=
  if negb (sender =? governor (gov s)) then None else f s.
Definition live (f : Sys T -> option (Sys T)) (s : Sys T) : option (Sys T) := if renounced (gov s) then None else f s.

Definition transferGovernor (sender to : Address) : Sys T -> option (Sys T) :=
  onlyGovernor sender (live (fun s =>
    if to =? 0 then None
    else Some (upd {| governor := to; renounced := renounced (gov s); queuedAt := queuedAt (gov s) |}
                   [GovernorTransferred (governor (gov s)) to] s))).

Definition queue (sender : Address) (op : Op) : Sys T -> option (Sys T) :=
  onlyGovernor sender (live (fun s =>
    let opId := op_id op in
    if negb (queued opId (gov s) =? 0) then None
    else
      let eta := now s + delay in
      if eta >? u256_max then None
      else Some (upd (set_queue (<[opId := eta]> (queuedAt (gov s))) (gov s)) [Queued opId op (now s)] s))).

Definition cancel (sender : Address) (op : Op) : Sys T -> option (Sys T) :=
  onlyGovernor sender (fun s =>
    let opId := op_id op in
    if queued opId (gov s) =? 0 then None
    else Some (upd (set_queue (delete opId (queuedAt (gov s))) (gov s)) [Cancelled opId] s)).

(** [execute] up to the call of the target. *)
Definition begin_execute (sender : Address) (op : Op) : Sys T -> option (Sys T) :=
  onlyGovernor sender (live (fun s =>
    let opId := op_id op in
    let eta := queued opId (gov s) in
    if eta =? 0 then None
    else if now s <? eta then None
    else Some (upd (set_queue (delete opId (queuedAt (gov s))) (gov s)) [Called opId op (now s)] s))).

Definition renounce (sender : Address) : Sys T -> option (Sys T) :=
  onlyGovernor sender (fun s =>
    Some (upd {| governor := governor (gov s); renounced := true; queuedAt := queuedAt (gov s) |} [Renounced] s)).

Definition token_call (sender : Address) (c : admin_call) (s : Sys T) : option (Sys T) :=
  t ← match c with
      | SetSigner a => setSigner sender a (tok s)
      | SetSubsidy v => setRedemptionGasSubsidy sender v (tok s)
      | TransferOwnership b => transferOwnership sender b (tok s)
      | RenounceOwnership => renounceOwnership sender (tok s)
      end;
  Some {| gov := gov s; tok := t; now := now s; log := log s ++ [TokenCalled c] |}.

(** What anyone may do with the token. *)
Definition token_public (s s' : Sys T) : Prop :=
  exists d t, public_tx recover d (tok s) t /\
    s' = {| gov := gov s; tok := t; now := now s; log := log s |}.

(** A call of [a] to the governance contract that does not revert; [callee] is the
    target's code, run by an operation that is executed (of the token's functions only
    [redeem] accepts the value sent along, the others revert unless it is zero); [foreign]
    is what anyone else's code, or a transaction, may do. *)
Inductive gov_call : Address -> Sys T -> Sys T -> Prop :=
| call_transferGovernor a to s s' : transferGovernor a to s = Some s' -> gov_call a s s'
| call_queue a op s s' : queue a op s = Some s' -> gov_call a s s'
| call_cancel a op s s' : cancel a op s = Some s' -> gov_call a s s'
| call_renounce a s s' : renounce a s = Some s' -> gov_call a s s'
| call_execute a op s s1 s2 :
    begin_execute a op s = Some s1 -> callee op s1 s2 ->
    gov_call a s (upd (gov s2) [Executed (op_id op) op] s2)
with callee : Op -> Sys T -> Sys T -> Prop :=
| callee_admin op c s s' :
    target op = token -> value op = 0 -> abi (data op) = Some c -> token_call this c s = Some s' -> callee op s s'
| callee_token op s s' : target op = token -> value op = 0 -> token_public s s' -> callee op s s'
| callee_redeem op amt x f id t s :
    target op = token -> 0 <= amt -> redeem this (value op) amt x f (tok s) = Some (id, t) ->
    callee op s {| gov := gov s; tok := t; now := now s; log := log s |}
| callee_self op s s' : target op = this -> gov_call this s s' -> callee op s s'
| callee_foreign op s s' : target op <> this -> target op <> token -> foreign s s' -> callee op s s'
with foreign : Sys T -> Sys T -> Prop :=
| foreign_done s : foreign s s
| foreign_gov a s s1 s2 : acts a -> gov_call a s s1 -> foreign s1 s2 -> foreign s s2
| foreign_admin a c s s1 s2 : acts a -> token_call a c s = Some s1 -> foreign s1 s2 -> foreign s s2
| foreign_token s s1 s2 : token_public s s1 -> foreign s1 s2 -> foreign s s2.

Scheme gov_call_mut := Minimality for gov_call Sort Prop
  with callee_mut := Minimality for callee Sort Prop
  with foreign_mut := Minimality for foreign Sort Prop.
Combined Scheme calls_ind from gov_call_mut, callee_mut, foreign_mut.

(** The chain goes on: transactions of anyone, or a later block. *)
Inductive chain : Sys T -> Sys T -> Prop :=
| chain_calls s s' : foreign s s' -> chain s s'
| chain_time t s : now s <= t -> chain s {| gov := gov s; tok := tok s; now := t; log := log s |}.

(** ** What the log says of an operation *)

(** When the operation may run, if it is queued. *)
Definition status_step (id : Z) (st : option Z) (e : event) : option Z :=
  match e with
  | Queued i _ t => if i =? id then Some (t + delay) else st
  | Cancelled i | Called i _ _ => if i =? id then None else st
  | _ => st
  end.
Definition status (id : Z) (l : list event) : option Z := foldl (status_step id) None l.

(** The events that end a queued operation. *)
Definition ends (id : Z) (e : event) : bool :=
  match e with Cancelled i | Called i _ _ => i =? id | _ => false end.

Lemma status_queued id l eta :
  status id l = Some eta ->
  exists l1 op t l2, l = l1 ++ Queued id op t :: l2 /\ eta = t + delay /\ forallb (fun e => negb (ends id e)) l2 = true.
Proof.
  revert eta. unfold status. induction l as [|e l IH] using rev_ind; intros eta; [done|].
  rewrite foldl_app. cbn [foldl]. intros Hs.
  assert (Hold : foldl (status_step id) None l = Some eta -> ends id e = false ->
    exists l1 op t l2, l ++ [e] = l1 ++ Queued id op t :: l2 /\ eta = t + delay /\ forallb (fun e => negb (ends id e)) l2 = true).
  { intros Hl He. destruct (IH eta Hl) as (l1 & op & t & l2 & -> & -> & H2). exists l1, op, t, (l2 ++ [e]).
    rewrite <- app_assoc. split; [done|]. split; [done|]. rewrite forallb_app, H2. simpl. by rewrite He. }
  destruct e as [? ?|i op t|i|i op t|? ?| |?]; simpl in Hs; try (by apply Hold).
  - destruct (Z.eqb_spec i id) as [->|]; [|by apply Hold]. simplify_eq. exists l, op, t, []. done.
  - destruct (Z.eqb_spec i id) as [->|Hi]; [done|]. apply Hold; [done|]. simpl. by apply Z.eqb_neq.
  - destruct (Z.eqb_spec i id) as [->|Hi]; [done|]. apply Hold; [done|]. simpl. by apply Z.eqb_neq.
Qed.

(** ** The invariant *)

(** A call of the governance has handed the token over to another owner. *)
Definition hands_over (e : event) : bool :=
  match e with
  | Called _ op _ =>
      (target op =? token) &&
      (match abi (data op) with Some (TransferOwnership _) | Some RenounceOwnership => true | _ => false end)
  | _ => false
  end.
Definition handed_over (l : list event) : Prop := exists e, e ∈ l /\ hands_over e = true.

Definition event_ok (pre : list event) (e : event) : Prop :=
  match e with
  | Queued id op _ => id = op_id op
  | Called id op t => id = op_id op /\ (Renounced ∉ pre) /\ exists eta, status id pre = Some eta /\ eta <= t
  | TokenCalled c =>
      handed_over pre \/
      exists pre' op t, pre = pre' ++ [Called (op_id op) op t] /\ target op = token /\ abi (data op) = Some c
  | _ => True
  end.

(** The signer the owner calls leave, from the one at the start. *)
Definition signer_step (a : Address) (e : event) : Address :=
  match e with TokenCalled (SetSigner b) => b | _ => a end.
Definition signer_of (a0 : Address) (l : list event) : Address := foldl signer_step a0 l.

Variable signer0 : Address.

Record Inv (s : Sys T) : Prop := {
  inv_status : forall id, queuedAt (gov s) !! id = status id (log s);
  inv_eta : forall id eta, queuedAt (gov s) !! id = Some eta -> 0 < eta;
  inv_now : 0 < now s;
  inv_live : renounced (gov s) = false -> Renounced ∉ log s;
  inv_log : history event_ok (log s);
  inv_owner : owner (tok s) = this \/ handed_over (log s);
  inv_signer : authorizedSigner (tok s) = signer_of signer0 (log s);
}.

Lemma handed_over_app l l' : handed_over l -> handed_over (l ++ l').
Proof. intros (e & He & Hh). exists e. split; [apply elem_of_app; by left|done]. Qed.

(** One event of the governance contract. *)
Lemma Inv_upd g e s :
  Inv s -> (forall id, queuedAt g !! id = status_step id (queuedAt (gov s) !! id) e) ->
  (forall id eta, queuedAt g !! id = Some eta -> 0 < eta) ->
  (renounced g = false -> renounced (gov s) = false /\ e <> Renounced) -> event_ok (log s) e ->
  (forall a, signer_step a e = a) -> Inv (upd g [e] s).
Proof.
  intros [Hst He Hn Hl Hh Ho Hs] Hq Hp Hr Hok Hc. split; simpl; [|done|done| |by apply history_snoc| |].
  - intros id. unfold status. rewrite foldl_app. cbn [foldl]. by rewrite Hq, Hst.
  - intros [Hg Hne]%Hr. rewrite not_elem_of_app, list_elem_of_singleton. split; [by apply Hl|]. congruence.
  - destruct Ho as [Ho|Ho]; [by left|]. right. by apply handed_over_app.
  - unfold signer_of. rewrite foldl_app. cbn [foldl]. by rewrite Hc.
Qed.

(** One owner call of the token. *)
Lemma Inv_token c t s :
  Inv s -> event_ok (log s) (TokenCalled c) -> owner t = this \/ handed_over (log s) ->
  authorizedSigner t = signer_step (authorizedSigner (tok s)) (TokenCalled c) ->
  Inv {| gov := gov s; tok := t; now := now s; log := log s ++ [TokenCalled c] |}.
Proof.
  intros [Hst He Hn Hl Hh Ho Hs] Hok Ht Hc. split; simpl; [|done|done| |by apply history_snoc| |].
  - intros id. unfold status. rewrite foldl_app. cbn [foldl]. by rewrite Hst.
  - intros Hg. rewrite not_elem_of_app, list_elem_of_singleton. split; [by apply Hl|done].
  - destruct Ht as [Ht|Ht]; [by left|]. right. by apply handed_over_app.
  - unfold signer_of. rewrite foldl_app. cbn [foldl]. by rewrite Hc, Hs.
Qed.

Lemma token_public_Inv s s' : token_public s s' -> Inv s -> Inv s'.
Proof.
  intros (d & t & Htx & ->) [Hst He Hn Hl Hh Ho Hs]. destruct (public_keeps _ _ _ _ Htx) as [Hown Hsig].
  split; simpl; rewrite ?Hown, ?Hsig; done.
Qed.

(** A successful owner call is by the owner, who stays unless the call says otherwise. *)
Lemma token_call_inv a c s s' :
  token_call a c s = Some s' ->
  a = owner (tok s) /\ exists t, s' = {| gov := gov s; tok := t; now := now s; log := log s ++ [TokenCalled c] |} /\
    authorizedSigner t = signer_step (authorizedSigner (tok s)) (TokenCalled c) /\
    (owner t = owner (tok s) \/ c = RenounceOwnership \/ exists b, c = TransferOwnership b).
Proof.
  unfold token_call, setSigner, setRedemptionGasSubsidy, transferOwnership, renounceOwnership, onlyOwner.
  destruct c as [x|v|b|]; simpl; intros Hc; [..|destruct (b =? 0); [done|]|];
    (destruct (Z.eqb_spec a (owner (tok s))) as [Ha|]; [|done]); simplify_eq/=; (split; [done|]); eexists; (split; [done|]); (split; [done|]); eauto.
Qed.

Hypothesis delay_nonneg : 0 <= delay.
Hypothesis this_code : ~ acts this.

Lemma guard_governor a f s s' : onlyGovernor a f s = Some s' -> a = governor (gov s) /\ f s = Some s'.
Proof. unfold onlyGovernor. destruct (Z.eqb_spec a (governor (gov s))); [done|done]. Qed.

Lemma guard_live f s s' : live f s = Some s' -> renounced (gov s) = false /\ f s = Some s'.
Proof. unfold live. by destruct (renounced (gov s)). Qed.

Lemma queued_some id s : Inv s -> queued id (gov s) <> 0 -> queuedAt (gov s) !! id = Some (queued id (gov s)).
Proof. intros Hi. unfold queued. by destruct (queuedAt (gov s) !! id). Qed.

Lemma queue_Inv a op s s' : queue a op s = Some s' -> Inv s -> Inv s'.
Proof.
  intros [_ [Hl Hq]%guard_live]%guard_governor Hi. cbv zeta in Hq. case_ifs_in Hq; try done. simplify_eq.
  pose proof (inv_now _ Hi). apply Inv_upd; simpl; [done| | |done|done|done].
  - intros id. destruct (Z.eqb_spec (op_id op) id) as [->|]; [by rewrite lookup_insert_eq|by rewrite lookup_insert_ne].
  - intros id eta. destruct (decide (op_id op = id)) as [->|]; [rewrite lookup_insert_eq; intros [= <-]; lia|].
    rewrite lookup_insert_ne by done. apply (inv_eta _ Hi).
Qed.

(** The end of an operation in the queue. *)
Lemma dequeue_Inv e op s :
  (forall id st, status_step id st e = if op_id op =? id then None else st) ->
  (e = Renounced -> False) -> (forall a, signer_step a e = a) -> event_ok (log s) e -> Inv s ->
  Inv (upd (set_queue (delete (op_id op) (queuedAt (gov s))) (gov s)) [e] s).
Proof.
  intros Hs He Hsig Hok Hi. apply Inv_upd; simpl; [done| | |by split; [|intros ->]|done|done].
  - intros id. rewrite Hs. destruct (Z.eqb_spec (op_id op) id) as [->|]; [by rewrite lookup_delete_eq|by rewrite lookup_delete_ne].
  - intros id eta [_ Hq]%lookup_delete_Some. by apply (inv_eta _ Hi id).
Qed.

Lemma begin_execute_Inv a op s s' :
  begin_execute a op s = Some s' -> Inv s -> Inv s' /\ exists l t, log s' = l ++ [Called (op_id op) op t].
Proof.
  intros [_ [Hl Hq]%guard_live]%guard_governor Hi. cbv zeta in Hq. case_ifs_in Hq; try done. simplify_eq. bools.
  split; [|by do 2 eexists]. apply dequeue_Inv; try done. simpl. split; [done|]. split; [by apply (inv_live _ Hi)|].
  exists (queued (op_id op) (gov s)). rewrite <- (inv_status _ Hi). split; [by apply queued_some|lia].
Qed.

Lemma calls_Inv :
  (forall a s s', gov_call a s s' -> Inv s -> Inv s') /\
  (forall op s s', callee op s s' -> (exists l t, log s = l ++ [Called (op_id op) op t]) -> Inv s -> Inv s') /\
  (forall s s', foreign s s' -> Inv s -> Inv s').
Proof.
  apply calls_ind.
  - intros a to s s' [_ [Hl Hq]%guard_live]%guard_governor Hi. case_ifs_in Hq; [done|]. simplify_eq.
    apply Inv_upd; simpl; try done. apply (inv_eta _ Hi).
  - intros a op s s' Hq. by apply (queue_Inv a op).
  - intros a op s s' [_ Hq]%guard_governor Hi. cbv zeta in Hq. case_ifs_in Hq; [done|]. simplify_eq. by apply dequeue_Inv.
  - intros a s s' [_ Hq]%guard_governor Hi. simplify_eq. apply Inv_upd; simpl; try done. apply (inv_eta _ Hi).
  - intros a op s s1 s2 Hb _ IH Hi. destruct (begin_execute_Inv _ _ _ _ Hb Hi) as [Hi1 Hlog].
    pose proof (IH Hlog Hi1) as Hi2. apply Inv_upd; simpl; try done. apply (inv_eta _ Hi2).
  - intros op c s s' Ht _ Ha (Ho & t & -> & Hsig & Hown)%token_call_inv (l & tm & Hlog) Hi. apply Inv_token; [done| | |done].
    + right. by exists l, op, tm.
    + destruct Hown as [->|Hc]; [by left|]. right. exists (Called (op_id op) op tm). rewrite Hlog. split; [set_solver|].
      simpl. rewrite Ht, Z.eqb_refl, Ha. destruct Hc as [->|[b ->]]; done.
  - intros op s s' _ _ Hp _ Hi. by eapply token_public_Inv.
  - intros op amt x f id t s _ Hamt Hr _ Hi. eapply token_public_Inv; [|exact Hi]. exists 0, t. split; [by eapply tx_redeem|done].
  - intros op s s' _ _ IH _ Hi. by apply IH.
  - intros op s s' _ _ _ IH _ Hi. by apply IH.
  - done.
  - intros a s s1 s2 _ _ IH _ IH2 Hi. by apply IH2, IH.
  - intros a c s s1 s2 Hne (Ho & t & -> & Hsig & _)%token_call_inv _ IH Hi. apply IH.
    destruct (inv_owner _ Hi) as [E|Hh]; [by rewrite Ho, E in Hne|]. apply Inv_token; [done|by left|by right|done].
  - intros s s1 s2 Hp _ IH Hi. apply IH. by eapply token_public_Inv.
Qed.

Lemma chain_Inv s s' : chain s s' -> Inv s -> Inv s'.
Proof.
  destruct calls_Inv as (_ & _ & Hc). intros [s1 s2 Hf|t s1 Ht] Hi; [by eapply Hc|]. destruct Hi. split; simpl; try done. lia.
Qed.

(** C14: the owner of the token acts only under the timelock.  On every chain of
    transactions, whatever the contracts that are called do in between, a call of the
    governance contract was queued by an operation with the same hash at least [delay]
    before, was not cancelled or made since, and was made before any renunciation; the
    token's owner functions run only as such a call that names them, unless an earlier
    such call gave the ownership away; and the signer of the vouchers is the one the last
    of them set. *)
Theorem owner_calls_timelocked s0 s governor0 :
  deploy governor0 delay = Some (gov s0) -> owner (tok s0) = this -> authorizedSigner (tok s0) = signer0 ->
  0 < now s0 -> log s0 = [] -> rtc chain s0 s ->
  (forall pre id op t post, log s = pre ++ Called id op t :: post ->
     exists l1 op0 t0 l2, pre = l1 ++ Queued id op0 t0 :: l2 /\ op_id op0 = op_id op /\ t0 + delay <= t /\
       forallb (fun e => negb (ends id e)) l2 = true /\ (Renounced ∉ pre)) /\
  (forall pre c post, log s = pre ++ TokenCalled c :: post ->
     handed_over pre \/
     exists pre' op t, pre = pre' ++ [Called (op_id op) op t] /\ target op = token /\ abi (data op) = Some c) /\
  authorizedSigner (tok s) = signer_of signer0 (log s).
Proof.
  intros Hg Ho Hsig Hn Hlog Hr. assert (H0 : Inv s0).
  { unfold deploy in Hg. case_ifs_in Hg; [done|]. injection Hg as Hg. split; rewrite <- ?Hg, ?Hlog; simpl; try done.
    - intros _. by apply not_elem_of_nil.
    - apply history_nil.
    - by left. }
  assert (Hi : Inv s) by (apply (rtc_invariant chain Inv) with (2 := Hr); [intros; by eapply chain_Inv|done]).
  split; [|split; [intros pre c post E; exact (inv_log _ Hi _ _ _ E)|apply Hi]].
  intros pre id op t post E. destruct (inv_log _ Hi _ _ _ E) as (-> & Hnr & eta & Hst & Hle).
  destruct (status_queued _ _ _ Hst) as (l1 & op0 & t0 & l2 & -> & -> & Hl2).
  exists l1, op0, t0, l2. rewrite <- app_assoc in E. pose proof (inv_log _ Hi _ _ _ E) as Hq. simpl in Hq. done.
Qed.


(** ** After a renunciation *)

Lemma gov_call_governor a s s' : gov_call a s s' -> a = governor (gov s).
Proof. intros [? ? ? ? H1|? ? ? ? H1|? ? ? ? H1|? ? ? H1|? ? ? ? ? H1 _]; by apply guard_governor in H1 as [H1 _]. Qed.

Lemma public_still s s' :
  token_public s s' ->
  gov s' = gov s /\ owner (tok s') = owner (tok s) /\ authorizedSigner (tok s') = authorizedSigner (tok s).
Proof. intros (d & t & Htx & ->). destruct (public_keeps _ _ _ _ Htx). done. Qed.

Lemma renounced_call a s s' :
  gov_call a s s' -> renounced (gov s) = true -> renounced (gov s') = true /\ tok s' = tok s.
Proof.
  intros [? ? s1 s2 H1|? ? s1 s2 H1|? ? s1 s2 H1|? s1 s2 H1|? ? s1 s2 s3 H1 _] Hr; apply guard_governor in H1 as [_ H1];
    try (apply guard_live in H1 as [H1 _]; congruence).
  - cbv zeta in H1. case_ifs_in H1; [done|]. by simplify_eq.
  - by simplify_eq.
Qed.

(** A token owned by a renounced governance contract keeps its owner and its signer. *)
Lemma renounced_frozen s s' :
  rtc chain s s' -> renounced (gov s) = true -> owner (tok s) = this ->
  renounced (gov s') = true /\ owner (tok s') = this /\ authorizedSigner (tok s') = authorizedSigner (tok s).
Proof.
  assert (Hf : forall s s', foreign s s' -> renounced (gov s) = true -> owner (tok s) = this ->
    renounced (gov s') = true /\ owner (tok s') = this /\ authorizedSigner (tok s') = authorizedSigner (tok s)).
  { induction 1 as [s1|a s1 s2 s3 Ha Hc _ IH|a c s1 s2 s3 Ha Hc _ _|s1 s2 s3 Hp _ IH]; intros Hr Ho; [done|..].
    - destruct (renounced_call _ _ _ Hc Hr) as [Hr' Et]. rewrite <- Et in Ho |- *. by apply IH.
    - apply token_call_inv in Hc as [-> _]. by rewrite Ho in Ha.
    - destruct (public_still _ _ Hp) as (E1 & E2 & E3). rewrite <- E1 in Hr. rewrite <- E2 in Ho. rewrite <- E3. by apply IH. }
  induction 1 as [|s1 s2 s3 [s4 s5 Hc|t s4 Ht] _ IH]; [done|..]; intros Hr Ho; simpl in IH; [|by apply IH].
  destruct (Hf _ _ Hc Hr Ho) as (H1 & H2 & H3). rewrite <- H3. by apply IH.
Qed.

End PoolGovernance.

(** ** Concrete inputs *)

Module Demo.

Definition op_id (op : Op) : Z := 1000 * target op + foldr Z.add 0 (data op).
Definition abi (d : list Z) : option admin_call :=
  match d with [0; a] => Some (SetSigner a) | [1; a] => Some (TransferOwnership a) | _ => None end.

(** The governance contract is at 50 and the token at 60; 7 governs. *)
Definition others (a : Address) : Prop := a <> 50.
Definition start : Sys Ledger20 :=
  {| gov := default {| governor := 0; renounced := true; queuedAt := ∅ |} (deploy 7 100);
     tok := genesis 50 9 2; now := 10; log := [] |}.
Definition rotate : Op := {| target := 60; value := 0; data := [0; 8] |}.

Definition after_queue : Sys Ledger20 := default start (queue 100 op_id 7 rotate start).
Definition after_delay : Sys Ledger20 :=
  {| gov := gov after_queue; tok := tok after_queue; now := 110; log := log after_queue |}.
Definition after_begin : Sys Ledger20 := default start (begin_execute op_id 7 rotate after_delay).
Definition after_call : Sys Ledger20 := default start (token_call 50 (SetSigner 8) after_begin).
Definition after_execute : Sys Ledger20 := upd (gov after_call) [Executed (op_id rotate) rotate] after_call.

Lemma run : rtc (chain trust 50 60 others 100 op_id abi) start after_execute.
Proof.
  apply rtc_l with after_queue; [|apply rtc_l with after_delay; [|apply rtc_once]].
  - apply chain_calls. eapply (foreign_gov _ _ _ _ _ _ _ 7); [done| |apply foreign_done].
    apply (call_queue _ _ _ _ _ _ _ 7 rotate). by vm_compute.
  - apply (chain_time _ _ _ _ _ _ _ 110). by vm_compute.
  - apply chain_calls. eapply (foreign_gov _ _ _ _ _ _ _ 7); [done| |apply foreign_done].
    apply (call_execute _ _ _ _ _ _ _ 7 rotate after_delay after_begin); [by vm_compute|].
    apply (callee_admin _ _ _ _ _ _ _ rotate (SetSigner 8)); by vm_compute.
Qed.

Lemma after_delay_Inv : Inv 50 60 100 op_id abi 9 after_delay.
Proof.
  assert (H0 : Inv 50 60 100 op_id abi 9 start).
  { split; try done; [..|by left]; [intros _; by apply not_elem_of_nil|apply history_nil]. }
  assert (H1 : Inv 50 60 100 op_id abi 9 after_queue) by (apply (queue_Inv 50 60 100 op_id abi 9 ltac:(lia) 7 rotate start); [by vm_compute|done]).
  apply (chain_Inv trust 50 60 others 100 op_id abi 9 ltac:(lia) ltac:(by intros []) after_queue); [|done]. by apply (chain_time _ _ _ _ _ _ _ 110).
Qed.

End Demo.

Lemma owner_calls_timelocked_witness :
  log Demo.after_execute = [Queued (Demo.op_id Demo.rotate) Demo.rotate 10; Called (Demo.op_id Demo.rotate) Demo.rotate 110;
                            TokenCalled (SetSigner 8); Executed (Demo.op_id Demo.rotate) Demo.rotate] /\
  authorizedSigner (tok Demo.after_execute) = signer_of 9 (log Demo.after_execute) /\
  exists l1 op0 t0 l2, [Queued (Demo.op_id Demo.rotate) Demo.rotate 10] = l1 ++ Queued (Demo.op_id Demo.rotate) op0 t0 :: l2 /\
    Demo.op_id op0 = Demo.op_id Demo.rotate /\ t0 + 100 <= 110.
Proof.
  split; [by vm_compute|].
  destruct (owner_calls_timelocked trust 50 60 Demo.others 100 Demo.op_id Demo.abi 9 ltac:(lia) ltac:(by intros []) Demo.start Demo.after_execute 7
    eq_refl eq_refl eq_refl eq_refl eq_refl Demo.run) as (Hc & _ & Hs). split; [exact Hs|].
  destruct (Hc [Queued (Demo.op_id Demo.rotate) Demo.rotate 10] (Demo.op_id Demo.rotate) Demo.rotate 110
    [TokenCalled (SetSigner 8); Executed (Demo.op_id Demo.rotate) Demo.rotate] ltac:(vm_compute; reflexivity))
    as (l1 & op0 & t0 & l2 & E & Eid & Hle & _). exists l1, op0, t0, l2. auto.
Defined.


End Governance.
