(* ===== verification/RoflAdmin.v ===== *)
(** contracts/src/RoflAdminGovernance.sol, the timelocked administrator of the enclave app.
    The hash of an update is a parameter, and so is the runtime, which answers the update
    with a status. *)
From S2P Require Import Prelude Contract.
Import Contract.

Module RoflAdmin.

Record Admin : Type := { governor : Address; pendingHash : Z; eta : Z }.

(** The history: the events of the contract, a proposal with the time of its block, which
    gives the eta, and an execution as the body the runtime accepted and when. *)
Inductive event : Type :=
| GovernorTransferred (from to : Address)
| Proposed (hash : Z) (body : list Z) (time : Z)
| Cancelled (hash : Z)
| Relayed (body : list Z) (time : Z).

Section RoflAdminGovernance.
Variable delay : Z.
Variable keccak256 : list Z -> Z.

Definition deploy (governor : Address) : option Admin :=
  if governor =? 0 then None else Some {| governor := governor; pendingHash := 0; eta := 0 |}.

Definition transferGovernor (sender to : Address) (a : Admin) : option (Admin * list event) :=
  if negb (sender =? governor a) then None
  else if to =? 0 then None
  else Some ({| governor := to; pendingHash := pendingHash a; eta := eta a |}, [GovernorTransferred (governor a) to]).

Definition propose (sender : Address) (updateBody : list Z) (now : Z) (a : Admin) : option (Admin * list event) :=
  if negb (sender =? governor a) then None
  else if (length updateBody =? 0)%nat then None
  else if now + delay >? u256_max then None
  else Some ({| governor := governor a; pendingHash := keccak256 updateBody; eta := now + delay |},
             [Proposed (keccak256 updateBody) updateBody now]).

Definition cancel (sender : Address) (a : Admin) : option (Admin * list event) :=
  if negb (sender =? governor a) then None
  else Some ({| governor := governor a; pendingHash := 0; eta := 0 |}, [Cancelled (pendingHash a)]).

(** [status]: what the runtime answers to the update. *)
Definition execute (sender : Address) (updateBody : list Z) (now status : Z) (a : Admin) : option (Admin * list event) :=
  if negb (sender =? governor a) then None
  else if negb (negb (eta a =? 0) && (eta a <=? now)) then None
  else if negb (keccak256 updateBody =? pendingHash a) then None
  else if negb (status =? 0) then None
  else Some ({| governor := governor a; pendingHash := 0; eta := 0 |}, [Relayed updateBody now]).

(** A transaction at time [now]; one that reverts changes nothing. *)
Inductive tx (now : Z) (a : Admin) : Admin * list event -> Prop :=
| tx_transfer s to r : transferGovernor s to a = Some r -> tx now a r
| tx_propose s b r : propose s b now a = Some r -> tx now a r
| tx_cancel s r : cancel s a = Some r -> tx now a r
| tx_execute s b status r : execute s b now status a = Some r -> tx now a r.

(** The contract, the time and the log. *)
Inductive step : Admin * Z * list event -> Admin * Z * list event -> Prop :=
| step_tx a now l a' evs : tx now a (a', evs) -> step (a, now, l) (a', now, l ++ evs)
| step_time a now now' l : now <= now' -> step (a, now, l) (a, now', l).

(** The proposal the log leaves pending: its hash and when it was made. *)
Definition pending_step (p : option (Z * Z)) (e : event) : option (Z * Z) :=
  match e with
  | Proposed h _ t => Some (h, t)
  | Cancelled _ | Relayed _ _ => None
  | GovernorTransferred _ _ => p
  end.
Definition pending (l : list event) : option (Z * Z) := foldl pending_step None l.

Definition replaces (e : event) : bool := match e with GovernorTransferred _ _ => false | _ => true end.

Lemma pending_proposed l h t :
  pending l = Some (h, t) ->
  exists l1 b l2, l = l1 ++ Proposed h b t :: l2 /\ forallb (fun e => negb (replaces e)) l2 = true.
Proof.
  unfold pending. induction l as [|e l IH] using rev_ind; [done|]. rewrite foldl_app. cbn [foldl].
  destruct e as [? ?|h' b t'|h'|b t']; simpl; intros Hp; simplify_eq.
  - destruct (IH Hp) as (l1 & b & l2 & -> & H2). exists l1, b, (l2 ++ [GovernorTransferred from to]).
    rewrite <- app_assoc. split; [done|]. by rewrite forallb_app, H2.
  - by exists l, b, [].
Qed.

Definition event_ok (pre : list event) (e : event) : Prop :=
  match e with
  | Proposed h b _ => h = keccak256 b
  | Relayed b t => exists t0, pending pre = Some (keccak256 b, t0) /\ t0 + delay <= t
  | _ => True
  end.

Record Inv (x : Admin * Z * list event) : Prop := {
  inv_pending : match pending x.2 with
                | Some (h, t) => pendingHash x.1.1 = h /\ eta x.1.1 = t + delay
                | None => eta x.1.1 = 0
                end;
  inv_log : history event_ok x.2;
}.

Lemma Inv_step x y : step x y -> Inv x -> Inv y.
Proof.
  intros [a now l a' evs Htx|a now now' l Ht] [Hp Hl]; [|by split].
  simpl in *. inversion Htx as [s to r Hx|s b r Hx|s r Hx|s b status r Hx]; subst;
    unfold transferGovernor, propose, cancel, execute in Hx; case_ifs_in Hx; try done; simplify_eq; split; simpl;
    unfold pending in *; rewrite ?foldl_app; cbn [foldl pending_step]; try done; (apply history_snoc; [done|]); try done.
  simpl. bools. unfold pending. destruct (foldl pending_step None l) as [[h t]|]; [|lia]. destruct Hp as [Hh Hp].
  exists t. split; [congruence|lia].
Qed.

(** C30: an update of the enclave app goes to the runtime only under the timelock: it
    has the hash of a body that was proposed at least [delay] before, and between the two
    no other update was proposed, cancelled or relayed. *)
Theorem update_timelocked x y governor0 :
  deploy governor0 = Some x.1.1 -> x.2 = [] -> rtc step x y ->
  forall pre b t post, y.2 = pre ++ Relayed b t :: post ->
  exists l1 b0 t0 l2, pre = l1 ++ Proposed (keccak256 b0) b0 t0 :: l2 /\ keccak256 b0 = keccak256 b /\
    t0 + delay <= t /\ forallb (fun e => negb (replaces e)) l2 = true.
Proof.
  intros Hd Hlog Hr. assert (Hx : Inv x).
  { unfold deploy in Hd. case_ifs_in Hd; [done|]. injection Hd as Hd. split; rewrite ?Hlog, <- ?Hd; simpl; try done.
    apply history_nil. }
  assert (Hy : Inv y) by (apply (rtc_invariant step Inv) with (2 := Hr); [intros; by eapply Inv_step|done]).
  intros pre b t post E. destruct (inv_log _ Hy _ _ _ E) as (t0 & Hp & Hle).
  destruct (pending_proposed _ _ _ Hp) as (l1 & b0 & l2 & -> & Hl2). rewrite <- app_assoc in E.
  pose proof (inv_log _ Hy _ _ _ E) as Hb. simpl in Hb. exists l1, b0, t0, l2. by rewrite <- Hb.
Qed.

End RoflAdminGovernance.

(** ** A run *)

Module Demo.

(** The enclave's update: proposed at 10, relayed at 60. *)
Definition body : list Z := [1; 2; 3].
Definition hash (b : list Z) : Z := foldr Z.add 0 b.
Definition admin0 : Admin := default (Build_Admin 0 0 0) (deploy 7).
Definition proposed : Admin * list event := default (admin0, []) (propose 50 hash 7 body 10 admin0).
Definition relayed : Admin * list event := default (admin0, []) (execute hash 7 body 60 0 proposed.1).

Lemma admin_run : rtc (step 50 hash) (admin0, 10, []) (relayed.1, 60, proposed.2 ++ relayed.2).
Proof.
  apply rtc_l with (proposed.1, 10, [] ++ proposed.2).
  { apply step_tx. apply (tx_propose _ _ _ _ 7 body). by vm_compute. }
  apply rtc_l with (proposed.1, 60, [] ++ proposed.2); [by apply step_time|]. apply rtc_once.
  apply step_tx. apply (tx_execute _ _ _ _ 7 body 0). by vm_compute.
Qed.

End Demo.

Lemma update_timelocked_witness :
  exists l1 b0 t0 l2, Demo.proposed.2 = l1 ++ Proposed (Demo.hash b0) b0 t0 :: l2 /\
    Demo.hash b0 = Demo.hash Demo.body /\ t0 + 50 <= 60.
Proof.
  destruct (update_timelocked 50 Demo.hash (Demo.admin0, 10, []) _ 7 eq_refl eq_refl Demo.admin_run
    Demo.proposed.2 Demo.body 60 [] ltac:(vm_compute; reflexivity)) as (l1 & b0 & t0 & l2 & E & Eh & Hle & _).
  exists l1, b0, t0, l2. auto.
Defined.

End RoflAdmin.
