(* ===== verification/Finalize.v ===== *)
(** The deploy step that turns a running pool permissionless:
    mining-pool/src/bin/finalize.rs, over the contracts it calls.

    The tool is a task whose transactions interleave with everyone else's.  The parsers of
    addresses and URLs, the file of the compiled contract and what the network does with a
    transaction or a read are parameters. *)
From S2P Require Import Prelude Text Hex Json Tasks Rofl Periphery Contract Governance.
Import Contract.
Import Governance.

Module Finalize.

Record Cfg : Type := {
  rpc_url : string;
  cfg_token : string;
  kms_signer : string;
  fee_swapper : string;
  governance : string;
  cfg_governor : string;
  delay_secs : Z;
  cfg_renounce : bool;
  governance_artifact : string;
}.

Definition default_gov_artifact : string := "contracts/out/PoolGovernance.sol/PoolGovernance.json".

(** The chain: whether the governance contract is there, the contracts, and the fee
    seller. *)
Record Net (T : Type) : Type := { born : bool; sys : Sys T; swapper : Periphery.FeeSwapper }.
Arguments born {T} _.
Arguments sys {T} _.
Arguments swapper {T} _.

(** A transaction of the tool. *)
Inductive call : Type :=
| Create (code : list Z)
| CallSetSigner (to signer : Address)
| CallTransferOwnership (to newOwner : Address)
| CallRenounce (to : Address).

(** What becomes of it: it may not be sent, or run without the tool learning of it. *)
Inductive fate : Type := Unsent | Unconfirmed | Included.

(** What the tool prints at the end. *)
Record Report : Type := { rep_gov : Address; rep_owner : Address; rep_renounced : option bool }.

Section Finalize.
Context {T Sig : Type} `{Erc20 T}.
Variable recover : Address -> Z -> Z -> Sig -> option Address.
(** The deployer's account, the address its next contract gets, the token and the fee
    seller; [acts]: everyone else. *)
Variables deployer this token swapper_addr : Address.
Variable acts : Address -> Prop.
(** The delay of the governance contract at [this]. *)
Variable delay : Z.
Variable op_id : Op -> Z.
Variable abi : list Z -> option admin_call.
(** [Address::from_str], the URL parser, the file of the compiled contract as JSON, and
    the code of PoolGovernance. *)
Variable parse_address : string -> option Address.
Variable parse_url : string -> bool.
Variable read_artifact : string -> option Json.Value.
Variable gov_code : list Z.
(** What the network does; contracts that are not the pool's. *)
Variable fate_of : call -> Net T -> fate.
Variable reads : Net T -> bool.
Variable other_owner : Address -> anyhow Address.
Variable other_created : list Z -> Address.

Implicit Types n : Net T.

Definition with_sys (s : Sys T) n : Net T := {| born := born n; sys := s; swapper := swapper n |}.
Definition with_swapper (c : Periphery.FeeSwapper) n : Net T := {| born := born n; sys := sys n; swapper := c |}.

(** [(governor, U256::from(delay_secs)).abi_encode()] *)
Definition constructor_args (governor delay_ : Z) : list Z := to_be_bytes 32 governor ++ to_be_bytes 32 delay_.

(** The deployer's transaction as the chain runs it: the address of a created contract and
    the new state, or a revert. *)
Definition exec (tx : call) n : option (option Address * Net T) :=
  match tx with
  | Create code =>
      let k := length gov_code in
      let args := drop k code in
      if bool_decide (take k code = gov_code) && (length args =? 64)%nat
         && (from_le_bytes (reverse (drop 32 args)) =? delay) then
        g ← deploy (from_le_bytes (reverse (take 32 args))) delay;
        Some (Some this, {| born := true; swapper := swapper n;
          sys := {| gov := g; tok := tok (sys n); now := now (sys n); log := log (sys n) |} |})
      else Some (Some (other_created code), n)
  | CallSetSigner to signer =>
      if to =? token then s ← token_call deployer (SetSigner signer) (sys n); Some (None, with_sys s n)
      else if (to =? this) && born n then None else if to =? swapper_addr then None else Some (None, n)
  | CallTransferOwnership to newOwner =>
      if to =? token then s ← token_call deployer (TransferOwnership newOwner) (sys n); Some (None, with_sys s n)
      else if (to =? this) && born n then None
      else if to =? swapper_addr then
        c ← Periphery.fs_transferOwnership deployer newOwner (swapper n); Some (None, with_swapper c n)
      else Some (None, n)
  | CallRenounce to =>
      if to =? token then None
      else if (to =? this) && born n then s ← renounce deployer (sys n); Some (None, with_sys s n)
      else if to =? swapper_addr then None else Some (None, n)
  end.

Definition send (tx : call) n : anyhow (option Address) * Net T :=
  match fate_of tx n with
  | Unsent => (Err "send tx", n)
  | Unconfirmed => (Err "tx receipt", match exec tx n with Some (_, n') => n' | None => n end)
  | Included => match exec tx n with Some (a, n') => (Ok a, n') | None => (Err "tx reverted", n) end
  end.

Definition owner_of (to : Address) n : anyhow Address * Net T :=
  ((if negb (reads n) then Err "eth_call owner()"
    else if to =? token then Ok (owner (tok (sys n))) else other_owner to), n).

Definition renounced_of (to : Address) n : anyhow bool * Net T :=
  ((if negb (reads n) then Err "eth_call renounced()"
    else if (to =? this) && born n then Ok (renounced (gov (sys n))) else Err "decode renounced()"), n).

Definition parse_opt (s : string) : anyhow (option Address) :=
  let s := Text.trim s in
  if String.eqb s "" then Ok None
  else match parse_address s with
       | None => Err "address"
       | Some a => Ok (if a =? 0 then None else Some a)
       end.

(** The code to deploy: the artifact's, followed by the constructor's arguments. *)
Definition deploy_code (cfg : Cfg) (governor : Address) : anyhow (list Z) :=
  match read_artifact (governance_artifact cfg) with
  | None => Err "read governance artifact"
  | Some art =>
      match (Json.get "bytecode" art ≫= Json.get "object") ≫= Json.as_str with
      | None => Err "artifact missing bytecode.object"
      | Some bc =>
          match Text.hex_decode (Text.trim_0x bc) with
          | None => Err "hex"
          | Some code => Ok (code ++ constructor_args governor (delay_secs cfg))
          end
      end
  end.

Definition governance_step (cfg : Cfg) : task (Net T) (anyhow Address) :=
  match parse_opt (governance cfg) with
  | Err e => Done (Err e)
  | Ok (Some g) => Done (Ok g)
  | Ok None =>
      match parse_address (Text.trim (cfg_governor cfg)) with
      | None => Done (Err "governor required to deploy governance")
      | Some governor =>
          match deploy_code cfg governor with
          | Err e => Done (Err e)
          | Ok code =>
              rcpt <~? atom (send (Create code)) ;;
              Done (match rcpt with Some g => Ok g | None => Err "no contract_address in deploy receipt" end)
          end
      end
  end.

(** The end state, read back. *)
Definition verify (cfg : Cfg) (tok_addr gov_addr : Address) : task (Net T) (anyhow Report) :=
  new_owner <~? atom (owner_of tok_addr) ;;
  if cfg_renounce cfg then
    r <~? atom (renounced_of gov_addr) ;;
    Done (Ok {| rep_gov := gov_addr; rep_owner := new_owner; rep_renounced := Some r |})
  else Done (Ok {| rep_gov := gov_addr; rep_owner := new_owner; rep_renounced := None |}).

(** The optional steps: the fee seller, and the renunciation. *)
Definition hand_swapper (fs : option Address) (gov_addr : Address) : task (Net T) (anyhow unit) :=
  match fs with
  | Some a => _ <~? atom (send (CallTransferOwnership a gov_addr)) ;; Done (Ok tt)
  | None => Done (Ok tt)
  end.

Definition renounce_step (cfg : Cfg) (gov_addr : Address) : task (Net T) (anyhow unit) :=
  if cfg_renounce cfg then _ <~? atom (send (CallRenounce gov_addr)) ;; Done (Ok tt) else Done (Ok tt).

Definition finalize (cfg : Cfg) : task (Net T) (anyhow Report) :=
  if negb (parse_url (rpc_url cfg)) then Done (Err "rpc_url")
  else match parse_address (Text.trim (cfg_token cfg)), parse_address (Text.trim (kms_signer cfg)), parse_opt (fee_swapper cfg) with
  | Some tok_addr, Some kms, Ok fs =>
      owner_ <~? atom (owner_of tok_addr) ;;
      if negb (owner_ =? deployer) then Done (Err "not the token owner; cannot finalize")
      else
        gov_addr <~? governance_step cfg ;;
        _ <~? atom (send (CallSetSigner tok_addr kms)) ;;
        _ <~? atom (send (CallTransferOwnership tok_addr gov_addr)) ;;
        _ <~? hand_swapper fs gov_addr ;;
        _ <~? renounce_step cfg gov_addr ;;
        verify cfg tok_addr gov_addr
  | _, _, _ => Done (Err "address")
  end.

(** The owner's calls of the fee seller. *)
Inductive swapper_call (a : Address) (c : Periphery.FeeSwapper) : Periphery.FeeSwapper -> Prop :=
| sc_transfer b c' : Periphery.fs_transferOwnership a b c = Some c' -> swapper_call a c c'
| sc_reservoir b c' evs : Periphery.setReservoir a b c = Some (c', evs) -> swapper_call a c c'
| sc_renounce c' : Periphery.fs_renounceOwnership a c = Some c' -> swapper_call a c c'.

(** Everyone else, between the tool's transactions.  The governance contract calls the fee
    seller only by an operation that it runs. *)
Inductive others : Net T -> Net T -> Prop :=
| others_chain n s : born n = true -> chain recover this token acts delay op_id abi (sys n) s -> others n (with_sys s n)
| others_governed n s c l id op t : born n = true -> chain recover this token acts delay op_id abi (sys n) s ->
    log s = log (sys n) ++ l -> Called id op t ∈ l -> target op = swapper_addr ->
    rtc (swapper_call this) (swapper n) c -> others n (with_swapper c (with_sys s n))
| others_token n s : born n = false -> token_public recover (sys n) s -> others n (with_sys s n)
| others_admin n a c s : born n = false -> acts a -> token_call a c (sys n) = Some s -> others n (with_sys s n)
| others_time n t : born n = false -> now (sys n) <= t ->
    others n (with_sys {| gov := gov (sys n); tok := tok (sys n); now := t; log := log (sys n) |} n)
| others_swapper n a c : acts a -> swapper_call a (swapper n) c -> others n (with_swapper c n).

(** ** What the others leave alone *)

Hypothesis deployer_quiet : ~ acts deployer.
Hypothesis this_code : ~ acts this.

(** The governance contract called neither the token nor the fee seller. *)
Definition untouched (l : list event) : Prop :=
  forall id op t, Called id op t ∈ l -> target op <> token /\ target op <> swapper_addr.

Lemma untouched_app l l' : untouched (l ++ l') <-> untouched l /\ untouched l'.
Proof. unfold untouched. setoid_rewrite elem_of_app. naive_solver. Qed.

Lemma untouched_one e : (forall id op t, e <> Called id op t) -> untouched [e].
Proof. intros He id op t E%list_elem_of_singleton. by destruct (He id op t). Qed.

(** From [s] to [s'] the log grows by [l], a renunciation stays, and an owner [o] of the
    token that does not act keeps it and its signer unless the governance calls it. *)
Definition leaves (o : Address) (l : list event) (s s' : Sys T) : Prop :=
  log s' = log s ++ l /\ (renounced (gov s) = true -> renounced (gov s') = true) /\
  (untouched l -> owner (tok s) = o -> owner (tok s') = o /\ authorizedSigner (tok s') = authorizedSigner (tok s)).

Lemma leaves_trans o l l' s1 s2 s3 : leaves o l s1 s2 -> leaves o l' s2 s3 -> leaves o (l ++ l') s1 s3.
Proof.
  intros (E1 & R1 & O1) (E2 & R2 & O2). split_and!; [by rewrite E2, E1, app_assoc|auto|].
  intros [U1 U2]%untouched_app Ho. destruct (O1 U1 Ho) as [Ho2 <-]. by apply O2.
Qed.

Lemma public_leaves o s s' : token_public recover s s' -> leaves o [] s s'.
Proof.
  intros Hp. destruct (public_still _ _ _ Hp) as (E1 & E2 & E3). destruct Hp as (d & t & _ & ->). simpl in *.
  unfold leaves. simpl. rewrite app_nil_r, E2, E3. by split_and!.
Qed.

Lemma upd_leaves o g e s : (renounced (gov s) = true -> renounced g = true) -> leaves o [e] s (upd g [e] s).
Proof. intros Hg. by split_and!. Qed.

Lemma calls_leave o : ~ acts o ->
  (forall a s s', gov_call recover this token acts delay op_id abi a s s' -> exists l, leaves o l s s') /\
  (forall op s s', callee recover this token acts delay op_id abi op s s' ->
     exists l, log s' = log s ++ l /\ (renounced (gov s) = true -> renounced (gov s') = true) /\
       (target op <> token -> leaves o l s s')) /\
  (forall s s', foreign recover this token acts delay op_id abi s s' -> exists l, leaves o l s s').
Proof.
  intros Ho. apply calls_ind.
  - intros a to s s' [_ [Hl Hq]%guard_live]%guard_governor. case_ifs_in Hq; [done|]. simplify_eq. eexists. by apply upd_leaves.
  - intros a op s s' [_ [Hl Hq]%guard_live]%guard_governor. cbv zeta in Hq. case_ifs_in Hq; try done. simplify_eq. eexists. by apply upd_leaves.
  - intros a op s s' [_ Hq]%guard_governor. cbv zeta in Hq. case_ifs_in Hq; [done|]. simplify_eq. eexists. by apply upd_leaves.
  - intros a s s' [_ Hq]%guard_governor. simplify_eq. eexists. by apply upd_leaves.
  - intros a op s s1 s2 [_ [Hl Hq]%guard_live]%guard_governor _ (l & El & Hr & Hc). cbv zeta in Hq. case_ifs_in Hq; try done. simplify_eq.
    exists ([Called (op_id op) op (now s)] ++ l ++ [Executed (op_id op) op]). split_and!.
    + simpl. rewrite El. simpl. by rewrite <- !app_assoc.
    + simpl. congruence.
    + intros [U1 [U2 _]%untouched_app]%untouched_app Hown. destruct (U1 _ _ _ (list_elem_of_here _ _)) as [Htgt _].
      destruct (Hc Htgt) as (_ & _ & Hk). by apply Hk.
  - intros op c s s' Ht _ _ (_ & t & -> & _)%token_call_inv. by exists [TokenCalled c].
  - intros op s s' Ht _ Hp. destruct (public_leaves o _ _ Hp) as (E & R & _). exists []. by split_and!.
  - intros op amt x f id t s Ht _ _. exists []. simpl. rewrite app_nil_r. by split_and!.
  - intros op s s' _ _ (l & Hl). exists l. pose proof Hl as (? & ? & _). by split_and!.
  - intros op s s' _ _ _ (l & Hl). exists l. pose proof Hl as (? & ? & _). by split_and!.
  - intros s. exists []. unfold leaves. rewrite app_nil_r. by split_and!.
  - intros a s s1 s2 _ _ (l1 & H1) _ (l2 & H2). eexists. by eapply leaves_trans.
  - intros a c s s1 s2 Ha (Hown & t & -> & _)%token_call_inv _ (l2 & H2). exists ([TokenCalled c] ++ l2).
    eapply leaves_trans; [|exact H2]. split_and!; [done..|]. intros _ E. congruence.
  - intros s s1 s2 Hp _ (l2 & H2). eexists. eapply leaves_trans; [by apply public_leaves|done].
Qed.

(** A governance contract that only the deployer governs is not called by anyone else. *)
Lemma deployer_governs s s' :
  foreign recover this token acts delay op_id abi s s' -> governor (gov s) = deployer ->
  gov s' = gov s /\ forall l, log s' = log s ++ l -> untouched l.
Proof.
  intros Hf Hg. assert (exists l, gov s' = gov s /\ log s' = log s ++ l /\ untouched l) as (l & Eg & El & Hu).
  2:{ split; [done|]. intros l' E. rewrite El in E. apply app_inv_head in E. by subst. }
  induction Hf as [s|a s s1 s2 Ha Hc _ _|a c s s1 s2 Ha Hc _ IH|s s1 s2 Hp _ IH].
  - exists []. rewrite app_nil_r. split_and!; [done..|]. by intros ? ? ? ?%elem_of_nil.
  - apply gov_call_governor in Hc. congruence.
  - apply token_call_inv in Hc as (_ & t & -> & _). destruct (IH Hg) as (l & Eg & El & Hu). simpl in *.
    exists ([TokenCalled c] ++ l). rewrite El, <- app_assoc. split_and!; [done..|]. apply untouched_app. split; [by apply untouched_one|done].
  - destruct Hp as (d & t & _ & ->). destruct (IH Hg) as (l & Eg & El & Hu). by exists l.
Qed.

(** ** What the tool has reached *)

(** Whether the contract is there, the owner and the signer of the token if they are known, whether the fee
    seller was handed over and the governance renounced. *)
Record Stage : Type := { there : bool; holder : option Address; signs : option Address; sold : bool; renounced_ : bool }.

Definition owned (g : Stage) n : Prop :=
  (forall o, holder g = Some o -> owner (tok (sys n)) = o) /\ (forall k, signs g = Some k -> authorizedSigner (tok (sys n)) = k) /\
  (sold g = true -> Periphery.fs_owner (swapper n) = this).

(** The deployer governs ([dg]), or someone else does. *)
Definition At (l0 : list event) (dg : bool) (g : Stage) n : Prop := exists l,
  log (sys n) = l0 ++ l /\ born n = there g /\ (untouched l -> owned g n) /\
  (renounced_ g = true -> renounced (gov (sys n)) = true) /\
  (dg = true -> untouched l /\ (born n = true -> governor (gov (sys n)) = deployer)).

(** A step of the others, or of the tool, that keeps the stage or reaches the next. *)
Lemma At_step l0 dg g g' n n' l :
  At l0 dg g n -> log (sys n') = log (sys n) ++ l -> born n' = there g' ->
  (untouched l -> owned g n -> owned g' n') -> (renounced_ g' = true -> renounced_ g = true /\ (renounced (gov (sys n)) = true -> renounced (gov (sys n')) = true) \/ renounced (gov (sys n')) = true) ->
  (dg = true -> (born n = true -> governor (gov (sys n)) = deployer) -> untouched l /\ (born n' = true -> governor (gov (sys n')) = deployer)) ->
  At l0 dg g' n'.
Proof.
  intros (l1 & E & Hb & Ho & Hr & Hd) El Hb' Ho' Hr' Hd'. exists (l1 ++ l). split_and!; [by rewrite El, E, app_assoc|done|..].
  - intros [U1 U2]%untouched_app. auto.
  - intros Hg. destruct (Hr' Hg) as [[Hg1 Hk]|?]; auto.
  - intros Hdg. destruct (Hd Hdg) as [U1 Hgov]. destruct (Hd' Hdg Hgov) as [U2 ?]. split; [by apply untouched_app|done].
Qed.

Lemma swapper_call_owner a o c c' : swapper_call a c c' -> Periphery.fs_owner c = o -> a <> o -> Periphery.fs_owner c' = o.
Proof.
  intros [b c1 Hc|b c1 evs Hc|c1 Hc] E Ha;
    unfold Periphery.fs_transferOwnership, Periphery.setReservoir, Periphery.fs_renounceOwnership in Hc; case_ifs_in Hc; try done; bools; congruence.
Qed.

Lemma owned_sys g n s c :
  owned g n ->
  (forall o, holder g = Some o -> owner (tok s) = owner (tok (sys n)) /\ authorizedSigner (tok s) = authorizedSigner (tok (sys n))) ->
  (holder g = None -> signs g = None) ->
  (sold g = true -> Periphery.fs_owner (swapper n) = this -> Periphery.fs_owner c = this) -> owned g {| born := born n; sys := s; swapper := c |}.
Proof.
  intros (Ho & Hk & Hs) E Hn Hc. unfold owned. simpl. split_and!; [..|auto].
  - intros o Eo. destruct (E o Eo) as [-> _]. auto.
  - intros k Ek. destruct (holder g) as [o|]; [destruct (E o eq_refl) as [_ ->]; auto|]. by rewrite Hn in Ek.
Qed.

Lemma chain_leaves o s s' :
  ~ acts o -> chain recover this token acts delay op_id abi s s' ->
  exists l, leaves o l s s' /\ (governor (gov s) = deployer -> gov s' = gov s /\ untouched l).
Proof.
  intros Ho [s1 s2 Hf|t s1 Ht].
  - destruct (calls_leave o Ho) as (_ & _ & Hl). destruct (Hl _ _ Hf) as (l & Hlv). exists l. split; [done|].
    intros Hg. destruct (deployer_governs _ _ Hf Hg) as [? Hu]. split; [done|]. apply Hu, Hlv.
  - exists []. unfold leaves. simpl. rewrite app_nil_r. split; [by split_and!|]. split; [done|]. by intros ? ? ? ?%elem_of_nil.
Qed.

(** An owner that is known does not act. *)
Definition settled (g : Stage) : Prop := match holder g with Some o => ~ acts o | None => signs g = None end.

Lemma At_leaves l0 dg g n s l :
  settled g -> At l0 dg g n -> (forall o, holder g = Some o -> leaves o l (sys n) s) ->
  log s = log (sys n) ++ l -> (renounced (gov (sys n)) = true -> renounced (gov s) = true) ->
  (born n = true -> governor (gov (sys n)) = deployer -> gov s = gov (sys n)) ->
  (dg = true -> (born n = true -> governor (gov (sys n)) = deployer) -> untouched l) -> At l0 dg g (with_sys s n).
Proof.
  unfold settled. intros Hs Hat Hl El Hr Hg Hu. pose proof Hat as (_ & _ & Hb & _).
  eapply (At_step _ _ g g n); [done|exact El|done| |by left|].
  - intros U Hown. apply (owned_sys g n); [done| |by intros E; rewrite E in Hs|done].
    intros o Eo. destruct (Hl o Eo) as (_ & _ & Hk). destruct Hown as (Ho & _). destruct (Hk U (Ho o Eo)). split; [|done]. by rewrite (Ho o Eo).
  - intros Hd Hgov. split; [by apply Hu|]. simpl. intros E. rewrite Hg; auto.
Qed.

Lemma At_stable l0 dg g : settled g -> stable others (At l0 dg g).
Proof.
  intros Ha n n' Hn Hat. pose proof Hat as (l1 & _ & Hb & _). unfold settled in Ha.
  assert (Hnil : untouched []) by (by intros ? ? ? ?%elem_of_nil).
  destruct Hn as [n s Hb' Hc|n s c l id op t Hb' Hc El Hin Htgt Hsw|n s Hb' Hp|n a c s Hb' Hact Hc|n t Hb' Ht|n a c Hact Hc].
  - destruct (chain_leaves this _ _ this_code Hc) as (l & (El & Hr & _) & Hd). apply (At_leaves _ _ _ _ _ l); try done.
    + intros o Eo. rewrite Eo in Ha. destruct (chain_leaves o _ _ Ha Hc) as (l' & Hl' & _). pose proof Hl' as (El' & _).
      rewrite El in El'. apply app_inv_head in El' as <-. done.
    + intros _ Hgov. by apply Hd.
    + intros _ Hgov. by apply Hd, Hgov.
  - destruct (chain_leaves this _ _ this_code Hc) as (l2 & (El2 & Hr & _) & Hd). rewrite El in El2. apply app_inv_head in El2 as <-.
    eapply (At_step _ _ g g n); [done|exact El|done| |by left|].
    + intros Hu. by destruct (Hu _ _ _ Hin).
    + intros _ Hgov. specialize (Hgov Hb'). destruct (Hd Hgov) as [_ Hu]. by destruct (Hu _ _ _ Hin).
  - destruct (public_leaves this _ _ Hp) as (El & Hr & _). apply (At_leaves _ _ _ _ _ []); try done; [intros; by apply public_leaves|congruence].
  - apply token_call_inv in Hc as (Ea & t & -> & _). apply (At_leaves _ _ _ _ _ [TokenCalled c]); try done; [|by intros; apply untouched_one].
    intros o Eo. rewrite Eo in Ha. split_and!; [done..|]. intros _ E. simpl in *. congruence.
  - apply (At_leaves _ _ _ _ _ []); try done; [intros o _; unfold leaves|]; simpl; by rewrite app_nil_r.
  - eapply (At_step _ _ g g n _ []); [done|simpl; by rewrite app_nil_r|done| |by left|by intros].
    intros _ Hown. apply (owned_sys g n); [done|done|by intros E; rewrite E in Ha|].
    intros _ E. eapply swapper_call_owner; [done|done|congruence].
Qed.

(** ** The tool *)

Hypothesis addresses : token <> this /\ swapper_addr <> token /\ swapper_addr <> this /\ deployer <> this.
Hypothesis delay_range : 0 <= delay < 2 ^ 256.

(** Where the governance comes from: a contract to be created for the governor [m], from
    the compiled PoolGovernance and the configured delay, or one that is there, governed by
    [m]. *)
Definition governed (cfg : Cfg) (m : Address) n : Prop :=
  match parse_opt (governance cfg) with
  | Ok None =>
      born n = false /\ parse_address (Text.trim (cfg_governor cfg)) = Some m /\ 0 <= m < 2 ^ 160 /\
      deploy_code cfg m = Ok (gov_code ++ constructor_args m delay)
  | Ok (Some a) => a = this /\ born n = true /\ governor (gov (sys n)) = m
  | Err _ => False
  end.

Lemma create_args governor_ :
  0 <= governor_ < 2 ^ 256 ->
  let args := drop (length gov_code) (gov_code ++ constructor_args governor_ delay) in
  take (length gov_code) (gov_code ++ constructor_args governor_ delay) = gov_code /\ length args = 64%nat /\
  from_le_bytes (reverse (take 32 args)) = governor_ /\ from_le_bytes (reverse (drop 32 args)) = delay.
Proof.
  intros Hg. rewrite take_app_length, drop_app_length. unfold constructor_args. cbv zeta.
  rewrite length_app, !to_be_bytes_length, take_app_length', drop_app_length' by (by rewrite to_be_bytes_length).
  unfold to_be_bytes. by rewrite !reverse_involutive, !from_to_le_bytes.
Qed.

Lemma send_ok tx n a n' : send tx n = (Ok a, n') -> exec tx n = Some (a, n').
Proof. unfold send. destruct (fate_of tx n), (exec tx n) as [[? ?]|]; intros E; by simplify_eq. Qed.

(** The stages: the token with the deployer, with the enclave's signer, with the
    governance, the fee seller with it too, the end. *)
Definition before (b : bool) : Stage := {| there := b; holder := Some deployer; signs := None; sold := false; renounced_ := false |}.
Definition with_signer (k : Address) : Stage := {| there := true; holder := Some deployer; signs := Some k; sold := false; renounced_ := false |}.
Definition given (k : Address) (fs rn : bool) : Stage := {| there := true; holder := Some this; signs := Some k; sold := fs; renounced_ := rn |}.

Definition sells (fs : option Address) : bool := bool_decide (fs = Some swapper_addr).

Section Run.
Variables (l0 : list event) (dg : bool).
Abbreviation at_ := (At l0 dg).

(** Each transaction of the tool, when it succeeds. *)
Lemma exec_set_signer kms n a n' :
  at_ (before true) n -> exec (CallSetSigner token kms) n = Some (a, n') -> at_ (with_signer kms) n'.
Proof.
  intros Hn. pose proof Hn as (_ & _ & Hb & _). simpl. rewrite Z.eqb_refl. destruct (token_call _ _ _) as [s|] eqn:Ec; simpl; [|done].
  intros [= <- <-]. apply token_call_inv in Ec as (_ & t & -> & Hs & [Ho|[|[? ?]]]); [|done..].
  eapply (At_step _ _ _ _ n _ [TokenCalled (SetSigner kms)]); [exact Hn|done|done| |done|].
  - intros _ (Eo & _). unfold owned. simpl in *. split_and!; [intros o [= <-]; rewrite Ho; auto|intros k [= <-]; done|done].
  - intros _ Hgov. split; [by apply untouched_one|done].
Qed.

Lemma exec_hand_over kms n a n' :
  at_ (with_signer kms) n -> exec (CallTransferOwnership token this) n = Some (a, n') -> at_ (given kms false false) n'.
Proof.
  intros Hn. pose proof Hn as (_ & _ & Hb & _). simpl. rewrite Z.eqb_refl. unfold token_call, transferOwnership, onlyOwner. simpl.
  case_ifs; simpl; try done. intros [= <- <-].
  eapply (At_step _ _ _ _ n _ [TokenCalled (TransferOwnership this)]); [exact Hn|done|done| |done|].
  - intros _ (Eo & Ek & _). unfold owned. simpl in *. by split_and!; [intros o [= <-]|..].
  - intros _ Hgov. split; [by apply untouched_one|done].
Qed.

Lemma exec_swapper kms fs n a n' :
  at_ (given kms false false) n -> exec (CallTransferOwnership fs this) n = Some (a, n') ->
  at_ (given kms (sells (Some fs)) false) n'.
Proof.
  destruct addresses as (H1 & H2 & H3 & H4). intros Hn. pose proof Hn as (_ & _ & Hb & _). simpl in Hb. simpl. rewrite Hb.
  assert (Hn1 : forall n2, log (sys n2) = log (sys n) -> born n2 = true -> gov (sys n2) = gov (sys n) ->
    (owned (given kms false false) n -> owned (given kms (sells (Some fs)) false) n2) -> at_ (given kms (sells (Some fs)) false) n2).
  { intros n2 El Hb2 Eg Ho. eapply (At_step _ _ _ _ n _ []); [exact Hn|by rewrite El, app_nil_r|done|by intros _|done|].
    intros _ Hgov. split; [by intros ? ? ? ?%elem_of_nil|]. rewrite Eg. auto. }
  destruct (Z.eqb_spec fs token) as [->|Hne].
  { unfold token_call, transferOwnership, onlyOwner. destruct (this =? 0); [done|].
    destruct (Z.eqb_spec deployer (owner (tok (sys n)))) as [Eo|]; simpl; [|done]. intros [= <- <-].
    eapply (At_step _ _ _ _ n _ [TokenCalled (TransferOwnership this)]); [exact Hn|done|done| |done|].
    - intros _ (E & _). specialize (E this eq_refl). congruence.
    - intros _ Hgov. split; [by apply untouched_one|done]. }
  destruct (Z.eqb_spec fs this) as [->|]; simpl; [done|]. unfold sells in *. destruct (Z.eqb_spec fs swapper_addr) as [->|Hs].
  - destruct (Periphery.fs_transferOwnership deployer this (swapper n)) as [c|] eqn:Ec; simpl; [|done]. intros [= <- <-].
    unfold Periphery.fs_transferOwnership in Ec. case_ifs_in Ec; try done. simplify_eq.
    apply Hn1; try done. intros (Eo & Ek & _). by split_and!.
  - intros [= <- <-]. apply Hn1; try done. rewrite bool_decide_false by congruence. done.
Qed.

Lemma exec_renounce kms fs n a n' :
  at_ (given kms fs false) n -> exec (CallRenounce this) n = Some (a, n') -> at_ (given kms fs true) n'.
Proof.
  destruct addresses as (H1 & _). intros Hn. pose proof Hn as (_ & _ & Hb & _). simpl. rewrite (proj2 (Z.eqb_neq this token)) by congruence.
  rewrite Z.eqb_refl, Hb. simpl. unfold renounce, onlyGovernor. case_ifs; simpl; [done|]. intros [= <- <-].
  eapply (At_step _ _ _ _ n _ [Renounced]); [exact Hn|done|done|by intros _|by right|].
  intros _ Hgov. split; [by apply untouched_one|]. simpl. auto.
Qed.

Lemma exec_create m n a n' :
  0 <= m < 2 ^ 160 -> (dg = true -> m = deployer) -> at_ (before false) n ->
  exec (Create (gov_code ++ constructor_args m delay)) n = Some (a, n') -> a = Some this /\ at_ (before true) n'.
Proof.
  intros Hm Hdg Hn. cbn [exec].
  destruct (create_args m) as (-> & -> & -> & ->); [lia|]. rewrite bool_decide_true, Z.eqb_refl by done. cbn [andb Nat.eqb].
  unfold deploy. destruct (m =? 0); simpl; [done|]. intros [= <- <-]. split; [done|].
  eapply (At_step _ _ _ _ n _ []); [exact Hn|simpl; by rewrite app_nil_r|done|by intros _|done|].
  intros E _. split; [by intros ? ? ? ?%elem_of_nil|]. simpl. auto.
Qed.

Lemma before_stable b : stable others (at_ (before b)).
Proof. by apply At_stable. Qed.
Lemma signer_stable k : stable others (at_ (with_signer k)).
Proof. by apply At_stable. Qed.
Lemma given_stable k fs rn : stable others (at_ (given k fs rn)).
Proof. by apply At_stable. Qed.

Lemma governance_holds cfg m n0 n :
  governed cfg m n0 -> (dg = true -> m = deployer) -> at_ (before (born n0)) n ->
  holds others (on_ok (fun a n' => a = this /\ at_ (before true) n')) (governance_step cfg) n.
Proof.
  intros H0 Hdg Hn. unfold governance_step, governed in *. destruct (parse_opt (governance cfg)) as [[a|]|e]; [..|done].
  - destruct H0 as (-> & Hb & _). rewrite Hb in Hn. apply (holds_done _ (at_ (before true))); [apply before_stable|done|]. by intros n' Hn' ? [= <-].
  - destruct H0 as (Hb & -> & Hm & ->). rewrite Hb in Hn. apply (holds_try _ (fun rcpt n' => rcpt = Some this /\ at_ (before true) n')).
    + apply (holds_op _ (at_ (before false))); [apply before_stable|done|intros b n1 n2 H1 [-> H2]; split; [done|by eapply before_stable]|].
      intros n1 a n2 H1 Hs%send_ok. by eapply exec_create.
    + intros b n1 [-> H1]. apply (holds_done _ (at_ (before true))); [apply before_stable|done|]. by intros n' Hn' ? [= <-].
Qed.

Lemma swapper_holds kms fs n :
  at_ (given kms false false) n -> holds others (on_ok (fun _ => at_ (given kms (sells fs) false))) (hand_swapper fs this) n.
Proof.
  intros Hn. unfold hand_swapper. destruct fs as [a|].
  2:{ apply (holds_done _ (at_ (given kms false false))); [apply given_stable|done|]. by intros n2 H2 ? _. }
  apply (holds_try _ (fun _ => at_ (given kms (sells (Some a)) false))).
  - apply (holds_op _ (at_ (given kms false false))); [apply given_stable|done|intros _; apply given_stable|].
    intros n1 b n2 H1 Hs%send_ok. by eapply exec_swapper.
  - intros _ n1 H1. eapply holds_done; [apply given_stable|exact H1|]. by intros n2 H2 ? _.
Qed.

Lemma renounce_holds cfg kms fs n :
  at_ (given kms fs false) n -> holds others (on_ok (fun _ => at_ (given kms fs (cfg_renounce cfg)))) (renounce_step cfg this) n.
Proof.
  intros Hn. unfold renounce_step. destruct (cfg_renounce cfg).
  - apply (holds_try _ (fun _ => at_ (given kms fs true))).
    + apply (holds_op _ (at_ (given kms fs false))); [apply given_stable|done|intros _; apply given_stable|].
      intros n1 b n2 H1 Hs%send_ok. by eapply exec_renounce.
    + intros _ n1 H1. eapply holds_done; [apply given_stable|exact H1|]. by intros n2 H2 ? _.
  - eapply holds_done; [apply given_stable|exact Hn|]. by intros n2 H2 ? _.
Qed.

(** What is read back: the owner the token had at some point of the run. *)
Definition read_owner (o : Address) n : Prop := exists l, log (sys n) = l0 ++ l /\ (untouched l -> o = this).

Lemma others_log n n' : others n n' -> exists l, log (sys n') = log (sys n) ++ l.
Proof.
  intros [n1 s Hb' Hc|n1 s c l id op t Hb' Hc El Hin Htgt Hsw|n1 s Hb' Hp|n1 a c s Hb' Hact Hc|n1 t Hb' Ht|n1 a c Hact Hc]; simpl; eauto.
  - destruct (chain_leaves this _ _ this_code Hc) as (l & (El & _) & _). eauto.
  - destruct (public_leaves this _ _ Hp) as (El & _). eauto.
  - apply token_call_inv in Hc as (_ & t & -> & _). simpl. eauto.
  - exists []. by rewrite app_nil_r.
  - exists []. by rewrite app_nil_r.
Qed.

Lemma read_stable o : stable others (read_owner o).
Proof.
  intros n n' (l' & E')%others_log (l & E & Hu). exists (l ++ l'). rewrite E', E, app_assoc. split; [done|].
  intros [U _]%untouched_app. auto.
Qed.

Definition reported (cfg : Cfg) (rep : Report) n : Prop :=
  rep_gov rep = this /\ rep_renounced rep = (if cfg_renounce cfg then Some true else None) /\ read_owner (rep_owner rep) n.

Lemma verify_holds cfg kms fs n :
  at_ (given kms fs (cfg_renounce cfg)) n ->
  holds others (on_ok (fun rep n' => at_ (given kms fs (cfg_renounce cfg)) n' /\ reported cfg rep n')) (verify cfg token this) n.
Proof.
  intros Hn. pose proof (given_stable kms fs (cfg_renounce cfg)) as Hst. set (P := at_ (given kms fs (cfg_renounce cfg))) in *.
  assert (Hst2 : forall o, stable others (fun n' => P n' /\ read_owner o n')).
  { intros o n1 n2 H1 [H2 H3]. split; [by eapply Hst|by eapply read_stable]. }
  unfold verify. apply (holds_try _ (fun o n' => P n' /\ read_owner o n')).
  - apply (holds_op _ P); [done|done|done|]. intros n1 o n2 H1. unfold owner_of. rewrite Z.eqb_refl.
    destruct (reads n1); simpl; [|done]. intros [= <- <-]. split; [done|].
    destruct H1 as (l & E & _ & Ho & _). exists l. split; [done|]. intros Hu. destruct (Ho Hu) as [E' _]. by apply E'.
  - intros o n1 H1. unfold reported. destruct (cfg_renounce cfg).
    + apply (holds_try _ (fun b n' => b = true /\ P n' /\ read_owner o n')).
      * eapply (holds_op _ (fun n' => P n' /\ read_owner o n')); [done|done|intros b n2 n3 H2 [-> H3]; split; [done|by eapply Hst2]|].
        intros n2 b n3 [H2 H3]. pose proof H2 as (_ & _ & Hb & _ & Hr & _). unfold renounced_of. rewrite Z.eqb_refl, Hb, Hr by done.
        destruct (reads n2); simpl; [|done]. by intros [= <- <-].
      * intros b n2 [-> H2]. eapply holds_done; [apply Hst2|exact H2|]. by intros n3 [H3 H4] ? [= <-].
    + eapply holds_done; [apply Hst2|exact H1|]. by intros n3 [H3 H4] ? [= <-].
Qed.

Lemma finalize_holds cfg m kms fs n0 :
  parse_address (Text.trim (cfg_token cfg)) = Some token -> parse_address (Text.trim (kms_signer cfg)) = Some kms ->
  parse_opt (fee_swapper cfg) = Ok fs -> governed cfg m n0 -> l0 = log (sys n0) -> dg = bool_decide (m = deployer) ->
  holds others (on_ok (fun rep n => at_ (given kms (sells fs) (cfg_renounce cfg)) n /\ reported cfg rep n)) (finalize cfg) n0.
Proof.
  intros Ht Hk Hf H0 Hl Hdg. unfold finalize. rewrite Ht, Hk, Hf. destruct (parse_url (rpc_url cfg)); cbn [negb]; [|by intros ? _ ?].
  assert (Hgov : dg = true -> m = deployer) by (rewrite Hdg; apply bool_decide_eq_true_1).
  set (start := {| there := born n0; holder := None; signs := None; sold := false; renounced_ := false |}).
  assert (Hst : stable others (at_ start)) by (by apply At_stable).
  apply (holds_try _ (fun o n => o = deployer -> at_ (before (born n0)) n)).
  { apply (holds_op _ (at_ start)); [done| |intros o n1 n2 Hn H1 E; eapply before_stable; eauto|].
    - exists []. rewrite app_nil_r. split_and!; [done..|intros E]. split; [by intros ? ? ? ?%elem_of_nil|]. intros Hb.
      rewrite <- (Hgov E). unfold governed in H0. destruct (parse_opt (governance cfg)) as [[|]|]; [by destruct H0 as (_ & _ & ?)|by rewrite Hb in H0; destruct H0|done].
    - intros n1 o n2 (l & El & Hb & _ & _ & Hd). unfold owner_of. rewrite Z.eqb_refl. destruct (reads n1); simpl; [|done].
      intros [= <- <-] E. exists l. split_and!; [done|done|..|done|done]. intros _. by split_and!; [intros o [= <-]|..]. }
  intros o n1 H1. destruct (Z.eqb_spec o deployer) as [Eo|]; cbn [negb]; [|by intros ? _ ?].
  apply (holds_try _ (fun a n => a = this /\ at_ (before true) n)); [by apply (governance_holds cfg m n0); auto|].
  intros a n2 [-> H2]. apply (holds_try _ (fun _ => at_ (with_signer kms))).
  { apply (holds_op _ (at_ (before true))); [apply before_stable|done|intros _; apply signer_stable|].
    intros n3 a n4 H3 Hs%send_ok. by eapply exec_set_signer. }
  intros _ n3 H3. apply (holds_try _ (fun _ => at_ (given kms false false))).
  { apply (holds_op _ (at_ (with_signer kms))); [apply signer_stable|done|intros _; apply given_stable|].
    intros n4 a n5 H4 Hs%send_ok. by eapply exec_hand_over. }
  intros _ n4 H4. apply (holds_try _ (fun _ => at_ (given kms (sells fs) false))); [by apply swapper_holds|]. intros _ n5 H5.
  apply (holds_try _ (fun _ => at_ (given kms (sells fs) (cfg_renounce cfg)))); [by apply renounce_holds|]. intros _ n6 H6.
  by apply verify_holds.
Qed.

End Run.


End Finalize.

(** ** A run *)

Module Demo.

(** The deployer 7, a multisig 8, the new governance contract 50, the token 60, the fee seller 70 and
    the enclave 9. *)
Definition parse_address (s : string) : option Address :=
  match s with "deployer" => Some 7 | "multisig" => Some 8 | "token" => Some 60 | "seller" => Some 70 | "enclave" => Some 9 | _ => None end%string.
Definition read_artifact (_ : string) : option Json.Value :=
  Some (Json.Object [("bytecode", Json.Object [("object", Json.Str "0x6080")])])%string.
Definition acts (a : Address) : Prop := a <> 7 /\ a <> 50.

(** The two choices of the runbook: the deployer governs and renounces, or a multisig governs. *)
Definition cfg (governor : string) (renounces : bool) : Cfg := {|
  rpc_url := "http://localhost"; cfg_token := " token "; kms_signer := "enclave"; fee_swapper := "seller"; governance := "";
  cfg_governor := governor; delay_secs := 100; cfg_renounce := renounces; governance_artifact := default_gov_artifact |}.

Definition start : Net Ledger20 := {|
  born := false;
  sys := {| gov := {| governor := 0; renounced := true; queuedAt := ∅ |}; tok := genesis 7 3 2; now := 10; log := [] |};
  swapper := {| Periphery.miningPoolToken := 60; Periphery.router := 80; Periphery.wrappedNative := 81;
                Periphery.fs_APP_ID := []; Periphery.reservoir := 90; Periphery.fs_owner := 7 |} |}.

Definition tool (governor : string) (renounces : bool) : task (Net Ledger20) (anyhow Report) :=
  finalize 7 50 60 70 100 parse_address (fun _ => true) read_artifact [96; 128] (fun _ _ => Included) (fun _ => true)
    (fun _ => Err "none") (fun _ => 51) (cfg governor renounces).
Definition finish (governor : string) (renounces : bool) : Net Ledger20 := (run (tool governor renounces) start).2.
Definition report (renounces : bool) : Report :=
  {| rep_gov := 50; rep_owner := 50; rep_renounced := if renounces then Some true else None |}.

Lemma renounced_runs : run (tool "deployer" true) start = (Some (Ok (report true)), finish "deployer" true).
Proof. apply injective_projections; [by vm_compute|done]. Qed.
Lemma multisig_runs : run (tool "multisig" false) start = (Some (Ok (report false)), finish "multisig" false).
Proof. apply injective_projections; [by vm_compute|done]. Qed.

Lemma multisig_untouched : untouched 60 70 (log (sys (finish "multisig" false))).
Proof.
  assert (log (sys (finish "multisig" false)) = [TokenCalled (SetSigner 9); TokenCalled (TransferOwnership 50)]) as -> by (by vm_compute).
  by intros id op t [?|[?|?%elem_of_nil]%elem_of_cons]%elem_of_cons.
Qed.

End Demo.


End Finalize.
