(* ===== verification/Signer.v ===== *)
(** Crediting shares and issuing vouchers: [accountant/src/lib.rs] and
    [voucher-signer/src/lib.rs].

    The handlers run in the monad [M]: between any two of their calls other
    tasks may run, any call may fail, and the process may crash.  The signature
    scheme, the hexadecimal codec, the reader of the contract's [claimed] and the
    clock are parameters. *)
From Stdlib Require Import Ascii.
From S2P Require Import Prelude Text Floats Pps Metrics Redis Effects Store Voucher.
Import Store.

Module Signer.

(** What a run leaves a trace of. *)
Inductive event : Type :=
| Credited (a : Address) (d : Z)
| FeeAccrued (d : Z)
| Signed (user : Address) (cumulativeAmount signedAt : Z).

(** EIP-712 signing under the pool's domain, its key, and the text forms. *)
Class Signing (W Sig : Type) := {
  signer_address : Address;
  Digest : Type;
  signing_hash : Address -> Z -> Z -> Digest;
  sign_hash : Digest -> W -> result string Sig * W;
  recover_address_from_prehash : Sig -> Digest -> option Address;
  sig_as_bytes : Sig -> list Z;
  sig_try_from : list Z -> option Sig;
  hex_encode : list Z -> string;
  hex_decode : string -> option (list Z);
}.

(** The documented behaviour the code relies on. *)
Class SigningLaws (W Sig : Type) `{Signing W Sig} := {
  sign_recovers : forall d w sig w', sign_hash d w = (Ok sig, w') ->
    recover_address_from_prehash sig d = Some signer_address;
  sig_bytes_roundtrip : forall sig, sig_try_from (sig_as_bytes sig) = Some sig;
  sig_bytes_u8 : forall sig, Forall is_u8 (sig_as_bytes sig);
  hex_roundtrip : forall b, Forall is_u8 b -> hex_decode (hex_encode b) = Some b;
  hex_alphabet : forall b, Forall is_u8 b ->
    Forall (fun c => Text.is_hex_digit c = true) (String.list_ascii_of_string (hex_encode b));
}.

(** The rest of the environment. *)
Class SignerEnv (W : Type) := {
  claimed_reader : Address -> W -> result string Z * W;
  utc_now : W -> Z;
  the_rates : W -> Pps.RateCache;
  the_metrics : W -> Metrics.t;
  set_metrics : Metrics.t -> W -> W;
  instant_now : W -> Z;
  unix_ms_now : W -> Z;
}.

Record VoucherOut : Type := {
  out_user : Address;
  out_cumulative_amount : string;
  out_marginal : Z;
  out_signed_at : Z;
  out_signature : string;
  out_earned_cumulative : Z;
  out_last_voucher_cumulative : Z;
  out_on_chain_claimed : Z;
}.

Record StateOut : Type := {
  st_user : Address;
  st_earned_cumulative : Z;
  st_last_voucher_cumulative : Z;
  st_on_chain_claimed : Z;
  st_available_to_voucher : Z;
}.

Inductive ServiceError : Type :=
| BadRequest (m : string)
| Internal (m : string).

Section Handlers.
Context {R W Sig : Type} `{RedisOps R} `{LuaOps} `{World R W event} `{Signing W Sig} `{SignerEnv W}.

(** ** The accountant *)

Definition credit (miner : Address) (difficulty : Z) : M R W event Z :=
  rate_value <- gets (fun w => Pps.RateCache_get (the_rates w)) ;;
  let credit := F.as_i64 (F.mul rate_value (F.of_Z difficulty)) in
  if credit <? 0 then ret 0
  else
    modify (fun w => set_metrics (Metrics.record_share miner difficulty (instant_now w) (unix_ms_now w)
                                    (the_metrics w)) w) ;;;
    if credit =? 0 then ret 0
    else
      rcall_ev (add_earned miner credit)
        (fun r => match r with Ok _ => [Credited miner credit] | Err _ => [] end) ;;;
      fee_rate <- gets (fun w => Pps.fee_rate (the_rates w)) ;;
      let fee := F.as_i64 (F.mul fee_rate (F.of_Z difficulty)) in
      (if fee >? 0
       then rcall_ev (add_fee_accrued fee)
              (fun r => match r with Ok _ => [FeeAccrued fee] | Err _ => [] end) ;;; ret tt
       else ret tt) ;;;
      ret credit.

(** ** The service *)

Definition read_claimed (user : Address) : M R W event Z :=
  r <- attempt (ecall (claimed_reader user) (fun _ => [])) ;;
  ret (unwrap_or 0 r).

Definition state (user : Address) : M R W event (result ServiceError StateOut) :=
  try_map (rcall (balance_state user)) Internal (fun st =>
  claimed <- read_claimed user ;;
  let claimed_i64 := Voucher.u256_to_i64_or claimed i64_max in
  let base := Z.max (bs_last_voucher_cumulative st) claimed_i64 in
  let available := Z.max (wrap_i64 (bs_earned st - base)) 0 in
  ret (Ok {| st_user := user; st_earned_cumulative := bs_earned st;
             st_last_voucher_cumulative := bs_last_voucher_cumulative st;
             st_on_chain_claimed := claimed; st_available_to_voucher := available |})).

Definition voucher_error (e : Voucher.VoucherError) : string :=
  match e with
  | Voucher.NonPositive => "amount must be positive"
  | Voucher.Insufficient _ _ => "insufficient"
  | Voucher.Empty => "nothing to issue"
  end.

(** The signature of a voucher, logged once it exists. *)
Definition sign_voucher (user : Address) (cumulativeAmount signedAt : Z) : M R W event Sig :=
  ecall (sign_hash (signing_hash user cumulativeAmount signedAt))
    (fun r => match r with Ok _ => [Signed user cumulativeAmount signedAt] | Err _ => [] end).

Definition issue (user : Address) (amount : option Z) : M R W event (result ServiceError VoucherOut) :=
  try_map (rcall (balance_state user)) Internal (fun st =>
  claimed <- read_claimed user ;;
  let claimed_i64 := Voucher.u256_to_i64_or claimed i64_max in
  match Voucher.decide {| Voucher.earned_cumulative := bs_earned st;
                          Voucher.last_voucher_cumulative := bs_last_voucher_cumulative st;
                          Voucher.on_chain_claimed := claimed_i64;
                          Voucher.requested_amount := amount |} with
  | Err e => ret (Err (BadRequest (voucher_error e)))
  | Ok decision =>
      try_map (rcall (set_last_voucher_cumulative user (Voucher.new_cumulative decision))) Internal (fun _ =>
      signed_at <- gets (fun w => Z.max (utc_now w) 0) ;;
      try_map (sign_voucher user (wrap_u64 (Voucher.new_cumulative decision)) signed_at) Internal (fun sig =>
      ret (Ok {| out_user := user;
                 out_cumulative_amount := Text.show (Voucher.new_cumulative decision);
                 out_marginal := Voucher.marginal decision;
                 out_signed_at := signed_at;
                 out_signature := String "0" (String "x" (hex_encode (sig_as_bytes sig)));
                 out_earned_cumulative := bs_earned st;
                 out_last_voucher_cumulative := Voucher.new_cumulative decision;
                 out_on_chain_claimed := claimed |})))
  end).

Definition restore (user : Address) (cumulative_amount signed_at : Z) (signature : string)
  : M R W event (result ServiceError StateOut) :=
  if cumulative_amount <=? 0 then ret (Err (BadRequest "cumulative_amount must be positive"))
  else
    let digest := signing_hash user (wrap_u64 cumulative_amount) signed_at in
    match hex_decode (Text.trim_0x (Text.trim signature)) with
    | None => ret (Err (BadRequest "bad signature hex"))
    | Some raw =>
        match sig_try_from raw with
        | None => ret (Err (BadRequest "bad signature"))
        | Some sig =>
            match recover_address_from_prehash sig digest with
            | None => ret (Err (BadRequest "cannot recover signer"))
            | Some recovered =>
                if negb (recovered =? signer_address)
                then ret (Err (BadRequest "voucher not signed by this pool's signer"))
                else try_map (rcall (restore_cumulative user cumulative_amount)) Internal
                       (fun _ => state user)
            end
        end
    end.

(** ** The routes

    Addresses are parsed by [parse_address]; the status codes are 400 and 500. *)
Variable parse_address : string -> option Address.

Definition into_http {A} (r : result ServiceError A) : result (Z * string) A :=
  match r with
  | Ok a => Ok a
  | Err (BadRequest m) => Err (400, m)
  | Err (Internal m) => Err (500, m)
  end.

Definition http_state (addr : string) : M R W event (result (Z * string) StateOut) :=
  match parse_address addr with
  | None => ret (Err (400, "bad address"))
  | Some user => r <- state user ;; ret (into_http r)
  end.

Definition http_issue (user : string) (amount : option Z) : M R W event (result (Z * string) VoucherOut) :=
  match parse_address (Text.trim user) with
  | None => ret (Err (400, "bad address"))
  | Some user => r <- issue user amount ;; ret (into_http r)
  end.

Definition http_restore (user cumulative_amount : string) (signed_at : Z) (signature : string)
  : M R W event (result (Z * string) StateOut) :=
  match parse_address (Text.trim user) with
  | None => ret (Err (400, "bad address"))
  | Some user =>
      match Text.parse_i64 (Text.trim cumulative_amount) with
      | None => ret (Err (400, "bad cumulative_amount"))
      | Some cumulative =>
          r <- restore user cumulative signed_at signature ;; ret (into_http r)
      end
  end.

End Handlers.

(** ** Lemmas on the text forms *)

(** The signature text of a voucher is read back as the bytes it was made of. *)
Lemma signature_text {W Sig} `{SigningLaws W Sig} b :
  Forall is_u8 b -> hex_decode (Text.trim_0x (Text.trim (String "0" (String "x" (hex_encode b))))) = Some b.
Proof.
  intros Hb. pose proof (hex_alphabet b Hb) as Hf. rewrite Text.trim_id.
  - simpl. rewrite Text.trim_0x_hex by done. by apply hex_roundtrip.
  - simpl. repeat constructor. eapply Forall_impl; [exact Hf|]. apply Text.hex_digit_plain.
Qed.

End Signer.
