(* ===== verification/Solvency.v ===== *)
(** Solvency of the voucher system.

    The run of the pool is any sequence of handlers ([Signer.credit],
    [Signer.issue], [Signer.restore], [Signer.state]), rounds of the fee task
    ([FeeSwap.tick]), evictions and losses of the whole database, interleaved with
    claims on the contract.  Inside a handler or a round other tasks run between any
    two calls ([interfere]) and calls fail or crash the process; what is assumed of
    the other tasks is what is proved of the handlers, that they keep the invariant
    [Inv]. *)
From Stdlib Require Import Ascii.
From S2P Require Import Prelude Text Floats Pps Metrics Redis Effects Store Voucher Contract FeeSwap Signer.
Import Store Signer.

Module Solvency.

(** A round of the fee task signs vouchers of the same kind as the service. *)
#[global] Instance fee_events : FeeSwap.Emits event := fun e =>
  match e with FeeSwap.VoucherSigned u c t => [Signed u c t] | FeeSwap.Sent _ _ _ => [] end.

Section Fees.
Variable fees : FeeSwap.Config.
Abbreviation house := (FeeSwap.fee_swapper fees).

(** Everything ever credited to a miner; the fee is credited to the fee seller. *)
Fixpoint credited (a : Address) (l : list event) : Z :=
  match l with
  | [] => 0
  | Credited a' d :: l' => (if a =? a' then d else 0) + credited a l'
  | FeeAccrued d :: l' => (if a =? house then d else 0) + credited a l'
  | Signed _ _ _ :: l' => credited a l'
  end.

(** No miner is owed more than the scripts' numbers hold exactly. *)
Definition bounded (l : list event) : Prop := forall a, credited a l <= 2 ^ 53.

(** Credits are not negative. *)
Definition nonneg_credit (e : event) : Prop :=
  match e with Credited _ d | FeeAccrued d => 0 <= d | Signed _ _ _ => True end.
Definition positive_credits (l : list event) : Prop := Forall nonneg_credit l.

(** The cells of the database that say what an account is owed. *)
Definition balance_cell (k : rkey) (a : Address) : Prop :=
  k = earned_key a \/ k = last_voucher_key a \/ (k = KEY_FEE_ACCRUED /\ a = house).

Section Defs.
Context {R W : Type} `{RedisOps R}.

(** A balance cell: absent, or an integer covered by what was credited. *)
Definition covered_cell (k : rkey) (a : Address) (r : R) (l : list event) : Prop :=
  get k r = None \/ exists v, get k r = Some (RInt v) /\ 0 <= v <= credited a l.

Record Solvent (r : R) (l : list event) : Prop := {
  sol_cell : forall k a, balance_cell k a -> covered_cell k a r l;
  sol_signed : forall a c t, Signed a c t ∈ l -> c <= credited a l;
  sol_positive : positive_credits l;
}.

Definition Inv (s : st R W event) : Prop := bounded (log s) -> Solvent (redis s) (log s).

End Defs.

(** ** Lemmas on the log *)

Lemma credited_app a l l' : credited a (l ++ l') = credited a l + credited a l'.
Proof. induction l as [|[] l IH]; simpl; rewrite ?IH; lia. Qed.

Lemma positive_app l l' : positive_credits (l ++ l') <-> positive_credits l /\ positive_credits l'.
Proof. apply Forall_app. Qed.

Lemma credited_nonneg a l : positive_credits l -> 0 <= credited a l.
Proof. induction 1 as [|[a' d|d|u c t] l Hd Hl IH]; simpl in *; try done; case_ifs; lia. Qed.

Lemma bounded_app l l' : positive_credits l' -> bounded (l ++ l') -> bounded l.
Proof. intros Hp Hb a. specialize (Hb a). rewrite credited_app in Hb. pose proof (credited_nonneg a l' Hp). lia. Qed.

Lemma balance_cell_inj k a b : balance_cell k a -> balance_cell k b -> a = b.
Proof. intros [->|[->|[-> ->]]] [E|[E|[E ?]]]; first [by injection E | done]. Qed.

Section Cells.
Context {R : Type} `{RedisLaws R} `{LuaLaws}.
Implicit Types r : R.

Lemma covered_mono k a r l l' : positive_credits l' -> covered_cell k a r l -> covered_cell k a r (l ++ l').
Proof.
  intros Hp [?|(v & ? & ?)]; [by left|]. right. exists v. rewrite credited_app.
  pose proof (credited_nonneg a l' Hp). split; [done | lia].
Qed.

Lemma covered_int k a r l :
  positive_credits l -> covered_cell k a r l ->
  exists v, int_at k r = Some v /\ 0 <= v <= credited a l.
Proof.
  intros Hp [E|(v & E & Hv)]; unfold int_at; rewrite E; simpl.
  - exists 0. pose proof (credited_nonneg a l Hp). split; [done | lia].
  - by exists v.
Qed.

Lemma covered_same k a r r' l : get k r' = get k r -> covered_cell k a r l -> covered_cell k a r' l.
Proof. unfold covered_cell. by intros ->. Qed.

Lemma Solvent_log_mono r l l' :
  positive_credits l' -> (forall a c t, Signed a c t ∈ l' -> c <= credited a (l ++ l')) ->
  Solvent r l -> Solvent r (l ++ l').
Proof.
  intros Hp Hs [Hc Hg Hpos]. split.
  - intros k a Hk. by apply covered_mono, Hc.
  - intros a c t [Hin|Hin]%elem_of_app; [|by eapply Hs]. rewrite credited_app.
    pose proof (credited_nonneg a l' Hp). specialize (Hg _ _ _ Hin). lia.
  - by apply positive_app.
Qed.

(** Losing a key, or the whole database. *)
Lemma Solvent_del k r l : Solvent r l -> Solvent (del k r) l.
Proof.
  intros [Hc Hg Hp]. split; try done. intros k' a Hk.
  destruct (decide (k = k')) as [->|]; [left; apply get_del|].
  apply (covered_same _ _ r); [by apply get_del_ne | by apply Hc].
Qed.

Lemma Solvent_wipe r r0 l : db r0 = ∅ -> Solvent r l -> Solvent r0 l.
Proof. intros E [_ Hg Hp]. split; try done. left. by rewrite get_db, E, lookup_empty. Qed.

(** A database that reads the same. *)
Lemma Solvent_same r r' l : (forall k, get k r' = get k r) -> Solvent r l -> Solvent r' l.
Proof. intros E [Hc Hg Hp]. split; try done. intros k a Hk. eapply covered_same; [apply E|by apply Hc]. Qed.

(** Writing one balance cell with a covered value. *)
Lemma Solvent_put r r' l a k v :
  Solvent r l -> balance_cell k a -> get k r' = Some (RInt v) ->
  (forall k', k' <> k -> get k' r' = get k' r) -> 0 <= v <= credited a l -> Solvent r' l.
Proof.
  intros [Hc Hg Hp] Hk E Hne Hr. split; try done. intros k' b Hk'.
  destruct (decide (k' = k)) as [->|]; [|by apply (covered_same _ _ r); [apply Hne|apply Hc]].
  rewrite (balance_cell_inj k b a) by done. right. by exists v.
Qed.

Lemma Solvent_write r r' l a k v x :
  Solvent r l -> balance_cell k a ->
  db r' = <[k := Cell (RInt v) x]> (db r) -> 0 <= v <= credited a l -> Solvent r' l.
Proof.
  intros Hs Hk E. apply (Solvent_put r r' l a k v); [done..| |].
  - by rewrite get_db, E, lookup_insert_eq.
  - intros. by rewrite !get_db, E, lookup_insert_ne.
Qed.

Lemma earned_cell a : balance_cell (earned_key a) a.
Proof. by left. Qed.
Lemma voucher_cell a : balance_cell (last_voucher_key a) a.
Proof. by right; left. Qed.
Lemma fee_cell : balance_cell KEY_FEE_ACCRUED house.
Proof. by right; right. Qed.

End Cells.

(** ** The handlers keep the invariant *)

Section Handlers.
Context {R W Sig : Type} `{RedisLaws R} `{LuaLaws} `{World R W event} `{Signing W Sig} `{SignerEnv W}.
Implicit Types s : st R W event.

(** What is assumed of the other tasks. *)
Definition rely : Prop := forall r w r' w' evs l,
  interfere r w = (r', w', evs) ->
  positive_credits evs /\ ((bounded l -> Solvent r l) -> bounded (l ++ evs) -> Solvent r' (l ++ evs)).

Hypothesis Hrely : rely.

(** A miner's credit covers [c], and [c] is not negative. *)
Definition covers (a : Address) (c : Z) (s : st R W event) : Prop :=
  bounded (log s) -> 0 <= c <= credited a (log s).

Lemma stable_Inv : stable (Inv (R := R) (W := W)).
Proof.
  intros s r w evs w' Hs Hi. unfold Inv in *. simpl. destruct (Hrely _ _ _ _ _ (log s) Hi) as [_ Hr]. auto.
Qed.

Lemma stable_covers a c : stable (covers a c).
Proof.
  intros s r w evs w' Hs Hi. unfold covers in *. simpl. intros Hb.
  destruct (Hrely _ _ _ _ _ (log s) Hi) as [Hp _]. pose proof (Hs (bounded_app _ _ Hp Hb)).
  rewrite credited_app. pose proof (credited_nonneg a evs Hp). lia.
Qed.

Lemma stable_and (P Q : st R W event -> Prop) : stable P -> stable Q -> stable (fun s => P s /\ Q s).
Proof. intros HP HQ s r w evs w' [? ?] Hi. split; [by eapply HP | by eapply HQ]. Qed.

(** An account is credited: its cell is raised by what is logged. *)
Lemma raised_Inv k a ev c s r2 v :
  Inv s -> balance_cell k a -> 0 < c -> nonneg_credit ev -> credited a [ev] = c -> (forall u d t, ev <> Signed u d t) ->
  int_at k (redis s) = Some v -> get k r2 = Some (RInt (v + c)) ->
  (forall k', k' <> k -> get k' r2 = get k' (redis s)) -> Inv (St_ r2 (env s) (log s ++ [ev])).
Proof.
  intros Hs Hk Hc Hev Ecr Hns Hv Hget Hne Hb. cbn [redis log] in *.
  assert (Hp : positive_credits [ev]) by (by constructor).
  pose proof (Hs (bounded_app _ _ Hp Hb)) as Hsol.
  destruct (covered_int _ _ _ _ (sol_positive _ _ Hsol) (sol_cell _ _ Hsol _ _ Hk)) as (v' & Hv' & Hr).
  rewrite Hv in Hv'. injection Hv' as <-. eapply (Solvent_put (redis s)); [|exact Hk|exact Hget|done|].
  - apply Solvent_log_mono; [done| |done]. intros u d t Hin%list_elem_of_singleton. by destruct (Hns u d t).
  - rewrite credited_app, Ecr. lia.
Qed.

Lemma add_earned_Inv miner c s a r2 :
  Inv s -> 0 < c -> add_earned miner c (redis s) = (a, r2) ->
  Inv (St_ r2 (env s) (log s ++ match a with Ok _ => [Credited miner c] | Err _ => [] end)).
Proof.
  intros Hs Hc E. destruct (int_at (earned_key miner) (redis s)) as [v|] eqn:Hv.
  - destruct (decide (is_i64 (v + c))) as [Hi|Hi].
    + pose proof (add_earned_spec miner c (redis s) v Hv Hi) as [Eok Edb]. rewrite E in Eok, Edb. simpl in *.
      subst a. apply (raised_Inv (earned_key miner) miner _ c _ _ v); try done; simpl.
      * apply earned_cell.
      * lia.
      * rewrite Z.eqb_refl. lia.
      * by rewrite get_db, Edb, lookup_insert_eq.
      * intros. by rewrite !get_db, Edb, lookup_insert_ne.
    + pose proof (add_earned_overflow miner c (redis s) v Hv Hi) as [Eok Eget]. rewrite E in Eok, Eget.
      simpl in *. destruct a; [done|]. rewrite app_nil_r. intros Hb. by eapply Solvent_same, Hs.
  - intros Hb. simpl in *. exfalso.
    assert (Hp : positive_credits (match a with Ok _ => [Credited miner c] | Err _ => [] end))
      by (destruct a; repeat constructor; simpl; lia).
    pose proof (Hs (bounded_app _ _ Hp Hb)) as Hsol.
    destruct (covered_int _ _ _ _ (sol_positive _ _ Hsol) (sol_cell _ _ Hsol _ _ (earned_cell miner))) as (? & ? & _).
    congruence.
Qed.

Lemma add_fee_Inv fee s a r2 :
  Inv s -> 0 < fee -> add_fee_accrued fee (redis s) = (a, r2) ->
  Inv (St_ r2 (env s) (log s ++ match a with Ok _ => [FeeAccrued fee] | Err _ => [] end)).
Proof.
  intros Hs Hc E. pose proof (fun k Hk => get_incrby_ne k KEY_FEE_ACCRUED fee (redis s) Hk) as Hne.
  pose proof (incrby_cases KEY_FEE_ACCRUED fee (redis s)) as Hcase.
  unfold add_fee_accrued, INCRBY in E. rewrite E in Hcase, Hne. simpl in Hcase, Hne.
  destruct Hcase as [(v & Hv & _ & -> & Hget)|(_ & [e ->] & Hget)].
  - apply (raised_Inv KEY_FEE_ACCRUED house _ fee _ _ v); try done; simpl.
    + apply fee_cell.
    + lia.
    + rewrite Z.eqb_refl. lia.
    + intros k' Hk. by apply Hne.
  - rewrite app_nil_r. intros Hb. eapply Solvent_same, Hs; [|done]. intros k.
    destruct (decide (KEY_FEE_ACCRUED = k)) as [<-|]; [done|by apply Hne].
Qed.

Lemma credit_Inv miner difficulty : hoare Inv (credit (R := R) (W := W) miner difficulty) (fun _ => Inv) Inv.
Proof.
  unfold credit. apply hoare_bind with (fun _ => Inv); [by apply hoare_gets|]. intros rate.
  set (c := F.as_i64 _). destruct (c <? 0) eqn:E0; [by apply hoare_ret|].
  apply hoare_bind with (fun _ => Inv); [by apply hoare_modify|]. intros _.
  destruct (c =? 0) eqn:E1; [by apply hoare_ret|]. bools.
  apply hoare_bind with (fun _ => Inv).
  { apply hoare_rcall_ev; [apply stable_Inv | done|]. intros s a r2 Hs E. simpl.
    assert (Hi : Inv (St_ r2 (env s) (log s ++ match a with Ok _ => [Credited miner c] | Err _ => [] end)))
      by (eapply add_earned_Inv; eauto; lia).
    by destruct a. }
  intros _. apply hoare_bind with (fun _ => Inv); [by apply hoare_gets|]. intros fr.
  set (fee := F.as_i64 _). apply hoare_bind with (fun _ => Inv); [|intros _; by apply hoare_ret].
  destruct (fee >? 0) eqn:Ef; [|by apply hoare_ret]. bools.
  apply hoare_bind with (fun _ => Inv); [|intros _; by apply hoare_ret].
  apply hoare_rcall_ev; [apply stable_Inv | done|]. intros s a r2 Hs E. simpl.
  pose proof (add_fee_Inv fee _ _ _ Hs ltac:(lia) E). by destruct a.
Qed.

(** Reading a balance: what is read is covered. *)
Lemma balance_state_covers user :
  hoare Inv (rcall (balance_state user))
    (fun b s => Inv s /\ covers user (bs_earned b) s /\ covers user (bs_last_voucher_cumulative b) s) Inv.
Proof.
  apply hoare_rcall; [apply stable_Inv | done|]. intros s a r2 Hs E. simpl.
  assert (r2 = redis s) as ->.
  { assert (Hg : guar eq (balance_state (R := R) user)) by (unfold balance_state; guar_walk).
    specialize (Hg (redis s)). by rewrite E in Hg. }
  split; [done|]. destruct a as [b|]; [|done]. split; [done|].
  assert (Hb : bounded (log s) -> 0 <= bs_earned b <= credited user (log s)
    /\ 0 <= bs_last_voucher_cumulative b <= credited user (log s)); [|split; intros ?; by apply Hb].
  intros Hbd. pose proof (Hs Hbd) as Hsol. specialize (Hbd user).
  destruct (covered_int _ _ _ _ (sol_positive _ _ Hsol) (sol_cell _ _ Hsol _ _ (earned_cell user))) as (e & He & Hre).
  destruct (covered_int _ _ _ _ (sol_positive _ _ Hsol) (sol_cell _ _ Hsol _ _ (voucher_cell user))) as (v & Hv & Hrv).
  rewrite (balance_state_spec user _ e v) in E; [|done|width_lia|done|width_lia].
  by simplify_eq.
Qed.

(** Reading the chain changes nothing here. *)
Lemma read_claimed_keeps (P : st R W event -> Prop) user :
  stable P -> (forall s w', P s -> P (St_ (redis s) w' (log s))) ->
  hoare P (read_claimed user) (fun _ => P) P.
Proof.
  intros Hst Henv. unfold read_claimed. apply hoare_bind with (fun _ => P); [|intros ?; by apply hoare_ret].
  apply hoare_attempt; [|done]. apply hoare_ecall; [done..|].
  intros s a w2 Hs _. simpl. rewrite app_nil_r. split; [by apply Henv | destruct a; [by apply Henv | done]].
Qed.

Lemma state_Inv user : hoare Inv (state (R := R) (W := W) user) (fun _ => Inv) Inv.
Proof.
  unfold state. eapply hoare_try_map; [apply balance_state_covers | | done]. intros b. simpl.
  apply hoare_bind with (fun _ => Inv); [|intros ?; by apply hoare_ret].
  apply hoare_conseq with Inv (fun _ => Inv) Inv; try done; [|by intros ? [? _]].
  apply read_claimed_keeps; [apply stable_Inv | done].
Qed.

(** Recording a voucher of a covered amount. *)
Lemma set_last_voucher_Inv user c s a r2 :
  Inv s -> covers user c s -> set_last_voucher_cumulative user c (redis s) = (a, r2) ->
  Inv (St_ r2 (env s) (log s)).
Proof.
  intros Hs Hc E. intros Hb. simpl in *.
  pose proof (set_last_voucher_spec user c (redis s)) as [_ Edb]. rewrite E in Edb. simpl in Edb.
  eapply (Solvent_write (redis s)); [by apply Hs | apply voucher_cell | exact Edb | by apply Hc].
Qed.

(** Signing a covered amount. *)
Lemma signed_Inv user c c' t s (w : W) :
  Inv s -> covers user c s -> (0 <= c <= 2 ^ 53 -> c' <= c) -> Inv (St_ (redis s) w (log s ++ [Signed user c' t])).
Proof.
  intros Hs Hc Hle Hb. simpl in *.
  assert (Hp : positive_credits [Signed user c' t]) by (by constructor).
  pose proof (bounded_app _ _ Hp Hb) as Hb0. specialize (Hs Hb0). specialize (Hc Hb0). specialize (Hb0 user).
  apply Solvent_log_mono; [done| |done]. intros u d t' Hin%list_elem_of_singleton. simplify_eq.
  rewrite credited_app. simpl. lia.
Qed.

Lemma u256_to_i64_or_range v : 0 <= Voucher.u256_to_i64_or v i64_max <= i64_max.
Proof.
  unfold Voucher.u256_to_i64_or. pose proof (limb_range 0 v). rewrite Z.gtb_ltb. case_ifs; width_lia.
Qed.

Lemma issue_Inv user amount :
  (forall a, amount = Some a -> is_i64 a) ->
  hoare Inv (issue (R := R) (W := W) user amount) (fun _ => Inv) Inv.
Proof.
  intros Ha. unfold issue. eapply hoare_try_map; [apply balance_state_covers | | done]. intros b. simpl.
  set (P := fun s => Inv s /\ covers user (bs_earned b) s /\ covers user (bs_last_voucher_cumulative b) s).
  assert (HP : stable P) by (repeat apply stable_and; auto using stable_Inv, stable_covers).
  apply hoare_bind with (fun _ => P).
  { apply hoare_conseq with P (fun _ => P) P; try done; [|by intros ? [? _]].
    by apply read_claimed_keeps. }
  intros claimed. set (i := Voucher.Build_VoucherInputs _ _ _ _).
  destruct (Voucher.decide i) as [d|e] eqn:Ed; [|apply hoare_ret; by intros ? [? _]].
  set (c := Voucher.new_cumulative d).
  assert (Hcov : forall s, P s -> Inv s /\ covers user c s).
  { intros s (Hi & He & Hl). split; [done|]. intros Hb. specialize (He Hb). specialize (Hl Hb).
    pose proof (u256_to_i64_or_range claimed). specialize (Hb user).
    destruct (Voucher.decide_bound i d) as (H1' & H2' & _); [|done|].
    - split_and!; simpl; [width_lia..| apply Ha].
    - unfold Voucher.covered in H1'. simpl in *. fold c in H1', H2'. lia. }
  set (P' := fun s => Inv s /\ covers user c s).
  assert (HP' : stable P') by (apply stable_and; auto using stable_Inv, stable_covers).
  apply hoare_try_map with (fun _ => P'); [| |done].
  { apply hoare_conseq with P' (fun _ => P') Inv; try done.
    apply hoare_rcall; [done | by intros ? [? _]|]. intros s a r2 [Hi Hc] E. simpl.
    pose proof (set_last_voucher_Inv _ _ _ _ _ Hi Hc E). by destruct a. }
  intros _. apply hoare_bind with (fun _ => P'); [by apply hoare_gets|]. intros t.
  apply hoare_try_map with (fun _ => Inv); [| |done]; [|intros; by apply hoare_ret].
  apply hoare_ecall; [done | by intros ? [? _]|]. intros s a w2 [Hi Hc] E. simpl.
  destruct a; [|rewrite app_nil_r; done].
  by split; apply signed_Inv with c; try done; intros; rewrite wrap_u64_id by width_lia.
Qed.

(** Nobody but the pool makes signatures that recover to its signer: a signature somebody
    presents for a voucher recovers to it only when the pool signed that voucher before. *)
Definition genuine (l : list event) (u c t : Z) (sig : Sig) : Prop :=
  recover_address_from_prehash sig (signing_hash u c t) = Some signer_address -> Signed u c t ∈ l.
Definition genuine_text (l : list event) (u c t : Z) (signature : string) : Prop := forall raw sig,
  hex_decode (Text.trim_0x (Text.trim signature)) = Some raw -> sig_try_from raw = Some sig ->
  genuine l u (wrap_u64 c) t sig.

Lemma restore_cumulative_Inv user c s a r2 :
  Inv s -> covers user c s -> restore_cumulative user c (redis s) = (a, r2) -> Inv (St_ r2 (env s) (log s)).
Proof.
  intros Hs Hc E Hb. simpl in *. pose proof (Hs Hb) as Hsol. pose proof (Hc Hb) as Hc'. specialize (Hb user).
  destruct (covered_int _ _ _ _ (sol_positive _ _ Hsol) (sol_cell _ _ Hsol _ _ (earned_cell user))) as (e & He & Hre).
  destruct (covered_int _ _ _ _ (sol_positive _ _ Hsol) (sol_cell _ _ Hsol _ _ (voucher_cell user))) as (v & Hv & Hrv).
  destruct (restore_cumulative_eq user c (redis s) e v) as [_ Edb]; [(done || (unfold lua_exact; lia))..|].
  rewrite E in Edb. simpl in Edb.
  set (r1 := set (earned_key user) (RInt (Z.max e c)) (redis s)).
  set (r1' := expire (earned_key user) BALANCE_TTL_SECS r1).
  assert (E1 : db r1' = <[earned_key user := Cell (RInt (Z.max e c)) (Some BALANCE_TTL_SECS)]> (db (redis s)))
    by (unfold r1', r1; by rewrite db_expire, db_set, alter_insert_eq).
  assert (Hsol1 : Solvent r1' (log s)) by (eapply (Solvent_write (redis s)); [done | apply earned_cell | exact E1 | lia]).
  eapply (Solvent_write r1'); [done | apply voucher_cell | rewrite E1; exact Edb | lia].
Qed.

Lemma restore_Inv user c t signature :
  is_i64 c ->
  hoare (fun s => Inv s /\ genuine_text (log s) user c t signature) (restore (R := R) (W := W) user c t signature)
    (fun _ => Inv) Inv.
Proof.
  intros Hi. unfold restore. destruct (c <=? 0) eqn:Ec; [apply hoare_ret; by intros ? [? _]|].
  destruct (hex_decode _) as [raw|] eqn:Eh; [|apply hoare_ret; by intros ? [? _]].
  destruct (sig_try_from raw) as [sig|] eqn:Et; [|apply hoare_ret; by intros ? [? _]].
  destruct (recover_address_from_prehash _ _) as [rec|] eqn:Er; [|apply hoare_ret; by intros ? [? _]].
  destruct (rec =? signer_address) eqn:Es; simpl; [|apply hoare_ret; by intros ? [? _]]. bools. subst.
  apply hoare_conseq with (fun s => Inv s /\ covers user c s) (fun _ => Inv) Inv; try done.
  - eapply hoare_try_map; [| intros; apply state_Inv | done].
    apply hoare_rcall; [apply stable_and; auto using stable_Inv, stable_covers | by intros ? [? _]|].
    intros s a r2 [Hs Hc] E. simpl. pose proof (restore_cumulative_Inv _ _ _ _ _ Hs Hc E). by destruct a.
  - intros s [Hs Hu]. split; [done|]. intros Hb. specialize (Hs Hb).
    pose proof (sol_signed _ _ Hs _ _ _ (Hu _ _ Eh Et Er)) as Hle.
    rewrite wrap_u64_id in Hle by width_lia. lia.
Qed.

(** A round of the fee task: what it has read as accrued covers what it signs. *)
Section FeeTask.
Context `{SnapshotJson} `{FeeSwap.FeeEnv W}.
Hypothesis Hclaimed : FeeSwap.claimed_u256 (W := W).
Hypothesis min_pos : 1 <= FeeSwap.min_swap_atomic fees.
Hypothesis max_u64 : 0 <= FeeSwap.max_swap_atomic fees <= u64_max.

Definition accrued (c : Z) (s : st R W event) : Prop := Inv s /\ covers house c s.

Lemma fee_read_covers c s : Inv s -> FeeSwap.fee_of (redis s) = Some c -> covers house c s.
Proof.
  intros Hs Hf Hb. specialize (Hs Hb). pose proof (sol_cell _ _ Hs _ _ fee_cell) as Hc. specialize (Hb house).
  unfold FeeSwap.fee_of, fee_accrued, mbind, St_bind, GET_i64 in Hf. simpl in Hf.
  destruct Hc as [E|(v & E & Hv)]; rewrite E in Hf; simpl in Hf.
  - simplify_eq. simpl. pose proof (credited_nonneg house (log s) (sol_positive _ _ Hs)). lia.
  - rewrite decide_True in Hf by width_lia. injection Hf as <-. done.
Qed.

Lemma fee_event_accrued c e s w :
  (0 <= c -> FeeSwap.allowed fees c e) -> accrued c s -> accrued c (St_ (redis s) w (log s ++ FeeSwap.emit e)).
Proof.
  intros He [Hs Hc]. destruct e as [u d t|to x g]; [|unfold FeeSwap.emit, fee_events; by rewrite app_nil_r].
  assert (Hp : positive_credits [Signed u d t]) by (by constructor).
  assert (Hc' : covers house c (St_ (redis s) w (log s ++ [Signed u d t]))).
  { intros Hb. simpl in *. rewrite credited_app. simpl. specialize (Hc (bounded_app _ _ Hp Hb)). lia. }
  split; [|done]. intros Hb. pose proof (Hc (bounded_app _ _ Hp Hb)) as [H0' _]. destruct (He H0') as [-> Hd].
  revert Hb. by apply (signed_Inv _ c).
Qed.

Lemma fee_tick_Inv : hoare Inv (FeeSwap.tick fees) (fun _ => Inv) Inv.
Proof.
  apply (FeeSwap.tick_keeps fees Hclaimed min_pos max_u64 Inv accrued); try done.
  - by intros c s [? _].
  - apply stable_Inv.
  - intros c. apply stable_and; auto using stable_Inv, stable_covers.
  - intros c s Hs Hf. split; [done|by apply fee_read_covers].
  - apply fee_event_accrued.
Qed.

End FeeTask.

End Handlers.

(** ** Growth of the log *)

Section Growth.
Context {R W Sig : Type} `{RedisLaws R} `{LuaLaws} `{World R W event} `{Signing W Sig} `{SignerEnv W}.
Implicit Types s : st R W event.

(** The events added since [s0] satisfy [P], those of the other tasks included. *)
Variable P : event -> Prop.
Hypothesis P_interfere : forall r w r' w' evs, interfere r w = (r', w', evs) -> Forall P evs.
Hypothesis P_signed : forall u c t, P (Signed u c t).

Definition grows (s0 s : st R W event) : Prop := exists evs, log s = log s0 ++ evs /\ Forall P evs.

Lemma grows_refl s0 : grows s0 s0.
Proof. exists []. by rewrite app_nil_r. Qed.

Lemma grows_more s0 s r w evs : grows s0 s -> Forall P evs -> grows s0 (St_ r w (log s ++ evs)).
Proof.
  intros (e0 & E & Hp) Hp'. exists (e0 ++ evs). simpl. rewrite E, <- app_assoc. split; [done|].
  by apply Forall_app.
Qed.

Lemma stable_grows s0 : stable (grows s0).
Proof. intros s r w evs w' Hs Hi. apply grows_more; [done|]. by eapply P_interfere. Qed.

Lemma grows_call s0 {A} f (ev : result string A -> list event) :
  (forall a, Forall P (ev a)) -> hoare (grows s0) (call f ev) (fun _ => grows s0) (grows s0).
Proof.
  intros Hev. apply hoare_call; [apply stable_grows | done|]. intros s a r2 w2 Hs _. simpl.
  assert (grows s0 (St_ r2 w2 (log s ++ ev a))) by (by apply grows_more). by destruct a.
Qed.

Lemma grows_rcall s0 {A} (f : St R A) : hoare (grows s0) (rcall f) (fun _ => grows s0) (grows s0).
Proof. by apply grows_call. Qed.

Lemma grows_read_claimed s0 user : hoare (grows s0) (read_claimed user) (fun _ => grows s0) (grows s0).
Proof.
  apply read_claimed_keeps; [apply stable_grows|]. intros s w' Hs.
  rewrite <- (app_nil_r (log s)). by apply grows_more.
Qed.

Lemma credit_grows s0 miner d :
  (forall a x, 0 <= x -> P (Credited a x)) -> (forall x, 0 <= x -> P (FeeAccrued x)) -> hoare (grows s0) (credit miner d) (fun _ => grows s0) (grows s0).
Proof.
  intros Pc Pf. unfold credit. apply hoare_bind with (fun _ => grows s0); [by apply hoare_gets|]. intros rate.
  set (c := F.as_i64 _). destruct (c <? 0) eqn:E0; [by apply hoare_ret|].
  apply hoare_bind with (fun _ => grows s0); [by apply hoare_modify|]. intros _.
  destruct (c =? 0) eqn:E1; [by apply hoare_ret|]. bools.
  apply hoare_bind with (fun _ => grows s0).
  { apply grows_call. intros []; repeat constructor. apply Pc. lia. }
  intros _. apply hoare_bind with (fun _ => grows s0); [by apply hoare_gets|]. intros fr.
  apply hoare_bind with (fun _ => grows s0); [|intros _; by apply hoare_ret].
  destruct (_ >? 0) eqn:Ef; [|by apply hoare_ret]. bools.
  apply hoare_bind with (fun _ => grows s0); [|intros _; by apply hoare_ret].
  apply grows_call. intros []; repeat constructor. apply Pf. lia.
Qed.

Lemma state_grows s0 user : hoare (grows s0) (state user) (fun _ => grows s0) (grows s0).
Proof.
  unfold state. eapply hoare_try_map; [apply grows_rcall | | done]. intros b.
  apply hoare_bind with (fun _ => grows s0); [apply grows_read_claimed|]. intros. by apply hoare_ret.
Qed.

Lemma issue_grows s0 user amount : hoare (grows s0) (issue user amount) (fun _ => grows s0) (grows s0).
Proof.
  unfold issue. eapply hoare_try_map; [apply grows_rcall | | done]. intros b.
  apply hoare_bind with (fun _ => grows s0); [apply grows_read_claimed|]. intros claimed.
  destruct (Voucher.decide _); [|by apply hoare_ret].
  eapply hoare_try_map; [apply grows_rcall | | done]. intros ?.
  apply hoare_bind with (fun _ => grows s0); [by apply hoare_gets|]. intros t.
  apply hoare_try_map with (fun _ => grows s0); [| intros; by apply hoare_ret | done].
  apply grows_call. intros []; by repeat constructor.
Qed.

Lemma restore_grows s0 user c t signature :
  hoare (grows s0) (restore user c t signature) (fun _ => grows s0) (grows s0).
Proof.
  unfold restore. destruct (c <=? 0); [by apply hoare_ret|].
  destruct (hex_decode _); [|by apply hoare_ret]. destruct (sig_try_from _); [|by apply hoare_ret].
  destruct (recover_address_from_prehash _ _); [|by apply hoare_ret].
  destruct (negb _); [by apply hoare_ret|].
  eapply hoare_try_map; [apply grows_rcall | intros; apply state_grows | done].
Qed.

Lemma fee_tick_grows `{SnapshotJson} `{FeeSwap.FeeEnv W} s0 :
  FeeSwap.claimed_u256 (W := W) -> 1 <= FeeSwap.min_swap_atomic fees -> 0 <= FeeSwap.max_swap_atomic fees <= u64_max ->
  hoare (grows s0) (FeeSwap.tick fees) (fun _ => grows s0) (grows s0).
Proof.
  intros H1' H2' H3'. apply (FeeSwap.tick_keeps fees H1' H2' H3' (grows s0) (fun _ => grows s0)); try done.
  - apply stable_grows.
  - intros _. apply stable_grows.
  - intros c e s w _ Hs. apply grows_more; [done|]. by destruct e; repeat constructor.
Qed.

End Growth.

(** ** The system *)

Section System.
Context {R W Sig T : Type} `{RedisLaws R} `{LuaLaws} `{World R W event} `{Signing W Sig} `{SignerEnv W}
  `{Contract.Erc20Laws T} `{SnapshotJson} `{FeeSwap.FeeEnv W}.

(** The signer of a voucher, as the contract recovers it. *)
Definition recover (u c t : Z) (sig : Sig) : option Address :=
  recover_address_from_prehash sig (signing_hash u c t).

Record sys : Type := Sys { pool : st R W event; chain : Contract.Token T }.

(** Everything but crediting a share. *)
Inductive service : sys -> sys -> Prop :=
| step_issue p c user amount :
    (forall a, amount = Some a -> is_i64 a) ->
    service (Sys p c) (Sys (issue user amount p).2 c)
| step_restore p c user cum at_ signature :
    is_i64 cum -> genuine_text (log p) user cum at_ signature ->
    service (Sys p c) (Sys (restore user cum at_ signature p).2 c)
| step_state p c user :
    service (Sys p c) (Sys (state user p).2 c)
| step_fee p c :
    service (Sys p c) (Sys (FeeSwap.tick fees p).2 c)
| step_evict p c r' :
    evicts (redis p) r' -> service (Sys p c) (Sys (St_ r' (env p) (log p)) c)
| step_wipe p c r0 :
    db r0 = ∅ -> service (Sys p c) (Sys (St_ r0 (env p) (log p)) c)
| step_claim p c u cum at_ sig d c' :
    genuine (log p) u cum at_ sig -> Contract.claim recover u cum at_ sig c = Some (d, c') ->
    service (Sys p c) (Sys p c')
(** Every other transaction (under a [recover] that accepts no claim), the owner's change of
    the signer left out. *)
| step_tx p c c' d :
    Contract.tx (fun _ _ _ (_ : Sig) => None) d c c' ->
    Contract.authorizedSigner c' = Contract.authorizedSigner c -> service (Sys p c) (Sys p c').

Inductive step : sys -> sys -> Prop :=
| step_credit p c miner difficulty :
    step (Sys p c) (Sys (credit miner difficulty p).2 c)
| step_service x y : service x y -> step x y.

(** What the contract minted to an account since [c0] is covered by what it was credited. *)
Section From.
Variable c0 : Contract.Token T.

Record SysInv (x : sys) : Prop := {
  si_pool : Inv (pool x);
  si_chain : forall a, bounded (log (pool x)) ->
    Contract.claimed_of a (chain x) <= Z.max (Contract.claimed_of a c0) (credited a (log (pool x)));
  si_signer : Contract.authorizedSigner (chain x) = signer_address;
}.

Lemma SysInv_grow p p' c :
  grows nonneg_credit p p' -> Inv p' -> SysInv (Sys p c) -> SysInv (Sys p' c).
Proof.
  intros (evs & E & Hp) Hi [_ Hc Hs]. split; simpl in *; [done| |done].
  intros a Hb. rewrite E in Hb |- *. rewrite credited_app.
  pose proof (credited_nonneg a evs Hp). pose proof (Hc a (bounded_app _ _ Hp Hb)). lia.
Qed.

Lemma SysInv_run {A} (m : M R W event A) (P : st R W event -> Prop) p c :
  SysInv (Sys p c) -> hoare P m (fun _ => Inv) Inv -> P p ->
  hoare (grows nonneg_credit p) m (fun _ => grows nonneg_credit p) (grows nonneg_credit p) ->
  SysInv (Sys (m p).2 c).
Proof.
  intros Hx Hm HP Hg. apply (SysInv_grow p); [|by eapply hoare_inv|done].
  eapply hoare_inv; [exact Hg | apply grows_refl | done].
Qed.

Lemma SysInv_claim p c u cum at_ sig d c' :
  genuine (log p) u cum at_ sig -> SysInv (Sys p c) -> Contract.claim recover u cum at_ sig c = Some (d, c') ->
  SysInv (Sys p c').
Proof.
  intros Hu [Hp Hc Hs] (Hrec & _ & _ & _ & Hcl & _ & _ & Hsame)%Contract.claim_inv. simpl in *.
  split; simpl in *; [done| |by rewrite Hsame]. intros b Hb. specialize (Hc b Hb).
  rewrite (Contract.claimed_of_insert _ _ _ _ _ Hcl). case_decide; [subst|done].
  unfold recover in Hrec. rewrite Hs in Hrec. pose proof (sol_signed _ _ (Hp Hb) _ _ _ (Hu Hrec)). lia.
Qed.

Lemma SysInv_tx p c c' d :
  SysInv (Sys p c) -> Contract.tx (fun _ _ _ (_ : Sig) => None) d c c' ->
  Contract.authorizedSigner c' = Contract.authorizedSigner c -> SysInv (Sys p c').
Proof.
  intros [Hp Hc Hs] Htx Hsame. split; simpl in *; [done| |by rewrite Hsame]. intros b Hb. specialize (Hc b Hb).
  apply Contract.tx_inv in Htx as [[_ (a & _ & s & v & o & ->)]|Htx]; [done|].
  destruct Htx as [t u cum at_ sig m t' Hcl|t a v amt x f id t' _ Hr|t a id x h t' Hm|t d e _]; [| | |done].
  - by apply Contract.claim_inv in Hcl as (Hrec & _).
  - unfold Contract.redeem in Hr. case_ifs_in Hr; try done.
    destruct (Contract.burn _ _ _); [|done]. case_ifs_in Hr; by simplify_eq.
  - unfold Contract.markProcessed in Hm. case_ifs_in Hm; by simplify_eq.
Qed.

(** The fee task's settings and what it is told of the chain. *)
Record fee_settings : Prop := {
  fs_claimed : FeeSwap.claimed_u256 (W := W);
  fs_min : 1 <= FeeSwap.min_swap_atomic fees;
  fs_max : 0 <= FeeSwap.max_swap_atomic fees <= u64_max;
}.

Lemma rely_nonneg : rely (W := W) (R := R) ->
  forall (r : R) (w : W) r' w' evs, interfere r w = (r', w', evs) -> Forall nonneg_credit evs.
Proof. intros Hr r w r' w' evs Hi. by destruct (Hr _ _ _ _ _ [] Hi). Qed.

Lemma credit_SysInv p c m d :
  rely (W := W) (R := R) -> SysInv (Sys p c) -> SysInv (Sys (credit m d p).2 c).
Proof.
  intros Hr Hx. pose proof (rely_nonneg Hr) as Hn.
  apply (SysInv_run _ Inv); [done | by apply credit_Inv | apply Hx | by apply credit_grows; auto].
Qed.

Lemma service_SysInv x y : rely (W := W) (R := R) -> fee_settings -> service x y -> SysInv x -> SysInv y.
Proof.
  intros Hr [Hf1 Hf2 Hf3] Hst Hx. pose proof (rely_nonneg Hr) as Hn.
  destruct Hst as [p c u a Ha|p c u cum at_ sg Hi Hu|p c u|p c|p c r' He|p c r0 E|p c u cum at_ sg d c' Hu Hcl|p c c' d Htx Hsame].
  - apply (SysInv_run _ Inv); [done | by apply issue_Inv | apply Hx | by apply issue_grows].
  - apply (SysInv_run _ (fun s => Inv s /\ genuine_text (log s) u cum at_ sg));
      [done | by apply restore_Inv | split; [apply Hx | done] | by apply restore_grows].
  - apply (SysInv_run _ Inv); [done | by apply state_Inv | apply Hx | by apply state_grows].
  - apply (SysInv_run _ Inv); [done | by apply fee_tick_Inv | apply Hx | by apply fee_tick_grows].
  - destruct Hx as [Hp Hc Hs]. split; simpl in *; try done. intros Hb. destruct He as [k ? _ _].
    by apply Solvent_del, Hp.
  - destruct Hx as [Hp Hc Hs]. split; simpl in *; try done. intros Hb. by eapply Solvent_wipe, Hp.
  - by eapply SysInv_claim.
  - by eapply SysInv_tx.
Qed.

Lemma step_SysInv x y : rely (W := W) (R := R) -> fee_settings -> step x y -> SysInv x -> SysInv y.
Proof. intros Hr Hf [p c m d|x' y' Hs]; [by apply credit_SysInv|by apply service_SysInv]. Qed.

End From.

(** C6: solvency.  In every run of the pool from a contract with the pool's signer (shares
    credited, vouchers issued and restored, rounds of the fee task, balances evicted, the
    database lost, claims and the other transactions of anyone on the contract, short of a
    change of its signer), with any interleaving, failure and crash inside the handlers, no
    account ever holds a voucher for more than it was credited, and what the contract minted
    an account passed what it had minted it at the start only within what it was credited;
    what is credited to the fee seller is the fee that accrued.  Credits of up to [2^53] per
    account; a signature that is presented recovers to the pool's signer only when the pool
    signed that voucher before. *)
Theorem solvency x y :
  rely (W := W) (R := R) -> fee_settings -> Inv (pool x) -> Contract.authorizedSigner (chain x) = signer_address ->
  rtc step x y -> bounded (log (pool y)) ->
  forall a, Contract.claimed_of a (chain y) <= Z.max (Contract.claimed_of a (chain x)) (credited a (log (pool y)))
    /\ forall c t, Signed a c t ∈ log (pool y) -> c <= credited a (log (pool y)).
Proof.
  intros Hr Hf Hi Hx Hxy Hb a. assert (Hy : SysInv (chain x) y).
  { apply (rtc_invariant _ (SysInv (chain x))) with (2 := Hxy); [intros; by eapply step_SysInv|]. split; [done| |done]. lia. }
  split; [by apply Hy | by apply (sol_signed _ _ (si_pool _ _ Hy Hb))].
Qed.

End System.

End Fees.

(** ** The life of one voucher

    With nothing interfering and nothing failing, a voucher that was issued can
    be claimed, and restores the balance it was issued for. *)

Section Voucher.
Context {R W Sig T : Type} `{RedisLaws R} `{LuaLaws} `{World R W event} `{SigningLaws W Sig} `{SignerEnv W}
  `{Contract.Erc20 T} `{!Quiet (R := R) (W := W) (Ev := event)}.
Implicit Types s : st R W event.

Lemma read_claimed_quiet user s :
  exists z w, read_claimed user s = (ORet z, St_ (redis s) w (log s)).
Proof.
  unfold read_claimed, bind, attempt. rewrite ecall_quiet. destruct (claimed_reader user (env s)) as [a w].
  rewrite app_nil_r. destruct a; simpl; eauto.
Qed.

(** What an issued voucher says. *)
Lemma issue_ok user amount s out e v :
  int_at (earned_key user) (redis s) = Some e -> 0 <= e <= i64_max ->
  int_at (last_voucher_key user) (redis s) = Some v -> 0 <= v <= i64_max ->
  (forall a, amount = Some a -> is_i64 a) ->
  (issue user amount s).1 = ORet (Ok out) ->
  let c := out_last_voucher_cumulative out in
  v < c <= e /\ out_cumulative_amount out = Text.show c
  /\ exists (sig : Sig) w w', sign_hash (signing_hash user c (out_signed_at out)) w = (Ok sig, w')
      /\ out_signature out = String "0" (String "x" (hex_encode (sig_as_bytes sig))).
Proof.
  intros He Hre Hv Hrv Ha. unfold issue, try_map, bind, attempt. rewrite rcall_quiet.
  rewrite (balance_state_spec user _ e v) by (done || width_lia). simpl.
  destruct (read_claimed_quiet user (St_ (redis s) (env s) (log s))) as (z & w & ->).
  set (i := Voucher.Build_VoucherInputs _ _ _ _).
  destruct (Voucher.decide i) as [d|] eqn:Ed; [|done].
  pose proof (u256_to_i64_or_range z).
  destruct (Voucher.decide_bound i d) as (Hlo & Hhi & _); [|done|].
  { split_and!; simpl; [width_lia..| apply Ha]. }
  unfold Voucher.covered in Hlo. simpl in Hlo, Hhi. rewrite rcall_quiet. simpl redis.
  destruct (set_last_voucher_cumulative user (Voucher.new_cumulative d) (redis s)) as [[] r2]; [|done].
  simpl. unfold sign_voucher. rewrite ecall_quiet. simpl.
  destruct (sign_hash _ w) as [[sig|] w'] eqn:Es; [|done]. intros [= <-]. simpl.
  rewrite (wrap_u64_id (Voucher.new_cumulative d)) in Es by width_lia.
  split_and!; [lia | lia | done |]. by exists sig, w, w'.
Qed.

(** C22: a voucher brings the balance back.  After the whole database is lost, the
    text of a voucher issued before is accepted by [restore], and the miner's
    earned and vouchered cumulatives are again the voucher's. *)
Theorem issued_voucher_restores user amount s s' out e v :
  int_at (earned_key user) (redis s) = Some e -> 0 <= e <= 2 ^ 53 ->
  int_at (last_voucher_key user) (redis s) = Some v -> 0 <= v <= i64_max ->
  (forall a, amount = Some a -> is_i64 a) ->
  (issue user amount s).1 = ORet (Ok out) -> db (redis s') = ∅ ->
  exists c o,
    Text.parse_i64 (Text.trim (out_cumulative_amount out)) = Some c
    /\ (restore user c (out_signed_at out) (out_signature out) s').1 = ORet (Ok o)
    /\ st_earned_cumulative o = c /\ st_last_voucher_cumulative o = c /\ v < c <= e.
Proof.
  intros He Hre Hv Hrv Ha Hok E0.
  destruct (issue_ok user amount s out e v) as (Hc & Hshow & sig & ws & ws' & Hrec%sign_recovers & Hsig); [done|width_lia|done..|].
  set (c := out_last_voucher_cumulative out) in *. exists c.
  assert (Htrim : Text.trim (Text.show c) = Text.show c).
  { apply Text.trim_id. eapply Forall_impl; [apply Text.show_digits; lia|].
    by intros [[] [] [] [] [] [] [] []] Hx. }
  rewrite Hshow, Htrim, Hsig, Text.parse_i64_show by width_lia.
  assert (Hint : forall k, int_at k (redis s') = Some 0)
    by (intros k; unfold int_at; by rewrite get_db, E0, lookup_empty).
  destruct (restore_cumulative_eq user c (redis s') 0 0) as [Hr Hdb]; [(apply Hint || (unfold lua_exact; lia))..|].
  unfold restore. replace (c <=? 0) with false by (symmetry; lia). rewrite signature_text, sig_bytes_roundtrip by apply sig_bytes_u8.
  rewrite wrap_u64_id by width_lia. unfold recover in Hrec. rewrite Hrec, Z.eqb_refl. cbn [negb].
  destruct (restore_cumulative user c (redis s')) as [a r2] eqn:E. simpl in Hr, Hdb. subst a.
  erewrite try_map_run by (rewrite rcall_quiet, E; done). simpl redis. rewrite Z.max_r in Hdb by lia.
  assert (int_at (earned_key user) r2 = Some c /\ int_at (last_voucher_key user) r2 = Some c) as [G1 G2].
  { unfold int_at. rewrite !get_db, Hdb, lookup_insert_eq.
    by rewrite lookup_insert_ne, lookup_insert_eq. }
  unfold state. erewrite try_map_run
    by (rewrite rcall_quiet; simpl redis; rewrite (balance_state_spec user r2 c c) by (done || width_lia); done).
  destruct (read_claimed_quiet user (St_ r2 (env s') (log s'))) as (z & w & Er).
  erewrite bind_run by exact Er. eexists. split; [done|]. split; [done|]. simpl. split_and!; lia || done.
Qed.

End Voucher.

(** ** A concrete environment

    Nothing interferes, the rate is 2, the clock stands at 5, and the signature
    scheme knows two vouchers: miner 7, cumulative 20 and 40, signed at 5. *)

Module Demo.

#[global] Instance world : World Db.t unit event := {
  interfere r w := (r, w, []);
  next_fault w := (NoFault, w);
}.

Definition the_voucher (sig : bool) : Z * Z * Z := (7, if sig then 20 else 40, 5).

#[global] Instance signing : Signing unit bool := {
  signer_address := 9;
  Digest := Z * Z * Z;
  signing_hash u c t := (u, c, t);
  sign_hash d w :=
    if decide (d = the_voucher true) then (Ok true, w)
    else if decide (d = the_voucher false) then (Ok false, w) else (Err "refused", w);
  recover_address_from_prehash sig d := if decide (d = the_voucher sig) then Some 9 else None;
  sig_as_bytes sig := [if sig then 1 else 0];
  sig_try_from b := match b with [x] => Some (x =? 1) | _ => None end;
  hex_encode := Text.hex_encode;
  hex_decode := Text.hex_decode;
}.

#[global] Instance signing_laws : SigningLaws unit bool.
Proof.
  split; simpl.
  - intros d w sig w' Hs. repeat case_decide; by simplify_eq.
  - by intros [].
  - intros []; by repeat constructor.
  - apply Text.hex_decode_encode.
  - apply Text.hex_encode_alphabet.
Qed.

#[global] Instance environment : SignerEnv unit := {
  claimed_reader _ w := (Ok 0, w);
  utc_now _ := 5;
  the_rates _ := Pps.RateCache_set (F.of_Z 2) 0 Pps.RateCache_new;
  the_metrics _ := Metrics.new 0;
  set_metrics _ w := w;
  instant_now _ := 200000;
  unix_ms_now _ := 0;
}.

#[global] Instance quiet : Quiet (R := Db.t) (W := unit) (Ev := event).
Proof. by split. Qed.

(** The fee task's surroundings: the rent is always paid for, so it never sells. *)
#[global] Instance fee_environment : FeeSwap.FeeEnv unit := {
  FeeSwap.reservoir w := (Ok 9, w);
  FeeSwap.native_balance _ w := (Ok 5000, w);
  FeeSwap.chain_claimed _ w := (Ok 0, w);
  FeeSwap.quoteRoseOut d w := (Ok d, w);
  FeeSwap.get_gas_price w := (Ok 1, w);
  FeeSwap.sign _ _ _ w := (Ok [], w);
  FeeSwap.appd _ _ _ w := (Ok "ok", w);
  FeeSwap.fee_now w := (5, w);
  FeeSwap.parse_u256 s := Text.parse_u128 s;
}.
#[global] Existing Instance snap_text.

Abbreviation fees := FeeSwap.Demo.demo_cfg.

Lemma settings : fee_settings fees (W := unit).
Proof. split; simpl; [|lia|by split]. intros a w v w' [= <- _]. by split. Qed.

Definition start : st Db.t unit event := St_ Db.empty tt [].
Definition credited_once : st Db.t unit event := (credit 7 10 start).2.
Definition issued : st Db.t unit event := (issue 7 None credited_once).2.
Definition voucher_out : VoucherOut :=
  match (issue 7 None credited_once).1 with
  | ORet (Ok o) => o
  | _ => Build_VoucherOut 0 EmptyString 0 0 EmptyString 0 0 0
  end.

Definition again : st Db.t unit event := (issue 7 None (credit 7 10 issued).2).2.

(** The contract as it is deployed: the deployer, its first signer, claims a voucher of its
    own and hands the signer over. *)
Definition genesis : Contract.Token Contract.Ledger20 := Contract.genesis 3 9 0.
Definition seeded : Contract.Token Contract.Ledger20 :=
  default genesis ('(_, t) ← Contract.claim (fun _ _ _ (_ : bool) => Some 4) 4 1000 1 true (Contract.genesis 4 4 0);
    Contract.setSigner 4 9 t).
Definition claims (cum : Z) (sig : bool) (t : Contract.Token Contract.Ledger20) : Contract.Token Contract.Ledger20 :=
  match Contract.claim (recover (W := unit)) 7 cum 5 sig t with Some (_, t') => t' | None => t end.
Definition claimed_twice : Contract.Token Contract.Ledger20 := claims 40 false (claims 20 true seeded).

Lemma rely_demo : rely fees (R := Db.t) (W := unit).
Proof.
  intros r w r' w' evs l E. simpl in E. simplify_eq. rewrite app_nil_r.
  split; [constructor | auto].
Qed.

Lemma start_Inv : Inv fees start.
Proof. intros _. split; [by left | by intros ??? ?%elem_of_nil | constructor]. Qed.

Lemma again_log : log again = [Credited 7 20; Signed 7 20 5; Credited 7 20; Signed 7 40 5].
Proof. by vm_compute. Qed.

Lemma again_bounded : bounded fees (log again).
Proof. rewrite again_log. intros a. simpl. case_ifs; lia. Qed.

(** The miner is credited, issued a voucher and claims it, twice. *)
Lemma twice_run : rtc (step fees (Sig := bool)) (Sys start seeded) (Sys again claimed_twice).
Proof.
  eapply rtc_l; [apply (step_credit _ _ _ 7 10)|].
  eapply rtc_l; [apply step_service, (step_issue _ _ _ 7 None); done|].
  eapply rtc_l; [apply step_service, (step_claim _ _ _ 7 20 5 true 20 (claims 20 true seeded)); [|by vm_compute]|].
  { intros _. vm_compute. right; left. }
  eapply rtc_l; [apply (step_credit _ _ _ 7 10)|].
  eapply rtc_l; [apply step_service, (step_issue _ _ _ 7 None); done|].
  apply rtc_once, step_service, (step_claim _ _ _ 7 40 5 false 20 claimed_twice); [|by vm_compute].
  intros _. change (Signed 7 40 5 ∈ log again). rewrite again_log. by repeat constructor.
Qed.

End Demo.

Lemma solvency_witness :
  (Contract.claimed_of 4 Demo.claimed_twice, Contract.claimed_of 7 Demo.claimed_twice) = (1000, 40)
  /\ forall a, Contract.claimed_of a Demo.claimed_twice
        <= Z.max (Contract.claimed_of a Demo.seeded) (credited Demo.fees a (log Demo.again))
      /\ forall c t, Signed a c t ∈ log Demo.again -> c <= credited Demo.fees a (log Demo.again).
Proof.
  split; [by vm_compute|].
  refine (solvency Demo.fees (Sys Demo.start Demo.seeded) (Sys Demo.again Demo.claimed_twice) _ _ _ _ _ _).
  - apply Demo.rely_demo.
  - apply Demo.settings.
  - apply Demo.start_Inv.
  - by vm_compute.
  - exact Demo.twice_run.
  - exact Demo.again_bounded.
Defined.

Lemma issued_voucher_restores_witness :
  exists c o,
    Text.parse_i64 (Text.trim (out_cumulative_amount Demo.voucher_out)) = Some c
    /\ (restore 7 c (out_signed_at Demo.voucher_out) (out_signature Demo.voucher_out) Demo.start).1 = ORet (Ok o)
    /\ st_earned_cumulative o = c /\ st_last_voucher_cumulative o = c /\ 0 < c <= 20.
Proof.
  apply (issued_voucher_restores 7 None Demo.credited_once Demo.start Demo.voucher_out 20 0); first [done | by vm_compute].
Defined.

End Solvency.
