(* ===== verification/Mined.v ===== *)
(** From shares to minted tokens: the stratum sessions ([Session]), the accountant
    they credit through the sink of mining-pool/src/main.rs ([RedisSink]), the voucher
    service, the fee task and the contract ([Solvency]), as one system.

    A share settled by a session is handed to the sink once; when it is handed, and
    whether the process survives until then, is left open.  The calls inside one
    [credit] may fail or crash and other tasks run between them; shares are handed one
    at a time. *)
From S2P Require Import Prelude Text Floats Pps Metrics Json Hex Stratum Jobs Share Vardiff Session SessionSafety.
From S2P Require Import SessionDemo Redis Effects Store Voucher Contract FeeSwap Signer Solvency.

Import Signer Solvency.

Module Mined.

(** ** The list of settled shares only grows *)

Create HintDb mined.

Section Growth.
Context {G : Type} `{Share.Rng G} `{Hx : Hex} `{Session.SessionEnv}.
Variable (verifier : Stratum.Verifier) (cfg : Session.StratumConfig).

Definition extends {A} (m : Session.H G A) : Prop :=
  forall s g, Session.credited g `prefix_of` Session.credited (m s g).2.

Lemma extends_bind {A B} (m : Session.H G A) (k : A -> Session.H G B) :
  extends m -> (forall a, extends (k a)) -> extends (Session.hbind m k).
Proof.
  intros Hm Hk s g. specialize (Hm s g). unfold Session.hbind.
  destruct (m s g) as [[[a|e|] s'] g']; [|done..]. etrans; [exact Hm|apply Hk].
Qed.

Lemma extends_write m : extends (Session.write_line m).
Proof. intros s g. unfold Session.write_line. by destruct (Session.write_ok _ _). Qed.

Ltac extends_walk := repeat first
  [ solve [auto 1 with mined] | apply extends_bind; [|intros ?] | apply extends_write
  | match goal with |- extends (match ?x with _ => _ end) => destruct x end
  | by intros ? ? ].

Lemma begin_request_extends now now' req : extends (Session.begin_request cfg now now' req).
Proof.
  unfold Session.begin_request, Session.handle_login, Session.submit_claim. extends_walk.
  intros s' g. by destruct (Jobs.record_submission _ _ _ _ _).
Qed.

Lemma finish_extends keep : extends (Session.finish keep).
Proof. unfold Session.finish, Session.after_request. extends_walk. Qed.

Lemma settle_extends now utc p : extends (Session.settle verifier cfg now utc p).
Proof.
  unfold Session.settle. extends_walk.
  intros s1 g1. simpl. by eexists.
Qed.

#[local] Hint Resolve begin_request_extends finish_extends settle_extends : mined.

Lemma conclude_extends i (m : Session.H G Session.next) s g t :
  extends m -> Session.credited g `prefix_of` Session.credited (Session.conclude i (m s g) t).1.
Proof.
  intros Hm. specialize (Hm s g). unfold Session.conclude, Session.close.
  destruct (m s g) as [[[[]|e|] s'] g']; simpl in *; try done; by destruct (Session.guarded s').
Qed.

Lemma step_extends y y' :
  Session.step verifier cfg y y' ->
  Session.credited (Session.shared y) `prefix_of` Session.credited (Session.shared y').
Proof.
  intros [|? ? ? ?|? ? ? i s j g' m' _ _ _ E|? ? ? i s r g' m' _ _ E|? ? ? i s p g' m' _ _ E]; simpl; try done.
  - pose proof (conclude_extends i (Session.on_job_next (G := G) now now' j) s (Session.shared y0) (Session.sessions y0)) as Hc.
    rewrite E in Hc. apply Hc. unfold Session.on_job_next, Session.on_job. extends_walk.
  - pose proof (conclude_extends i (Session.receive cfg now now' r) s (Session.shared y0) (Session.sessions y0)) as Hc.
    rewrite E in Hc. apply Hc. unfold Session.receive. extends_walk.
  - pose proof (conclude_extends i (Session.resume verifier cfg now utc p) s (Session.shared y0) (Session.sessions y0)) as Hc.
    rewrite E in Hc. apply Hc. unfold Session.resume. extends_walk.
Qed.

End Growth.

(** ** What one share is paid *)

(** The events that say what is owed. *)
Definition is_receipt (e : event) : bool :=
  match e with Credited _ _ | FeeAccrued _ => true | Signed _ _ _ => false end.
Definition receipts (l : list event) : list event := List.filter is_receipt l.

Lemma receipts_app l l' : receipts (l ++ l') = receipts l ++ receipts l'.
Proof. apply List.filter_app. Qed.

Lemma receipts_none l : Forall (fun e => is_receipt e = false) l -> receipts l = [].
Proof. induction 1 as [|e l He Hl IH]; [done|]. unfold receipts in *. simpl. by rewrite He. Qed.

Lemma credited_receipts fees a l : Solvency.credited fees a (receipts l) = Solvency.credited fees a l.
Proof. induction l as [|[] l IH]; simpl; lia. Qed.

Definition receipt (a : Address) (amount fee : Z) : list event :=
  (if amount =? 0 then [] else [Credited a amount]) ++ (if fee =? 0 then [] else [FeeAccrued fee]).

Section Pay.
Context {R W : Type} `{RedisLaws R} `{World R W event} `{SignerEnv W}.

(** What a share of difficulty [d] may be paid, and the fee on it: nothing, or what
    the rates in force make of its difficulty. *)
Definition at_rate (rate : F.f64) (d : Z) : Z := F.as_i64 (F.mul rate (F.of_Z d)).
Definition priced (d amount fee : Z) : Prop :=
  (amount = 0 /\ fee = 0) \/
  (0 < amount /\ (exists w : W, amount = at_rate (Pps.RateCache_get (the_rates w)) d) /\
   (fee = 0 \/ (0 < fee /\ exists w : W, fee = at_rate (Pps.fee_rate (the_rates w)) d))).

(** The other tasks that run inside a handler credit nothing. *)
Definition no_receipts : Prop := forall (r : R) (w : W) r' w' evs,
  interfere r w = (r', w', evs) -> Forall (fun e => is_receipt e = false) evs.
Hypothesis Hquiet : no_receipts.

(** [RedisSink::credit]. *)
Definition RedisSink_credit (share : Share.ShareAccepted) : M R W event Z :=
  Signer.credit (Share.sh_miner share) (Share.sh_difficulty share).

Definition has_receipts (l : list event) (s : st R W event) : Prop := receipts (log s) = l.

Lemma stable_receipts l : stable (has_receipts l).
Proof.
  intros s r w evs w' Hs Hi. unfold has_receipts in *. simpl.
  rewrite receipts_app, Hs, (receipts_none evs), app_nil_r; [done|]. by eapply Hquiet.
Qed.

Section Share.
Variables (share : Share.ShareAccepted) (l0 : list event).

Definition paid (s : st R W event) : Prop := exists amount fee,
  priced (Share.sh_difficulty share) amount fee /\
  has_receipts (l0 ++ receipt (Share.sh_miner share) amount fee) s.

Lemma unpaid s : has_receipts l0 s -> paid s.
Proof. intros Hs. exists 0, 0. split; [by left|]. unfold receipt. simpl. by rewrite app_nil_r. Qed.

Lemma paid_no_fee w x s :
  x = at_rate (Pps.RateCache_get (the_rates w)) (Share.sh_difficulty share) -> 0 < x ->
  has_receipts (l0 ++ [Credited (Share.sh_miner share) x]) s -> paid s.
Proof.
  intros Hx Hp Hs. exists x, 0. split; [right; split_and!; [done|by exists w|by left]|].
  unfold receipt. simpl. rewrite app_nil_r. by destruct (Z.eqb_spec x 0); [lia|].
Qed.

Lemma paid_fee w w' x f s :
  x = at_rate (Pps.RateCache_get (the_rates w)) (Share.sh_difficulty share) -> 0 < x ->
  f = at_rate (Pps.fee_rate (the_rates w')) (Share.sh_difficulty share) -> 0 < f ->
  has_receipts (l0 ++ [Credited (Share.sh_miner share) x] ++ [FeeAccrued f]) s -> paid s.
Proof.
  intros Hx Hp Hf Hpf Hs. exists x, f.
  split; [right; split_and!; [done|by exists w|right; split; [done|by exists w']]|].
  unfold receipt. destruct (Z.eqb_spec x 0); [lia|]. by destruct (Z.eqb_spec f 0); [lia|].
Qed.

(** One call of the sink leaves the receipt of one payment, or none. *)
Lemma credit_pays : hoare (has_receipts l0) (RedisSink_credit share) (fun _ => paid) paid.
Proof.
  unfold RedisSink_credit, Signer.credit. set (d := Share.sh_difficulty share).
  apply hoare_bind with (fun x s => (exists w : W, x = Pps.RateCache_get (the_rates w)) /\ has_receipts l0 s).
  { apply hoare_gets. intros s Hs. split; [by exists (env s)|done]. }
  intros rate. apply hoare_pure. intros [w Hw].
  set (x := F.as_i64 _). assert (Hx : x = at_rate (Pps.RateCache_get (the_rates w)) d) by (by subst).
  destruct (x <? 0) eqn:E0; [apply hoare_ret, unpaid|].
  apply hoare_bind with (fun _ => has_receipts l0); [by apply hoare_modify|]. intros _.
  destruct (x =? 0) eqn:E1; [apply hoare_ret, unpaid|]. bools. assert (Hp : 0 < x) by lia.
  apply hoare_bind with (fun _ => has_receipts (l0 ++ [Credited (Share.sh_miner share) x])).
  { apply hoare_rcall_ev; [apply stable_receipts|apply unpaid|]. intros s [v|e] r2 Hs _; simpl.
    - assert (has_receipts (l0 ++ [Credited (Share.sh_miner share) x])
        (St_ r2 (env s) (log s ++ [Credited (Share.sh_miner share) x])))
        by (unfold has_receipts; simpl; by rewrite receipts_app, Hs).
      split; [by apply (paid_no_fee w x)|done].
    - split; [|done]. rewrite app_nil_r. by apply unpaid. }
  intros _. apply hoare_bind with (fun x' s => (exists w : W, x' = Pps.fee_rate (the_rates w)) /\
    has_receipts (l0 ++ [Credited (Share.sh_miner share) x]) s).
  { apply hoare_gets. intros s Hs. split; [by exists (env s)|done]. }
  intros frate. apply hoare_pure. intros [w' Hw'].
  set (f := F.as_i64 _). assert (Hf : f = at_rate (Pps.fee_rate (the_rates w')) d) by (by subst).
  apply hoare_bind with (fun _ => paid); [|intros _; by apply hoare_ret].
  destruct (f >? 0) eqn:Ef; [|apply hoare_ret; intros s; by apply (paid_no_fee w x)]. bools.
  apply hoare_bind with (fun _ => paid); [|intros _; by apply hoare_ret].
  apply hoare_rcall_ev; [apply stable_receipts|intros s; by apply (paid_no_fee w x)|].
  intros s a r2 Hs _. unfold has_receipts in Hs. simpl.
  assert (Ha : paid (St_ r2 (env s) (log s ++ match a with Ok _ => [FeeAccrued f] | Err _ => [] end))).
  { destruct a; [apply (paid_fee w w' x f); try done; try lia|apply (paid_no_fee w x); try done];
      unfold has_receipts; simpl; rewrite receipts_app, Hs, <- ?app_assoc; simpl; by rewrite ?app_nil_r. }
  by destruct a.
Qed.

End Share.
End Pay.

(** ** The system *)

Section System.
Context {G : Type} `{Share.Rng G} `{Hx : Hex} `{Session.SessionEnv}.
Context {R W Sig T : Type} `{RedisLaws R} `{LuaLaws} `{World R W event} `{Signing W Sig} `{SignerEnv W}
  `{Contract.Erc20Laws T} `{SnapshotJson} `{FeeSwap.FeeEnv W}.
Variables (verifier : Stratum.Verifier) (cfg : Session.StratumConfig) (fees : FeeSwap.Config).

(** The sessions, the bank they credit, and the settled shares handed to the sink, by
    their place among all the settled shares. *)
Record pool_sys : Type := Pool {
  mining : Session.Sys (G := G);
  bank : Solvency.sys (R := R) (W := W) (T := T);
  handed : list nat;
}.

Inductive run : pool_sys -> pool_sys -> Prop :=
| run_mine y y' b h :
    Session.step verifier cfg y y' -> run (Pool y b h) (Pool y' b h)
| run_hand y p c h i cr :
    Session.credited (Session.shared y) !! i = Some cr -> i ∉ h ->
    run (Pool y (Sys p c) h) (Pool y (Sys (RedisSink_credit (Session.cr_share cr) p).2 c) (i :: h))
| run_service y b b' h :
    service fees b b' -> run (Pool y b h) (Pool y b' h).

(** A share, what its miner was paid for it and the fee on it. *)
Record payment : Type := Pay { pay_share : Session.Credit; pay_amount : Z; pay_fee : Z }.
Definition pay_miner (p : payment) : Address := Share.sh_miner (Session.cr_share (pay_share p)).

(** What payments come to for an account. *)
Fixpoint earned_by (a : Address) (l : list payment) : Z :=
  match l with
  | [] => 0
  | p :: l' => (if a =? pay_miner p then pay_amount p else 0)
               + (if a =? FeeSwap.fee_swapper fees then pay_fee p else 0) + earned_by a l'
  end.

Definition fair (p : payment) : Prop :=
  priced (W := W) (Share.sh_difficulty (Session.cr_share (pay_share p))) (pay_amount p) (pay_fee p).

(** The books: one payment for each share that was handed over, and its receipts. *)
Record books (x : pool_sys) (pays : list payment) : Prop := {
  bk_shares : Forall2 (fun i p => Session.credited (Session.shared (mining x)) !! i = Some (pay_share p)) (handed x) pays;
  bk_once : NoDup (handed x);
  bk_fair : Forall fair pays;
  bk_owed : forall a, Solvency.credited fees a (log (pool (bank x))) = earned_by a pays;
}.

Lemma credited_receipt a m x f :
  Solvency.credited fees a (receipt m x f) = (if a =? m then x else 0) + (if a =? FeeSwap.fee_swapper fees then f else 0).
Proof. unfold receipt. destruct (Z.eqb_spec x 0), (Z.eqb_spec f 0); simpl; case_ifs; lia. Qed.

Lemma service_log b b' :
  no_receipts (R := R) (W := W) -> fee_settings fees (W := W) -> service fees b b' ->
  receipts (log (pool b')) = receipts (log (pool b)).
Proof.
  intros Hq [Hf1 Hf2 Hf3] Hs.
  assert (Hg : forall A (m : M R W event A) p,
    hoare (grows (fun e => is_receipt e = false) p) m (fun _ => grows (fun e => is_receipt e = false) p)
      (grows (fun e => is_receipt e = false) p) -> receipts (log (m p).2) = receipts (log p)).
  { intros A m p Hm. assert (grows (fun e => is_receipt e = false) p (m p).2) as (evs & E & He)
      by (eapply hoare_inv; [exact Hm|apply grows_refl|done]).
    by rewrite E, receipts_app, (receipts_none evs), app_nil_r. }
  destruct Hs; simpl; try done; apply Hg.
  - by apply issue_grows.
  - by apply restore_grows.
  - by apply state_grows.
  - by apply fee_tick_grows.
Qed.

Lemma run_books x x' pays :
  no_receipts (R := R) (W := W) -> fee_settings fees (W := W) -> run x x' -> books x pays ->
  exists pays', books x' pays'.
Proof.
  intros Hq Hf Hr [Hsh Hon Hfa How]. destruct Hr as [y y' b h Hst|y p c h i cr Hi Hh|y b b' h Hs]; simpl in *.
  - exists pays. split; simpl; try done. eapply Forall2_impl; [exact Hsh|]. simpl. intros i p Hi.
    eapply prefix_lookup_Some; [exact Hi|by eapply step_extends].
  - assert (paid (W := W) (Session.cr_share cr) (receipts (log p)) (RedisSink_credit (Session.cr_share cr) p).2)
      as (x & f & Hp & Hl) by (by eapply hoare_inv; [apply credit_pays| |]).
    exists (Pay cr x f :: pays). split; simpl; [by constructor..|].
    intros a. rewrite <- credited_receipts, Hl, credited_app, credited_receipts, credited_receipt, How.
    unfold pay_miner. simpl. lia.
  - exists pays. split; simpl; try done. intros a. rewrite <- How.
    by rewrite <- credited_receipts, (service_log b b'), credited_receipts.
Qed.

(** Things read at different places of a list are no more, of each kind, than it holds. *)
Lemma places_count {A B} (P : A -> Prop) `{forall x, Decision (P x)} (g : B -> A) (l : list A) ks (ps : list B) :
  NoDup ks -> Forall2 (fun i p => l !! i = Some (g p)) ks ps ->
  (length (filter (fun p => P (g p)) ps) <= length (filter P l))%nat.
Proof.
  intros Hnd HF. assert (exists ks', length ks' = length (filter (fun p => P (g p)) ps) /\ NoDup ks' /\ ks' ⊆ ks /\
    forall k, k ∈ ks' -> exists x, l !! k = Some x /\ P x) as (ks' & <- & Hks & _ & Hin).
  2: by apply SessionSafety.places_le.
  induction HF as [|i p ks ps Hi HF IH]; [exists []; split_and!; [done|apply NoDup_nil_2|set_solver..]|].
  apply NoDup_cons in Hnd as [Hni Hnd]. destruct (IH Hnd) as (ks' & Hl & Hks & Hsub & Hin).
  destruct (decide (P (g p))) as [HP|HP].
  - rewrite filter_cons_True by done. exists (i :: ks'). split_and!; [simpl; by rewrite Hl| |set_solver|].
    + constructor; [set_solver|done].
    + intros k [->|?]%elem_of_cons; eauto.
  - rewrite filter_cons_False by done. exists ks'. split_and!; [done..|set_solver|done].
Qed.

(** Where a run leads. *)
Record runs (now : Z) (c0 : Contract.Token T) (x : pool_sys) : Prop := {
  ru_mining : rtc (Session.step verifier cfg) (Session.init now) (mining x);
  ru_bank : SysInv fees c0 (bank x);
  ru_books : exists pays, books x pays;
}.

Lemma run_runs now c0 x x' :
  rely fees (R := R) (W := W) -> no_receipts (R := R) (W := W) -> fee_settings fees (W := W) ->
  run x x' -> runs now c0 x -> runs now c0 x'.
Proof.
  intros Hr Hq Hf Hrun [Hm Hb [pays Hp]]. pose proof (run_books _ _ _ Hq Hf Hrun Hp) as Hbooks.
  destruct Hrun as [y y' b h Hst|y p c h i cr Hi Hh|y b b' h Hs]; simpl in *; split; simpl; try done.
  - by eapply rtc_r.
  - by apply credit_SysInv.
  - by eapply service_SysInv.
Qed.

(** The payments for the pair of a job id and a nonce. *)
Definition pays_of (pair : string * string) (pays : list payment) : list payment :=
  filter (fun p => SessionSafety.credit_pair (pay_share p) = pair) pays.

(** C5: nothing is minted that was not mined.  Over every run of the whole pool
    (sessions, sink, voucher service, fee task, losses of the database, claims and the
    other transactions on the contract, short of a change of its signer) that starts with
    no credits and any contract with the pool's signer, there are payments for settled
    shares, each backed by its hash, each at a rate in force with its fee, such that
    every voucher an account holds, and what the contract minted it beyond what it had
    minted it at the start, is within what those payments come to for it.  When the heights
    of the upstream's jobs did not go back, a pair of a job id and a nonce is paid no more
    often than a job was sent under that id. *)
Theorem minted_is_mined now b x :
  rely fees (R := R) (W := W) -> no_receipts (R := R) (W := W) -> fee_settings fees (W := W) ->
  Inv fees (pool b) -> log (pool b) = [] -> Contract.authorizedSigner (chain b) = signer_address ->
  rtc run (Pool (Session.init now) b []) x -> bounded fees (log (pool (bank x))) ->
  let sent := Jobs.sent (Session.jobs (Session.shared (mining x))) in
  exists pays : list payment,
    Forall (fun p => SessionSafety.justified verifier cfg (pay_share p) /\ Session.cr_job (pay_share p) ∈ sent /\ fair p) pays /\
    (Jobs.forward sent = true -> forall id n,
       (length (pays_of (id, n) pays) <= length (SessionSafety.publications_of id sent))%nat) /\
    forall a, Contract.claimed_of a (chain (bank x)) <= Z.max (Contract.claimed_of a (chain b)) (earned_by a pays)
      /\ forall c t, Signed a c t ∈ log (pool (bank x)) -> c <= earned_by a pays.
Proof.
  intros Hr Hq Hf Hb Hl Hsg Hrun Hbd sent. assert (Hy : runs now (chain b) x).
  { eapply (rtc_invariant run (runs now (chain b))); [|exact Hrun|]; [intros; by eapply run_runs|].
    split; simpl; [done|split; [done|lia|done]|]. exists []. split; simpl; [constructor..|]. intros a. by rewrite Hl. }
  destruct Hy as [Hm Hs [pays [Hsh Hon Hfa How]]].
  destruct (SessionSafety.reachable_inv _ _ _ _ Hm) as [(a0 & cp & pp & Hc) _ _]. exists pays. split_and!.
  - apply Forall_lookup. intros n p Hn. destruct (Forall2_lookup_r _ _ _ _ _ Hsh Hn) as (i & _ & Hi).
    apply list_elem_of_lookup_2 in Hi. destruct (SessionSafety.core_justified _ _ _ _ _ _ _ _ _ _ _ Hc Hi).
    split_and!; [done..|by eapply Forall_lookup_1].
  - intros Hfw id n. etrans; [exact (places_count (fun c => SessionSafety.credit_pair c = (id, n)) _ _ _ _ Hon Hsh)|].
    by eapply SessionSafety.core_count.
  - intros a. rewrite <- How. split; [by apply Hs|by apply (sol_signed _ _ _ (si_pool _ _ _ Hs Hbd))].
Qed.

End System.

(** ** A run: one share settled, then handed over *)

#[local] Existing Instance text_hex.
#[local] Existing Instance SessionDemo.coin.
#[local] Existing Instance SessionDemo.demo_env.

Module Demo.
Import SessionDemo.

Abbreviation fees := Solvency.Demo.fees.
Abbreviation start := (Sys Solvency.Demo.start Solvency.Demo.seeded).
Definition share : Session.Credit := hd (Session.Build_Credit (Share.Build_ShareAccepted 0 "" 0 0 false) "" demo_job
  (Share.Build_VerifyInput 0 demo_job 0 "" "") false 0 [] []) (Session.credited (Session.shared y5)).
Definition finish : pool_sys :=
  Pool y5 (Sys (RedisSink_credit (Session.cr_share share) Solvency.Demo.start).2 Solvency.Demo.seeded) [0%nat].

Lemma first_share : Session.credited (Session.shared y5) !! 0%nat = Some share.
Proof. vm_compute. reflexivity. Qed.

Lemma mined_log : log (pool (bank finish)) = [Credited 1 4000].
Proof. vm_compute. reflexivity. Qed.

Lemma mined_run : rtc (run Stratum.stub_hash demo_cfg fees) (Pool (Session.init 0) start []) finish.
Proof.
  transitivity (Pool y5 start []).
  - eapply (rtc_congruence (fun y => Pool y start [])); [|exact y5_reachable]. intros. by apply run_mine.
  - apply rtc_once, run_hand; [apply first_share|apply not_elem_of_nil].
Qed.

End Demo.

Lemma minted_is_mined_witness :
  Solvency.credited Demo.fees 1 (log (pool (bank Demo.finish))) = 4000 /\
  let sent := Jobs.sent (Session.jobs (Session.shared (mining Demo.finish))) in
  exists pays : list payment,
    Forall (fun p => SessionSafety.justified Stratum.stub_hash SessionDemo.demo_cfg (pay_share p) /\
      Session.cr_job (pay_share p) ∈ sent /\ fair (W := unit) p) pays /\
    (Jobs.forward sent = true -> forall id n,
       (length (pays_of (id, n) pays) <= length (SessionSafety.publications_of id sent))%nat) /\
    forall a, Contract.claimed_of a (chain (bank Demo.finish))
        <= Z.max (Contract.claimed_of a Solvency.Demo.seeded) (earned_by Demo.fees a pays)
      /\ forall c t, Signed a c t ∈ log (pool (bank Demo.finish)) -> c <= earned_by Demo.fees a pays.
Proof.
  split; [by rewrite Demo.mined_log|].
  refine (minted_is_mined Stratum.stub_hash SessionDemo.demo_cfg Demo.fees 0 Demo.start Demo.finish _ _ _ _ _ _ Demo.mined_run _).
  - apply Solvency.Demo.rely_demo.
  - intros r w r' w' evs [= _ _ <-]. constructor.
  - apply Solvency.Demo.settings.
  - apply Solvency.Demo.start_Inv.
  - reflexivity.
  - by vm_compute.
  - rewrite Demo.mined_log. intros a. simpl. case_ifs; lia.
Defined.

End Mined.
