(* ===== verification/Eip712.v ===== *)
(** The message a voucher's signature is over, on both sides: the service and the fee task
    sign it (voucher-signer/src/lib.rs, redemption-watcher/src/fee_swap.rs), and the contract
    rebuilds it (contracts/src/MiningPoolToken.sol).

    Neither side hashes by hand: the Rust code describes a struct and a domain to a library,
    the contract hashes its own text of the type and calls an inherited function.  Both
    libraries implement EIP-712, which is written out here as their specification; keccak-256
    is a parameter. *)
From Stdlib Require Import Ascii.
From S2P Require Import Prelude Text Hex Effects Redis Store Contract Oracle Voucher Signer Solvency.
Import Store Signer Solvency.

Module Eip712.

(** ** EIP-712 *)

Inductive value : Type := VAddress (a : Address) | VUint256 (z : Z) | VString (s : string).

(** A struct: its name, and its members in order. *)
Record struct : Type := { s_name : string; s_members : list (string * value) }.

Definition type_of (v : value) : string :=
  match v with VAddress _ => "address" | VUint256 _ => "uint256" | VString _ => "string" end.

Definition encode_type (s : struct) : string :=
  s_name s +:+ "(" +:+ String.concat "," ((fun m => type_of m.2 +:+ " " +:+ m.1) <$> s_members s) +:+ ")".

Section Hash.
Variable keccak256 : list Z -> list Z.

Definition encode_value (v : value) : list Z :=
  match v with
  | VAddress a => Oracle.addr_word a
  | VUint256 z => Oracle.w z
  | VString s => keccak256 (bytes_of s)
  end.

Definition encode_members (ms : list (string * value)) : list (list Z) := (fun m => encode_value m.2) <$> ms.

Definition hash_struct (s : struct) : list Z :=
  keccak256 (keccak256 (bytes_of (encode_type s)) ++ concat (encode_members (s_members s))).

(** What is signed: two bytes, the hash of the domain and the hash of the message. *)
Definition typed_hash (domain_hash struct_hash : list Z) : list Z := keccak256 ([25; 1] ++ domain_hash ++ struct_hash).

Definition domain_of (name version : string) (chain_id : Z) (verifying_contract : Address) : struct := {|
  s_name := "EIP712Domain";
  s_members := [("name", VString name); ("version", VString version); ("chainId", VUint256 chain_id);
                ("verifyingContract", VAddress verifying_contract)] |}.

End Hash.

(** The libraries: [SolStruct::eip712_signing_hash] of alloy, and [_hashTypedDataV4] of
    OpenZeppelin in a contract with a name and a version, at an address on a chain. *)
Class TypedData := {
  keccak : list Z -> list Z;
  eip712_signing_hash : struct -> struct -> list Z;
  hashTypedDataV4 : string -> string -> Z -> Address -> list Z -> list Z;
}.
Class TypedDataLaws `{TypedData} : Prop := {
  keccak_bytes : forall b, length (keccak b) = 32%nat;
  td_alloy : forall domain v, eip712_signing_hash domain v = typed_hash keccak (hash_struct keccak domain) (hash_struct keccak v);
  td_openzeppelin : forall name version chain_id this h,
    hashTypedDataV4 name version chain_id this h
    = typed_hash keccak (hash_struct keccak (domain_of name version chain_id this)) h;
}.

(** ** The two sides *)

Section Sides.
Context `{TypedData}.

(** [Service::domain] and [FeeSwapTask::domain]. *)
Definition domain (chain_id : Z) (mining_pool_token : Address) : struct := {|
  s_name := "EIP712Domain";
  s_members := [("name", VString "MiningPoolToken"); ("version", VString "1"); ("chainId", VUint256 chain_id);
                ("verifyingContract", VAddress mining_pool_token)] |}.

(** [struct Voucher] of both [sol!] blocks. *)
Definition voucher (user : Address) (cumulativeAmount signedAt : Z) : struct := {|
  s_name := "Voucher";
  s_members := [("user", VAddress user); ("cumulativeAmount", VUint256 cumulativeAmount); ("signedAt", VUint256 signedAt)] |}.

Definition service_digest (chain_id : Z) (token user : Address) (cumulativeAmount signedAt : Z) : list Z :=
  eip712_signing_hash (domain chain_id token) (voucher user cumulativeAmount signedAt).

Definition VOUCHER_TYPEHASH : list Z :=
  keccak (bytes_of "Voucher(address user,uint256 cumulativeAmount,uint256 signedAt)").

(** The digest [claim] takes the signer of, in the contract at [this] on a chain; its name
    is given to [ERC20Permit], whose version is 1. *)
Definition claim_digest (chain_id : Z) (this user : Address) (cumulativeAmount signedAt : Z) : list Z :=
  let structHash := keccak (VOUCHER_TYPEHASH ++ Oracle.addr_word user ++ Oracle.w cumulativeAmount ++ Oracle.w signedAt) in
  hashTypedDataV4 "MiningPoolToken" "1" chain_id this structHash.

(** The digest of a permit of the same contract. *)
Definition permit (owner spender : Address) (amount nonce deadline : Z) : struct := {|
  s_name := "Permit";
  s_members := [("owner", VAddress owner); ("spender", VAddress spender); ("value", VUint256 amount);
                ("nonce", VUint256 nonce); ("deadline", VUint256 deadline)] |}.

End Sides.

(** ** What the digest says *)

Section Digest.
Context `{TypedData} `{!TypedDataLaws}.

Definition collision : Prop := exists x y, x <> y /\ keccak x = keccak y.

Lemma keccak_inv x y : keccak x = keccak y -> x = y \/ collision.
Proof. intros E. destruct (decide (x = y)); [by left|right; by exists x, y]. Qed.

Lemma typed_hash_inv d s d' s' :
  length d = 32%nat -> length d' = 32%nat -> typed_hash keccak d s = typed_hash keccak d' s' -> (d = d' /\ s = s') \/ collision.
Proof.
  intros Hd Hd' [E|E]%keccak_inv; [left|by right]. apply app_inv_head in E. apply app_inj_1 in E; [done|congruence].
Qed.

Lemma hash_struct_inv s s' :
  hash_struct keccak s = hash_struct keccak s' ->
  (bytes_of (encode_type s) = bytes_of (encode_type s') /\
   concat (encode_members keccak (s_members s)) = concat (encode_members keccak (s_members s')))
  \/ collision.
Proof.
  intros [E|E]%keccak_inv; [|by right]. apply app_inj_1 in E as [E1 E2]; [|by rewrite !keccak_bytes].
  destruct (keccak_inv _ _ E1); [by left|by right].
Qed.

Lemma signing_hash_inv d s d' s' :
  eip712_signing_hash d s = eip712_signing_hash d' s' ->
  (hash_struct keccak d = hash_struct keccak d' /\ hash_struct keccak s = hash_struct keccak s') \/ collision.
Proof. rewrite !td_alloy. apply typed_hash_inv; apply keccak_bytes. Qed.

Lemma encode_value_length v : length (encode_value keccak v) = 32%nat.
Proof.
  destruct v; cbn [encode_value]; [|apply to_be_bytes_length|apply keccak_bytes].
  unfold Oracle.addr_word. by rewrite length_app, length_replicate, to_be_bytes_length.
Qed.

Lemma members_inv ms ms' :
  length ms = length ms' ->
  concat (encode_members keccak ms) = concat (encode_members keccak ms') -> encode_members keccak ms = encode_members keccak ms'.
Proof.
  unfold encode_members. intros Hl. apply (concat_inj 32); [..|by rewrite !length_fmap]; apply Forall_fmap, Forall_forall; intros m _; apply encode_value_length.
Qed.

Lemma digests_agree chain_id token user c at_ : claim_digest chain_id token user c at_ = service_digest chain_id token user c at_.
Proof.
  unfold claim_digest, service_digest. rewrite td_alloy, td_openzeppelin. by f_equal.
Qed.

(** C21: both sides mean the same voucher.  The digest the service and the fee task sign is
    the one the contract takes the signer of; and unless keccak-256 has a collision, it is
    the digest of no other chain, contract, holder, amount or time, and not that of a
    permit of the token either. *)
Theorem voucher_message chain_id token user c at_ :
  claim_digest chain_id token user c at_ = service_digest chain_id token user c at_ /\
  (forall chain_id' token' user' c' at_',
     is_u256 chain_id -> is_u256 chain_id' -> is_address token -> is_address token' -> is_address user -> is_address user' ->
     is_u256 c -> is_u256 c' -> is_u256 at_ -> is_u256 at_' ->
     claim_digest chain_id token user c at_ = service_digest chain_id' token' user' c' at_' ->
     (chain_id = chain_id' /\ token = token' /\ user = user' /\ c = c' /\ at_ = at_') \/ collision) /\
  (forall chain_id' token' owner spender amount nonce deadline,
     claim_digest chain_id token user c at_
     = eip712_signing_hash (domain chain_id' token') (permit owner spender amount nonce deadline) -> collision).
Proof.
  split; [apply digests_agree|]. rewrite digests_agree. split.
  - intros chain_id' token' user' c' at_' ?????????? [[Ed Es]|]%signing_hash_inv; [|by right].
    apply hash_struct_inv in Ed as [[_ Ed]|]; [|by right]. apply hash_struct_inv in Es as [[_ Es]|]; [|by right].
    apply members_inv in Ed; [|done]. apply members_inv in Es; [|done]. left. simpl in Ed, Es.
    Oracle.words Ed. Oracle.words Es. done.
  - intros chain_id' token' owner spender amount nonce deadline [[_ Es]|]%signing_hash_inv; [|done].
    apply hash_struct_inv in Es as [[Es _]|]; [|done]. vm_compute in Es. discriminate Es.
Qed.

End Digest.

(** ** From the service to the contract *)

(** The key of the pool, and [ECDSA.recover] of the contract's library, which takes bytes. *)
Class Keys (W Sig : Type) := {
  key_address : Address;
  sign_digest : list Z -> W -> result string Sig * W;
  recover_from : Sig -> list Z -> option Address;
  as_bytes : Sig -> list Z;
  try_from : list Z -> option Sig;
  ecdsa_recover : list Z -> list Z -> option Address;
}.
(** What a key signs, both libraries recover its address from. *)
Class KeysLaws (W Sig : Type) `{Keys W Sig} : Prop := {
  kl_signer : forall d w sig w', sign_digest d w = (Ok sig, w') ->
    recover_from sig d = Some key_address /\ ecdsa_recover d (as_bytes sig) = Some key_address;
  kl_roundtrip : forall sig, try_from (as_bytes sig) = Some sig;
  kl_bytes : forall sig, Forall is_u8 (as_bytes sig);
}.

Section Service.
Context {W Sig : Type} `{TypedData} `{!TypedDataLaws} `{Keys W Sig}.
Variables (chain_id : Z) (token : Address).

(** The signing of the service, for one chain and one contract. *)
Definition service_signing : Signing W Sig := {|
  signer_address := key_address;
  Digest := list Z;
  signing_hash := service_digest chain_id token;
  sign_hash := sign_digest;
  recover_address_from_prehash := recover_from;
  sig_as_bytes := as_bytes;
  sig_try_from := try_from;
  hex_encode := Text.hex_encode;
  hex_decode := Text.hex_decode;
|}.

(** The signer [claim] recovers. *)
Definition claim_signer (user : Address) (cumulativeAmount signedAt : Z) (sig : list Z) : option Address :=
  ecdsa_recover (claim_digest chain_id token user cumulativeAmount signedAt) sig.

Lemma service_signing_laws `{!KeysLaws W Sig} : @SigningLaws W Sig service_signing.
Proof.
  refine (@Build_SigningLaws W Sig service_signing _ _ _ _ _); simpl.
  - intros d w sig w' E. by eapply kl_signer.
  - apply kl_roundtrip.
  - apply kl_bytes.
  - apply Text.hex_decode_encode.
  - apply Text.hex_encode_alphabet.
Qed.

End Service.

Section Claims.
Context {R W Sig T : Type} `{RedisLaws R} `{LuaLaws} `{World R W event} `{TypedData} `{!TypedDataLaws} `{KeysLaws W Sig} `{SignerEnv W}
  `{Contract.Erc20 T} `{!Quiet (R := R) (W := W) (Ev := event)}.
Variables (chain_id : Z) (token : Address).
#[local] Instance pool_signing : Signing W Sig := service_signing chain_id token.

(** An issued voucher is good on the contract.  The text of its signature, decoded,
    is a signature of the pool's key over the message the contract builds itself: unless
    the holder already claimed as much, the claim is accepted and mints exactly what is
    missing up to the voucher's cumulative amount. *)
Lemma issued_claim user amount (s : st R W event) out e v (t : Contract.Token T) t' :
  int_at (earned_key user) (redis s) = Some e -> 0 <= e <= i64_max ->
  int_at (last_voucher_key user) (redis s) = Some v -> 0 <= v <= i64_max ->
  (forall a, amount = Some a -> is_i64 a) ->
  (issue user amount s).1 = ORet (Ok out) ->
  let c := out_last_voucher_cumulative out in
  Contract.authorizedSigner t = key_address -> Contract.claimed_of user t < c ->
  Contract.mint user (c - Contract.claimed_of user t) (Contract.erc20 t) = Some t' ->
  exists sig tok, Text.hex_decode (Text.trim_0x (Text.trim (out_signature out))) = Some sig /\
    Contract.claim (claim_signer chain_id token) user c (out_signed_at out) sig t = Some (c - Contract.claimed_of user t, tok) /\
    Contract.claimed_of user tok = c.
Proof.
  pose proof (service_signing_laws (W := W) (Sig := Sig) chain_id token) as HL. intros He Hre Hv Hrv Ha Hok c Hs Hcl Hm.
  destruct (issue_ok user amount s out e v) as (_ & _ & sig & w & w' & Hsig & Ho); [done..|].
  exists (as_bytes sig). unfold Contract.claim, claim_signer. rewrite digests_agree, Z.gtb_ltb, (proj2 (Z.ltb_lt _ _) Hcl).
  rewrite decide_True by (rewrite Hs; by eapply kl_signer). rewrite Hm, Ho. eexists. split; [|split; [done|]].
  - exact (signature_text (W := W) (Sig := Sig) (as_bytes sig) (kl_bytes sig)).
  - unfold Contract.claimed_of. simpl. by rewrite lookup_insert_eq.
Qed.

End Claims.

(** ** Concrete inputs *)

Module Demo.

Definition toy_keccak (b : list Z) : list Z := take 32 (reverse b ++ replicate 32 0).

#[export] Instance libraries : TypedData := {
  keccak := toy_keccak;
  eip712_signing_hash d v := typed_hash toy_keccak (hash_struct toy_keccak d) (hash_struct toy_keccak v);
  hashTypedDataV4 n v c a h := typed_hash toy_keccak (hash_struct toy_keccak (domain_of n v c a)) h;
}.

#[export] Instance libraries_laws : TypedDataLaws.
Proof. split; [|done..]. intros b. unfold keccak; simpl. unfold toy_keccak. rewrite length_take, length_app, length_replicate. lia. Qed.

End Demo.

Import Demo.

Lemma voucher_message_witness :
  claim_digest 23294 5 7 20 5 = service_digest 23294 5 7 20 5 /\
  ((23294 = 23294 /\ 5 = 5 /\ 7 = 7 /\ 20 = 20 /\ 5 = 5) \/ collision) /\
  (claim_digest 23294 5 7 20 5 = eip712_signing_hash (domain 23294 5) (permit 9 7 20 0 5) -> collision).
Proof.
  destruct (voucher_message 23294 5 7 20 5) as (E & Hb & Hp). split; [exact E|]. split.
  - apply (Hb 23294 5 7 20 5); try exact E; unfold is_address; width_lia.
  - exact (Hp 23294 5 9 7 20 0 5).
Defined.

End Eip712.
