(* ===== verification/OpenZeppelin.v ===== *)
(** What the token contract inherits (contracts/lib/openzeppelin-contracts/contracts): the
    recovery of a signer ([ECDSA.sol]), the hash of typed data with its cached domain
    ([EIP712.sol], [MessageHashUtils.sol]), and the entry points of [ERC20.sol],
    [ERC20Burnable.sol] and [ERC20Permit.sol] with the nonces of [Nonces.sol].

    The balances and their [_update] are those of [Contract].  A revert is [None].  The
    precompile [ecrecover] and keccak-256 belong to the chain and are parameters. *)
From S2P Require Import Prelude Text Hex Oracle Contract Eip712.

Module OpenZeppelin.

(** ** Signatures *)

Module ECDSA.

Inductive RecoverError : Type :=
| InvalidSignature
| InvalidSignatureLength (length : Z)
| InvalidSignatureS (s : Z).

(** The order of the curve; the upper half of it is refused. *)
Definition secp256k1n : Z := 0xFFFFFFFFFFFFFFFFFFFFFFFFFFFFFFFEBAAEDCE6AF48A03BBFD25E8CD0364141.
Definition half_order : Z := 0x7FFFFFFFFFFFFFFFFFFFFFFFFFFFFFFF5D576E7357A4501DDFE92F46681B20A0.

Section Recover.
(** The address of the signer, zero when there is none. *)
Variable ecrecover : list Z -> Z -> Z -> Z -> Address.

Definition tryRecover (hash : list Z) (v r s : Z) : result RecoverError Address :=
  if s >? half_order then Err (InvalidSignatureS s)
  else
    let signer := ecrecover hash v r s in
    if signer =? 0 then Err InvalidSignature else Ok signer.

Definition tryRecover_bytes (hash signature : list Z) : result RecoverError Address :=
  if (length signature =? 65)%nat then
    let r := from_be_bytes (take 32 signature) in
    let s := from_be_bytes (take 32 (drop 32 signature)) in
    let v := default 0 (signature !! 64%nat) in
    tryRecover hash v r s
  else Err (InvalidSignatureLength (Z.of_nat (length signature))).

(** [recover], which reverts on an error. *)
Definition recover (hash : list Z) (v r s : Z) : option Address :=
  match tryRecover hash v r s with Ok a => Some a | Err _ => None end.
Definition recover_bytes (hash signature : list Z) : option Address :=
  match tryRecover_bytes hash signature with Ok a => Some a | Err _ => None end.

(** Who is recovered is not the zero address. *)
Lemma recover_nonzero hash v r s a : recover hash v r s = Some a -> a <> 0.
Proof. unfold recover, tryRecover. case_ifs; intros; simplify_eq; by bools. Qed.

(** The two signatures that the curve lets anyone make out of one are never both accepted. *)
Lemma not_malleable hash hash' v v' r s a : recover hash v r s = Some a -> recover hash' v' r (secp256k1n - s) = None.
Proof.
  unfold recover, tryRecover. destruct (Z.gtb_spec s half_order); [done|]. intros _.
  destruct (Z.gtb_spec (secp256k1n - s) half_order); [done|]. unfold secp256k1n, half_order in *. lia.
Qed.

End Recover.
End ECDSA.

(** ** Typed data *)

Module EIP712.

Section Domain.
Variable keccak256 : list Z -> list Z.

Definition TYPE_HASH : list Z :=
  keccak256 (bytes_of "EIP712Domain(string name,string version,uint256 chainId,address verifyingContract)").

(** The immutables the constructor sets. *)
Record Cache : Type := {
  cachedDomainSeparator : list Z;
  cachedChainId : Z;
  cachedThis : Address;
  hashedName : list Z;
  hashedVersion : list Z;
}.

Definition build (name version : list Z) (chainid : Z) (this : Address) : list Z :=
  keccak256 (TYPE_HASH ++ name ++ version ++ Oracle.w chainid ++ Oracle.addr_word this).

Definition constructor (name version : string) (chainid : Z) (this : Address) : Cache :=
  let n := keccak256 (bytes_of name) in
  let v := keccak256 (bytes_of version) in
  {| cachedDomainSeparator := build n v chainid this; cachedChainId := chainid; cachedThis := this;
     hashedName := n; hashedVersion := v |}.

Definition domainSeparatorV4 (c : Cache) (chainid : Z) (this : Address) : list Z :=
  if (this =? cachedThis c) && (chainid =? cachedChainId c) then cachedDomainSeparator c
  else build (hashedName c) (hashedVersion c) chainid this.

Definition toTypedDataHash (domainSeparator structHash : list Z) : list Z := keccak256 ([25; 1] ++ domainSeparator ++ structHash).

Definition hashTypedDataV4 (c : Cache) (chainid : Z) (this : Address) (structHash : list Z) : list Z :=
  toTypedDataHash (domainSeparatorV4 c chainid this) structHash.

(** The cache is never seen: after a fork, and behind another address, the hash is that of
    the chain and of the address the code then runs at. *)
Lemma cache_exact name version c0 t0 chainid this h :
  hashTypedDataV4 (constructor name version c0 t0) chainid this h
  = Eip712.typed_hash keccak256 (Eip712.hash_struct keccak256 (Eip712.domain_of name version chainid this)) h.
Proof.
  unfold hashTypedDataV4, toTypedDataHash, Eip712.typed_hash. do 3 f_equal.
  assert (E : build (hashedName (constructor name version c0 t0)) (hashedVersion (constructor name version c0 t0)) chainid this
          = Eip712.hash_struct keccak256 (Eip712.domain_of name version chainid this)).
  { done. }
  unfold domainSeparatorV4. destruct (Z.eqb_spec this (cachedThis (constructor name version c0 t0))) as [->|]; [|exact E].
  destruct (Z.eqb_spec chainid (cachedChainId (constructor name version c0 t0))) as [->|]; exact E.
Qed.

End Domain.
End EIP712.

(** The library of the contract, next to one of the service that follows the standard. *)
Definition contract_library (keccak256 : list Z -> list Z) (signing_hash : Eip712.struct -> Eip712.struct -> list Z)
    (chain0 : Z) (this0 : Address) : Eip712.TypedData := {|
  Eip712.keccak := keccak256;
  Eip712.eip712_signing_hash := signing_hash;
  Eip712.hashTypedDataV4 name version := EIP712.hashTypedDataV4 keccak256 (EIP712.constructor keccak256 name version chain0 this0);
|}.

(** The contract's half of the standard is not an assumption. *)
Lemma contract_library_laws keccak256 signing_hash chain0 this0 :
  (forall b, length (keccak256 b) = 32%nat) ->
  (forall domain v, signing_hash domain v
     = Eip712.typed_hash keccak256 (Eip712.hash_struct keccak256 domain) (Eip712.hash_struct keccak256 v)) ->
  @Eip712.TypedDataLaws (contract_library keccak256 signing_hash chain0 this0).
Proof. intros Hk Hs. split; [done|done|]. intros. apply EIP712.cache_exact. Qed.

(** ** The ledger *)

Module ERC20.

(** The storage of [ERC20] and of [Nonces]. *)
Record State : Type := {
  book : Contract.Ledger20;
  allowances : gmap (Address * Address) Z;
  nonces_ : gmap Address Z;
}.

Definition empty : State := {| book := {| Contract.balances := ∅; Contract.supply := 0 |}; allowances := ∅; nonces_ := ∅ |}.

Definition balanceOf (a : Address) (l : State) : Z := Contract.balanceOf a (book l).
Definition allowance (owner spender : Address) (l : State) : Z := default 0 (allowances l !! (owner, spender)).
Definition nonces (owner : Address) (l : State) : Z := default 0 (nonces_ l !! owner).

Definition with_book (b : Contract.Ledger20) (l : State) : State := {| book := b; allowances := allowances l; nonces_ := nonces_ l |}.
Definition with_allowances (m : gmap (Address * Address) Z) (l : State) : State :=
  {| book := book l; allowances := m; nonces_ := nonces_ l |}.
Definition with_nonces (m : gmap Address Z) (l : State) : State := {| book := book l; allowances := allowances l; nonces_ := m |}.

Definition _update (from to : Address) (v : Z) (l : State) : option State :=
  b ← Contract.update from to v (book l); Some (with_book b l).

Definition _transfer (from to : Address) (v : Z) (l : State) : option State :=
  if from =? 0 then None else if to =? 0 then None else _update from to v l.
Definition _mint (account : Address) (v : Z) (l : State) : option State := if account =? 0 then None else _update 0 account v l.
Definition _burn (account : Address) (v : Z) (l : State) : option State := if account =? 0 then None else _update account 0 v l.

Definition _approve (owner spender : Address) (v : Z) (l : State) : option State :=
  if owner =? 0 then None else if spender =? 0 then None
  else Some (with_allowances (<[(owner, spender) := v]> (allowances l)) l).

Definition _spendAllowance (owner spender : Address) (v : Z) (l : State) : option State :=
  let currentAllowance := allowance owner spender l in
  if currentAllowance =? u256_max then Some l
  else if currentAllowance <? v then None
  else _approve owner spender ((currentAllowance - v) mod 2 ^ 256) l.

(** The nonce before, and the state with the next one. *)
Definition _useNonce (owner : Address) (l : State) : Z * State :=
  let n := nonces owner l in (n, with_nonces (<[owner := (n + 1) mod 2 ^ 256]> (nonces_ l)) l).

(** The entry points; [sender] is [_msgSender()]. *)
Definition transfer (sender to : Address) (v : Z) (l : State) : option State := _transfer sender to v l.
Definition approve (sender spender : Address) (v : Z) (l : State) : option State := _approve sender spender v l.
Definition transferFrom (sender from to : Address) (v : Z) (l : State) : option State :=
  l ← _spendAllowance from sender v l; _transfer from to v l.
Definition burn (sender : Address) (v : Z) (l : State) : option State := _burn sender v l.
Definition burnFrom (sender account : Address) (v : Z) (l : State) : option State :=
  l ← _spendAllowance account sender v l; _burn account v l.

Section Permit.
(** The hash of typed data in this contract, and the precompile. *)
Variables (keccak256 : list Z -> list Z) (hashTypedDataV4 : list Z -> list Z) (ecrecover : list Z -> Z -> Z -> Z -> Address).

Definition PERMIT_TYPEHASH : list Z :=
  keccak256 (bytes_of "Permit(address owner,address spender,uint256 value,uint256 nonce,uint256 deadline)").

Definition permit_digest (owner spender : Address) (v nonce deadline : Z) : list Z :=
  hashTypedDataV4 (keccak256 (PERMIT_TYPEHASH ++ Oracle.addr_word owner ++ Oracle.addr_word spender ++ Oracle.w v
                              ++ Oracle.w nonce ++ Oracle.w deadline)).

Definition permit (timestamp : Z) (owner spender : Address) (v deadline sig_v sig_r sig_s : Z) (l : State) : option State :=
  if timestamp >? deadline then None
  else
    let '(nonce, l) := _useNonce owner l in
    signer ← ECDSA.recover ecrecover (permit_digest owner spender v nonce deadline) sig_v sig_r sig_s;
    if negb (signer =? owner) then None else _approve owner spender v l.

End Permit.

(** What an entry point that moves tokens does to the balances: a transfer, or a burn. *)
Definition moves (d : Z) (l l' : State) : Prop := d = 0 /\ book l' = book l \/ Contract.inherited20 d (book l) (book l').

#[global] Instance interface : Contract.Erc20 State := {
  mint := _mint;
  burn := _burn;
  totalSupply l := Contract.supply (book l);
  inherited := moves;
}.

(** The interface the contract is verified against is that of [Contract], and the library
    keeps what is asked of it there. *)
#[global] Instance interface_laws : Contract.Erc20Laws State.
Proof.
  assert (Hlift : forall from to v l l', _update from to v l = Some l' -> Contract.update from to v (book l) = Some (book l')).
  { intros from to v l l'. unfold _update. destruct (Contract.update from to v (book l)) as [b|]; [|done]. by intros [= <-]. }
  refine {| Contract.wf l := Contract.ledger_wf (book l) |}; simpl.
  - intros a v l l' Hw Hv E. apply (@Contract.supply_mint _ _ Contract.ledger20_laws a v (book l) (book l')); [done..|]. simpl. unfold _mint in E. destruct (a =? 0); [done|by apply Hlift].
  - intros a v l l' Hw Hv E. apply (@Contract.supply_burn _ _ Contract.ledger20_laws a v (book l) (book l')); [done..|]. simpl. unfold _burn in E. destruct (a =? 0); [done|by apply Hlift].
  - intros d l l' Hw [[-> E]|E].
    + rewrite E. split_and!; [done|done|lia].
    + by apply (@Contract.supply_inherited _ _ Contract.ledger20_laws d (book l) (book l')).
Defined.

(** ** What a movement does *)

(** Nothing wraps around: the balances move by the amount, those of the two accounts and no
    others. *)
Lemma update_balances from to v l l' c :
  Contract.ledger_wf l -> 0 <= v -> Contract.update from to v l = Some l' -> c <> 0 ->
  Contract.balanceOf c l' = Contract.balanceOf c l - (if from =? c then v else 0) + (if to =? c then v else 0).
Proof.
  intros Hw Hv Hu Hc. pose proof Hw as (_ & Hm & Hb). unfold Contract.update in Hu.
  pose proof (Hb to). pose proof (Contract.balance_le_supply l to Hw).
  destruct (Z.eqb_spec from 0) as [->|Hf].
  - rewrite Z.gtb_ltb in Hu. destruct (Z.ltb_spec u256_max (Contract.supply l + v)); [done|].
    rewrite (proj2 (Z.eqb_neq 0 c)) by done.
    destruct (Z.eqb_spec to 0) as [->|Ht]; injection Hu as <-.
    + rewrite (proj2 (Z.eqb_neq 0 c)) by done. unfold Contract.balanceOf. simpl. lia.
    + rewrite Contract.balanceOf_insert. change (Contract.balanceOf to {| Contract.balances := Contract.balances l; Contract.supply := Contract.supply l + v |}) with (Contract.balanceOf to l).
      rewrite Z.mod_small by (unfold u256_max in *; lia). case_decide as Ec; [subst; rewrite Z.eqb_refl; lia|].
      rewrite (proj2 (Z.eqb_neq to c)) by done. unfold Contract.balanceOf. lia.
  - destruct (Z.ltb_spec (Contract.balanceOf from l) v); [done|]. pose proof (Hb from). pose proof (Contract.balance_le_supply l from Hw).
    rewrite (Z.mod_small (Contract.balanceOf from l - v)) in Hu by (unfold u256_max in *; lia).
    pose proof (Contract.ledger_wf_move l from (- v) Hw ltac:(lia) ltac:(lia)) as Hw1.
    assert (E1 : forall c s, Contract.balanceOf c {| Contract.balances := <[from := Contract.balanceOf from l - v]> (Contract.balances l); Contract.supply := s |}
             = Contract.balanceOf c l - (if from =? c then v else 0)).
    { intros c' s. rewrite Contract.balanceOf_insert. case_decide as Ec; [subst; by rewrite Z.eqb_refl|].
      rewrite (proj2 (Z.eqb_neq from c')) by done. unfold Contract.balanceOf. lia. }
    pose proof (Contract.balance_le_supply _ to Hw1) as Hle. pose proof Hw1 as (_ & _ & Hb1). specialize (Hb1 to).
    change (Contract.balanceOf from l + - v) with (Contract.balanceOf from l - v) in Hle, Hb1. rewrite E1 in Hle, Hb1. simpl in Hle.
    destruct (Z.eqb_spec to 0) as [->|Ht]; injection Hu as <-.
    + rewrite (proj2 (Z.eqb_neq 0 c)) by done. cbn [Contract.balances Contract.supply]. rewrite E1. lia.
    + rewrite Contract.balanceOf_insert, E1, Z.mod_small by (unfold u256_max in *; lia).
      case_decide as Ec; [subst; rewrite Z.eqb_refl; lia|]. rewrite (proj2 (Z.eqb_neq to c)) by done.
      pose proof (E1 c 0) as E2. unfold Contract.balanceOf in *. simpl in *. lia.
Qed.

Lemma with_book_balance b l a : balanceOf a (with_book b l) = Contract.balanceOf a b.
Proof. done. Qed.

(** A state whose balances add up, and whose allowances and nonces are words. *)
Record ok (l : State) : Prop := {
  ok_book : Contract.ledger_wf (book l);
  ok_allowance : forall o s, is_u256 (allowance o s l);
  ok_nonce : forall o, is_u256 (nonces o l);
}.

Lemma empty_ok : ok empty.
Proof. split; [split_and!; vm_compute; done|by intros|by intros]. Qed.

(** A movement of [v] from one account to another, zero standing for minting and burning,
    that leaves the allowances and the nonces. *)
Record moved (from to : Address) (v : Z) (l l' : State) : Prop := {
  mv_ok : ok l';
  mv_balance : forall a, a <> 0 -> balanceOf a l' = balanceOf a l - (if from =? a then v else 0) + (if to =? a then v else 0);
  mv_allowances : allowances l' = allowances l;
  mv_nonces : nonces_ l' = nonces_ l;
}.

Lemma update_moved from to v l l' :
  ok l -> 0 <= v -> (from <> 0 \/ to <> 0) -> _update from to v l = Some l' -> moved from to v l l'.
Proof.
  intros [Hw Ha Hn] Hv Hne Hu. unfold _update in Hu. destruct (Contract.update from to v (book l)) as [b|] eqn:E; [|done].
  injection Hu as <-. split; [|intros a Ha0; by apply (update_balances from to v)|done|done].
  split; [|done|done]. simpl. destruct (decide (from = 0)) as [->|Hf]; [|destruct (decide (to = 0)) as [->|Ht]].
  - apply (@Contract.supply_mint _ _ Contract.ledger20_laws to v (book l) b); [done..|]. simpl.
    rewrite (proj2 (Z.eqb_neq _ _)) by naive_solver. done.
  - apply (@Contract.supply_burn _ _ Contract.ledger20_laws from v (book l) b); [done..|]. simpl. by rewrite (proj2 (Z.eqb_neq _ _) Hf).
  - by apply (Contract.transfer_wf from to v (book l) b).
Qed.

Lemma mint_moved a v l l' : ok l -> 0 <= v -> _mint a v l = Some l' -> moved 0 a v l l'.
Proof. unfold _mint. destruct (Z.eqb_spec a 0); [done|]. intros. apply update_moved; auto. Qed.

Lemma burn_moved a v l l' : ok l -> 0 <= v -> _burn a v l = Some l' -> a <> 0 /\ moved a 0 v l l'.
Proof. unfold _burn. destruct (Z.eqb_spec a 0); [done|]. intros. split; [done|]. apply update_moved; auto. Qed.

Lemma transfer_moved a b v l l' : ok l -> 0 <= v -> _transfer a b v l = Some l' -> a <> 0 /\ b <> 0 /\ moved a b v l l'.
Proof. unfold _transfer. destruct (Z.eqb_spec a 0), (Z.eqb_spec b 0); try done. intros. split_and!; [done..|]. apply update_moved; auto. Qed.

Lemma approve_spec o s v l l' :
  _approve o s v l = Some l' ->
  o <> 0 /\ s <> 0 /\ book l' = book l /\ nonces_ l' = nonces_ l /\
  forall o' s', allowance o' s' l' = if decide (o = o' /\ s = s') then v else allowance o' s' l.
Proof.
  unfold _approve. destruct (Z.eqb_spec o 0), (Z.eqb_spec s 0); try done. intros [= <-]. split_and!; [done..|].
  intros o' s'. unfold allowance. simpl. case_decide as E; [destruct E as [-> ->]; by rewrite lookup_insert_eq|].
  rewrite lookup_insert_ne; [done|]. intros [= -> ->]. naive_solver.
Qed.

Lemma approve_ok o s v l l' : ok l -> is_u256 v -> _approve o s v l = Some l' -> ok l'.
Proof.
  intros [Hw Ha Hn] Hv (_ & _ & Eb & En & Eal)%approve_spec. split; [by rewrite Eb| |].
  - intros o' s'. rewrite Eal. by case_decide.
  - intros o'. unfold nonces. rewrite En. apply Hn.
Qed.

(** Spending takes the amount off the allowance, unless that is unlimited. *)
Lemma spend_spec o s v l l' :
  ok l -> is_u256 v -> _spendAllowance o s v l = Some l' ->
  ok l' /\ book l' = book l /\ nonces_ l' = nonces_ l /\ v <= allowance o s l /\
  allowance o s l' = (if allowance o s l =? u256_max then u256_max else allowance o s l - v) /\
  forall o' s', ~ (o = o' /\ s = s') -> allowance o' s' l' = allowance o' s' l.
Proof.
  intros Hok Hv. pose proof (ok_allowance l Hok o s) as Hr. unfold _spendAllowance.
  destruct (Z.eqb_spec (allowance o s l) u256_max) as [Em|Em].
  - intros [= <-]. split_and!; try done. unfold in_range in *. lia.
  - destruct (Z.ltb_spec (allowance o s l) v); [done|]. rewrite Z.mod_small by (unfold in_range, u256_max in *; lia). intros Ha.
    split; [eapply approve_ok; [done| |exact Ha]; unfold in_range in *; lia|].
    apply approve_spec in Ha as (_ & _ & Hb & Hn & Ha). split_and!; [done..| |].
    + rewrite Ha, decide_True by done. done.
    + intros o' s' Hne. by rewrite Ha, decide_False.
Qed.


End ERC20.

End OpenZeppelin.
