(* ===== verification/MiningPoolToken.v ===== *)
(** The token contract as it is deployed (contracts/src/MiningPoolToken.sol with everything it
    inherits): its constructor, and every external function that changes its state, with the
    logs it writes.

    [Contract] has the functions of the contract itself over an interface of the inherited
    ledger, [OpenZeppelin] the inherited code.  Here a call names its function and its
    arguments and is run in the environment of a transaction. *)
From S2P Require Import Prelude Text Hex Effects Redis Store Oracle Contract Voucher Signer Solvency Eip712 OpenZeppelin.
Import OpenZeppelin.

Module MiningPoolToken.

Record Deployed : Type := {
  token : Contract.Token ERC20.State;
  domain : EIP712.Cache;
  pair : Address;
}.

Record msg : Type := { sender : Address; mvalue : Z; timestamp : Z }.

Inductive call : Type :=
| CTransfer (to : Address) (v : Z)
| CApprove (spender : Address) (v : Z)
| CTransferFrom (from to : Address) (v : Z)
| CBurn (v : Z)
| CBurnFrom (account : Address) (v : Z)
| CPermit (owner spender : Address) (v deadline sig_v sig_r sig_s : Z)
| CTransferOwnership (newOwner : Address)
| CRenounceOwnership
| CSetRedemptionGasSubsidy (newSubsidy : Z)
| CSetSigner (signer : Address)
| CClaim (user : Address) (cumulativeAmount signedAt : Z) (sig : list Z)
| CRedeem (amount : Z) (xmrAddress : string)
| CMarkProcessed (id : Z) (moneroTxid : string) (newRestoreHeight : Z).

Inductive log : Type :=
| Transfer (from to : Address) (v : Z)
| Approval (owner spender : Address) (v : Z)
| OwnershipTransferred (previousOwner newOwner : Address)
| SignerUpdated (signer : Address)
| Claimed (user : Address) (delta newCumulative : Z)
| Redemption (user : Address) (amount : Z) (xmrAddress : string) (id : Z)
| RedemptionProcessed (id : Z) (moneroTxid : string)
| RedemptionGasSubsidyUpdated (newSubsidy : Z)
| RestoreHeightUpdated (height : Z).

Definition payable (c : call) : bool := match c with CRedeem _ _ => true | _ => false end.

Definition with_token (t : Contract.Token ERC20.State) (D : Deployed) : Deployed :=
  {| token := t; domain := domain D; pair := pair D |}.

(** The exchange the constructor asks for the pair; a call that reverts is [None]. *)
Class Uniswap := {
  factory : Address -> option Address;
  WETH : Address -> option Address;
  getPair : Address -> Address -> Address -> option Address;
  createPair : Address -> Address -> Address -> option Address;
}.

Section Contract.
(** The chain: keccak-256, the precompile, its id, the address of the contract, and whether
    an account takes a value sent to it. *)
Variables (keccak256 : list Z -> list Z) (ecrecover : list Z -> Z -> Z -> Z -> Address).
Variables (chainid : Z) (this : Address) (takes : Address -> Z -> bool).

Definition find_pair `{Uniswap} (router : Address) : option Address :=
  if router =? 0 then Some 0
  else
    f ← factory router;
    weth ← WETH router;
    existing ← getPair f this weth;
    if negb (existing =? 0) then Some existing else createPair f this weth.

Definition constructor `{Uniswap} (deployer signer_ redemptionGasSubsidy_ uniswapRouter : Address) : option (Deployed * list log) :=
  if deployer =? 0 then None
  else
    p ← find_pair uniswapRouter;
    Some ({| token := {| Contract.erc20 := ERC20.empty; Contract.authorizedSigner := signer_; Contract.claimed := ∅;
                         Contract.redemptions := ∅; Contract.nextRedemptionId := 0; Contract.processed := ∅;
                         Contract.payoutTxid := ∅; Contract.restoreHeight := 0;
                         Contract.redemptionGasSubsidy := redemptionGasSubsidy_; Contract.owner := deployer |};
             domain := EIP712.constructor keccak256 "MiningPoolToken" "1" chainid this;
             pair := p |},
          [OwnershipTransferred 0 deployer; SignerUpdated signer_; RedemptionGasSubsidyUpdated redemptionGasSubsidy_]).

Definition hashTypedData (D : Deployed) : list Z -> list Z := EIP712.hashTypedDataV4 keccak256 (domain D) chainid this.

Definition VOUCHER_TYPEHASH : list Z := keccak256 (bytes_of "Voucher(address user,uint256 cumulativeAmount,uint256 signedAt)").

(** The signer of a voucher. *)
Definition voucher_signer (D : Deployed) (user : Address) (cumulativeAmount signedAt : Z) (sig : list Z) : option Address :=
  let structHash := keccak256 (VOUCHER_TYPEHASH ++ Oracle.addr_word user ++ Oracle.w cumulativeAmount ++ Oracle.w signedAt) in
  ECDSA.recover_bytes ecrecover (hashTypedData D structHash) sig.

Definition erc20_of (D : Deployed) : ERC20.State := Contract.erc20 (token D).

(** An inherited function, which changes nothing but the ledger. *)
Definition on_erc20 (D : Deployed) (r : option ERC20.State) (logs : list log) : option (Deployed * list log) :=
  e ← r; Some (with_token (Contract.with_erc20 e (token D)) D, logs).

(** A function of the contract. *)
Definition on_token (D : Deployed) (r : option (Contract.Token ERC20.State)) (logs : list log) : option (Deployed * list log) :=
  t ← r; Some (with_token t D, logs).

Definition mark_logs (id : Z) (moneroTxid : string) (newRestoreHeight : Z) (t : Contract.Token ERC20.State) : list log :=
  (if newRestoreHeight >? Contract.restoreHeight t then [RestoreHeightUpdated newRestoreHeight] else []) ++
  (if Contract.is_processed id t then [] else [RedemptionProcessed id moneroTxid]).

Definition exec (m : msg) (c : call) (D : Deployed) : option (Deployed * list log) :=
  let me := sender m in
  let e := erc20_of D in
  let t := token D in
  if negb (payable c) && negb (mvalue m =? 0) then None
  else match c with
  | CTransfer to v => on_erc20 D (ERC20.transfer me to v e) [Transfer me to v]
  | CApprove spender v => on_erc20 D (ERC20.approve me spender v e) [Approval me spender v]
  | CTransferFrom from to v => on_erc20 D (ERC20.transferFrom me from to v e) [Transfer from to v]
  | CBurn v => on_erc20 D (ERC20.burn me v e) [Transfer me 0 v]
  | CBurnFrom account v => on_erc20 D (ERC20.burnFrom me account v e) [Transfer account 0 v]
  | CPermit owner spender v deadline sig_v sig_r sig_s =>
      on_erc20 D (ERC20.permit keccak256 (hashTypedData D) ecrecover (timestamp m) owner spender v deadline sig_v sig_r sig_s e)
        [Approval owner spender v]
  | CTransferOwnership newOwner => on_token D (Contract.transferOwnership me newOwner t) [OwnershipTransferred (Contract.owner t) newOwner]
  | CRenounceOwnership => on_token D (Contract.renounceOwnership me t) [OwnershipTransferred (Contract.owner t) 0]
  | CSetRedemptionGasSubsidy newSubsidy => on_token D (Contract.setRedemptionGasSubsidy me newSubsidy t) [RedemptionGasSubsidyUpdated newSubsidy]
  | CSetSigner signer => on_token D (Contract.setSigner me signer t) [SignerUpdated signer]
  | CClaim user cumulativeAmount signedAt sig =>
      match Contract.claim (voucher_signer D) user cumulativeAmount signedAt sig t with
      | Some (delta, t') => Some (with_token t' D, [Transfer 0 user delta; Claimed user delta cumulativeAmount])
      | None => None
      end
  | CRedeem amount xmrAddress =>
      match Contract.redeem me (mvalue m) amount xmrAddress (takes (Contract.authorizedSigner t) (mvalue m)) t with
      | Some (id, t') => Some (with_token t' D, [Transfer me 0 amount; Redemption me amount xmrAddress id])
      | None => None
      end
  | CMarkProcessed id moneroTxid newRestoreHeight =>
      on_token D (Contract.markProcessed me id moneroTxid newRestoreHeight t) (mark_logs id moneroTxid newRestoreHeight t)
  end.

(** Transactions one after the other; one that reverts changes nothing.  The calls that went
    through, with their logs. *)
Definition entry : Type := msg * call * list log.

Fixpoint run (txs : list (msg * call)) (D : Deployed) : Deployed * list entry :=
  match txs with
  | [] => (D, [])
  | (m, c) :: txs =>
      match exec m c D with
      | Some (D1, logs) => let '(D', ex) := run txs D1 in (D', (m, c, logs) :: ex)
      | None => run txs D
      end
  end.

End Contract.

(** ** Reading a run *)

(** The arguments are words. *)
Definition typed (c : call) : Prop :=
  match c with
  | CTransfer _ v | CApprove _ v | CTransferFrom _ _ v | CBurn v | CBurnFrom _ v | CPermit _ _ v _ _ _ _ | CRedeem v _ => is_u256 v
  | CClaim _ v at_ _ => is_u256 v /\ is_u256 at_
  | CMarkProcessed id _ h => is_u256 id /\ is_u256 h
  | CTransferOwnership _ | CRenounceOwnership | CSetRedemptionGasSubsidy _ | CSetSigner _ => True
  end.

(** What a call brought an account, by its logs; what the account spent by its own call; and
    what a spender took from it. *)
Definition received (a : Address) (logs : list log) : Z :=
  foldr (fun l acc => match l with Transfer _ to v => if to =? a then v else 0 | _ => 0 end + acc) 0 logs.
Definition spent (a : Address) (m : msg) (c : call) : Z :=
  match c with
  | CTransfer _ v | CBurn v | CRedeem v _ => if sender m =? a then v else 0
  | _ => 0
  end.
Definition taken (a s : Address) (m : msg) (c : call) : Z :=
  match c with
  | CTransferFrom from _ v | CBurnFrom from v => if (from =? a) && (sender m =? s) then v else 0
  | _ => 0
  end.
Definition taken_by_any (a : Address) (c : call) : Z :=
  match c with CTransferFrom from _ v | CBurnFrom from v => if from =? a then v else 0 | _ => 0 end.

(** The allowance a call gives a spender over an account. *)
Definition grant (a s : Address) (m : msg) (c : call) : option Z :=
  match c with
  | CApprove spender v => if (sender m =? a) && (spender =? s) then Some v else None
  | CPermit owner spender v _ _ _ _ => if (owner =? a) && (spender =? s) then Some v else None
  | _ => None
  end.
Definition permits (a : Address) (c : call) : Z :=
  match c with CPermit owner _ _ _ _ _ _ => if owner =? a then 1 else 0 | _ => 0 end.

(** ** One call *)

Section Step.
Variables (keccak256 : list Z -> list Z) (ecrecover : list Z -> Z -> Z -> Z -> Address).
Variables (chainid : Z) (this : Address) (takes : Address -> Z -> bool).
Implicit Types D : Deployed.

Abbreviation exec := (exec keccak256 ecrecover chainid this takes).

(** The holder asked for it: by the call, or by a signature over it with a nonce. *)
Definition asked (a s : Address) (v nonce : Z) (D : Deployed) (m : msg) (c : call) : Prop :=
  c = CApprove s v /\ sender m = a \/
  exists deadline sig_v sig_r sig_s, c = CPermit a s v deadline sig_v sig_r sig_s /\ timestamp m <= deadline /\
    ECDSA.recover ecrecover (ERC20.permit_digest keccak256 (hashTypedData keccak256 chainid this D) a s v nonce deadline)
      sig_v sig_r sig_s = Some a.

(** A call takes from an account only what the account or a spender it chose asks for. *)
Record accounted (m : msg) (c : call) (logs : list log) D D' : Prop := {
  acc_ok : ERC20.ok (erc20_of D');
  acc_domain : domain D' = domain D;
  acc_balance : forall a, a <> 0 ->
    ERC20.balanceOf a (erc20_of D') = ERC20.balanceOf a (erc20_of D) + received a logs - spent a m c - taken_by_any a c;
  acc_allowance : forall a s,
    (ERC20.allowance a s (erc20_of D) <> u256_max -> grant a s m c <> Some u256_max ->
     ERC20.allowance a s (erc20_of D') <> u256_max /\
     taken a s m c + ERC20.allowance a s (erc20_of D') <= ERC20.allowance a s (erc20_of D) + default 0 (grant a s m c));
  acc_nonce : forall a, ERC20.nonces a (erc20_of D') = (ERC20.nonces a (erc20_of D) + permits a c) mod 2 ^ 256;
  acc_asked : forall a s v, grant a s m c = Some v -> asked a s v (ERC20.nonces a (erc20_of D)) D m c;
}.

Lemma nonce_same D a : ERC20.ok (erc20_of D) -> ERC20.nonces a (erc20_of D) = (ERC20.nonces a (erc20_of D) + 0) mod 2 ^ 256.
Proof. intros Hok. pose proof (ERC20.ok_nonce _ Hok a). rewrite Z.add_0_r, Z.mod_small; [done|]. unfold in_range, u256_max in *. lia. Qed.

(** A call that moves nothing and gives no allowance. *)
Lemma idle_accounted m c logs D D' :
  ERC20.ok (erc20_of D) -> erc20_of D' = erc20_of D -> domain D' = domain D ->
  (forall a, received a logs = 0) -> (forall a, spent a m c = 0) -> (forall a, taken_by_any a c = 0) ->
  (forall a s, taken a s m c = 0) -> (forall a s, grant a s m c = None) -> (forall a, permits a c = 0) ->
  accounted m c logs D D'.
Proof.
  intros Hok E Ed Hr Hs Ht Hts Hg Hp. split; rewrite ?E; try done.
  - intros a _. rewrite Hr, Hs, Ht. lia.
  - intros a s Hne _. rewrite Hts, Hg. simpl. split; [done|lia].
  - intros a. rewrite Hp. by apply nonce_same.
  - intros a s v. by rewrite Hg.
Qed.

(** A movement by the holder's own call, or by minting. *)
Lemma moved_accounted m c logs D D' from to v :
  ERC20.ok (erc20_of D) -> ERC20.moved from to v (erc20_of D) (erc20_of D') -> domain D' = domain D ->
  (forall a, a <> 0 -> received a logs = if to =? a then v else 0) ->
  (forall a, a <> 0 -> spent a m c = if from =? a then v else 0) -> (forall a, taken_by_any a c = 0) ->
  (forall a s, taken a s m c = 0) -> (forall a s, grant a s m c = None) -> (forall a, permits a c = 0) ->
  accounted m c logs D D'.
Proof.
  intros Hok [Hok' Hb Ha Hn] Ed Hr Hs Ht Hts Hg Hp. split; try done.
  - intros a Ha0. rewrite Hb, Hr, Hs, Ht by done. lia.
  - intros a s. unfold ERC20.allowance. rewrite Ha, Hts, Hg. simpl. intros; split; [done|lia].
  - intros a. unfold ERC20.nonces. rewrite Hn, Hp. by apply nonce_same.
  - intros a s v'. by rewrite Hg.
Qed.

(** A movement by a spender. *)
Lemma taken_accounted m c logs D D' l from to v :
  ERC20.ok (erc20_of D) -> is_u256 v -> ERC20._spendAllowance from (sender m) v (erc20_of D) = Some l ->
  ERC20.moved from to v l (erc20_of D') -> domain D' = domain D ->
  (forall a, a <> 0 -> received a logs = if to =? a then v else 0) ->
  (forall a, spent a m c = 0) -> (forall a, taken_by_any a c = if from =? a then v else 0) ->
  (forall a s, taken a s m c = if (from =? a) && (sender m =? s) then v else 0) ->
  (forall a s, grant a s m c = None) -> (forall a, permits a c = 0) ->
  accounted m c logs D D'.
Proof.
  intros Hok Hv Hsp [Hok' Hb Ha Hn] Ed Hr Hs Ht Hts Hg Hp.
  apply ERC20.spend_spec in Hsp as (_ & Eb & En & Hle & Hal & Hother); [|done..]. split; try done.
  - intros a Ha0. rewrite Hb, Hr, Hs, Ht by done. unfold ERC20.balanceOf. rewrite Eb. lia.
  - intros a s Hne _. rewrite Hts, Hg. simpl.
    assert (E : ERC20.allowance a s (erc20_of D') = ERC20.allowance a s l) by (unfold ERC20.allowance; by rewrite Ha). rewrite E.
    destruct (Z.eqb_spec from a) as [->|Hf]; [destruct (Z.eqb_spec (sender m) s) as [<-|Hs']|]; simpl.
    + rewrite (proj2 (Z.eqb_neq _ _) Hne) in Hal. pose proof (ERC20.ok_allowance _ Hok a (sender m)). rewrite Hal.
      unfold in_range, u256_max in *. lia.
    + rewrite Hother by naive_solver. split; [done|lia].
    + rewrite Hother by naive_solver. split; [done|lia].
  - intros a. unfold ERC20.nonces. rewrite Hn, En, Hp. by apply nonce_same.
  - intros a s v'. by rewrite Hg.
Qed.

Lemma on_erc20_inv D r logs D' logs' :
  on_erc20 D r logs = Some (D', logs') -> r = Some (erc20_of D') /\ domain D' = domain D /\ logs' = logs /\
  token D' = Contract.with_erc20 (erc20_of D') (token D).
Proof. unfold on_erc20. destruct r as [e|]; [|done]. by intros [= <- <-]. Qed.

Lemma on_token_inv D r logs D' logs' :
  on_token D r logs = Some (D', logs') -> r = Some (token D') /\ domain D' = domain D /\ logs' = logs.
Proof. unfold on_token. destruct r as [t|]; [|done]. by intros [= <- <-]. Qed.

Lemma redeem_burns a v amt x f (t : Contract.Token ERC20.State) id t' :
  Contract.redeem a v amt x f t = Some (id, t') -> ERC20._burn a amt (Contract.erc20 t) = Some (Contract.erc20 t').
Proof.
  unfold Contract.redeem. case_ifs; try done. simpl. destruct (ERC20._burn _ _ _) as [e|]; [|done]. case_ifs; try done. by intros [= <- <-].
Qed.

Lemma mark_erc20 a id x h (t t' : Contract.Token ERC20.State) : Contract.markProcessed a id x h t = Some t' -> Contract.erc20 t' = Contract.erc20 t.
Proof. unfold Contract.markProcessed. case_ifs; try done; by intros [= <-]. Qed.

Lemma admin_erc20 a (t t' : Contract.Token ERC20.State) : Contract.admin a t t' -> Contract.erc20 t' = Contract.erc20 t.
Proof. by intros (_ & s & v & o & ->). Qed.

Lemma word_mod z : is_u256 (z mod 2 ^ 256).
Proof. pose proof (Z.mod_pos_bound z (2 ^ 256) ltac:(lia)). unfold in_range, u256_max. lia. Qed.

(** An allowance set to what was granted. *)
Lemma granted_bound o s a s' v A :
  is_u256 A -> A <> u256_max -> (if (o =? a) && (s =? s') then Some v else None) <> Some u256_max ->
  let A' := if decide (o = a /\ s = s') then v else A in
  A' <> u256_max /\ 0 + A' <= A + default 0 (if (o =? a) && (s =? s') then Some v else None).
Proof.
  intros HA Hne. destruct (Z.eqb_spec o a) as [->|]; [destruct (Z.eqb_spec s s') as [->|]|]; simpl; intros Hm.
  - rewrite decide_True by done. split; [congruence|]. unfold in_range in *. lia.
  - rewrite decide_False by naive_solver. split; [done|lia].
  - rewrite decide_False by naive_solver. split; [done|lia].
Qed.

Lemma permit_accounted m o s v dl sv sr ss D D' logs :
  ERC20.ok (erc20_of D) -> is_u256 v ->
  exec m (CPermit o s v dl sv sr ss) D = Some (D', logs) -> accounted m (CPermit o s v dl sv sr ss) logs D D'.
Proof.
  intros Hok Hv. unfold MiningPoolToken.exec. destruct (_ && _); [done|]. intros (Hp & Ed & -> & _)%on_erc20_inv.
  unfold ERC20.permit in Hp. rewrite Z.gtb_ltb in Hp. destruct (Z.ltb_spec dl (timestamp m)); [done|]. cbn [ERC20._useNonce] in Hp.
  destruct (ECDSA.recover _ _ _ _ _) as [signer|] eqn:Er; [|done]. simpl in Hp.
  destruct (Z.eqb_spec signer o) as [->|]; [|done]. simpl in Hp.
  set (l := ERC20.with_nonces _ _) in Hp.
  assert (Hl : ERC20.ok l).
  { destruct Hok as [Hw Ha Hn]. split; [done|done|]. intros a. unfold l, ERC20.nonces. simpl.
    destruct (decide (o = a)) as [->|]; [rewrite lookup_insert_eq; apply word_mod|].
    rewrite lookup_insert_ne by done. apply Hn. }
  pose proof (ERC20.approve_ok _ _ _ _ _ Hl Hv Hp) as Hok'. apply ERC20.approve_spec in Hp as (Ho & _ & Eb & En & Ea).
  split; try done.
  - intros a _. unfold ERC20.balanceOf. rewrite Eb. simpl. lia.
  - intros a s' Hne. simpl. rewrite Ea. change (ERC20.allowance a s' l) with (ERC20.allowance a s' (erc20_of D)).
    by apply granted_bound; [apply (ERC20.ok_allowance _ Hok)|].
  - intros a. unfold ERC20.nonces at 1. rewrite En. simpl. destruct (Z.eqb_spec o a) as [->|Hne].
    + rewrite lookup_insert_eq. done.
    + rewrite lookup_insert_ne by done. by apply nonce_same.
  - intros a s' v' Hg. simpl in Hg. destruct (Z.eqb_spec o a) as [->|]; [|done]. destruct (Z.eqb_spec s s') as [->|]; [|done].
    simplify_eq/=. right. exists dl, sv, sr, ss. split_and!; [done|done|exact Er].
Qed.

Lemma approve_accounted m s v D D' logs :
  ERC20.ok (erc20_of D) -> is_u256 v -> exec m (CApprove s v) D = Some (D', logs) -> accounted m (CApprove s v) logs D D'.
Proof.
  intros Hok Hv. unfold MiningPoolToken.exec. destruct (_ && _); [done|]. intros (Hp & Ed & -> & _)%on_erc20_inv.
  pose proof (ERC20.approve_ok _ _ _ _ _ Hok Hv Hp) as Hok'. apply ERC20.approve_spec in Hp as (Ho & _ & Eb & En & Ea). split; try done.
  - intros a _. unfold ERC20.balanceOf. rewrite Eb. simpl. lia.
  - intros a s' Hne. simpl. rewrite Ea.
    by apply granted_bound; [apply (ERC20.ok_allowance _ Hok)|].
  - intros a. unfold ERC20.nonces at 1. rewrite En. by apply nonce_same.
  - intros a s' v' Hg. simpl in Hg. destruct (Z.eqb_spec (sender m) a) as [<-|]; [|done]. destruct (Z.eqb_spec s s') as [->|]; [|done].
    simplify_eq/=. by left.
Qed.

(** A function of the owner leaves the ledger. *)
Ltac admin_idle Hm :=
  eapply Contract.onlyOwner_admin in Hm; [|intros ?; eauto]; apply admin_erc20 in Hm; by apply idle_accounted.

(** Every function of the contract. *)
Lemma exec_accounted m c D D' logs :
  ERC20.ok (erc20_of D) -> typed c -> exec m c D = Some (D', logs) -> accounted m c logs D D'.
Proof.
  intros Hok Ht E. destruct c; try (by apply permit_accounted || by apply approve_accounted);
    unfold MiningPoolToken.exec in E; destruct (_ && _); try done; simpl in Ht.
  - apply on_erc20_inv in E as (Hm & Ed & -> & _). apply ERC20.transfer_moved in Hm as (_ & _ & Hm); [|done|apply Ht].
    eapply moved_accounted; [done|exact Hm|done|..]; intros; simpl; try done. lia.
  - apply on_erc20_inv in E as (Hm & Ed & -> & _). unfold ERC20.transferFrom in Hm. destruct (ERC20._spendAllowance _ _ _ _) as [l|] eqn:Es; [|done].
    pose proof (ERC20.spend_spec _ _ _ _ _ Hok Ht Es) as (Hl & _). apply ERC20.transfer_moved in Hm as (_ & _ & Hm); [|done|apply Ht].
    eapply taken_accounted; [done|exact Ht|exact Es|exact Hm|done|..]; intros; simpl; try done. lia.
  - apply on_erc20_inv in E as (Hm & Ed & -> & _). apply ERC20.burn_moved in Hm as (_ & Hm); [|done|apply Ht].
    eapply moved_accounted; [done|exact Hm|done|..]; intros; cbn -[Z.eqb]; try done. lia.
  - apply on_erc20_inv in E as (Hm & Ed & -> & _). unfold ERC20.burnFrom in Hm. destruct (ERC20._spendAllowance _ _ _ _) as [l|] eqn:Es; [|done].
    pose proof (ERC20.spend_spec _ _ _ _ _ Hok Ht Es) as (Hl & _). apply ERC20.burn_moved in Hm as (_ & Hm); [|done|apply Ht].
    eapply taken_accounted; [done|exact Ht|exact Es|exact Hm|done|..]; intros; cbn -[Z.eqb]; try done. lia.
  - apply on_token_inv in E as (Hm & Ed & ->). unfold Contract.transferOwnership in Hm. destruct (newOwner =? 0); [done|]. admin_idle Hm.
  - apply on_token_inv in E as (Hm & Ed & ->). admin_idle Hm.
  - apply on_token_inv in E as (Hm & Ed & ->). admin_idle Hm.
  - apply on_token_inv in E as (Hm & Ed & ->). admin_idle Hm.
  - destruct (Contract.claim _ _ _ _ _ _) as [[delta t']|] eqn:Ec; [|done]. injection E as <- <-.
    apply Contract.claim_inv in Ec as (_ & Hlt & -> & Hm & _). apply ERC20.mint_moved in Hm; [|done|lia].
    eapply moved_accounted; [done|exact Hm|done|..]; intros; cbn -[Z.eqb]; try done; [lia|]. by rewrite (proj2 (Z.eqb_neq _ _)).
  - destruct (Contract.redeem _ _ _ _ _ _) as [[id t']|] eqn:Er; [|done]. injection E as <- <-.
    apply redeem_burns in Er. apply ERC20.burn_moved in Er as (_ & Hm); [|done|apply Ht].
    eapply moved_accounted; [done|exact Hm|done|..]; intros; cbn -[Z.eqb]; try done. lia.
  - apply on_token_inv in E as (Hm & Ed & ->). apply mark_erc20 in Hm. apply idle_accounted; try done.
    intros a. unfold mark_logs. by case_ifs.
Qed.

End Step.

(** ** Runs *)

Definition total (f : entry -> Z) (ex : list entry) : Z := foldr (fun e acc => f e + acc) 0 ex.

Definition e_received (a : Address) (e : entry) : Z := received a e.2.
Definition e_spent (a : Address) (e : entry) : Z := spent a e.1.1 e.1.2.
Definition e_taken_by_any (a : Address) (e : entry) : Z := taken_by_any a e.1.2.
Definition e_taken (a s : Address) (e : entry) : Z := taken a s e.1.1 e.1.2.
Definition e_grant (a s : Address) (e : entry) : option Z := grant a s e.1.1 e.1.2.
Definition e_permits (a : Address) (e : entry) : Z := permits a e.1.2.

Section Runs.
Variables (keccak256 : list Z -> list Z) (ecrecover : list Z -> Z -> Z -> Z -> Address).
Variables (chainid : Z) (this : Address) (takes : Address -> Z -> bool).
Implicit Types D : Deployed.

Abbreviation exec := (exec keccak256 ecrecover chainid this takes).
Abbreviation run := (run keccak256 ecrecover chainid this takes).
Abbreviation asked := (asked keccak256 ecrecover chainid this).

Lemma asked_domain a s v n D D' m c : domain D' = domain D -> asked a s v n D' m c -> asked a s v n D m c.
Proof. unfold MiningPoolToken.asked, hashTypedData. by intros ->. Qed.

(** What holds of the calls that went through, from a state to a state. *)
Record books (a : Address) (ex : list entry) D D' : Prop := {
  bk_ok : ERC20.ok (erc20_of D');
  bk_domain : domain D' = domain D;
  bk_balance : a <> 0 -> ERC20.balanceOf a (erc20_of D')
    = ERC20.balanceOf a (erc20_of D) + total (e_received a) ex - total (e_spent a) ex - total (e_taken_by_any a) ex;
  bk_allowance : forall s, ERC20.allowance a s (erc20_of D) <> u256_max -> Forall (fun e => e_grant a s e <> Some u256_max) ex ->
    total (e_taken a s) ex + ERC20.allowance a s (erc20_of D')
    <= ERC20.allowance a s (erc20_of D) + total (fun e => default 0 (e_grant a s e)) ex;
  bk_asked : forall ex1 e ex2 s v, ex = ex1 ++ e :: ex2 -> e_grant a s e = Some v ->
    asked a s v ((ERC20.nonces a (erc20_of D) + total (e_permits a) ex1) mod 2 ^ 256) D e.1.1 e.1.2;
}.

Lemma books_nil a D : ERC20.ok (erc20_of D) -> books a [] D D.
Proof.
  intros Hok. split; simpl; try done; intros; [lia|lia|].
  match goal with E : [] = _ |- _ => by apply app_cons_not_nil in E end.
Qed.

Lemma books_cons a m c logs ex D D1 D' :
  accounted keccak256 ecrecover chainid this m c logs D D1 -> ERC20.ok (erc20_of D) -> books a ex D1 D' ->
  books a ((m, c, logs) :: ex) D D'.
Proof.
  intros [_ Hd1 Hb1 Ha1 Hn1 Hk1] Hok [Hok' Hd Hb Ha Hk]. split; [done|congruence|..].
  - intros Ha0. rewrite Hb, Hb1 by done. unfold e_received at 2, e_spent at 2, e_taken_by_any at 2, total. simpl. unfold e_received, e_spent, e_taken_by_any. lia.
  - intros s Hne Hf. inversion Hf as [|? ? Hg Hf']; subst. destruct (Ha1 a s Hne Hg) as [Hne1 Hle1]. specialize (Ha s Hne1 Hf').
    unfold total in *. simpl. change (e_taken a s (m, c, logs)) with (taken a s m c). change (e_grant a s (m, c, logs)) with (grant a s m c). lia.
  - intros ex1 e ex2 s v Eex Hg. destruct ex1 as [|e1 ex1]; simplify_eq/=.
    + rewrite Z.add_0_r, Z.mod_small; [by apply Hk1|]. pose proof (ERC20.ok_nonce _ Hok a). unfold in_range, u256_max in *. lia.
    + eapply asked_domain; [exact Hd1|]. specialize (Hk ex1 e ex2 s v eq_refl Hg). rewrite Hn1, Zplus_mod_idemp_l in Hk.
      rewrite Z.add_assoc. exact Hk.
Qed.

Lemma run_accounted a txs D D' ex :
  ERC20.ok (erc20_of D) -> Forall (fun x => typed x.2) txs -> run txs D = (D', ex) -> books a ex D D'.
Proof.
  intros Hok Ht. revert D Hok D' ex. induction Ht as [|[m c] txs Hc _ IH]; intros D Hok D' ex E; simpl in E.
  - simplify_eq. by apply books_nil.
  - destruct (exec m c D) as [[D1 logs]|] eqn:Ex; [|by apply IH]. destruct (run txs D1) as [D2 ex2] eqn:Er. simplify_eq.
    pose proof (exec_accounted _ _ _ _ _ _ _ _ _ _ Hok Hc Ex) as Hacc. eapply books_cons; [exact Hacc|done|]. apply IH; [apply Hacc|done].
Qed.

(** C7: the tokens of a holder are the holder's.  Over any sequence of transactions of anyone,
    a holder's balance is what it was, with what the logs say came in, less what the holder's
    own calls sent, burned or redeemed and what spenders took; a spender takes at most the
    allowances the holder gave in that time and what was left of the ones before (if none of
    them is the unlimited one); and every allowance was given by a call of the holder, or by
    a permit the holder signed for it, each under a nonce of its own. *)
Theorem holders_protected txs D D' ex a :
  ERC20.ok (erc20_of D) -> Forall (fun x => typed x.2) txs -> a <> 0 -> run txs D = (D', ex) ->
  ERC20.balanceOf a (erc20_of D')
    = ERC20.balanceOf a (erc20_of D) + total (e_received a) ex - total (e_spent a) ex - total (e_taken_by_any a) ex /\
  (forall s, ERC20.allowance a s (erc20_of D) <> u256_max -> Forall (fun e => e_grant a s e <> Some u256_max) ex ->
     total (e_taken a s) ex <= ERC20.allowance a s (erc20_of D) + total (fun e => default 0 (e_grant a s e)) ex) /\
  (forall ex1 e ex2 s v, ex = ex1 ++ e :: ex2 -> e_grant a s e = Some v ->
     asked a s v ((ERC20.nonces a (erc20_of D) + total (e_permits a) ex1) mod 2 ^ 256) D e.1.1 e.1.2).
Proof.
  intros Hok Ht Ha E. destruct (run_accounted a _ _ _ _ Hok Ht E) as [Hok' _ Hb Hal Hk]. split_and!; [by apply Hb| |done].
  intros s Hne Hf. specialize (Hal s Hne Hf). pose proof (ERC20.ok_allowance _ Hok' a s). unfold in_range in *. lia.
Qed.

End Runs.

(** ** The contract behind the interface *)

(** What a call burns outside a redemption. *)
Definition burned (c : call) : Z := match c with CBurn v | CBurnFrom _ v => v | _ => 0 end.
Definition e_burned (e : entry) : Z := burned e.1.2.

Section Refinement.
Variables (keccak256 : list Z -> list Z) (ecrecover : list Z -> Z -> Z -> Z -> Address).
Variables (chainid : Z) (this : Address) (takes : Address -> Z -> bool).
Implicit Types D : Deployed.

Abbreviation exec := (exec keccak256 ecrecover chainid this takes).
Abbreviation run := (run keccak256 ecrecover chainid this takes).
Abbreviation voucher_signer := (voucher_signer keccak256 ecrecover chainid this).

Lemma voucher_signer_domain D D' : domain D' = domain D -> voucher_signer D' = voucher_signer D.
Proof. unfold MiningPoolToken.voucher_signer, hashTypedData. by intros ->. Qed.

Lemma spend_book o s v l l' : ERC20._spendAllowance o s v l = Some l' -> ERC20.book l' = ERC20.book l.
Proof. unfold ERC20._spendAllowance, ERC20._approve. case_ifs; intros; by simplify_eq. Qed.

Lemma transfer_moves a b v l l' k : 0 <= v -> ERC20.book k = ERC20.book l -> ERC20._transfer a b v l = Some l' -> ERC20.moves 0 k l'.
Proof.
  intros Hv Eb. unfold ERC20._transfer, ERC20._update. destruct (Z.eqb_spec a 0), (Z.eqb_spec b 0); try done.
  destruct (Contract.update a b v (ERC20.book l)) eqn:E; [|done]. intros [= <-]. right. rewrite Eb. by apply (Contract.in_transfer a b v).
Qed.

Lemma burn_moves a v l l' k : 0 <= v -> ERC20.book k = ERC20.book l -> ERC20._burn a v l = Some l' -> ERC20.moves v k l'.
Proof.
  intros Hv Eb. unfold ERC20._burn, ERC20._update. destruct (Z.eqb_spec a 0); try done.
  destruct (Contract.update a 0 v (ERC20.book l)) eqn:E; [|done]. intros [= <-]. right. rewrite Eb. by apply (Contract.in_burn a v).
Qed.

Lemma approve_moves o s v l l' k : ERC20.book k = ERC20.book l -> ERC20._approve o s v l = Some l' -> ERC20.moves 0 k l'.
Proof. intros Eb. unfold ERC20._approve. case_ifs; try done. intros [= <-]. by left. Qed.

Lemma erc20_tx D D' r logs logs' d :
  on_erc20 D r logs = Some (D', logs') -> (forall e, r = Some e -> ERC20.moves d (erc20_of D) e) ->
  Contract.tx (voucher_signer D) d (token D) (token D').
Proof. intros (E & _ & _ & ->)%on_erc20_inv Hm. apply Contract.tx_public, Contract.tx_erc20. by apply Hm. Qed.

(** The state a deployment starts in. *)
Lemma constructor_inv `{Uniswap} deployer signer subsidy router D logs :
  constructor keccak256 chainid this deployer signer subsidy router = Some (D, logs) ->
  token D = Contract.with_erc20 ERC20.empty
              (Contract.with_admin signer subsidy deployer
                 {| Contract.erc20 := ERC20.empty; Contract.authorizedSigner := 0; Contract.claimed := ∅; Contract.redemptions := ∅;
                    Contract.nextRedemptionId := 0; Contract.processed := ∅; Contract.payoutTxid := ∅; Contract.restoreHeight := 0;
                    Contract.redemptionGasSubsidy := 0; Contract.owner := 0 |}) /\
  domain D = EIP712.constructor keccak256 "MiningPoolToken" "1" chainid this /\ deployer <> 0.
Proof.
  unfold constructor. destruct (Z.eqb_spec deployer 0); [done|]. destruct (find_pair this router); [|done]. by intros [= <- <-].
Qed.

(** Every call is a transaction of [Contract]. *)
Lemma exec_tx m c D D' logs :
  typed c -> exec m c D = Some (D', logs) -> Contract.tx (voucher_signer D) (burned c) (token D) (token D').
Proof.
  intros Ht E. unfold MiningPoolToken.exec in E. destruct (_ && _); [done|]. destruct c; simpl in Ht |- *;
    try (apply on_token_inv in E as (E & _ & _)); try (eapply erc20_tx; [exact E|intros e Er]).
  - eapply transfer_moves; [|done|exact Er]. apply Ht.
  - by eapply approve_moves.
  - unfold ERC20.transferFrom in Er. destruct (ERC20._spendAllowance _ _ _ _) as [l|] eqn:Es; [|done].
    eapply transfer_moves; [|symmetry; by eapply spend_book|exact Er]. apply Ht.
  - eapply burn_moves; [|done|exact Er]. apply Ht.
  - unfold ERC20.burnFrom in Er. destruct (ERC20._spendAllowance _ _ _ _) as [l|] eqn:Es; [|done].
    eapply burn_moves; [|symmetry; by eapply spend_book|exact Er]. apply Ht.
  - unfold ERC20.permit in Er. destruct (timestamp m >? deadline); [done|]. cbn [ERC20._useNonce] in Er.
    destruct (ECDSA.recover _ _ _ _ _) as [signer|]; [|done]. simpl in Er. destruct (signer =? owner); [|done]. by eapply approve_moves; [|exact Er].
  - by eapply Contract.tx_ownership.
  - by eapply Contract.tx_renounce.
  - by eapply Contract.tx_subsidy.
  - by eapply Contract.tx_signer.
  - destruct (Contract.claim _ _ _ _ _ _) as [[delta t']|] eqn:Ec; [|done]. injection E as <- <-. by eapply Contract.tx_public, Contract.tx_claim.
  - destruct (Contract.redeem _ _ _ _ _ _) as [[id t']|] eqn:Er; [|done]. injection E as <- <-.
    eapply Contract.tx_public, Contract.tx_redeem; [|exact Er]. apply Ht.
  - by eapply Contract.tx_public, Contract.tx_mark.
Qed.

(** A transaction issues at most one redemption id. *)
Lemma tx_next d t t' recover : Contract.tx (T := ERC20.State) (Sig := list Z) recover d t t' -> 0 <= Contract.nextRedemptionId t ->
  Contract.nextRedemptionId t' <= Contract.nextRedemptionId t + 1.
Proof.
  intros Htx Hn. apply Contract.tx_inv in Htx as [[_ (a & _ & s & v & o & ->)]|Htx]; [simpl; lia|].
  destruct Htx as [? u c s g m t' Hc|t a v amt x f id t' Ha Hr|t a id x h t' Hm|t d e He].
  - apply Contract.claim_inv in Hc as (_ & _ & _ & _ & _ & _ & -> & _). lia.
  - unfold Contract.redeem in Hr. case_ifs_in Hr; try done. destruct (Contract.burn _ _ _); [|done]. case_ifs_in Hr; try done.
    simplify_eq/=. apply Z.mod_le; lia.
  - unfold Contract.markProcessed in Hm. case_ifs_in Hm; try done; simplify_eq/=; lia.
  - simpl. lia.
Qed.

Lemma run_Inv txs D D' ex b :
  Forall (fun x => typed x.2) txs -> Contract.Inv b (token D) ->
  Contract.nextRedemptionId (token D) + Z.of_nat (length txs) <= u256_max -> run txs D = (D', ex) ->
  Contract.Inv (b + total e_burned ex) (token D').
Proof.
  intros Ht. revert D b D' ex. induction Ht as [|[m c] txs Hc _ IH]; intros D b D' ex Hi Hn E; simpl in E.
  - simplify_eq. by rewrite Z.add_0_r.
  - cbn [length] in Hn. destruct (exec m c D) as [[D1 logs]|] eqn:Ex; [|apply (IH D); [done|lia|done]].
    destruct (run txs D1) as [D2 ex2] eqn:Er. simplify_eq. pose proof (exec_tx _ _ _ _ _ Hc Ex) as Htx.
    pose proof (tx_next _ _ _ _ Htx (Contract.inv_next _ _ Hi)). unfold total. simpl. change (e_burned (m, c, logs)) with (burned c).
    rewrite Z.add_assoc. apply (IH D1); [|lia|done]. eapply Contract.tx_Inv; [|exact Hi|exact Htx]. lia.
Qed.

(** C31: from the deployment on, over any sequence of transactions of anyone, the supply plus
    everything ever redeemed and everything burned is everything ever claimed; the supply is
    the sum of the balances; and the redemption ids are exactly [1 .. nextRedemptionId]. *)
Theorem deployed_supply `{Uniswap} deployer signer subsidy router D logs txs D' ex :
  constructor keccak256 chainid this deployer signer subsidy router = Some (D, logs) ->
  Forall (fun x => typed x.2) txs -> Z.of_nat (length txs) <= u256_max -> run txs D = (D', ex) ->
  let t := token D' in
  Contract.totalSupply (Contract.erc20 t) + Contract.total_redeemed t + total e_burned ex = Contract.total_claimed t /\
  Contract.ledger_sum (ERC20.book (erc20_of D')) = Contract.totalSupply (Contract.erc20 t) /\
  forall id, is_Some (Contract.redemptions t !! id) <-> 1 <= id <= Contract.nextRedemptionId t.
Proof.
  intros Hc Ht Hn E. destruct (run_Inv txs D D' ex 0 Ht) as [Hs Hi _ _ Hw]; [| |done|].
  - apply constructor_inv in Hc as [Ht0 _]. rewrite Ht0. split; try done.
    intros id. simpl. rewrite lookup_empty. split; [intros [? ?]; done | lia].
  - apply constructor_inv in Hc as [Ht0 _]. rewrite Ht0. simpl. lia.
  - split_and!; [lia|apply Hw|done].
Qed.

End Refinement.

(** ** Vouchers *)

Section Vouchers.
Context {R W Sig : Type} `{RedisLaws R} `{LuaLaws} `{World R W Signer.event} `{Eip712.Keys W Sig} `{!Eip712.KeysLaws W Sig} `{Signer.SignerEnv W}
  `{!Quiet (R := R) (W := W) (Ev := Signer.event)}.
Variables (keccak256 : list Z -> list Z) (signing_hash : Eip712.struct -> Eip712.struct -> list Z).
Variables (ecrecover : list Z -> Z -> Z -> Z -> Address) (takes : Address -> Z -> bool).
Variables (chainid chain0 : Z) (this this0 : Address).
(** The library of the service follows EIP-712, and what its key signs, the recovery of the
    contract's library reads. *)
Hypotheses (keccak_word : forall b, length (keccak256 b) = 32%nat).
Hypothesis (signing_standard : forall domain v, signing_hash domain v
  = Eip712.typed_hash keccak256 (Eip712.hash_struct keccak256 domain) (Eip712.hash_struct keccak256 v)).
Hypothesis (recover_library : forall d b, Eip712.ecdsa_recover (W := W) (Sig := Sig) d b = ECDSA.recover_bytes ecrecover d b).

#[local] Instance typed_data : Eip712.TypedData := contract_library keccak256 signing_hash chain0 this0.
#[local] Instance signing : Signer.Signing W Sig := Eip712.service_signing chainid this.

Lemma mint_succeeds a v (l : ERC20.State) : a <> 0 -> Contract.supply (ERC20.book l) + v <= u256_max -> exists l', ERC20._mint a v l = Some l'.
Proof.
  intros Ha Hv. unfold ERC20._mint, ERC20._update, Contract.update. rewrite (proj2 (Z.eqb_neq _ _) Ha), Z.eqb_refl.
  rewrite Z.gtb_ltb, (proj2 (Z.ltb_ge _ _)) by done. simpl. eauto.
Qed.

(** C20: an issued voucher is good on the deployed contract.  The text of its signature,
    decoded and sent to [claim] by anyone, passes the contract's own hash, its cached domain
    and the checks of its recovery: unless the holder already claimed as much (or the supply
    would pass 256 bits), the call succeeds, the holder gets exactly what is missing up to
    the voucher's cumulative amount, and the logs say so. *)
Theorem issued_voucher_claims user amount (s : st R W Signer.event) out e v (D : Deployed) m :
  Store.int_at (Store.earned_key user) (redis s) = Some e -> 0 <= e <= i64_max ->
  Store.int_at (Store.last_voucher_key user) (redis s) = Some v -> 0 <= v <= i64_max ->
  (forall a, amount = Some a -> is_i64 a) ->
  (Signer.issue user amount s).1 = ORet (Ok out) ->
  let c := Signer.out_last_voucher_cumulative out in
  let delta := c - Contract.claimed_of user (token D) in
  domain D = EIP712.constructor keccak256 "MiningPoolToken" "1" chain0 this0 -> ERC20.ok (erc20_of D) ->
  Contract.authorizedSigner (token D) = Eip712.key_address -> 0 < delta -> user <> 0 ->
  Contract.supply (ERC20.book (erc20_of D)) + delta <= u256_max -> mvalue m = 0 ->
  exists sig D', Text.hex_decode (Text.trim_0x (Text.trim (Signer.out_signature out))) = Some sig /\
    exec keccak256 ecrecover chainid this takes m (CClaim user c (Signer.out_signed_at out) sig) D
      = Some (D', [Transfer 0 user delta; Claimed user delta c]) /\
    Contract.claimed_of user (token D') = c /\
    ERC20.balanceOf user (erc20_of D') = ERC20.balanceOf user (erc20_of D) + delta.
Proof.
  pose proof (contract_library_laws keccak256 signing_hash chain0 this0 keccak_word signing_standard) as HL.
  intros He Hre Hv Hrv Ha Hok c delta Hdom Hl Hs Hd Hu Hsup Hm.
  destruct (mint_succeeds user delta (erc20_of D) Hu Hsup) as [l' Hl'].
  destruct (Eip712.issued_claim chainid this user amount s out e v (token D) l') as (sig & tok & Hsig & Hcl & Hcum); [done..|lia|done|].
  exists sig, (with_token tok D). split; [exact Hsig|]. split; [|split; [exact Hcum|]].
  - unfold exec. rewrite Hm. cbn [payable negb andb Z.eqb].
    assert (Ev : Contract.claim (voucher_signer keccak256 ecrecover chainid this D) user c (Signer.out_signed_at out) sig (token D) = Some (delta, tok)).
    { revert Hcl. unfold Contract.claim, voucher_signer, hashTypedData, Eip712.claim_signer. rewrite Hdom, recover_library. exact id. }
    by rewrite Ev.
  - apply Contract.claim_inv in Hcl as (_ & _ & _ & Hmint & _). apply ERC20.mint_moved in Hmint; [|done|lia].
    change (erc20_of (with_token tok D)) with (Contract.erc20 tok). rewrite (ERC20.mv_balance _ _ _ _ _ Hmint user Hu).
    rewrite Z.eqb_refl, (proj2 (Z.eqb_neq 0 user)) by done. unfold erc20_of, delta. lia.
Qed.

End Vouchers.

(** ** Concrete inputs *)

Module Demo.

(** A polynomial hash. *)
Definition keccak (b : list Z) : list Z := to_be_bytes 32 (foldl (fun acc x => (acc * 257 + x + 1) mod (2 ^ 61 - 1)) 7 b).
Definition standard (d v : Eip712.struct) : list Z := Eip712.typed_hash keccak (Eip712.hash_struct keccak d) (Eip712.hash_struct keccak v).

(** A signature names its signer and carries a tag of the digest. *)
Definition tag (d : list Z) : Z := from_be_bytes d mod 2 ^ 32.
Definition ecrecover (d : list Z) (v r s : Z) : Address := if (v =? 27) && (s =? tag d) then r else 0.
Definition sig_of (signer : Address) (d : list Z) : list Z := to_be_bytes 32 signer ++ to_be_bytes 32 (tag d) ++ [27].

#[export] Instance exchange : Uniswap := {
  factory r := if r =? 50 then Some 51 else None;
  WETH r := Some 52;
  getPair f a b := Some 0;
  createPair f a b := Some 53;
}.

Definition genesis : Deployed :=
  match constructor keccak 23294 5 3 9 2 50 with Some (D, _) => D | None => Build_Deployed (Contract.with_erc20 ERC20.empty (Contract.Build_Token _ ERC20.empty 0 ∅ ∅ 0 ∅ ∅ 0 0 0)) (EIP712.constructor keccak "" "" 0 0) 0 end.

Lemma genesis_built : constructor keccak 23294 5 3 9 2 50
  = Some (genesis, [OwnershipTransferred 0 3; SignerUpdated 9; RedemptionGasSubsidyUpdated 2]) /\ pair genesis = 53.
Proof. split; vm_compute; reflexivity. Qed.

Lemma genesis_ok : ERC20.ok (erc20_of genesis).
Proof. exact ERC20.empty_ok. Qed.

Definition by_ (a : Address) : msg := {| sender := a; mvalue := 0; timestamp := 100 |}.

Definition voucher_digest : list Z :=
  hashTypedData keccak 23294 5 genesis (keccak (VOUCHER_TYPEHASH keccak ++ Oracle.addr_word 7 ++ Oracle.w 700 ++ Oracle.w 5)).
Definition permit_digest : list Z := ERC20.permit_digest keccak (hashTypedData keccak 23294 5 genesis) 7 6 50 0 200.

(** A claim of 700 for the holder 7, who lets the account 6 spend 100 by a call and then 50 by
    a permit, which does not work twice, redeems 300 and burns 10. *)
Definition txs : list (msg * call) := [
  (by_ 1, CClaim 7 700 5 (sig_of 9 voucher_digest));
  (by_ 7, CApprove 6 100);
  (by_ 6, CTransferFrom 7 8 60);
  (by_ 6, CTransferFrom 7 8 60);
  (by_ 6, CPermit 7 6 50 200 27 7 (tag permit_digest));
  (by_ 6, CPermit 7 6 50 200 27 7 (tag permit_digest));
  (by_ 6, CTransferFrom 7 8 50);
  ({| sender := 7; mvalue := 2; timestamp := 100 |}, CRedeem 300 "4A");
  (by_ 7, CBurn 10)].

Definition result : Deployed * list entry := run keccak ecrecover 23294 5 (fun _ _ => true) txs genesis.

Lemma txs_typed : Forall (fun x => typed x.2) txs.
Proof. repeat constructor; simpl; unfold in_range, u256_max; lia. Qed.

(** The second transfer is above what is left, and the second permit has an old nonce. *)
Lemma result_calls : length result.2 = 7%nat /\ total (e_received 7) result.2 = 700 /\ total (e_spent 7) result.2 = 310 /\
  total (e_taken_by_any 7) result.2 = 110 /\ ERC20.balanceOf 7 (erc20_of result.1) = 280 /\ total (e_permits 7) result.2 = 1.
Proof. split_and!; vm_compute; reflexivity. Qed.

(** The key of the pool signs one voucher, that of [Solvency.Demo]. *)
Definition the_digest : list Z :=
  @Eip712.service_digest (contract_library keccak standard 23294 5) 23294 5 7 20 5.

#[export] Instance keys : Eip712.Keys unit bool := {
  Eip712.key_address := 9;
  Eip712.sign_digest d w := if decide (d = the_digest) then (Ok true, w) else (Err "refused", w);
  Eip712.recover_from sig d := if sig && bool_decide (d = the_digest) then Some 9 else None;
  Eip712.as_bytes sig := if sig then sig_of 9 the_digest else [];
  Eip712.try_from b := Some (negb (length b =? 0)%nat);
  Eip712.ecdsa_recover := ECDSA.recover_bytes ecrecover;
}.

#[export] Instance keys_laws : Eip712.KeysLaws unit bool.
Proof.
  split; cbn [Eip712.sign_digest Eip712.recover_from Eip712.ecdsa_recover Eip712.as_bytes Eip712.try_from Eip712.key_address keys].
  - intros d w sig w' Hs. case_decide as Ed; simplify_eq. rewrite bool_decide_true by reflexivity. split; [reflexivity|vm_compute; reflexivity].
  - intros []; [|reflexivity]. vm_compute. reflexivity.
  - intros []; [|done]. unfold sig_of. rewrite !Forall_app. split_and!; [apply Forall_reverse, to_le_bytes_u8..|by repeat constructor].
Qed.

Definition out : Signer.VoucherOut :=
  match (Signer.issue (H2 := @Eip712.service_signing unit bool (contract_library keccak standard 23294 5) keys 23294 5)
           7 None Solvency.Demo.credited_once).1 with
  | ORet (Ok o) => o
  | _ => Signer.Build_VoucherOut 0 EmptyString 0 0 EmptyString 0 0 0
  end.

End Demo.

Lemma holders_protected_witness :
  ERC20.balanceOf 7 (erc20_of Demo.result.1) = 280 /\ total (e_taken 7 6) Demo.result.2 <= 150.
Proof.
  split; [vm_compute; reflexivity|].
  destruct (holders_protected Demo.keccak Demo.ecrecover 23294 5 (fun _ _ => true) Demo.txs Demo.genesis Demo.result.1 Demo.result.2 7)
    as (_ & Hs & _); [exact Demo.genesis_ok|exact Demo.txs_typed|done|exact (surjective_pairing Demo.result)|].
  specialize (Hs 6). replace 150 with (ERC20.allowance 7 6 (erc20_of Demo.genesis) + total (fun e => default 0 (e_grant 7 6 e)) Demo.result.2) by (vm_compute; reflexivity).
  apply Hs; [vm_compute; discriminate|].
  assert (E : e_grant 7 6 <$> Demo.result.2 = [None; Some 100; None; Some 50; None; None; None]) by (vm_compute; reflexivity).
  assert (Hf : Forall (fun g => g <> Some u256_max) (e_grant 7 6 <$> Demo.result.2)); [|exact (proj1 (Forall_fmap (e_grant 7 6) (fun g => g <> Some u256_max) Demo.result.2) Hf)].
  rewrite E. repeat constructor; vm_compute; discriminate.
Defined.

Lemma deployed_supply_witness :
  total e_burned Demo.result.2 = 10 /\ Contract.totalSupply (Contract.erc20 (token Demo.result.1)) = 390 /\
  (let t := token Demo.result.1 in
   Contract.totalSupply (Contract.erc20 t) + Contract.total_redeemed t + total e_burned Demo.result.2 = Contract.total_claimed t /\
   Contract.ledger_sum (ERC20.book (erc20_of Demo.result.1)) = Contract.totalSupply (Contract.erc20 t) /\
   forall id, is_Some (Contract.redemptions t !! id) <-> 1 <= id <= Contract.nextRedemptionId t).
Proof.
  do 2 (split; [vm_compute; reflexivity|]).
  refine (deployed_supply Demo.keccak Demo.ecrecover 23294 5 (fun _ _ => true) 3 9 2 50 Demo.genesis
    [OwnershipTransferred 0 3; SignerUpdated 9; RedemptionGasSubsidyUpdated 2] Demo.txs Demo.result.1 Demo.result.2 _ _ _ _).
  - exact (proj1 Demo.genesis_built).
  - exact Demo.txs_typed.
  - vm_compute. discriminate.
  - exact (surjective_pairing Demo.result).
Defined.

Lemma issued_voucher_claims_witness :
  Signer.out_last_voucher_cumulative Demo.out = 20 /\
  exists sig D', Text.hex_decode (Text.trim_0x (Text.trim (Signer.out_signature Demo.out))) = Some sig /\
    exec Demo.keccak Demo.ecrecover 23294 5 (fun _ _ => true) (Demo.by_ 1)
      (CClaim 7 (Signer.out_last_voucher_cumulative Demo.out) (Signer.out_signed_at Demo.out) sig) Demo.genesis
      = Some (D', [Transfer 0 7 (Signer.out_last_voucher_cumulative Demo.out - Contract.claimed_of 7 (token Demo.genesis));
                   Claimed 7 (Signer.out_last_voucher_cumulative Demo.out - Contract.claimed_of 7 (token Demo.genesis))
                     (Signer.out_last_voucher_cumulative Demo.out)]) /\
    Contract.claimed_of 7 (token D') = Signer.out_last_voucher_cumulative Demo.out /\
    ERC20.balanceOf 7 (erc20_of D') = ERC20.balanceOf 7 (erc20_of Demo.genesis)
      + (Signer.out_last_voucher_cumulative Demo.out - Contract.claimed_of 7 (token Demo.genesis)).
Proof.
  split; [vm_compute; reflexivity|].
  refine (issued_voucher_claims (Sig := bool) (H4 := Demo.keys) (H5 := Demo.keys_laws) Demo.keccak Demo.standard Demo.ecrecover (fun _ _ => true) 23294 23294 5 5 _ _ _
    7 None Solvency.Demo.credited_once Demo.out 20 0 Demo.genesis (Demo.by_ 1) _ _ _ _ _ _ _ Demo.genesis_ok _ _ _ _ _).
  - intros b. apply to_be_bytes_length.
  - intros d v. exact eq_refl.
  - intros d b. exact eq_refl.
  - vm_compute; reflexivity.
  - vm_compute; split; discriminate.
  - vm_compute; reflexivity.
  - vm_compute; split; discriminate.
  - intros a Ha. discriminate Ha.
  - vm_compute; reflexivity.
  - vm_compute; reflexivity.
  - vm_compute; reflexivity.
  - vm_compute; reflexivity.
  - discriminate.
  - vm_compute; discriminate.
  - reflexivity.
Defined.

End MiningPoolToken.
