(* ===== verification/Subcall.v ===== *)
(** Messages of a contract to the runtime (contracts/lib/sapphire-paratime/contracts/contracts/
    Subcall.sol): the ABI text of a call to the precompile and of its reply, and the check of
    the origin that guards the rent reservoir, the fee seller and the endpoint registry.

    The precompile is the runtime's and a parameter. *)
From S2P Require Import Prelude Text Hex Oracle Periphery.

Module Subcall.

(** ** ABI text *)

Definition len (b : list Z) : Z := Z.of_nat (length b).

(** Bytes, padded to whole words. *)
Definition pad (b : list Z) : list Z := b ++ replicate (Z.to_nat ((32 - len b mod 32) mod 32)) 0.

Definition abi_bytes (b : list Z) : list Z := Oracle.w (len b) ++ pad b.

(** [abi.encode(string, bytes)]: two offsets, then the two texts. *)
Definition encode_call (method body : list Z) : list Z :=
  Oracle.w 64 ++ Oracle.w (64 + len (abi_bytes method)) ++ abi_bytes method ++ abi_bytes body.

Definition word_at (offset : Z) (b : list Z) : Z := from_be_bytes (take 32 (drop (Z.to_nat offset) b)).

(** [abi.decode(tmp, (uint64, bytes))], which reverts on a text that is too short, on a
    status that is no [uint64] and on offsets and lengths past the end. *)
Definition decode_reply (tmp : list Z) : option (Z * list Z) :=
  if len tmp <? 64 then None
  else
    let status := word_at 0 tmp in
    let offset := word_at 32 tmp in
    if status >? u64_max then None
    else if offset >? u64_max then None
    else if len tmp <=? offset + 31 then None
    else
      let n := word_at offset tmp in
      if n >? u64_max then None
      else if len tmp <? offset + 32 + n then None
      else Some (status, take (Z.to_nat n) (drop (Z.to_nat (offset + 32)) tmp)).

(** What the runtime writes back. *)
Definition encode_reply (status : Z) (data : list Z) : list Z := Oracle.w status ++ Oracle.w 64 ++ abi_bytes data.

(** ** The library *)

(** The precompile as a contract sees it in a transaction: [None] when the call fails. *)
Definition Precompile : Type := list Z -> option (list Z).

Definition subcall (SUBCALL : Precompile) (method : string) (body : list Z) : option (Z * list Z) :=
  match SUBCALL (encode_call (bytes_of method) body) with
  | None => None
  | Some tmp => decode_reply tmp
  end.

(** [roflEnsureAuthorizedOrigin]; [false] is a revert. *)
Definition roflEnsureAuthorizedOrigin (SUBCALL : Precompile) (appId : list Z) : bool :=
  match subcall SUBCALL "rofl.IsAuthorizedOrigin" ([85] ++ appId) with
  | None => false
  | Some (status, data) => negb (negb (status =? 0) || negb (length data =? 1)%nat || negb (default 0 (data !! 0%nat) =? 245))
  end.

(** ** The runtime *)

(** The runtime answers a message by a status and a result; the origin of a transaction is an
    instance of an app or is not, and it says so in CBOR. *)
Class Runtime (Origin : Type) := {
  precompile : Origin -> Precompile;
  handle : Origin -> list Z -> list Z -> option (Z * list Z);
  is_instance : Origin -> list Z -> bool;
}.
Class RuntimeLaws (Origin : Type) `{Runtime Origin} : Prop := {
  rt_answers : forall o method body, len method < 2 ^ 32 -> len body < 2 ^ 32 -> precompile o (encode_call method body)
    = match handle o method body with Some (status, data) => Some (encode_reply status data) | None => None end;
  rt_typed : forall o method body status data, handle o method body = Some (status, data) -> is_u64 status /\ len data < 2 ^ 32;
  rt_origin : forall o app, length app = 21%nat ->
    handle o (bytes_of "rofl.IsAuthorizedOrigin") (Periphery.encode_item (Periphery.BStr app)) = Some (0, [if is_instance o app then 245 else 244]);
}.

(** ** The texts read back *)

Lemma word_length z : length (Oracle.w z) = 32%nat.
Proof. apply to_be_bytes_length. Qed.

Lemma word_read z b : 0 <= z < 2 ^ 256 -> from_be_bytes (take 32 (Oracle.w z ++ b)) = z.
Proof.
  intros Hz. rewrite take_app_length' by (symmetry; apply word_length). apply from_to_be_bytes. change (256 ^ Z.of_nat 32) with (2 ^ 256). lia.
Qed.

Lemma len_app a b : len (a ++ b) = len a + len b.
Proof. unfold len. rewrite length_app. lia. Qed.

Lemma pad_length b : len b <= len (pad b).
Proof. unfold pad. rewrite len_app. unfold len. lia. Qed.

(** The contract reads the status and the result the runtime wrote. *)
Lemma reply_roundtrip status data : is_u64 status -> len data < 2 ^ 32 -> decode_reply (encode_reply status data) = Some (status, data).
Proof.
  intros Hs Hd. assert (Hd0 : 0 <= len data) by (unfold len; lia). pose proof (pad_length data) as Hp.
  assert (Hl : len (encode_reply status data) = 96 + len (pad data)).
  { unfold encode_reply, abi_bytes. rewrite !len_app. unfold len. rewrite !word_length. lia. }
  assert (Es : word_at 0 (encode_reply status data) = status).
  { apply word_read. unfold in_range, u64_max in Hs. lia. }
  assert (Eo : word_at 32 (encode_reply status data) = 64).
  { unfold word_at, encode_reply. rewrite drop_app_length' by (symmetry; apply word_length). by apply word_read. }
  assert (E2 : drop 64 (encode_reply status data) = abi_bytes data).
  { unfold encode_reply. rewrite app_assoc, drop_app_length'; [done|]. by rewrite length_app, !word_length. }
  assert (En : word_at 64 (encode_reply status data) = len data).
  { unfold word_at. change (Z.to_nat 64) with 64%nat. rewrite E2. unfold abi_bytes. rewrite word_read; [done|]. lia. }
  unfold decode_reply. rewrite Hl, Es, Eo, En, !Z.gtb_ltb. unfold in_range, u64_max in *.
  do 6 first [rewrite (proj2 (Z.ltb_ge _ _)) by lia | rewrite (proj2 (Z.leb_gt _ _)) by lia].
  f_equal. f_equal. change (Z.to_nat (64 + 32)) with (64 + 32)%nat. rewrite <- drop_drop, E2. unfold abi_bytes.
  rewrite drop_app_length' by (symmetry; apply word_length). unfold pad, len. rewrite Nat2Z.id. by apply take_app_length'.
Qed.

Section Laws.
Context {Origin : Type} `{RuntimeLaws Origin}.

(** A message reaches the runtime as it is, and its answer comes back. *)
Lemma subcall_handled o method body :
  len (bytes_of method) < 2 ^ 32 -> len body < 2 ^ 32 -> subcall (precompile o) method body = handle o (bytes_of method) body.
Proof.
  intros Hm Hb. unfold subcall. rewrite rt_answers by done. destruct (handle o (bytes_of method) body) as [[status data]|] eqn:E; [|done].
  apply rt_typed in E as [Hs Hd]. by apply reply_roundtrip.
Qed.

(** The check passes exactly for an instance of the app. *)
Lemma origin_checked o app : length app = 21%nat -> roflEnsureAuthorizedOrigin (precompile o) app = is_instance o app.
Proof.
  intros Ha. unfold roflEnsureAuthorizedOrigin. rewrite subcall_handled; [|done|unfold len; simpl; rewrite Ha; lia].
  assert (E : [85] ++ app = Periphery.encode_item (Periphery.BStr app)).
  { unfold Periphery.encode_item, Periphery.len. by rewrite Ha. }
  rewrite E, rt_origin by done. simpl. by destruct (is_instance o app).
Qed.

End Laws.

(** ** A runtime *)

Definition text_at (offset : Z) (b : list Z) : list Z := take (Z.to_nat (word_at offset b)) (drop (Z.to_nat (offset + 32)) b).
Definition decode_call (b : list Z) : list Z * list Z := (text_at (word_at 0 b) b, text_at (word_at 32 b) b).

Lemma text_read a b c offset : len a = offset -> len b < 2 ^ 32 -> text_at offset (a ++ abi_bytes b ++ c) = b.
Proof.
  intros Ha Hb. assert (Hb0 : 0 <= len b) by (unfold len; lia).
  assert (Hd : drop (Z.to_nat offset) (a ++ abi_bytes b ++ c) = abi_bytes b ++ c) by (apply drop_app_length'; unfold len in Ha; lia).
  unfold text_at, word_at. rewrite Z2Nat.inj_add, <- drop_drop, Hd by (unfold len in *; lia). unfold abi_bytes. rewrite <- app_assoc, word_read by lia.
  rewrite drop_app_length' by (symmetry; apply word_length). unfold pad. rewrite <- app_assoc. apply take_app_length'. unfold len. lia.
Qed.

Lemma call_roundtrip method body : len method < 2 ^ 32 -> len body < 2 ^ 32 -> decode_call (encode_call method body) = (method, body).
Proof.
  intros Hm Hb. assert (Hw : forall z, len (Oracle.w z) = 32) by (intros z; unfold len; by rewrite word_length).
  assert (Hp : 0 <= len (abi_bytes method) < 2 ^ 33).
  { unfold abi_bytes, pad. rewrite !len_app, Hw. pose proof (Z.mod_pos_bound (32 - len method mod 32) 32 ltac:(lia)).
    unfold len in *. rewrite length_replicate. lia. }
  unfold decode_call. f_equal.
  - assert (E : word_at 0 (encode_call method body) = 64) by by apply word_read. rewrite E. unfold encode_call. rewrite app_assoc.
    apply text_read; [|done]. by rewrite len_app, !Hw.
  - assert (E : word_at 32 (encode_call method body) = 64 + len (abi_bytes method)).
    { unfold word_at, encode_call. rewrite drop_app_length' by (symmetry; apply word_length). apply word_read. lia. }
    rewrite E. unfold encode_call. rewrite !app_assoc. rewrite <- (app_nil_r (abi_bytes body)). apply text_read; [|done].
    rewrite !len_app, !Hw. lia.
Qed.

Module Demo.

(** Transactions come from an instance of the app or do not, and no other message is known. *)
#[export] Instance runtime : Runtime bool := {
  handle o m b := if bool_decide (m = bytes_of "rofl.IsAuthorizedOrigin") then Some (0, [if o then 245 else 244]) else None;
  is_instance o app := o;
  precompile o text :=
    let '(m, b) := decode_call text in
    if bool_decide (m = bytes_of "rofl.IsAuthorizedOrigin") then Some (encode_reply 0 [if o then 245 else 244]) else None;
}.

#[export] Instance runtime_laws : RuntimeLaws bool.
Proof.
  split; cbn [precompile handle is_instance runtime].
  - intros o m b Hm Hb. rewrite call_roundtrip by done. by case_bool_decide.
  - intros o m b status data. case_bool_decide; [|done]. intros [= <- <-]. split; [done|]. unfold len. simpl. lia.
  - intros o app _. by rewrite bool_decide_true.
Qed.

End Demo.

End Subcall.
