(* ===== verification/FeeSale.v ===== *)
(** The sale of the pool's fees on the chain: the fee seller (contracts/src/FeeSwapper.sol, in
    [Periphery]) over the deployed token ([MiningPoolToken]) and the runtime's check of the
    origin ([Subcall]), among transactions of anyone.

    The exchange is a parameter: a swap is the calls it makes to the token and what it does to
    the rest of the chain. *)
From S2P Require Import Prelude Text Hex Oracle Contract Eip712 OpenZeppelin MiningPoolToken Periphery Subcall.
Import OpenZeppelin MiningPoolToken.

Module FeeSale.

(** The token, and the rest of the chain. *)
Record Chain (E : Type) : Type := { mpt : Deployed; rest : E }.
Arguments mpt {E} _.
Arguments rest {E} _.
Add Printing Constructor Chain.

(** The router of the exchange; [swap] is called by its first argument. *)
Class Router (E : Type) := {
  weth : Address -> Address;
  amounts_out : Z -> list Address -> E -> option (list Z);
  swap : Address -> Z -> Z -> list Address -> Address -> Z -> Deployed -> E -> option (list (msg * call) * E);
  native_balance : Address -> E -> Z;
}.

(** A sale that went through. *)
Record sale (Origin : Type) : Type := { origin : Origin; mptIn : Z; minOut : Z; roseOut : Z; paid_to : Address }.
Arguments origin {Origin} _.
Arguments mptIn {Origin} _.
Arguments minOut {Origin} _.
Arguments roseOut {Origin} _.
Arguments paid_to {Origin} _.

Record State (E Origin : Type) : Type := {
  swapper : Periphery.FeeSwapper;
  chain : Chain E;
  history : list entry;
  sales : list (sale Origin);
}.
Arguments Build_State {E Origin} _ _ _ _.
Arguments swapper {E Origin} _.
Arguments chain {E Origin} _.
Arguments history {E Origin} _.
Arguments sales {E Origin} _.

Section System.
Context {E Origin : Type} `{Router E} `{Subcall.Runtime Origin}.
Variables (keccak256 : list Z -> list Z) (ecrecover : list Z -> Z -> Z -> Z -> Address) (chainid : Z) (takes : Address -> Z -> bool).
(** The addresses of the token, of the seller and of the router. *)
Variables (this me rt : Address).
(** The approval of another token than the pool's. *)
Variable other_approve : Address -> Address -> Z -> Chain E -> option (Chain E).

Abbreviation run := (run keccak256 ecrecover chainid this takes).

(** [SafeERC20.forceApprove] on the pool's token, whose [approve] returns true: the second
    way is for tokens that refuse to change an allowance. *)
Definition forceApprove (spender : Address) (v timestamp : Z) (D : Deployed) : option Deployed :=
  let m := {| sender := me; mvalue := 0; timestamp := timestamp |} in
  let approve v D := fst <$> exec keccak256 ecrecover chainid this takes m (CApprove spender v) D in
  match approve v D with
  | Some D' => Some D'
  | None => D1 ← approve 0 D; approve v D1
  end.

Definition approve (timestamp : Z) (token spender : Address) (v : Z) (x : Chain E) : option (Chain E) :=
  if token =? this then D ← forceApprove spender v timestamp (mpt x); Some {| mpt := D; rest := rest x |}
  else other_approve token spender v x.

Definition swapExactTokensForETH (amountIn outMin : Z) (path : list Address) (to : Address) (deadline : Z) (x : Chain E) : option (Chain E) :=
  match swap me amountIn outMin path to deadline (mpt x) (rest x) with
  | Some (calls, e) => Some {| mpt := (run calls (mpt x)).1; rest := e |}
  | None => None
  end.

Definition deploy (deployer token reservoir : Address) (appId : list Z) (timestamp : Z) (x : Chain E)
    : option (Periphery.FeeSwapper * Chain E * list Periphery.swap_event) :=
  Periphery.fee_swapper_new weth (approve timestamp) deployer token rt reservoir appId x.

(** The calls of a swap, as the token sees them. *)
Definition swap_entries (amountIn outMin : Z) (path : list Address) (to : Address) (deadline : Z) (x : Chain E) : list entry :=
  match swap me amountIn outMin path to deadline (mpt x) (rest x) with
  | Some (calls, _) => (run calls (mpt x)).2
  | None => []
  end.

(** What the seller's token account is used for: nobody calls as the seller, and the router
    takes from its caller only, the amount of the swap. *)
Definition not_me (x : msg * call) : Prop := sender x.1 <> me /\ typed x.2.

Inductive step (s : State E Origin) : State E Origin -> Prop :=
| s_swap o amountIn outMin deadline out x evs :
    Periphery.swapFeeToRose swapExactTokensForETH (fun a x => native_balance a (rest x))
      (Subcall.roflEnsureAuthorizedOrigin (Subcall.precompile o)) amountIn outMin deadline (swapper s) (chain s) = Some (out, x, evs) ->
    step s (Build_State (swapper s) x
      (history s ++ swap_entries amountIn outMin (Periphery.path (swapper s)) (Periphery.reservoir (swapper s)) deadline (chain s))
      (sales s ++ [{| origin := o; mptIn := amountIn; minOut := outMin; roseOut := out; paid_to := Periphery.reservoir (swapper s) |}]))
| s_reservoir a r c evs :
    Periphery.setReservoir a r (swapper s) = Some (c, evs) -> step s (Build_State c (chain s) (history s) (sales s))
| s_ownership a o c :
    Periphery.fs_transferOwnership a o (swapper s) = Some c -> step s (Build_State c (chain s) (history s) (sales s))
| s_renounce a c :
    Periphery.fs_renounceOwnership a (swapper s) = Some c -> step s (Build_State c (chain s) (history s) (sales s))
| s_other calls e D ex :
    Forall not_me calls -> run calls (mpt (chain s)) = (D, ex) -> total (e_taken me rt) ex = 0 ->
    step s (Build_State (swapper s) {| mpt := D; rest := e |} (history s ++ ex) (sales s)).

End System.

(** What is known of the router: a swap takes the amount from its caller, and pays out at
    least the minimum. *)
Class RouterLaws (E : Type) `{Router E} (run : list (msg * call) -> Deployed -> Deployed * list entry) (me rt : Address) : Prop := {
  rl_calls : forall a o p to dl D e calls e', swap me a o p to dl D e = Some (calls, e') -> Forall (not_me me) calls;
  rl_takes : forall a o p to dl D e calls e', swap me a o p to dl D e = Some (calls, e') -> total (e_taken me rt) (run calls D).2 = a;
  rl_pays : forall a o p to dl D e calls e', swap me a o p to dl D e = Some (calls, e') -> native_balance to e + o <= native_balance to e';
}.

(** ** Sums over entries *)

Lemma total_app f ex ex' : total f (ex ++ ex') = total f ex + total f ex'.
Proof. unfold total. induction ex as [|e ex IH]; simpl; [lia|]. rewrite IH. lia. Qed.

Lemma total_nonneg f ex : Forall (fun e => 0 <= f e) ex -> 0 <= total f ex.
Proof. unfold total. induction 1; simpl; lia. Qed.

Lemma total_zero f ex : Forall (fun e => 0 <= f e) ex -> total f ex = 0 -> Forall (fun e => f e = 0) ex.
Proof.
  unfold total. induction 1 as [|e ex He Hex IH]; simpl; [done|]. intros E. pose proof (total_nonneg f ex Hex) as Hn. unfold total in Hn.
  constructor; [lia|]. apply IH. lia.
Qed.

Lemma total_ext f g ex : Forall (fun e => f e = g e) ex -> total f ex = total g ex.
Proof. unfold total. induction 1; simpl; lia. Qed.

Lemma total_none f ex : Forall (fun e => f e = 0) ex -> total f ex = 0.
Proof. unfold total. induction 1; simpl; lia. Qed.

(** ** The seller's account *)

Section Account.
Variables (keccak256 : list Z -> list Z) (ecrecover : list Z -> Z -> Z -> Z -> Address) (chainid : Z) (takes : Address -> Z -> bool).
Variables (this me rt : Address).
(** No signature is by the address of a contract. *)
Hypothesis no_key : forall d v r s, ecrecover d v r s <> me.
Hypothesis me_nonzero : me <> 0.

Abbreviation run := (run keccak256 ecrecover chainid this takes).

(** A state in which only the router may spend for the seller. *)
Record Inv (D : Deployed) : Prop := {
  inv_ok : ERC20.ok (erc20_of D);
  inv_allowance : forall s, s <> rt -> ERC20.allowance me s (erc20_of D) = 0;
}.

Lemma run_entries P txs D D' ex : Forall P txs -> run txs D = (D', ex) -> Forall (fun e => P e.1) ex.
Proof.
  intros Ht. revert D D' ex. induction Ht as [|[m c] txs Hc _ IH]; intros D D' ex E; simpl in E; [by simplify_eq|].
  destruct (exec _ _ _ _ _ m c D) as [[D1 logs]|]; [|by eapply IH]. destruct (run txs D1) as [D2 ex2] eqn:Er. simplify_eq.
  constructor; [done|]. by eapply IH.
Qed.

Lemma taken_nonneg s e : typed e.1.2 -> 0 <= e_taken me s e.
Proof. destruct e as [[m c] logs]. unfold e_taken. destruct c; simpl; try done; unfold in_range; case_ifs; lia. Qed.

(** Calls of others take from the seller through the router alone. *)
Lemma run_confined txs D D' ex :
  Inv D -> Forall (not_me me) txs -> run txs D = (D', ex) ->
  Inv D' /\ ERC20.balanceOf me (erc20_of D') = ERC20.balanceOf me (erc20_of D) + total (e_received me) ex - total (e_taken me rt) ex.
Proof.
  intros [Hok Hal] Ht E. pose proof (run_entries _ _ _ _ _ Ht E) as He.
  destruct (run_accounted keccak256 ecrecover chainid this takes me txs D D' ex Hok) as [Hok' _ Hb Hbal Hk]; [|done|].
  { eapply Forall_impl; [exact Ht|]. by intros x [_ ?]. }
  assert (Hg : forall s, Forall (fun e => e_grant me s e = None) ex).
  { intros s. apply Forall_forall. intros e Hin. destruct (e_grant me s e) as [v|] eqn:Eg; [|done]. exfalso.
    rewrite Forall_forall in He. destruct (He e Hin) as [Hs _]. apply list_elem_of_split in Hin as (ex1 & ex2 & Eex).
    destruct (Hk ex1 e ex2 s v Eex Eg) as [[_ Hm]|(dl & sv & sr & ss & _ & _ & Hr)]; [done|].
    unfold ECDSA.recover, ECDSA.tryRecover in Hr. case_ifs_in Hr; try done. injection Hr as Hr. by eapply no_key. }
  assert (Hn : forall s, Forall (fun e => 0 <= e_taken me s e) ex).
  { intros s. eapply Forall_impl; [exact He|]. intros e [_ Hty]. by apply taken_nonneg. }
  assert (Hz : forall s, s <> rt -> total (e_taken me s) ex = 0 /\ ERC20.allowance me s (erc20_of D') = 0).
  { intros s Hs. pose proof (Hbal s) as Hle. rewrite Hal in Hle by done.
    assert (Hgs : total (fun e => default 0 (e_grant me s e)) ex = 0).
    { apply total_none. eapply Forall_impl; [apply (Hg s)|]. by intros e ->. }
    rewrite Hgs in Hle. pose proof (total_nonneg _ _ (Hn s)). pose proof (ERC20.ok_allowance _ Hok' me s). unfold in_range in *.
    assert (Hf : Forall (fun e => e_grant me s e <> Some u256_max) ex) by (eapply Forall_impl; [apply (Hg s)|]; by intros e ->).
    specialize (Hle ltac:(discriminate) Hf). lia. }
  split; [split; [done|by intros s Hs; apply Hz]|]. rewrite Hb by done.
  assert (Hsp : total (e_spent me) ex = 0).
  { apply total_none. eapply Forall_impl; [exact He|].
    intros [[m c] logs] [Hs _]. unfold e_spent. simpl in *. destruct c; try done; simpl; by rewrite (proj2 (Z.eqb_neq _ _) Hs). }
  assert (Hta : total (e_taken_by_any me) ex = total (e_taken me rt) ex).
  { apply total_ext, Forall_forall. intros [[m c] logs] Hin. destruct (decide (sender m = rt)) as [Er|Hr].
    - unfold e_taken_by_any, e_taken. simpl. destruct c; try done; simpl; rewrite Er, Z.eqb_refl, andb_true_r; done.
    - pose proof (total_zero _ _ (Hn (sender m)) (proj1 (Hz _ Hr))) as Hz'. rewrite Forall_forall in Hz'. specialize (Hz' _ Hin).
      unfold e_taken_by_any, e_taken in *. simpl in *.
      destruct c; try done; simpl in *; rewrite Z.eqb_refl, andb_true_r in Hz'; rewrite Hz', (proj2 (Z.eqb_neq _ _) Hr), andb_false_r; done. }
  rewrite Hsp, Hta. lia.
Qed.

End Account.

Section Safety.
Context {E Origin : Type} `{Router E} `{Subcall.RuntimeLaws Origin}.
Variables (keccak256 : list Z -> list Z) (ecrecover : list Z -> Z -> Z -> Z -> Address) (chainid : Z) (takes : Address -> Z -> bool).
Variables (this me rt : Address) (other_approve : Address -> Address -> Z -> Chain E -> option (Chain E)).
Context `{!RouterLaws E (run keccak256 ecrecover chainid this takes) me rt}.
Hypothesis no_key : forall d v r s, ecrecover d v r s <> me.
Hypothesis me_nonzero : me <> 0.

Abbreviation step := (step keccak256 ecrecover chainid takes this me rt).
Abbreviation deploy := (deploy keccak256 ecrecover chainid takes this me rt other_approve).
Abbreviation balance x := (ERC20.balanceOf me (erc20_of (mpt x))).

Definition sold (ss : list (sale Origin)) : Z := foldr (fun x acc => mptIn x + acc) 0 ss.

Definition sale_ok (appId : list Z) (x : sale Origin) : Prop :=
  Subcall.is_instance (origin x) appId = true /\ 0 < mptIn x /\ minOut x <= roseOut x.

Record SInv (appId : list Z) (b0 : Z) (s : State E Origin) : Prop := {
  si_token : Inv me rt (mpt (chain s));
  si_app : Periphery.fs_APP_ID (swapper s) = appId;
  si_balance : balance (chain s) = b0 + total (e_received me) (history s) - sold (sales s);
  si_sales : Forall (sale_ok appId) (sales s);
}.

Lemma sold_app a b : sold (a ++ b) = sold a + sold b.
Proof. unfold sold. induction a as [|x a IH]; simpl; [lia|]. rewrite IH. lia. Qed.

Lemma swap_SInv appId b0 s o a out dl rose x evs :
  length appId = 21%nat -> SInv appId b0 s ->
  Periphery.swapFeeToRose (swapExactTokensForETH keccak256 ecrecover chainid takes this me) (fun a x => native_balance a (rest x))
    (Subcall.roflEnsureAuthorizedOrigin (Subcall.precompile o)) a out dl (swapper s) (chain s) = Some (rose, x, evs) ->
  SInv appId b0 (Build_State (swapper s) x
    (history s ++ swap_entries keccak256 ecrecover chainid takes this me a out (Periphery.path (swapper s)) (Periphery.reservoir (swapper s)) dl (chain s))
    (sales s ++ [{| origin := o; mptIn := a; minOut := out; roseOut := rose; paid_to := Periphery.reservoir (swapper s) |}])).
Proof.
  intros Hl [Hi Ha Hb Hs] E1. unfold Periphery.swapFeeToRose in E1. rewrite Ha, Subcall.origin_checked in E1 by done.
  destruct (Subcall.is_instance o appId) eqn:Eo; [|done]. destruct (Z.ltb_spec 0 a); [|done]. simpl in E1.
  unfold swapExactTokensForETH in E1. unfold swap_entries.
  destruct (swap me a out _ _ dl (mpt (chain s)) (rest (chain s))) as [[calls e]|] eqn:Es; [|done].
  pose proof (rl_pays _ _ _ _ _ _ _ _ _ Es) as Hp. pose proof (rl_takes _ _ _ _ _ _ _ _ _ Es) as Ht.
  pose proof (rl_calls _ _ _ _ _ _ _ _ _ Es) as Hc. destruct (run keccak256 ecrecover chainid this takes calls (mpt (chain s))) as [D ex] eqn:Er.
  simpl in *. case_ifs_in E1; [done|]. simplify_eq.
  destruct (run_confined keccak256 ecrecover chainid takes this me rt no_key me_nonzero calls _ D ex Hi Hc Er) as [Hi' Hb'].
  split; simpl; [done|done| |].
  - rewrite Hb', Hb, total_app, sold_app. simpl. lia.
  - apply Forall_app. split; [done|]. constructor; [|done]. split_and!; simpl; [done|done|lia].
Qed.

Lemma step_SInv appId b0 s s' : length appId = 21%nat -> SInv appId b0 s -> step s s' -> SInv appId b0 s'.
Proof.
  intros Hl Hi Hst. destruct Hst as [o a out dl rose x evs E1|a r c evs E1|a o c E1|a c E1|calls e D ex Hc Er Ht].
  - by eapply swap_SInv.
  - destruct Hi. unfold Periphery.setReservoir in E1. case_ifs_in E1; try done. by simplify_eq.
  - destruct Hi. unfold Periphery.fs_transferOwnership in E1. case_ifs_in E1; try done. by simplify_eq.
  - destruct Hi. unfold Periphery.fs_renounceOwnership in E1. case_ifs_in E1; try done. by simplify_eq.
  - destruct Hi as [Hi Ha Hb Hs].
    destruct (run_confined keccak256 ecrecover chainid takes this me rt no_key me_nonzero calls _ D ex Hi Hc Er) as [Hi' Hb'].
    split; simpl; [done|done| |done]. rewrite Hb', Hb, total_app, Ht. lia.
Qed.

(** Whether the token takes an approval does not depend on the amount. *)
Lemma forceApprove_exec spender v now D D' :
  forceApprove keccak256 ecrecover chainid takes this me spender v now D = Some D' ->
  exists logs, exec keccak256 ecrecover chainid this takes {| sender := me; mvalue := 0; timestamp := now |} (CApprove spender v) D = Some (D', logs).
Proof.
  unfold forceApprove. destruct (exec _ _ _ _ _ _ (CApprove spender v) D) as [[D1 logs]|] eqn:E1; simpl.
  { intros [= <-]. eauto. }
  unfold exec, on_erc20, ERC20.approve, ERC20._approve in *. simpl in *. by destruct (me =? 0), (spender =? 0).
Qed.

(** The approval of the constructor gives the router an allowance and does nothing else. *)
Lemma deploy_SInv deployer reservoir appId now x c x' evs :
  ERC20.ok (erc20_of (mpt x)) -> (forall s, ERC20.allowance me s (erc20_of (mpt x)) = 0) ->
  deploy deployer this reservoir appId now x = Some (c, x', evs) -> SInv appId (balance x) (Build_State c x' [] []).
Proof.
  intros Hok Hal. unfold FeeSale.deploy, Periphery.fee_swapper_new, approve. rewrite Z.eqb_refl. destruct (_ || _); [done|].
  destruct (forceApprove _ _ _ _ _ _ _ _ _) as [D|] eqn:Ef; [|done]. cbn [mbind option_bind]. intros [= <- <- _].
  apply forceApprove_exec in Ef as [logs Ex]. unfold exec in Ex. cbn [payable negb andb mvalue Z.eqb sender] in Ex.
  apply on_erc20_inv in Ex as (Ex & _ & _ & _). unfold ERC20.approve in Ex.
  assert (Hok' : ERC20.ok (erc20_of D)) by (eapply ERC20.approve_ok; [exact Hok| |exact Ex]; unfold in_range, u256_max; lia).
  apply ERC20.approve_spec in Ex as (_ & _ & Eb & _ & Ea). split; simpl; [|done| |done].
  - split; [done|]. intros s Hs. rewrite Ea, decide_False by naive_solver. apply Hal.
  - unfold ERC20.balanceOf. rewrite Eb. lia.
Qed.

(** C15: fees are sold by the enclave alone.  From the deployment of the fee seller on, over
    any sequence of transactions of anyone, the tokens of the seller are what it had and
    what it received, less the amounts of its sales; every sale was made in a transaction
    of an instance of the app the seller was deployed for, and brought the reservoir at
    least the minimum it named; and nobody but the router may spend for the seller. *)
Theorem fees_sold_by_enclave deployer reservoir appId now x c x' evs s :
  ERC20.ok (erc20_of (mpt x)) -> (forall a, ERC20.allowance me a (erc20_of (mpt x)) = 0) -> length appId = 21%nat ->
  deploy deployer this reservoir appId now x = Some (c, x', evs) -> rtc step (Build_State c x' [] []) s ->
  balance (chain s) = balance x + total (e_received me) (history s) - sold (sales s) /\
  Forall (sale_ok appId) (sales s) /\
  forall a, a <> rt -> ERC20.allowance me a (erc20_of (mpt (chain s))) = 0.
Proof.
  intros Hok Hal Hl Hd Hr. assert (Hi : SInv appId (balance x) s).
  { eapply (rtc_invariant step (SInv appId (balance x))); [|exact Hr|by eapply deploy_SInv].
    intros s1 s2 Hs1 Hst. by eapply step_SInv. }
  destruct Hi as [[_ Ha] _ Hb Hs]. done.
Qed.

End Safety.

(** ** Concrete inputs *)

Module Demo.

#[export] Existing Instances Subcall.Demo.runtime Subcall.Demo.runtime_laws.

(** The account 40 of the seller signs nothing. *)
Definition ecrecover (d : list Z) (v r s : Z) : Address := if r =? 40 then 0 else MiningPoolToken.Demo.ecrecover d v r s.
Abbreviation keccak := MiningPoolToken.Demo.keccak.
Definition takes (_ : Address) (_ : Z) : bool := true.

(** A router at 50 that pays two for one out of thin air, into one purse. *)
Definition take_in (caller : Address) (a : Z) : msg * call := (MiningPoolToken.Demo.by_ 50, CTransferFrom caller 53 a).

#[export] Instance router : Router Z := {
  weth _ := 52;
  amounts_out a _ _ := Some [a; 2 * a];
  swap caller a o p to dl D e :=
    if decide (is_u256 a) then
      match exec keccak ecrecover 23294 5 takes (take_in caller a).1 (take_in caller a).2 D with
      | Some _ => if o <=? 2 * a then Some ([take_in caller a], e + 2 * a) else None
      | None => None
      end
    else None;
  native_balance _ e := e;
}.

#[export] Instance router_laws : RouterLaws Z (run keccak ecrecover 23294 5 takes) 40 50.
Proof.
  split; intros a o p to dl D e calls e'; cbn [swap router native_balance]; case_decide as Ha; try done;
    destruct (exec keccak ecrecover 23294 5 takes _ _ D) as [[D' logs]|] eqn:Ex; try done;
    destruct (Z.leb_spec o (2 * a)); try done; intros [= <- <-].
  - constructor; [|done]. by split.
  - unfold take_in in *. cbn [run fst snd] in *. rewrite Ex. unfold total, e_taken. cbn. lia.
  - lia.
Qed.

Definition claim_fee : msg * call := (MiningPoolToken.Demo.by_ 1, CClaim 40 500 5 (MiningPoolToken.Demo.sig_of 9
  (hashTypedData keccak 23294 5 MiningPoolToken.Demo.genesis
     (keccak (VOUCHER_TYPEHASH keccak ++ Oracle.addr_word 40 ++ Oracle.w 500 ++ Oracle.w 5))))).
Definition steal : msg * call := (MiningPoolToken.Demo.by_ 6, CTransferFrom 40 6 500).

Definition app : list Z := replicate 21 1.
Definition x0 : Chain Z := {| mpt := MiningPoolToken.Demo.genesis; rest := 7 |}.

Definition deployed : Periphery.FeeSwapper * Chain Z * list Periphery.swap_event :=
  match deploy keccak ecrecover 23294 takes 5 40 50 (fun _ _ _ _ => None) 3 5 60 app 100 x0 with
  | Some r => r
  | None => (Periphery.Build_FeeSwapper 0 0 0 [] 0 0, x0, [])
  end.

Definition s0 : State Z bool := Build_State deployed.1.1 deployed.1.2 [] [].
Definition mid : Deployed * list entry := run keccak ecrecover 23294 5 takes [claim_fee; steal] (mpt (chain s0)).
Definition s1 : State Z bool := Build_State (swapper s0) {| mpt := mid.1; rest := 7 |} ([] ++ mid.2) [].
Definition x2 : Chain Z :=
  match Periphery.swapFeeToRose (swapExactTokensForETH keccak ecrecover 23294 takes 5 40) (fun a x => native_balance a (rest x))
          (Subcall.roflEnsureAuthorizedOrigin (Subcall.precompile true)) 300 500 0 (swapper s1) (chain s1) with
  | Some (_, x, _) => x
  | None => x0
  end.
Definition s2 : State Z bool := Build_State (swapper s1) x2
  (history s1 ++ swap_entries keccak ecrecover 23294 takes 5 40 300 500 (Periphery.path (swapper s1)) (Periphery.reservoir (swapper s1)) 0 (chain s1))
  ([] ++ [{| origin := true; mptIn := 300; minOut := 500; roseOut := 600; paid_to := Periphery.reservoir (swapper s1) |}]).

(** The fee is claimed, a theft fails, and a sale of 300 of the 500 goes through. *)
Lemma sale_run : rtc (step keccak ecrecover 23294 takes 5 40 50) s0 s2.
Proof.
  apply rtc_l with s1; [|apply rtc_once].
  - apply (s_other keccak ecrecover 23294 takes 5 40 50 s0 [claim_fee; steal] 7).
    + repeat constructor; try discriminate; vm_compute; split; discriminate.
    + exact (surjective_pairing mid).
    + vm_compute. reflexivity.
  - apply (s_swap keccak ecrecover 23294 takes 5 40 50 s1 true 300 500 0 600 x2 [Periphery.FeeSwapped 300 500 600 60]). vm_compute. reflexivity.
Qed.

End Demo.

Import Demo.

Lemma fees_sold_by_enclave_witness :
  ERC20.balanceOf 40 (erc20_of (mpt (chain Demo.s2))) = 200 /\ sold (sales Demo.s2) = 300 /\
  Forall (sale_ok Demo.app) (sales Demo.s2).
Proof.
  do 2 (split; [vm_compute; reflexivity|]).
  refine (proj1 (proj2 (fees_sold_by_enclave Demo.keccak Demo.ecrecover 23294 Demo.takes 5 40 50 (fun _ _ _ _ => None) _ _
    3 60 Demo.app 100 Demo.x0 Demo.deployed.1.1 Demo.deployed.1.2 Demo.deployed.2 Demo.s2 MiningPoolToken.Demo.genesis_ok _ _ _ Demo.sale_run))).
  - intros d v r s. unfold Demo.ecrecover. destruct (Z.eqb_spec r 40); [discriminate|]. unfold MiningPoolToken.Demo.ecrecover. destruct (_ && _); [done|discriminate].
  - discriminate.
  - intros a. exact eq_refl.
  - vm_compute. reflexivity.
  - vm_compute. reflexivity.
Defined.

End FeeSale.
