(* ===== verification/Deploy.v ===== *)
(** The deployment of the token and of the fee seller (contracts/script/DeployFeeSwap.s.sol),
    over the contracts of [MiningPoolToken] and [FeeSale].

    The tool that runs the script (its keys, its configuration file, the creation of contracts
    from compiled artifacts) and the exchange are parameters.  The script is run as one
    piece: a revert anywhere sends nothing. *)
From S2P Require Import Prelude Text Hex Oracle Contract Eip712 OpenZeppelin MiningPoolToken Periphery Subcall FeeSale.
Import OpenZeppelin MiningPoolToken FeeSale.

Module Deploy.

(** The fields of the configuration file, with the amounts read from their text. *)
Record DeployConfig : Type := {
  dex_mode : string;
  dex_router : Address;
  dex_wrapped_native : Address;
  token_signer : Address;
  token_subsidy : Z;
  fs_reservoir : Address;
  fs_app_id : list Z;
  seed_mpt : Z;
  seed_rose_wei : Z;
}.

Class Forge (E : Type) := {
  vm_addr : Z -> Address;
  vm_sign : Z -> list Z -> Z * Z * Z;
  (** an artifact with the addresses given to its constructor; zero when it fails *)
  create : string -> list Address -> E -> Address * E;
  (** [addLiquidityETH], with the calls it makes to the token *)
  add_liquidity : Address -> Z -> Z -> Address -> Z -> Deployed -> E -> option (list (msg * call) * E);
}.

Section Script.
Context {E : Type} `{Forge E} `{Router E} `{Uniswap}.
Variables (keccak256 : list Z -> list Z) (ecrecover : list Z -> Z -> Z -> Z -> Address) (chainid : Z) (takes : Address -> Z -> bool).
(** The addresses the token and the seller are created at. *)
Variables (this me : Address).

Abbreviation exec := (exec keccak256 ecrecover chainid this takes).
Abbreviation run := (run keccak256 ecrecover chainid this takes).

(** [_deploy]. *)
Definition deploy_artifact (artifact : string) (args : list Address) (e : E) : option (Address * E) :=
  let '(a, e) := create artifact args e in if a =? 0 then None else Some (a, e).

Definition find_router (cfg : DeployConfig) (deployer : Address) (e : E) : option (Address * E) :=
  if String.eqb (dex_mode cfg) "create" then
    '(factory, e) ← deploy_artifact "UniswapV2Factory" [deployer] e;
    '(weth, e) ← (if dex_wrapped_native cfg =? 0 then deploy_artifact "WETH9" [] e else Some (dex_wrapped_native cfg, e));
    deploy_artifact "UniswapV2Router02" [factory; weth] e
  else Some (dex_router cfg, e).

(** [_voucher]: the script hashes the typed data by hand. *)
Definition voucher_digest (token user : Address) (cum now : Z) : list Z :=
  let typeHash := keccak256 (bytes_of "Voucher(address user,uint256 cumulativeAmount,uint256 signedAt)") in
  let structHash := keccak256 (typeHash ++ Oracle.addr_word user ++ Oracle.w cum ++ Oracle.w now) in
  let domain := keccak256 (keccak256 (bytes_of "EIP712Domain(string name,string version,uint256 chainId,address verifyingContract)")
                           ++ keccak256 (bytes_of "MiningPoolToken") ++ keccak256 (bytes_of "1") ++ Oracle.w chainid ++ Oracle.addr_word token) in
  keccak256 ([25; 1] ++ domain ++ structHash).

Definition _voucher (pk : Z) (token user : Address) (cum now : Z) : list Z :=
  let '(v, r, s) := vm_sign pk (voucher_digest token user cum now) in to_be_bytes 32 r ++ to_be_bytes 32 s ++ [v].

(** The first liquidity: a voucher the deployer signs for itself. *)
Definition seed (cfg : DeployConfig) (pk now : Z) (router : Address) (x : Chain E) : option (Chain E) :=
  let deployer := vm_addr pk in
  let m := {| sender := deployer; mvalue := 0; timestamp := now |} in
  if negb (token_signer cfg =? deployer) then None
  else
    '(D, _) ← exec m (CClaim deployer (seed_mpt cfg) now (_voucher pk this deployer (seed_mpt cfg) now)) (mpt x);
    '(D, _) ← exec m (CApprove router (seed_mpt cfg)) D;
    '(calls, e) ← add_liquidity router (seed_mpt cfg) (seed_rose_wei cfg) deployer (now + 600) D (rest x);
    Some {| mpt := (run calls D).1; rest := e |}.

Definition script (cfg : DeployConfig) (pk now : Z) (e : E) : option (Periphery.FeeSwapper * Chain E) :=
  let deployer := vm_addr pk in
  if negb (length (fs_app_id cfg) =? 21)%nat then None
  else
    '(router, e) ← find_router cfg deployer e;
    '(D, _) ← constructor keccak256 chainid this deployer (token_signer cfg) (token_subsidy cfg) router;
    '(c, x, _) ← FeeSale.deploy keccak256 ecrecover chainid takes this me router (fun _ _ _ _ => None)
                   deployer this (fs_reservoir cfg) (fs_app_id cfg) now {| mpt := D; rest := e |};
    if (0 <? seed_mpt cfg) && (0 <? seed_rose_wei cfg) then
      x ← seed cfg pk now router x; Some (c, x)
    else Some (c, x).

(** ** The seed voucher *)

(** The key signs in the lower half, with the word that says which root. *)
Class ForgeLaws : Prop := {
  fo_sign : forall pk d v r s, vm_sign pk d = (v, r, s) ->
    ecrecover d v r s = vm_addr pk /\ 0 <= r < 2 ^ 256 /\ 0 <= s <= ECDSA.half_order;
  fo_addr : forall pk, vm_addr pk <> 0;
}.

(** The hash made by hand is the contract's. *)
Lemma digest_by_hand D user cum now :
  domain D = EIP712.constructor keccak256 "MiningPoolToken" "1" chainid this ->
  voucher_digest this user cum now = hashTypedData keccak256 chainid this D
    (keccak256 (VOUCHER_TYPEHASH keccak256 ++ Oracle.addr_word user ++ Oracle.w cum ++ Oracle.w now)).
Proof. intros Hd. unfold hashTypedData, EIP712.hashTypedDataV4, EIP712.domainSeparatorV4. rewrite Hd. simpl. by rewrite !Z.eqb_refl. Qed.

Context `{!ForgeLaws}.

Lemma voucher_recovers pk D user cum now :
  domain D = EIP712.constructor keccak256 "MiningPoolToken" "1" chainid this ->
  voucher_signer keccak256 ecrecover chainid this D user cum now (_voucher pk this user cum now) = Some (vm_addr pk).
Proof.
  intros Hd. unfold voucher_signer, _voucher. rewrite <- digest_by_hand by done.
  destruct (vm_sign pk _) as [[v r] s] eqn:Es. apply fo_sign in Es as (Ea & Hr & Hs). unfold ECDSA.recover_bytes, ECDSA.tryRecover_bytes.
  assert (Hl : forall z, length (to_be_bytes 32 z) = 32%nat) by (intros z; apply to_be_bytes_length).
  rewrite !length_app, !Hl. cbn [length Nat.add Nat.eqb].
  rewrite take_app_length', drop_app_length', take_app_length' by (symmetry; apply Hl).
  rewrite lookup_app_r, lookup_app_r, !Hl by (rewrite ?Hl; lia). cbn [Nat.sub lookup list_lookup default].
  rewrite !from_to_be_bytes by (change (256 ^ Z.of_nat 32) with (2 ^ 256); unfold ECDSA.half_order in *; lia).
  unfold ECDSA.tryRecover. rewrite Z.gtb_ltb, (proj2 (Z.ltb_ge _ _)) by lia. unfold id. rewrite Ea, (proj2 (Z.eqb_neq _ _)) by apply fo_addr. done.
Qed.

(** The claim of the seed is accepted, by a token that has just been created. *)
Lemma seed_claimed pk D now cum m :
  domain D = EIP712.constructor keccak256 "MiningPoolToken" "1" chainid this -> mvalue m = 0 ->
  Contract.authorizedSigner (token D) = vm_addr pk -> Contract.claimed_of (vm_addr pk) (token D) = 0 ->
  Contract.supply (ERC20.book (erc20_of D)) = 0 -> 0 < cum <= u256_max ->
  exists D', exec m (CClaim (vm_addr pk) cum now (_voucher pk this (vm_addr pk) cum now)) D
    = Some (D', [Transfer 0 (vm_addr pk) cum; Claimed (vm_addr pk) cum cum]) /\ domain D' = domain D.
Proof.
  intros Hd Hm Hs Hc Hsup Hcum. destruct (mint_succeeds (vm_addr pk) cum (erc20_of D)) as [l Hl]; [apply fo_addr|lia|].
  unfold MiningPoolToken.exec. rewrite Hm. cbn [payable negb andb Z.eqb]. unfold Contract.claim. rewrite Hc, Z.gtb_ltb, (proj2 (Z.ltb_lt _ _)) by lia.
  rewrite decide_True by (rewrite voucher_recovers by done; by rewrite Hs). rewrite Z.sub_0_r. cbn [Contract.mint ERC20.interface].
  unfold erc20_of in Hl. rewrite Hl. eexists. split; [done|done].
Qed.

(** ** From the script to the sales *)

Context {Origin : Type} `{!Subcall.Runtime Origin}.
Hypothesis deployer_not_seller : forall pk, vm_addr pk <> me.
Hypothesis liquidity_calls : forall r a w to dl D e calls e', add_liquidity r a w to dl D e = Some (calls, e') ->
  Forall (not_me me) calls /\ total (e_taken me r) (run calls D).2 = 0.

(** The seed is a step of others, for the seller. *)
Lemma seed_step cfg pk now router c h sl x x' :
  is_u256 now -> is_u256 (seed_mpt cfg) -> seed cfg pk now router x = Some x' ->
  exists h', step keccak256 ecrecover chainid takes this me router (Build_State (Origin := Origin) c x h sl) (Build_State c x' h' sl).
Proof.
  intros Hn Hs. unfold seed. destruct (negb _); [done|].
  destruct (exec _ (CClaim _ _ _ _) _) as [[D1 l1]|] eqn:E1; [|done]. cbn [mbind option_bind].
  destruct (exec _ (CApprove _ _) _) as [[D2 l2]|] eqn:E2; [|done]. cbn [mbind option_bind].
  destruct (add_liquidity _ _ _ _ _ _ _) as [[calls e]|] eqn:E3; [|done]. cbn [mbind option_bind]. intros [= <-].
  apply liquidity_calls in E3 as [Hc Ht]. destruct (run calls D2) as [D3 ex] eqn:Er. eexists.
  eapply s_other with (calls := (_, _) :: (_, _) :: calls); [|cbn [MiningPoolToken.run chain mpt]; rewrite E1, E2, Er; reflexivity|].
  - constructor; [by split; [apply deployer_not_seller|]|]. constructor; [by split; [apply deployer_not_seller|]|done].
  - unfold total, e_taken in *. simpl in *. lia.
Qed.

(** What the script leaves is a seller deployed over a fresh token, and steps of others:
    what every sale is known by. *)
Lemma script_ready cfg pk now e c x :
  is_u256 now -> is_u256 (seed_mpt cfg) -> script cfg pk now e = Some (c, x) ->
  exists router D e0 x0 evs h,
    find_router cfg (vm_addr pk) e = Some (router, e0) /\ ERC20.ok (erc20_of D) /\ (forall a b, ERC20.allowance a b (erc20_of D) = 0) /\
    FeeSale.deploy keccak256 ecrecover chainid takes this me router (fun _ _ _ _ => None)
      (vm_addr pk) this (fs_reservoir cfg) (fs_app_id cfg) now {| mpt := D; rest := e0 |} = Some (c, x0, evs) /\
    length (fs_app_id cfg) = 21%nat /\
    rtc (step keccak256 ecrecover chainid takes this me router) (Build_State (Origin := Origin) c x0 [] []) (Build_State c x h []).
Proof.
  intros Hn Hs. unfold script. destruct (Nat.eqb_spec (length (fs_app_id cfg)) 21) as [Hl|]; [|done]. cbn [negb].
  destruct (find_router _ _ _) as [[router e0]|] eqn:Ef; [|done]. cbn [mbind option_bind].
  destruct (constructor _ _ _ _ _ _ _) as [[D logs]|] eqn:Ec; [|done]. cbn [mbind option_bind].
  destruct (FeeSale.deploy _ _ _ _ _ _ _ _ _ _ _ _ _ _) as [[[c0 x0] evs]|] eqn:Ed; [|done]. cbn [mbind option_bind]. intros Es.
  assert (HD : erc20_of D = ERC20.empty) by (unfold erc20_of; by rewrite (proj1 (constructor_inv _ _ _ _ _ _ _ _ _ Ec))).
  pose proof ERC20.empty_ok as Hok.
  exists router, D, e0, x0, evs. rewrite HD.
  destruct ((0 <? seed_mpt cfg) && _); simplify_eq.
  - destruct (seed _ _ _ _ _) as [x1|] eqn:E1; [|done]. injection Es as -> ->. destruct (seed_step _ _ _ _ c [] [] _ _ Hn Hs E1) as [h Hst].
    exists h. split_and!; try done. by apply rtc_once.
  - exists []. by split_and!.
Qed.

End Script.

End Deploy.
