(* ===== verification/Payouts.v ===== *)
(** Paying redemptions: [redemption-watcher/src/payouts.rs].

    [drain_once] is translated whole, in the monad [M]: the consumer group of the
    redemption stream, the wallet's RPC, the marker on the contract and the
    clocks are parameters, other tasks run between any two calls, and any call
    may fail or crash the process.  A transfer is an event of the log, with the
    wallet's reply. *)
From S2P Require Import Prelude Text Json Redis Effects Store Stamp.
Import Store.

Module Payouts.

Definition RECONCILE_WINDOW_BLOCKS : Z := 4320.

(** Requests to [monero-wallet-rpc]. *)
Inductive request : Type :=
| get_transfers
| get_transfer_by_txid (txid : string)
| get_height
| incoming_transfers
| transfer (amount : Z) (address : string).

(** What a run leaves a trace of. *)
Inductive event : Type :=
| Transferred (id amount : Z) (address : string) (reply : result string Json.Value)
| MarkedProcessed (id : Z) (txid : string) (restore_height : Z).

(** A reply of the server, as the [redis] crate has it. *)
Inductive rvalue : Type :=
| VNil
| VInt (z : Z)
| VBulk (s : string)
| VArray (vs : list rvalue).

Record StreamId : Type := { eid : string; emap : gmap string rvalue }.

(** The consumer group. *)
Class StreamOps (R : Type) := {
  xautoclaim : R -> result string rvalue * R;
  xreadgroup : R -> result string (option (list (list StreamId))) * R;
  xack : string -> R -> result string Z * R;
}.

Class PayoutEnv (W : Type) := {
  wallet_rpc : request -> W -> result string Json.Value * W;
  marker_is_processed : Z -> W -> result string bool * W;
  marker_mark_processed : Z -> string -> Z -> W -> result string unit * W;
  unix_now : W -> Z;
  instant : W -> Z;
  sleep_secs : Z -> W -> W;
}.

Record Config : Type := {
  has_marker : bool;
  per_tx_cap_atomic : Z;
  max_payout_premium_bp : Z;
  confirm_wait_secs : Z;
}.

(** ** Reading the wallet's replies *)

(** The transfers of a [get_transfers] result under one key that carry the stamp
    of [id]. *)
Definition transfer_amount (t : Json.Value) : Z :=
  match Json.get_u64 "amount" t with
  | Some a => a
  | None => opt_or 0 (Json.get_str "amount" t ≫= Text.parse_u128)
  end.

Definition stamped_in (id min_height : Z) (confirmed : bool) (t : Json.Value) : option (string * bool) :=
  if confirmed && (opt_or 0 (Json.get_u64 "height" t) <? min_height) then None
  else
    let amount := transfer_amount t in
    if (0 <? amount) && Stamp.matches_stamp amount id
    then Some (opt_or EmptyString (Json.get_str "txid" t), confirmed)
    else None.

Definition stamp_matches (res : Json.Value) (id min_height : Z) : list (string * bool) :=
  concat (map (fun key =>
    match Json.get_array key res with
    | None => []
    | Some arr => omap (stamped_in id min_height (String.eqb key "out")) arr
    end) ["out"; "pending"; "pool"]).

Definition stamp_match_in_result (res : Json.Value) (id min_height : Z)
  : result string (option (string * bool)) :=
  match stamp_matches res id min_height with
  | [] => Ok None
  | [m] => Ok (Some m)
  | _ => Err "ambiguous stamp match"
  end.

Definition is_permanent_transfer_error (err : Json.Value) : bool :=
  if decide (Json.get_i64 "code" err = Some (-2)) then true
  else
    let msg := Text.to_ascii_lowercase (opt_or EmptyString (Json.get_str "message" err)) in
    Text.contains "wrong address" msg || Text.contains "invalid address" msg
    || Text.contains "invalid destination" msg || Text.contains "wrong network" msg
    || Text.contains "wrong_address" msg.

(** The error object of a reply, when there is one that is not null. *)
Definition reply_error (raw : Json.Value) : option Json.Value :=
  match Json.get "error" raw with
  | Some err => if Json.is_null err then None else Some err
  | None => None
  end.

(** [serde_json::from_value] into [Rpc<TransferResp>]: the transaction hash, the
    fee and the amount, the last two zero when absent. *)
Definition field_or_zero (k : string) (v : Json.Value) : option Z :=
  match Json.get k v with None => Some 0 | Some x => Json.as_u64 x end.

Definition decode_transfer (raw : Json.Value) : option (string * Z) :=
  match Json.get "result" raw with
  | None => None
  | Some res =>
      match Json.get_str "tx_hash" res, field_or_zero "fee" res, field_or_zero "amount" res with
      | Some h, Some fee, Some _ => Some (h, fee)
      | _, _, _ => None
      end
  end.

(** ** The entries of the stream *)

(** Pairs of a flat field list; a dangling key is dropped. *)
Fixpoint kv_map (kv : list rvalue) : gmap string rvalue :=
  match kv with
  | k :: v :: kv' =>
      match k with
      | VBulk kb => kv_map kv' ∪ {[kb := v]}
      | _ => kv_map kv'
      end
  | _ => ∅
  end.

Definition parse_claimed (e : rvalue) : option StreamId :=
  match e with
  | VArray (VBulk b :: rest) =>
      let m := match rest with VArray kv :: _ => kv_map kv | _ => ∅ end in
      Some {| eid := b; emap := m |}
  | _ => None
  end.

Definition reclaimed_entries (claim_reply : rvalue) : list StreamId :=
  match claim_reply with
  | VArray (_ :: VArray entries :: _) => omap parse_claimed entries
  | _ => []
  end.

Definition field (k : string) (e : StreamId) : option string :=
  match emap e !! k with Some (VBulk b) => Some b | _ => None end.

Definition entry_id (e : StreamId) : Z := opt_or 0 (field "id" e ≫= Text.parse_u64).
Definition entry_amount (e : StreamId) : Z := opt_or 0 (field "amount" e ≫= Text.parse_u128).
Definition entry_addr (e : StreamId) : string := opt_or EmptyString (field "xmr_addr" e).

(** ** The pro-rata payout *)

Inductive quote : Type :=
| QEmpty
| QOverflow
| QPayout (payout_atomic : Z).

Definition cap_of (denom premium_bp : Z) : Z :=
  u128_saturating_add denom (u128_saturating_mul denom premium_bp / 10000).

Definition quote_payout (snap : TreasurySnapshot) (pending_now premium_bp amount : Z) : quote :=
  let denom := u128_saturating_add (mining_pool_token_total_supply snap) pending_now in
  if (denom =? 0) || (monero_balance_atomic snap =? 0) then QEmpty
  else
    let effective_balance := Z.min (monero_balance_atomic snap) (cap_of denom premium_bp) in
    let payout := u256_saturating_mul amount effective_balance / denom in
    if negb (Z.lor (limb 2 payout) (limb 3 payout) =? 0) then QOverflow
    else QPayout (Z.lor (limb 0 payout) (Z.shiftl (limb 1 payout) 64)).

(** ** One entry *)

(** How the loop over the entries goes on: every path that goes on counts the
    entry as processed. *)
Inductive flow : Type := Next | Break.

Section Drain.
Context {R W : Type} `{RedisOps R} `{LuaOps} `{SnapshotJson} `{StreamOps R} `{PayoutEnv W}
  `{World R W event}.
Variable cfg : Config.

Definition rpc (q : request) : M R W event Json.Value := ecall (wallet_rpc q) (fun _ => []).

Definition wallet_height : M R W event Z :=
  raw <- rpc get_height ;;
  ret (opt_or 0 (Json.pointer ["result"; "height"] raw ≫= Json.as_u64)).

Definition find_paid_tx (id : Z) : M R W event (option (string * bool)) :=
  tip <- attempt wallet_height ;;
  let min_height := u64_saturating_sub (unwrap_or 0 tip) RECONCILE_WINDOW_BLOCKS in
  raw <- rpc get_transfers ;;
  lift (stamp_match_in_result (opt_or Json.Null (Json.get "result" raw)) id min_height).

(** The polling loop sleeps 10 seconds a round: [fuel] bounds the rounds. *)
Fixpoint wait_loop (fuel : nat) (txid : string) (deadline : Z) : M R W event bool :=
  raw <- rpc (get_transfer_by_txid txid) ;;
  if 0 <? opt_or 0 (Json.pointer ["result"; "transfer"; "height"] raw ≫= Json.as_u64) then ret true
  else
    now <- gets instant ;;
    if deadline <=? now then ret false
    else
      match fuel with
      | O => fail "fuel"
      | S fuel' => modify (sleep_secs 10) ;;; wait_loop fuel' txid deadline
      end.

Definition wait_confirmed (txid : string) (max_secs : Z) : M R W event bool :=
  now <- gets instant ;;
  wait_loop (Z.to_nat (max_secs / 10 + 1)) txid (now + max_secs).

(** The smallest height of an unspent output, 0 when there is none. *)
Definition unspent_height (t : Json.Value) : option Z :=
  if decide (Json.get_bool "spent" t = Some false) then Json.get_u64 "block_height" t else None.

Definition min_height (hs : list Z) : Z :=
  match hs with [] => 0 | h :: hs' => foldl Z.min h hs' end.

Definition oldest_unspent_height : M R W event Z :=
  raw <- rpc incoming_transfers ;;
  let ts := opt_or [] (Json.pointer ["result"; "transfers"] raw ≫= Json.as_array) in
  ret (min_height (omap unspent_height ts)).

Definition mark_processed (id : Z) (txid : string) (restore_height : Z) : M R W event unit :=
  ecall (marker_mark_processed id txid restore_height)
    (fun r => match r with Ok _ => [MarkedProcessed id txid restore_height] | Err _ => [] end).

(** [marker.mark_processed(..)] where there is a marker; errors are logged. *)
Definition mark_if_marker (id : Z) (txid : string) (restore_height : Z) : M R W event unit :=
  if has_marker cfg then attempt (mark_processed id txid restore_height) ;;; ret tt else ret tt.

Definition hset_state (id : Z) (s : string) : M R W event unit := rcall (SET (state_key id) (RStr s)).
Definition ack (e : StreamId) : M R W event unit := rcall (xack (eid e)) ;;; ret tt.

(** [hset(state); xack; continue]. *)
Definition settle_as (e : StreamId) (s : string) : M R W event flow :=
  hset_state (entry_id e) s ;;; ack e ;;; ret Next.

(** Lines 658-696: wait for the payout to be mined, record it on the contract,
    acknowledge. *)
Definition confirm (e : StreamId) (txid : string) : M R W event flow :=
  (if has_marker cfg then
     r <- attempt (wait_confirmed txid (confirm_wait_secs cfg)) ;;
     match r with
     | Ok true =>
         rh <- attempt oldest_unspent_height ;;
         attempt (mark_processed (entry_id e) txid (unwrap_or 0 rh)) ;;; ret tt
     | _ => ret tt
     end
   else ret tt) ;;;
  ack e ;;; ret Next.

(** Lines 568-648: stamp, transfer, and act on the reply. *)
Definition send (e : StreamId) (payout_atomic : Z) : M R W event flow :=
  let id := entry_id e in
  let stamped := Stamp.stamp_amount payout_atomic id in
  raw <- ecall (wallet_rpc (transfer stamped (entry_addr e)))
           (fun r => [Transferred id stamped (entry_addr e) r]) ;;
  match reply_error raw with
  | Some err =>
      if is_permanent_transfer_error err then
        mark_if_marker id "FAILED:permanent" 0 ;;;
        attempt (hset_state id "failed") ;;;
        ack e ;;; ret Next
      else
        attempt (hset_state id "pending") ;;; fail "wallet-rpc transfer rejected"
  | None =>
      match decode_transfer raw with
      | None => fail "decoding wallet-rpc transfer response"
      | Some (tx_hash, _) =>
          rcall (mark_redemption_sent id tx_hash) ;;;
          confirm e tx_hash
      end
  end.

(** Lines 515-566: dust, and more than is unlocked. *)
Definition pay (e : StreamId) (snap : TreasurySnapshot) (payout_atomic : Z) : M R W event flow :=
  let id := entry_id e in
  if payout_atomic <? Stamp.STAMP_MOD then
    mark_if_marker id "dust-skipped" 0 ;;;
    settle_as e "failed"
  else if payout_atomic >? monero_unlocked_atomic snap then
    hset_state id "paused" ;;;
    attempt (rcall (HSETNX (state_key id) (RStr "pending"))) ;;;
    hset_state id "pending" ;;;
    ret Next
  else send e payout_atomic.

(** Lines 441-514: the treasury snapshot and the quote. *)
Definition price (e : StreamId) : M R W event flow :=
  let id := entry_id e in
  snap <- attempt (rcall treasury_snapshot) ;;
  match unwrap_or None snap with
  | None => hset_state id "pending" ;;; ret Break
  | Some snap =>
      now <- gets unix_now ;;
      let snap_age_secs := wrap_i64 (now - as_of_unix snap) in
      if Z.abs snap_age_secs >? 120 then hset_state id "pending" ;;; ret Break
      else
        pending_now <- rcall pending_atomic ;;
        match quote_payout snap (Z.max pending_now 0) (max_payout_premium_bp cfg) (entry_amount e) with
        | QEmpty => settle_as e "paused"
        | QOverflow => settle_as e "paused"
        | QPayout p => pay e snap p
        end
  end.

(** Lines 417-439: the transition from [pending] to [in_flight]. *)
Definition claim_slot (e : StreamId) : M R W event flow :=
  let id := entry_id e in
  claimed <- rcall (try_mark_redemption_in_flight id) ;;
  if negb claimed then
    attempt (rcall (redemption_state id)) ;;;
    ack e ;;; ret Next
  else price e.

(** Lines 385-415: a payout with this id's stamp already in the wallet. *)
Definition reconcile (e : StreamId) : M R W event flow :=
  let id := entry_id e in
  r <- attempt (find_paid_tx id) ;;
  match r with
  | Ok (Some (txid, confirmed)) =>
      attempt (rcall (mark_redemption_sent id txid)) ;;;
      (if confirmed then mark_if_marker id txid 0 else ret tt) ;;;
      ack e ;;; ret Next
  | Ok None => claim_slot e
  | Err _ => ret Break
  end.

(** Lines 340-383: the per-transaction cap and the contract's record. *)
Definition process_entry (e : StreamId) : M R W event flow :=
  let id := entry_id e in
  if entry_amount e >? per_tx_cap_atomic cfg then settle_as e "paused"
  else if has_marker cfg then
    r <- attempt (ecall (marker_is_processed id) (fun _ => [])) ;;
    match r with
    | Ok true => settle_as e "sent"
    | Ok false => reconcile e
    | Err _ => ret Break
    end
  else reconcile e.

(** ** The loop *)

Fixpoint process_entries (es : list StreamId) (processed : Z) : M R W event Z :=
  match es with
  | [] => ret processed
  | e :: es' =>
      f <- process_entry e ;;
      match f with
      | Next => process_entries es' (processed + 1)
      | Break => ret processed
      end
  end.

Definition drain_once : M R W event Z :=
  claim_reply <- attempt (rcall xautoclaim) ;;
  resp <- rcall xreadgroup ;;
  let all_ids := reclaimed_entries (unwrap_or VNil claim_reply)
                 ++ match resp with Some streams => concat streams | None => [] end in
  process_entries all_ids 0.

(** [run_loop_with_shutdown] for a number of rounds: an error backs off 5
    seconds, the shutdown flag is looked at between rounds only. *)
Fixpoint run_loop (rounds : nat) (cancelled : W -> bool) : M R W event unit :=
  match rounds with
  | O => ret tt
  | S rounds' =>
      stop <- gets cancelled ;;
      if (stop : bool) then ret tt
      else
        r <- attempt drain_once ;;
        match r with
        | Ok _ => run_loop rounds' cancelled
        | Err _ => modify (sleep_secs 5) ;;; run_loop rounds' cancelled
        end
  end.

End Drain.

(** ** The quote *)

(** The amounts and balances are unsigned 128-bit numbers, the pending total and the
    premium not negative. *)
Definition quote_ok (snap : TreasurySnapshot) (pending premium_bp amount : Z) : Prop :=
  is_u128 (monero_balance_atomic snap) /\ is_u128 (mining_pool_token_total_supply snap)
  /\ 0 <= pending /\ is_u128 amount /\ 0 <= premium_bp.

Definition denom_of (snap : TreasurySnapshot) (pending : Z) : Z :=
  u128_saturating_add (mining_pool_token_total_supply snap) pending.

Lemma limbs_lor v : is_u128 v -> Z.lor (limb 0 v) (Z.shiftl (limb 1 v) 64) = v.
Proof.
  intros Hv. rewrite Z.lor_comm, Z.shiftl_mul_pow2 by lia.
  pose proof (limb_range 0 v). rewrite <- (limb01_id v Hv) at 3.
  rewrite Z.add_comm, (Z.mul_comm (2 ^ 64)), <- Z.add_lor_land.
  replace (Z.land _ _) with 0; [lia|]. symmetry. apply Z.bits_inj'. intros n Hn.
  rewrite Z.land_spec, Z.bits_0. destruct (Z.lt_ge_cases n 64).
  - by rewrite Z.mul_pow2_bits_low by lia.
  - destruct (decide (limb 0 v = 0)) as [->|]; [by rewrite Z.bits_0, andb_false_r|].
    rewrite (Z.bits_above_log2 (limb 0 v)); [by rewrite andb_false_r | width_lia|].
    apply Z.lt_le_trans with 64; [apply Z.log2_lt_pow2; width_lia | lia].
Qed.

Lemma quote_payout_u128 snap pending bp amount p :
  quote_payout snap pending bp amount = QPayout p -> is_u128 p.
Proof.
  unfold quote_payout. case_ifs; try done. intros [= <-].
  match goal with |- is_u128 (Z.lor (limb 0 ?v) _) =>
    pose proof (limb_range 0 v); pose proof (limb_range 1 v) end.
  rewrite Z.shiftl_mul_pow2 by lia. split.
  - apply Z.lor_nonneg. split; [width_lia|]. apply Z.mul_nonneg_nonneg; width_lia.
  - apply Z.lt_succ_r. change (Z.succ u128_max) with (2 ^ 128).
    match goal with |- Z.lor ?x ?y < _ => destruct (decide (Z.lor x y = 0)) as [->|]; [done|] end.
    apply Z.log2_lt_pow2; [match goal with |- 0 < Z.lor ?x ?y =>
      assert (0 <= Z.lor x y); [apply Z.lor_nonneg; split; [width_lia | apply Z.mul_nonneg_nonneg; width_lia]|lia] end|].
    rewrite Z.log2_lor by (try apply Z.mul_nonneg_nonneg; width_lia).
    apply Z.max_lub_lt; match goal with |- Z.log2 ?x < 128 =>
      destruct (decide (x = 0)) as [->|]; [by vm_compute|]; apply Z.log2_lt_pow2; [|] end;
      unfold in_range, u64_max in *; nia.
Qed.

(** A quote is the floor of the pro-rata share of the capped balance. *)
Lemma quote_payout_eq snap pending bp amount p :
  quote_ok snap pending bp amount -> quote_payout snap pending bp amount = QPayout p ->
  is_u128 p /\ 0 < denom_of snap pending
  /\ p = amount * Z.min (monero_balance_atomic snap) (cap_of (denom_of snap pending) bp) / denom_of snap pending.
Proof.
  intros (Hb & Hs & Hp & Ha & Hbp). unfold quote_payout. fold (denom_of snap pending).
  assert (Hd : is_u128 (denom_of snap pending)) by (unfold denom_of, u128_saturating_add; width_lia).
  destruct ((denom_of snap pending =? 0) || _) eqn:E; [done|]. bools.
  set (eff := Z.min _ _).
  assert (He : is_u128 eff).
  { subst eff. unfold cap_of, u128_saturating_add, u128_saturating_mul.
    assert (0 <= Z.min u128_max (denom_of snap pending * bp) / 10000) by (apply Z.div_pos; width_lia). width_lia. }
  assert (Hm : u256_saturating_mul amount eff = amount * eff).
  { unfold u256_saturating_mul. apply Z.min_r. unfold in_range, u128_max, u256_max in *. nia. }
  rewrite Hm. set (v := amount * eff / denom_of snap pending).
  destruct (negb _) eqn:En; [done|]. bools. rewrite Z.lor_eq_0_iff in En. intros [= <-].
  assert (Hv : is_u128 v).
  { apply limbs_u128; [|done]. split; [apply Z.div_pos; width_lia|].
    apply Z.div_le_upper_bound; unfold in_range, u128_max, u256_max in *; nia. }
  rewrite limbs_lor by done. split_and!; [apply Hv..| width_lia | done].
Qed.

(** ** Properties *)

(** What a redemption is quoted.  The payout is at most the redeemed amount's
    share of the wallet, never above par plus the configured premium, and at most
    the whole wallet for an amount that is part of the supply and the pending
    redemptions. *)
Lemma quote_payout_bounds snap pending bp amount p :
  quote_ok snap pending bp amount -> quote_payout snap pending bp amount = QPayout p ->
  let denom := denom_of snap pending in
  0 < denom /\ p * denom <= amount * monero_balance_atomic snap
  /\ p * 10000 <= amount * (10000 + bp)
  /\ (amount <= denom -> p <= monero_balance_atomic snap).
Proof.
  intros Hok Hq. destruct (quote_payout_eq _ _ _ _ _ Hok Hq) as (Hp & Hd & ->).
  destruct Hok as (Hb & Hs & Hpe & Ha & Hbp). simpl.
  set (d := denom_of snap pending) in *. set (eff := Z.min _ _).
  assert (He : 0 <= eff <= monero_balance_atomic snap /\ eff * 10000 <= d * (10000 + bp)).
  { subst eff. unfold cap_of, u128_saturating_add, u128_saturating_mul.
    pose proof (Z.mul_div_le (Z.min u128_max (d * bp)) 10000 ltac:(lia)).
    assert (0 <= Z.min u128_max (d * bp) / 10000) by (apply Z.div_pos; width_lia).
    zify_widths. lia. }
  pose proof (Z.mul_div_le (amount * eff) d Hd). unfold in_range in Ha, Hp.
  assert (0 <= amount * eff / d) by (apply Z.div_pos; nia).
  split_and!; [done | nia | nia |]. intros Hle. apply Z.div_le_upper_bound; nia.
Qed.

End Payouts.
