(* ===== verification/Quiet.v ===== *)
(** The payout loop's calls that leave no trace.

    [steady] is how the environment may move on under a call and [okev] the events that
    may be logged meanwhile; a computation is quiet when it keeps every predicate that
    lasts under both.  The proofs about what the wallet and the contract keep
    ([PayoutReconcile], [Marker]) share these rules. *)
From S2P Require Import Prelude Json Redis Effects Store Payouts.
Import Store Payouts.

Module Quiet.

Class Calm (R W : Type) `{PayoutEnv W} `{World R W event} (steady : W -> W -> Prop) (okev : event -> Prop) : Prop := {
  calm_preorder :: PreOrder steady;
  calm_interfere : forall (r : R) w r' w' evs, interfere r w = (r', w', evs) -> steady w w' /\ Forall okev evs;
  calm_fault : forall w f w', next_fault w = (f, w') -> steady w w';
  calm_sleep : forall d w, steady w (sleep_secs d w);
  calm_query : forall q w, (forall amt a, q <> transfer amt a) -> steady w (wallet_rpc q w).2;
  calm_is_processed : forall id w, steady w (marker_is_processed id w).2;
}.

Section Quiet.
Context {R W : Type} `{PayoutEnv W} `{World R W event} {steady : W -> W -> Prop} {okev : event -> Prop} `{!Calm R W steady okev}.
Implicit Types s : st R W event.

Definition lasting (P : st R W event -> Prop) : Prop := forall s r w l,
  steady (env s) w -> Forall okev l -> P s -> P (St_ r w (log s ++ l)).

Definition quiet {A} (m : M R W event A) : Prop := forall P, lasting P -> hoare P m (fun _ => P) P.

Lemma lasting_env P s r w : lasting P -> steady (env s) w -> P s -> P (St_ r w (log s)).
Proof. intros HP Hw Hs. rewrite <- (app_nil_r (log s)). by apply HP. Qed.

Lemma quiet_ret {A} (a : A) : quiet (ret a).
Proof. intros P _. by apply hoare_ret. Qed.
Lemma quiet_fail {A} e : quiet (fail (A := A) e).
Proof. intros P _. by apply hoare_fail. Qed.
Lemma quiet_lift {A} (r : result string A) : quiet (lift r).
Proof. intros P _ s Hs. unfold lift. by destruct r. Qed.
Lemma quiet_gets {A} (f : W -> A) : quiet (gets f).
Proof. intros P _. by apply hoare_gets. Qed.
Lemma quiet_sleep d : quiet (modify (sleep_secs d)).
Proof. intros P HP. apply hoare_modify. intros s Hs. by apply lasting_env; [|apply (calm_sleep (R := R))|]. Qed.
Lemma quiet_bind {A B} (m : M R W event A) (f : A -> M R W event B) :
  quiet m -> (forall a, quiet (f a)) -> quiet (bind m f).
Proof. intros Hm Hf P HP. apply hoare_bind with (fun _ => P); [by apply Hm|]. intros a. by apply Hf. Qed.
Lemma quiet_attempt {A} (m : M R W event A) : quiet m -> quiet (attempt m).
Proof. intros Hm P HP. apply hoare_attempt; [by apply Hm | done]. Qed.

(** A call around a predicate: interference and faults are harmless. *)
Lemma hoare_call_lasting (P : st R W event -> Prop) {A} f ev (Q : A -> st R W event -> Prop) (E : st R W event -> Prop) :
  lasting P -> (forall s, P s -> E s) ->
  (forall s a r2 w2, P s -> f (redis s) (env s) = (a, r2, w2) ->
     let s' := St_ r2 w2 (log s ++ ev a) in
     E s' /\ match a with Ok x => Q x s' | Err _ => True end) ->
  hoare P (call f ev) Q E.
Proof.
  intros HP. apply hoare_call_withstands. intros s r w evs flt w' Hs Ei Efl.
  destruct (calm_interfere _ _ _ _ _ Ei) as [Hw Hevs]. pose proof (calm_fault (R := R) _ _ _ Efl) as Hw'.
  apply (HP s); [by transitivity w|done|done].
Qed.

Lemma quiet_rcall {A} (f : St R A) : quiet (rcall f).
Proof.
  intros P HP. apply hoare_call_lasting; [done..|]. intros s a r2 w2 Hs Ef. simpl.
  destruct (f (redis s)) as [a' r']. simplify_eq.
  assert (P (St_ r2 (env s) (log s ++ []))) by (by apply (HP s)). by destruct a.
Qed.

Lemma quiet_ecall {A} (f : W -> result string A * W) ev :
  (forall w, steady w (f w).2) -> (forall a, Forall okev (ev a)) -> quiet (ecall f ev).
Proof.
  intros Hf Hev P HP. apply hoare_call_lasting; [done..|]. intros s a r2 w2 Hs Ef. simpl.
  specialize (Hf (env s)). destruct (f (env s)) as [a' w']. simplify_eq.
  assert (P (St_ (redis s) w2 (log s ++ ev a))) by (by apply (HP s)). by destruct a.
Qed.

Lemma quiet_rpc q : (forall amt a, q <> transfer amt a) -> quiet (rpc q).
Proof. intros Hq. apply quiet_ecall; [intros w; by apply (calm_query (R := R))|by intros]. Qed.

Lemma quiet_is_processed id : quiet (ecall (marker_is_processed id) (fun _ => [])).
Proof. apply quiet_ecall; [apply (calm_is_processed (R := R))|by intros]. Qed.

End Quiet.

Arguments lasting {R W} steady okev P.
Arguments quiet {R W} steady okev {A} m.

Ltac quiet_step :=
  first
    [ apply quiet_ret | apply quiet_fail | apply quiet_lift | apply quiet_gets
    | apply quiet_sleep | apply quiet_attempt
    | apply quiet_rpc; [done] | apply quiet_rcall | apply quiet_is_processed
    | apply quiet_bind
    | match goal with
      | |- quiet _ _ (if ?b then _ else _) => destruct b
      | |- quiet _ _ (match ?x with _ => _ end) => destruct x
      | |- forall _, _ => intros ?
      end ].
Ltac quiet_walk := repeat quiet_step.

Section Pieces.
Context {R W : Type} `{RedisOps R} `{LuaOps} `{SnapshotJson} `{StreamOps R} `{PayoutEnv W} `{World R W event}
  {steady : W -> W -> Prop} {okev : event -> Prop} `{!Calm R W steady okev}.

Lemma quiet_wait_loop fuel txid deadline : quiet (R := R) (W := W) steady okev (wait_loop fuel txid deadline).
Proof. induction fuel as [|fuel IH]; simpl; quiet_walk. apply IH. Qed.

Lemma quiet_settle e v : quiet (R := R) (W := W) steady okev (settle_as e v).
Proof. unfold settle_as, hset_state, ack. quiet_walk. Qed.

Lemma quiet_find_paid_tx id : quiet (R := R) (W := W) steady okev (find_paid_tx id).
Proof. unfold find_paid_tx, wallet_height. quiet_walk. Qed.

End Pieces.
End Quiet.
