(* ===== verification/Marker.v ===== *)
(** The record of payouts on the contract: redemption-watcher/src/marker.rs, and what it
    protects.

    [AlloyMarker] is translated over the token contract; the network (reads that fail,
    transactions that are lost, delayed or reverted) is a parameter.  The payout loop is
    verified against the interface [MarkerLaws]: a redemption recorded on the contract is
    never paid again, whatever is lost of the database and of the wallet.  The marker over
    the contract implements the interface. *)
From S2P Require Import Prelude Json Redis Effects Store Stamp Payouts Quiet Contract.
Import Store Payouts Quiet.

Module Marker.

(** ** The marker over the contract *)

(** What is seen of a transaction: it was not accepted, no receipt came in time, or its
    receipt says whether it was reverted. *)
Inductive sent : Type := NotSent (e : string) | NoReceipt | Receipt (status : bool).

Class L2 (T W : Type) := {
  token_of : W -> Contract.Token T;
  (** [eth_call] and [eth_gasPrice]: an error, if any *)
  eth_read : W -> option string * W;
  (** a transaction that runs this function of the contract *)
  eth_send : (Contract.Token T -> option (Contract.Token T)) -> W -> sent * W;
}.

Section AlloyMarker.
Context {T W : Type} `{L2 T W}.

Record AlloyMarker : Type := { signer : Address; rpc_url : string }.

(** [rpc_url.parse()]; the address of the contract is the one of [token_of]. *)
Variable parse_url : string -> bool.

Definition marker_new (url : string) (signer_ : Address) : anyhow AlloyMarker :=
  if parse_url url then Ok {| signer := signer_; rpc_url := url |} else Err "invalid l2 rpc url".

Definition eth_call {A} (f : Contract.Token T -> A) (w : W) : result string A * W :=
  let '(e, w) := eth_read w in
  (match e with Some e => Err e | None => Ok (f (token_of w)) end, w).

Definition is_processed (id : Z) (w : W) : result string bool * W := eth_call (Contract.is_processed id) w.

Definition restore_height (w : W) : result string Z * W :=
  let '(r, w) := eth_call Contract.restoreHeight w in
  (match r with Ok v => Ok (if v <=? u64_max then v else u64_max) | Err e => Err e end, w).

Definition mark_processed (m : AlloyMarker) (id : Z) (txid : string) (restore_height : Z) (w : W) : result string unit * W :=
  if negb (parse_url (rpc_url m)) then (Err "invalid l2 rpc url", w)
  else
    let '(gas_price, w) := eth_read w in
    match gas_price with
    | Some e => (Err e, w)
    | None =>
        let '(r, w) := eth_send (Contract.markProcessed (signer m) id txid restore_height) w in
        (match r with
         | NotSent e => Err e
         | NoReceipt => Err "timed out waiting for markProcessed receipt"
         | Receipt status => if negb status then Err "markProcessed tx reverted" else Ok tt
         end, w)
    end.

End AlloyMarker.

(** ** What the payout loop relies on *)

Class MarkerLaws (R W : Type) `{PayoutEnv W} `{World R W event} := {
  settled : Z -> W -> Prop;
  keeps (w w' : W) : Prop := forall id, settled id w -> settled id w';
  ml_interfere : forall (r : R) w r' w' evs, interfere r w = (r', w', evs) -> keeps w w' /\ evs = [];
  ml_fault : forall w f w', next_fault w = (f, w') -> keeps w w';
  ml_sleep : forall d w, keeps w (sleep_secs d w);
  ml_rpc : forall q w, keeps w (wallet_rpc q w).2;
  ml_is_processed : forall id w r w', marker_is_processed id w = (r, w') ->
    keeps w w' /\ (r = Ok false -> ~ settled id w');
  ml_mark : forall id t h w r w', marker_mark_processed id t h w = (r, w') ->
    keeps w w' /\ (r = Ok tt -> settled id w');
}.

Section Safety.
Context {R W : Type} `{RedisOps R} `{LuaOps} `{SnapshotJson} `{StreamOps R} `{PayoutEnv W}
  `{World R W event} `{!MarkerLaws R W}.
Variable cfg : Config.
Implicit Types s : st R W event.

#[global] Instance keeps_preorder : PreOrder (keeps (R := R) (W := W)).
Proof. split; [by intros w id|]. intros w1 w2 w3 H7 H8 id. auto. Qed.

#[global] Instance marker_calm : Calm R W keeps (fun _ => False).
Proof.
  split.
  - apply _.
  - intros r w r' w' evs E. destruct (ml_interfere _ _ _ _ _ E) as [? ->]. by split.
  - apply ml_fault.
  - apply ml_sleep.
  - intros q w _. apply ml_rpc.
  - intros id w. destruct (marker_is_processed id w) as [r w'] eqn:E. by apply ml_is_processed in E as [? _].
Qed.

(** The redemptions recorded before the run, and those the log records. *)
Variable before : Z -> Prop.
Definition marked (id : Z) (l : list event) : Prop := exists t h, MarkedProcessed id t h ∈ l.

Definition event_ok (pre : list event) (e : event) : Prop :=
  match e with Transferred id _ _ _ => ~ before id /\ ~ marked id pre | MarkedProcessed _ _ _ => True end.

Record MInv s : Prop := {
  minv_settled : forall id, before id \/ marked id (log s) -> settled id (env s);
  minv_log : history event_ok (log s);
}.

(** The redemption may be paid. *)
Definition Clear (id : Z) s : Prop := MInv s /\ ~ before id /\ ~ marked id (log s).

Lemma lasting_MInv : lasting keeps (fun _ => False) MInv.
Proof.
  intros s r w [|e l] Hw Hl [Hs Hlog]; [|by inversion Hl]. split; simpl; rewrite app_nil_r; [|done].
  intros id Hid. by apply Hw, Hs.
Qed.

Lemma lasting_Clear id : lasting keeps (fun _ => False) (Clear id).
Proof.
  intros s r w l Hw Hl [Hs Hc]. split; [by apply lasting_MInv|]. destruct l as [|e l]; [|by inversion Hl].
  simpl. by rewrite app_nil_r.
Qed.

(** Computations that keep the invariant. *)
Definition sound {A} (m : M R W event A) : Prop := hoare MInv m (fun _ => MInv) MInv.

Lemma quiet_sound {A} (m : M R W event A) : quiet keeps (fun _ => False) m -> sound m.
Proof. intros Hm. apply Hm, lasting_MInv. Qed.

Lemma quiet_clear {A} (m : M R W event A) id : quiet keeps (fun _ => False) m -> hoare (Clear id) m (fun _ => Clear id) MInv.
Proof. intros Hm. eapply hoare_conseq; [apply (Hm (Clear id)), lasting_Clear|done|done|by intros s []]. Qed.

Lemma sound_bind {A B} (m : M R W event A) (f : A -> M R W event B) : sound m -> (forall a, sound (f a)) -> sound (bind m f).
Proof. intros Hm Hf. by apply hoare_bind with (fun _ => MInv). Qed.

Lemma sound_attempt {A} (m : M R W event A) : sound m -> sound (attempt m).
Proof. intros Hm. by apply hoare_attempt. Qed.

Lemma sound_clear {A} (m : M R W event A) id : sound m -> hoare (Clear id) m (fun _ => MInv) MInv.
Proof. intros Hm. eapply hoare_pre; [by intros s [Hs _]; exact Hs|done]. Qed.

Lemma marked_app id l l' : marked id (l ++ l') <-> marked id l \/ marked id l'.
Proof. unfold marked. set_solver. Qed.

(** A record that succeeds is on the contract. *)
Lemma sound_mark id t h : sound (Payouts.mark_processed id t h).
Proof.
  apply hoare_call_lasting; [apply lasting_MInv|done|]. intros s a r2 w2 Hs Ef.
  destruct (marker_mark_processed id t h (env s)) as [a' w'] eqn:E. simplify_eq.
  destruct (ml_mark _ _ _ _ _ _ E) as [Hw Hok]. simpl.
  assert (MInv (St_ (redis s) w2 (log s ++ match a with Ok _ => [MarkedProcessed id t h] | Err _ => [] end))); [|by destruct a].
  destruct a as [[]|e]; [|by apply lasting_MInv]. split; simpl.
  - intros i. rewrite marked_app. intros [Hb|[Hl|(t' & h' & Hm)]]; [by apply Hw, Hs; left|by apply Hw, Hs; right|].
    apply list_elem_of_singleton in Hm. simplify_eq. by apply Hok.
  - apply history_snoc; [apply Hs|done].
Qed.

Lemma sound_mark_if_marker id t h : sound (mark_if_marker cfg id t h).
Proof.
  unfold mark_if_marker. destruct (has_marker cfg); [|apply quiet_sound; quiet_walk].
  apply sound_bind; [apply sound_attempt, sound_mark|]. intros _. apply quiet_sound. quiet_walk.
Qed.

Lemma sound_confirm e txid : sound (confirm cfg e txid).
Proof.
  unfold confirm. apply sound_bind; [|intros _; apply quiet_sound; unfold ack; quiet_walk].
  destruct (has_marker cfg); [|apply quiet_sound; quiet_walk].
  apply sound_bind; [apply quiet_sound; unfold wait_confirmed; repeat first [apply quiet_wait_loop|quiet_step]|].
  intros [[]|]; [|apply quiet_sound; quiet_walk..].
  apply sound_bind; [apply quiet_sound; unfold oldest_unspent_height; quiet_walk|]. intros rh.
  apply sound_bind; [apply sound_attempt, sound_mark|]. intros _. apply quiet_sound. quiet_walk.
Qed.

(** The transfer of a redemption that is not recorded. *)
Lemma transfer_clear id amt addr :
  hoare (Clear id) (ecall (wallet_rpc (transfer amt addr)) (fun r => [Transferred id amt addr r])) (fun _ => MInv) MInv.
Proof.
  apply hoare_call_lasting; [apply lasting_Clear|by intros s []|]. intros s a r2 w2 (Hs & Hb & Hm) Ef.
  pose proof (ml_rpc (R := R) (transfer amt addr) (env s)) as Hw.
  destruct (wallet_rpc (transfer amt addr) (env s)) as [a' w']. simplify_eq. simpl in *.
  assert (MInv (St_ (redis s) w2 (log s ++ [Transferred id amt addr a]))); [|by destruct a]. split; simpl.
  - intros i. rewrite marked_app. intros [Hi|[Hi|(t & h & Hi)]]; [by apply Hw, Hs; left|by apply Hw, Hs; right|].
    by apply list_elem_of_singleton in Hi.
  - by apply history_snoc; [apply Hs|].
Qed.

Lemma send_clear e p : hoare (Clear (entry_id e)) (Payouts.send cfg e p) (fun _ => MInv) MInv.
Proof.
  unfold Payouts.send. eapply hoare_bind; [apply transfer_clear|]. intros raw.
  destruct (reply_error raw) as [err|]; [destruct (is_permanent_transfer_error err)|destruct (decode_transfer raw) as [[h ?]|]].
  - apply sound_bind; [apply sound_mark_if_marker|]. intros _. apply quiet_sound. unfold hset_state, ack. quiet_walk.
  - apply quiet_sound. unfold hset_state. quiet_walk.
  - apply sound_bind; [apply quiet_sound; quiet_walk|]. intros _. apply sound_confirm.
  - apply quiet_sound. quiet_walk.
Qed.

Lemma price_clear e : hoare (Clear (entry_id e)) (price cfg e) (fun _ => MInv) MInv.
Proof.
  unfold price. eapply hoare_bind; [apply quiet_clear; quiet_walk|]. intros snap. simpl.
  destruct (unwrap_or None snap) as [t|]; [|apply sound_clear, quiet_sound; unfold hset_state; quiet_walk].
  eapply hoare_bind; [apply quiet_clear; quiet_walk|]. intros now. simpl.
  destruct (_ >? 120); [apply sound_clear, quiet_sound; unfold hset_state; quiet_walk|].
  eapply hoare_bind; [apply quiet_clear; quiet_walk|]. intros pend. simpl.
  destruct (quote_payout _ _ _ _) as [| |p]; [apply sound_clear, quiet_sound, quiet_settle..|].
  unfold pay. destruct (p <? _).
  - apply sound_clear, sound_bind; [apply sound_mark_if_marker|]. intros _. apply quiet_sound, quiet_settle.
  - destruct (p >? _); [|apply send_clear]. apply sound_clear, quiet_sound. unfold hset_state. quiet_walk.
Qed.

Lemma reconcile_clear e : hoare (Clear (entry_id e)) (reconcile cfg e) (fun _ => MInv) MInv.
Proof.
  unfold reconcile. eapply hoare_bind; [apply quiet_clear, quiet_attempt, quiet_find_paid_tx|]. intros r. simpl.
  destruct r as [[[txid conf]|]|err].
  - apply sound_clear, sound_bind; [apply quiet_sound; quiet_walk|]. intros _.
    apply sound_bind; [destruct conf; [apply sound_mark_if_marker|apply quiet_sound; quiet_walk]|]. intros _.
    apply quiet_sound. unfold ack. quiet_walk.
  - unfold claim_slot. eapply hoare_bind; [apply quiet_clear; quiet_walk|]. intros claimed. simpl.
    destruct (negb claimed); [|apply price_clear]. apply sound_clear, quiet_sound. unfold ack. quiet_walk.
  - apply sound_clear, quiet_sound. quiet_walk.
Qed.

Hypothesis marker_on : has_marker cfg = true.

Lemma process_entry_sound e : sound (process_entry cfg e).
Proof.
  unfold process_entry. rewrite marker_on. destruct (_ >? _); [apply quiet_sound, quiet_settle|].
  apply hoare_bind with (fun r s => MInv s /\ (r = Ok false -> Clear (entry_id e) s)).
  - apply hoare_attempt; [|done]. apply hoare_call_lasting; [apply lasting_MInv|done|]. intros s a r2 w2 Hs Ef.
    destruct (marker_is_processed (entry_id e) (env s)) as [a' w'] eqn:E. simplify_eq.
    destruct (ml_is_processed _ _ _ _ E) as [Hw Hno]. simpl.
    assert (Hs' : MInv (St_ (redis s) w2 (log s ++ []))) by (by apply lasting_MInv).
    split; [done|]. destruct a as [b|]; [|done]. split; [done|]. intros [= ->]. split; [done|].
    pose proof (minv_settled _ Hs' (entry_id e)) as Hse. specialize (Hno eq_refl). simpl in *. tauto.
  - intros [[]|].
    + eapply hoare_pre; [by intros s [Hs _]; exact Hs|]. apply quiet_sound, quiet_settle.
    + eapply hoare_pre; [intros s [_ Hc]; by apply Hc|]. apply reconcile_clear.
    + apply hoare_ret. by intros s [Hs _].
Qed.

Lemma drain_once_sound : sound (drain_once cfg).
Proof.
  unfold drain_once. apply sound_bind; [apply quiet_sound; quiet_walk|]. intros reply.
  apply sound_bind; [apply quiet_sound; quiet_walk|]. intros resp.
  generalize (reclaimed_entries (unwrap_or VNil reply) ++ match resp with Some streams => concat streams | None => [] end) 0.
  intros es. induction es as [|e es IH]; intros n; simpl; [apply quiet_sound; quiet_walk|].
  apply sound_bind; [apply process_entry_sound|]. intros []; [apply IH|apply quiet_sound; quiet_walk].
Qed.

End Safety.

Section Properties.
Context {R W : Type} `{RedisOps R} `{LuaOps} `{SnapshotJson} `{StreamOps R} `{PayoutEnv W}
  `{World R W event} `{!MarkerLaws R W}.
Variable cfg : Config.

(** A run in which the database may be anything at any time, and so may the wallet; the
    contract keeps its records. *)
Inductive mstep (s : st R W event) : st R W event -> Prop :=
| m_drain : mstep s (drain_once cfg s).2
| m_redis r' : mstep s (St_ r' (env s) (log s))
| m_env w' : keeps (env s) w' -> mstep s (St_ (redis s) w' (log s)).

(** C3: the durable guard.  With the marker, a redemption that is recorded on the
    contract is never paid again: not when it was recorded before the run, and not after
    the pool recorded it, whatever happens to the database and to the wallet's history in
    between, and with any failure, lost reply or crash. *)
Theorem marked_never_paid s s' :
  has_marker cfg = true -> log s = [] -> rtc mstep s s' ->
  (forall id, settled id (env s) -> forall a addr r, Transferred id a addr r ∉ log s') /\
  (forall pre id a addr r post, log s' = pre ++ Transferred id a addr r :: post ->
     forall t h, MarkedProcessed id t h ∉ pre).
Proof.
  intros Hm Hlog Hr. set (before id := settled id (env s)).
  assert (Hi : MInv before s).
  { split; rewrite Hlog; [intros id [Hid|(t & h & Hid)]; [done|by apply elem_of_nil in Hid]|apply history_nil]. }
  assert (Hi' : MInv before s').
  { revert Hi. apply (rtc_invariant _ (MInv before)) with (2 := Hr). intros x y Hx [|r'|w' Hw].
    - eapply hoare_inv; [by apply drain_once_sound|done|done].
    - eapply lasting_env; [apply lasting_MInv|reflexivity|done].
    - by eapply lasting_env; [apply lasting_MInv|..]. }
  split.
  - intros id Hid a addr r Hin. apply list_elem_of_split in Hin as (pre & post & E).
    by destruct (minv_log _ _ Hi' _ _ _ E) as [Hb _].
  - intros pre id a addr r post E t h Hin. destruct (minv_log _ _ Hi' _ _ _ E) as [_ Hb]. apply Hb. by exists t, h.
Qed.

End Properties.

(** ** The contract keeps what the loop relies on *)

Section Implementation.
Context {R T W Sig : Type} `{Contract.Erc20 T} `{L2 T W} `{World R W event}.
Variable recover : Address -> Z -> Z -> Sig -> option Address.
Variable parse_url : string -> bool.
Variable m : AlloyMarker.
(** The wallet and the clocks. *)
Variable base : PayoutEnv W.

(** [Payouts::with_marker] *)
Definition with_marker : PayoutEnv W := {|
  wallet_rpc := @wallet_rpc W base;
  marker_is_processed := is_processed;
  marker_mark_processed := mark_processed parse_url m;
  unix_now := @unix_now W base;
  instant := @instant W base;
  sleep_secs := @sleep_secs W base;
|}.

(** The contract moves by transactions of anyone. *)
Definition txs : Contract.Token T -> Contract.Token T -> Prop := rtc (fun t t' => exists d, Contract.tx recover d t t').
Definition progress (w w' : W) : Prop := txs (token_of w) (token_of w').

Class L2Laws : Prop := {
  l2_interfere : forall (r : R) w r' w' evs, interfere r w = (r', w', evs) -> progress w w' /\ evs = [];
  l2_fault : forall w f w', next_fault w = (f, w') -> progress w w';
  l2_sleep : forall d w, progress w (@sleep_secs W base d w);
  l2_rpc : forall q w, progress w (@wallet_rpc W base q w).2;
  l2_read : forall w e w', eth_read w = (e, w') -> progress w w';
  (** a receipt that says success is of a transaction that ran *)
  l2_send : forall s id t h w r w', eth_send (Contract.markProcessed s id t h) w = (r, w') ->
    progress w w' /\
    (r = Receipt true -> exists t1 t2, Contract.markProcessed s id t h t1 = Some t2 /\ txs t2 (token_of w'));
}.

Lemma txs_processed id t t' : txs t t' -> Contract.is_processed id t = true -> Contract.is_processed id t' = true.
Proof.
  induction 1 as [|t1 t2 t3 [d Htx] _ IH]; [done|]. intros Hp. apply IH.
  by apply (Contract.processed_forever recover d t1 t2 id Htx).
Qed.

Lemma progress_processed id w w' :
  progress w w' -> Contract.is_processed id (token_of w) = true -> Contract.is_processed id (token_of w') = true.
Proof. apply txs_processed. Qed.

Lemma mark_is_processed s id x h (t t' : Contract.Token T) : Contract.markProcessed s id x h t = Some t' -> Contract.is_processed id t' = true.
Proof.
  unfold Contract.markProcessed. case_ifs; try done; intros [= <-]; unfold Contract.is_processed in *; simpl;
    try by rewrite lookup_insert_eq.
  all: match goal with Hn : negb (default false _) = false |- _ => by apply negb_false_iff in Hn end.
Qed.

(** The marker over the contract implements the interface. *)
Definition contract_marker `{!L2Laws} : MarkerLaws (H := with_marker) R W.
Proof.
  refine {| settled id w := Contract.is_processed id (token_of w) = true |}; simpl.
  - intros r w r' w' evs E. destruct (l2_interfere _ _ _ _ _ E) as [Hp ->]. split; [|done].
    intros id. by apply progress_processed.
  - intros w f w' E id. by apply progress_processed, (l2_fault w f).
  - intros d w id. apply progress_processed, l2_sleep.
  - intros q w id. apply progress_processed, l2_rpc.
  - intros id w r w' E. unfold is_processed, eth_call in E. destruct (eth_read w) as [e w1] eqn:Er. simplify_eq. split.
    + intros i. by apply progress_processed, (l2_read w e).
    + destruct e; [done|]. intros [= ->]. done.
  - intros id t h w r w' E. unfold mark_processed in E. case_ifs_in E; [by simplify_eq|].
    destruct (eth_read w) as [e w1] eqn:Er. pose proof (l2_read _ _ _ Er) as Hp.
    destruct e as [e|]; [simplify_eq; split; [intros i; by apply progress_processed|done]|].
    destruct (eth_send _ w1) as [x w2] eqn:Es. destruct (l2_send _ _ _ _ _ _ _ Es) as [Hp' Hx]. simplify_eq. split.
    + intros i Hi. by eapply progress_processed, progress_processed.
    + destruct x as [?| |[]]; simpl; try done. intros _. destruct (Hx eq_refl) as (t1 & t2 & Hm & Ht).
      by eapply txs_processed, mark_is_processed.
Defined.

End Implementation.
End Marker.
