(* ===== verification/PayoutSafety.v ===== *)
(** At most one payout per redemption.

    [committed] transfers are those the wallet did not explicitly reject; a lost
    reply counts as committed.  The invariant [PInv] ties their number to the
    redemption's state, and every piece of [Payouts.drain_once] keeps it, under
    any interference that leaves redemption states alone except for enqueueing
    new ones, and under any failure or crash. *)
From S2P Require Import Prelude Text Json Redis Effects Store Stamp Payouts.
Import Store Payouts.

Module PayoutSafety.

(** A reply that does not say the transfer was refused. *)
Definition accepted (reply : result string Json.Value) : bool :=
  match reply with
  | Ok raw => match reply_error raw with Some _ => false | None => true end
  | Err _ => true
  end.

Definition is_payout (id : Z) (ev : event) : bool :=
  match ev with
  | Transferred id' _ _ reply => (id =? id') && accepted reply
  | MarkedProcessed _ _ _ => false
  end.

(** The committed transfers of a redemption. *)
Definition payouts (id : Z) (l : list event) : nat := length (List.filter (is_payout id) l).

(** A state from which a payout may still start. *)
Definition payable (v : option rval) : Prop := v = None \/ v = Some (RStr "pending").

Definition PInv {R W} `{RedisOps R} (s : st R W event) : Prop :=
  forall id, (payouts id (log s) <= 1)%nat
    /\ (payable (get (state_key id) (redis s)) -> payouts id (log s) = 0%nat).

(** What other tasks may do to the state of a redemption: enqueue it. *)
Definition state_rely {R} `{RedisOps R} (r r' : R) : Prop :=
  forall id, get (state_key id) r' = get (state_key id) r
    \/ (get (state_key id) r = None /\ get (state_key id) r' = Some (RStr "pending")).

Lemma payouts_app id l l' : payouts id (l ++ l') = (payouts id l + payouts id l')%nat.
Proof. unfold payouts. by rewrite List.filter_app, length_app. Qed.

Lemma payouts_marked id l i t h : payouts id (l ++ [MarkedProcessed i t h]) = payouts id l.
Proof. rewrite payouts_app. apply Nat.add_0_r. Qed.

(** What is assumed of the surroundings: other tasks make no payouts and only
    enqueue redemptions, and the commands of the consumer group leave the
    database alone. *)
Class PayoutLaws (R W : Type) `{RedisLaws R} `{StreamOps R} `{World R W event} : Prop := {
  pl_rely : forall (r : R) (w : W) r' w' evs, interfere r w = (r', w', evs) ->
    state_rely r r' /\ forall id, payouts id evs = 0%nat;
  pl_xautoclaim : guar (fun r r' : R => db r' = db r) xautoclaim;
  pl_xreadgroup : guar (fun r r' : R => db r' = db r) xreadgroup;
  pl_xack : forall i, guar (fun r r' : R => db r' = db r) (xack i);
}.

Section Safety.
Context {R W : Type} `{RedisLaws R} `{LuaOps} `{SnapshotJson} `{StreamOps R} `{PayoutEnv W}
  `{World R W event} `{!PayoutLaws R W}.
Variable cfg : Config.
Implicit Types s : st R W event.

(** The redemption is free to be put back in the queue: nothing was paid. *)
Definition Unpaid (id : Z) s : Prop := PInv s /\ payouts id (log s) = 0%nat.
(** It is claimed by this run. *)
Definition Owned (id : Z) s : Prop :=
  Unpaid id s /\ get (state_key id) (redis s) = Some (RStr "in_flight").

Lemma stable_PInv : stable (PInv (R := R) (W := W)).
Proof.
  intros s r w evs w' Hs Hi id. simpl. destruct (pl_rely _ _ _ _ _ Hi) as [Hr Hn].
  rewrite payouts_app, Hn, Nat.add_0_r. destruct (Hs id) as [H1' H2']. split; [done|].
  destruct (Hr id) as [->|[E _]]; [done|]. intros _. apply H2'. by left.
Qed.

Lemma stable_Unpaid id : stable (Unpaid id).
Proof.
  intros s r w evs w' [Hs Hu] Hi. split; [by eapply stable_PInv|]. simpl.
  destruct (pl_rely _ _ _ _ _ Hi) as [_ Hn]. by rewrite payouts_app, Hn, Hu.
Qed.

Lemma stable_Owned id : stable (Owned id).
Proof.
  intros s r w evs w' [Hs Ho] Hi. split; [by eapply stable_Unpaid|]. simpl.
  destruct (pl_rely _ _ _ _ _ Hi) as [Hr _]. destruct (Hr id) as [->|[E _]]; congruence.
Qed.

(** Predicates that look at the states and the payouts only. *)
Definition respects (P : st R W event -> Prop) : Prop := forall s r w l,
  (forall id, get (state_key id) r = get (state_key id) (redis s)) ->
  (forall id, payouts id l = payouts id (log s)) -> P s -> P (St_ r w l).

Lemma respects_PInv : respects PInv.
Proof. intros s r w l Er El Hs id. simpl. rewrite Er, El. apply Hs. Qed.

Lemma respects_Unpaid id : respects (Unpaid id).
Proof. intros s r w l Er El [Hs Hu]. split; [by eapply respects_PInv|]. simpl. by rewrite El. Qed.

Lemma respects_Owned id : respects (Owned id).
Proof. intros s r w l Er El [Hs Hu]. split; [by eapply respects_Unpaid|]. simpl. by rewrite Er. Qed.

(** Computations that change neither, whatever is asked to be kept. *)
Definition neutral {A} (m : M R W event A) : Prop := forall P,
  stable P -> respects P -> hoare P m (fun _ => P) P.

Lemma neutral_ret {A} (a : A) : neutral (ret a).
Proof. intros P _ _. by apply hoare_ret. Qed.

Lemma neutral_fail {A} e : neutral (fail (A := A) e).
Proof. intros P _ _. by apply hoare_fail. Qed.

Lemma neutral_lift {A} (r : result string A) : neutral (lift r).
Proof. intros P _ _ s Hs. unfold lift. by destruct r. Qed.

Lemma neutral_gets {A} (f : W -> A) : neutral (gets f).
Proof. intros P _ _. by apply hoare_gets. Qed.

Lemma neutral_modify f : neutral (modify f).
Proof. intros P _ Hr. apply hoare_modify. intros s Hs. by apply (Hr s). Qed.

Lemma neutral_bind {A B} (m : M R W event A) (f : A -> M R W event B) :
  neutral m -> (forall a, neutral (f a)) -> neutral (bind m f).
Proof. intros Hm Hf P HP Hr. apply hoare_bind with (fun _ => P); [by apply Hm|]. intros a. by apply Hf. Qed.

Lemma neutral_attempt {A} (m : M R W event A) : neutral m -> neutral (attempt m).
Proof. intros Hm P HP Hr. apply hoare_attempt; [by apply Hm | done]. Qed.

Lemma neutral_ecall {A} (f : W -> result string A * W) ev :
  (forall a id, payouts id (ev a) = 0%nat) -> neutral (ecall f ev).
Proof.
  intros Hev P HP Hr. apply hoare_ecall; [done..|]. intros s a w2 Hs _. simpl.
  assert (P (St_ (redis s) w2 (log s ++ ev a))).
  { apply (Hr s); [done | | done]. intros id. by rewrite payouts_app, Hev, Nat.add_0_r. }
  by destruct a.
Qed.

(** Requests that leave every redemption state alone. *)
Definition same_states (r r' : R) : Prop := forall id, get (state_key id) r' = get (state_key id) r.

#[global] Instance same_states_preorder : PreOrder same_states.
Proof. split; [by intros ? ? | intros ?? ? H7 H8 id; by rewrite H8, H7]. Qed.

Lemma neutral_rcall {A} (f : St R A) : guar same_states f -> neutral (rcall f).
Proof.
  intros Hf P HP Hr. apply hoare_rcall; [done..|]. intros s a r2 Hs E. simpl.
  assert (P (St_ r2 (env s) (log s))).
  { apply (Hr s); [|done..]. intros id. specialize (Hf (redis s) id). by rewrite E in Hf. }
  by destruct a.
Qed.

Lemma same_db_states {A} (f : St R A) : guar (fun r r' : R => db r' = db r) f -> guar same_states f.
Proof. intros Hf r id. by rewrite !get_db, (Hf r). Qed.

End Safety.

Ltac neutral_step :=
  first
    [ apply neutral_ret | apply neutral_fail | apply neutral_lift | apply neutral_gets
    | apply neutral_modify | apply neutral_attempt | apply neutral_bind
    | match goal with
      | |- neutral (if ?b then _ else _) => destruct b
      | |- neutral (match ?x with _ => _ end) => destruct x
      | |- forall _, _ => intros ?
      end ].

Section Pieces.
Context {R W : Type} `{RedisLaws R} `{LuaOps} `{SnapshotJson} `{StreamOps R} `{PayoutEnv W}
  `{World R W event} `{!PayoutLaws R W}.
Variable cfg : Config.
Implicit Types s : st R W event.

Lemma neutral_rpc q : neutral (R := R) (rpc q).
Proof. by apply neutral_ecall. Qed.

Lemma neutral_wallet_height : neutral (R := R) (W := W) wallet_height.
Proof. unfold wallet_height. neutral_step; [apply neutral_rpc | repeat neutral_step]. Qed.

Lemma neutral_find_paid_tx id : neutral (R := R) (W := W) (find_paid_tx id).
Proof.
  unfold find_paid_tx. neutral_step; [neutral_step; apply neutral_wallet_height|]. intros tip.
  neutral_step; [apply neutral_rpc | repeat neutral_step].
Qed.

Lemma neutral_wait_loop fuel txid deadline : neutral (R := R) (W := W) (wait_loop fuel txid deadline).
Proof.
  induction fuel as [|fuel IH]; simpl; (neutral_step; [apply neutral_rpc|]); repeat neutral_step. apply IH.
Qed.

Lemma neutral_oldest_unspent : neutral (R := R) (W := W) oldest_unspent_height.
Proof. unfold oldest_unspent_height. neutral_step; [apply neutral_rpc | repeat neutral_step]. Qed.

Lemma neutral_mark_processed id txid h : neutral (R := R) (W := W) (mark_processed id txid h).
Proof. apply neutral_ecall. by intros []. Qed.

Lemma neutral_mark_if_marker id txid h : neutral (R := R) (W := W) (mark_if_marker cfg id txid h).
Proof. unfold mark_if_marker. repeat neutral_step. apply neutral_mark_processed. Qed.

Lemma neutral_ack e : neutral (R := R) (W := W) (ack e).
Proof.
  unfold ack. neutral_step; [apply neutral_rcall, same_db_states, pl_xack | repeat neutral_step].
Qed.

Lemma neutral_confirm e txid : neutral (R := R) (W := W) (confirm cfg e txid).
Proof.
  unfold confirm, wait_confirmed.
  repeat first [apply neutral_ack | apply neutral_mark_processed | apply neutral_oldest_unspent
               | apply neutral_wait_loop | neutral_step].
Qed.

Lemma neutral_read {A} (f : St R A) : guar eq f -> neutral (W := W) (rcall f).
Proof. intros Hf. apply neutral_rcall. intros r id. by rewrite <- (Hf r). Qed.

(** ** The writes *)

Lemma PInv_set s id v (w : W) :
  PInv s -> (payable (Some v) -> payouts id (log s) = 0%nat) ->
  PInv (St_ (set (state_key id) v (redis s)) w (log s)).
Proof.
  intros Hs Hv id'. simpl. split; [apply Hs|].
  destruct (decide (id = id')) as [<-|]; [rewrite get_set; done|].
  rewrite get_set_ne by keys. apply Hs.
Qed.

(** A state that is not payable may be written at any time. *)
Lemma hset_closed id v : v <> "pending" -> hoare PInv (hset_state id v) (fun _ => PInv) (PInv (R := R) (W := W)).
Proof.
  intros Hv. apply hoare_rcall; [apply stable_PInv | done|]. intros s a r2 Hs E. unfold SET in E. simplify_eq/=.
  assert (PInv (St_ (set (state_key id) (RStr v) (redis s)) (env s) (log s))); [|done].
  apply PInv_set; [done|]. intros [?|?]; congruence.
Qed.

(** Any state may be written while nothing was paid. *)
Lemma hset_unpaid id v : hoare (Unpaid id) (hset_state id v) (fun _ => Unpaid id) (Unpaid (R := R) (W := W) id).
Proof.
  apply hoare_rcall; [apply stable_Unpaid | done|]. intros s a r2 [Hs Hu] E. unfold SET in E. simplify_eq/=.
  assert (Unpaid id (St_ (set (state_key id) (RStr v) (redis s)) (env s) (log s))); [|done].
  split; [|done]. by apply PInv_set.
Qed.

Lemma mark_sent_PInv id txid : hoare PInv (rcall (mark_redemption_sent id txid)) (fun _ => PInv) (PInv (R := R) (W := W)).
Proof.
  apply hoare_rcall; [apply stable_PInv | done|]. intros s a r2 Hs E. simpl.
  assert (Hr : same_states (redis s) r2 \/ same_states (set (state_key id) (RStr "sent") (redis s)) r2).
  { unfold mark_redemption_sent in E. rewrite (St_bind_ok (GET _) _ _ _ _ eq_refl) in E.
    case_decide; [left; unfold mret, St_ret in E; simplify_eq; done|]. right.
    rewrite (St_bind_ok (SET _ _) _ _ _ _ eq_refl) in E.
    change r2 with (a, r2).2. rewrite <- E.
    match goal with |- same_states _ (?m ?r).2 => assert (Hg : guar same_states m); [|apply (Hg r)] end.
    guar_walk; intros; intros i; first [by rewrite get_set_ne | by rewrite get_incrby_ne]. }
  assert (PInv (St_ r2 (env s) (log s))); [|by destruct a].
  destruct Hr as [Hr|Hr]; [by apply (respects_PInv s)|].
  eapply respects_PInv with (St_ (set (state_key id) (RStr "sent") (redis s)) (env s) (log s)); [done..|].
  apply PInv_set; [done|]. by intros [?|?].
Qed.

Lemma Owned_Unpaid id s : Owned id s -> Unpaid id s.
Proof. by intros [? _]. Qed.
Lemma Unpaid_PInv id s : Unpaid id s -> PInv s.
Proof. by intros [? _]. Qed.
Lemma Owned_PInv id s : Owned id s -> PInv s.
Proof. by intros [[? _] _]. Qed.

(** Neutral computations on the way, kept at [PInv]. *)
Lemma neutral_PInv {A} (m : M R W event A) : neutral m -> hoare PInv m (fun _ => PInv) PInv.
Proof. intros Hm. apply Hm; [apply stable_PInv | apply respects_PInv]. Qed.

Lemma neutral_Owned {A} (m : M R W event A) id : neutral m -> hoare (Owned id) m (fun _ => Owned id) PInv.
Proof.
  intros Hm. eapply hoare_conseq; [apply (Hm (Owned id)); [apply stable_Owned | apply respects_Owned]|done|done|].
  apply Owned_PInv.
Qed.

Lemma ack_PInv e : hoare PInv (ack e ;;; ret Next) (fun _ => PInv) (PInv (R := R) (W := W)).
Proof. apply neutral_PInv. neutral_step; [apply neutral_ack | repeat neutral_step]. Qed.

Lemma settle_closed e v :
  v <> "pending" -> hoare PInv (settle_as e v) (fun _ => PInv) (PInv (R := R) (W := W)).
Proof.
  intros Hv. unfold settle_as. apply hoare_bind with (fun _ => PInv); [by apply hset_closed|].
  intros _. apply ack_PInv.
Qed.

(** Putting an unpaid redemption back. *)
Lemma hset_pending_PInv id {A} (m : M R W event A) :
  neutral m ->
  hoare (Owned id) (hset_state id "pending" ;;; m) (fun _ => PInv) PInv.
Proof.
  intros Hm. apply hoare_bind with (fun _ => PInv); [|intros _; by apply neutral_PInv].
  eapply hoare_conseq; [apply hset_unpaid | apply Owned_Unpaid | intros ?; apply Unpaid_PInv | apply Unpaid_PInv].
Qed.

Lemma payouts_transferred id id' amt addr reply l :
  payouts id' (l ++ [Transferred id amt addr reply])
  = (payouts id' l + if (id' =? id)%Z && accepted reply then 1 else 0)%nat.
Proof. rewrite payouts_app. unfold payouts at 2. simpl. by destruct (_ && _). Qed.

(** The transfer itself: from a claimed redemption, either it was refused and
    nothing changed, or it is the one payout. *)
Lemma transfer_step id amt addr :
  hoare (Owned id)
    (ecall (wallet_rpc (transfer amt addr)) (fun r => [Transferred id amt addr r]))
    (fun raw s => match reply_error raw with Some _ => Owned id s | None => PInv s end)
    (PInv (R := R) (W := W)).
Proof.
  apply hoare_ecall; [apply stable_Owned | apply Owned_PInv|]. intros s a w2 [[Hs Hu] Ho] _. simpl.
  assert (HI : PInv (St_ (redis s) w2 (log s ++ [Transferred id amt addr a]))).
  { intros id'. simpl. rewrite payouts_transferred. destruct (Hs id') as [H6 H7].
    destruct (id' =? id) eqn:E; bools; [subst|simpl; rewrite Nat.add_0_r; done].
    rewrite Hu, Ho. split; [destruct (accepted a); simpl; lia|]. by intros [?|?]. }
  split; [done|]. destruct a as [raw|]; [|done]. destruct (reply_error raw) as [err|] eqn:E; [|done].
  assert (Hno : payouts id (log s ++ [Transferred id amt addr (Ok raw)]) = 0%nat).
  { rewrite payouts_transferred, Hu. simpl. rewrite E. by rewrite andb_false_r. }
  by split; [split|].
Qed.

Lemma send_PInv e p : hoare (Owned (entry_id e)) (send cfg e p) (fun _ => PInv) (PInv (R := R) (W := W)).
Proof.
  unfold send. eapply hoare_bind; [apply transfer_step|]. intros raw. simpl.
  destruct (reply_error raw) as [err|].
  - destruct (is_permanent_transfer_error err).
    + apply hoare_bind with (fun _ => PInv).
      { eapply hoare_pre; [apply Owned_PInv | apply neutral_PInv, neutral_mark_if_marker]. }
      intros _. apply hoare_bind with (fun _ => PInv); [|intros _; apply ack_PInv].
      apply hoare_attempt; [by apply hset_closed | done].
    + apply hoare_bind with (fun _ => PInv); [|intros _; by apply hoare_fail].
      apply hoare_attempt; [|done].
      eapply hoare_conseq; [apply hset_unpaid | apply Owned_Unpaid | intros ?; apply Unpaid_PInv | apply Unpaid_PInv].
  - destruct (decode_transfer raw) as [[tx fee]|]; [|by apply hoare_fail].
    apply hoare_bind with (fun _ => PInv); [apply mark_sent_PInv|].
    intros _. apply neutral_PInv, neutral_confirm.
Qed.

Lemma pay_PInv e snap p : hoare (Owned (entry_id e)) (pay cfg e snap p) (fun _ => PInv) (PInv (R := R) (W := W)).
Proof.
  unfold pay. destruct (p <? Stamp.STAMP_MOD).
  - eapply hoare_pre; [apply Owned_PInv|]. apply hoare_bind with (fun _ => PInv).
    + apply neutral_PInv, neutral_mark_if_marker.
    + intros _. by apply settle_closed.
  - destruct (p >? _); [|apply send_PInv].
    set (id := entry_id e). eapply hoare_pre; [apply Owned_Unpaid|].
    apply hoare_conseq with (Unpaid id) (fun _ => Unpaid id) (Unpaid id);
      [|done|intros ?; apply Unpaid_PInv|apply Unpaid_PInv].
    apply hoare_bind with (fun _ => Unpaid id); [apply hset_unpaid|]. intros _.
    apply hoare_bind with (fun _ => Unpaid id).
    { apply hoare_attempt; [|done]. apply hoare_rcall; [apply stable_Unpaid | done|].
      intros s a r2 [Hs Hu] E. unfold HSETNX in E. simpl.
      assert (Unpaid id (St_ r2 (env s) (log s))); [|by destruct a]. split; [|done].
      destruct (get (state_key id) (redis s)); simplify_eq; [by destruct s | by apply PInv_set]. }
    intros _. apply hoare_bind with (fun _ => Unpaid id); [apply hset_unpaid|]. intros _. by apply hoare_ret.
Qed.

Lemma guar_pending_atomic : guar eq (pending_atomic (R := R)).
Proof. unfold pending_atomic. guar_walk. Qed.

Lemma guar_treasury_snapshot : guar eq (treasury_snapshot (R := R)).
Proof. unfold treasury_snapshot. guar_walk. Qed.

Lemma guar_redemption_state id : guar eq (redemption_state (R := R) id).
Proof. unfold redemption_state. guar_walk. Qed.

Lemma price_PInv e : hoare (Owned (entry_id e)) (price cfg e) (fun _ => PInv) (PInv (R := R) (W := W)).
Proof.
  unfold price. apply hoare_bind with (fun _ => Owned (entry_id e)).
  { apply neutral_Owned, neutral_attempt, neutral_read, guar_treasury_snapshot. }
  intros snap. destruct (unwrap_or None snap) as [t|]; [|apply hset_pending_PInv; repeat neutral_step].
  apply hoare_bind with (fun _ => Owned (entry_id e)); [by apply hoare_gets|]. intros now.
  destruct (_ >? 120); [apply hset_pending_PInv; repeat neutral_step|].
  apply hoare_bind with (fun _ => Owned (entry_id e)).
  { apply neutral_Owned, neutral_read, guar_pending_atomic. }
  intros pend. destruct (quote_payout _ _ _ _) as [| |p]; [..|apply pay_PInv];
    (eapply hoare_pre; [apply Owned_PInv | by apply settle_closed]).
Qed.

Lemma claim_slot_PInv e : hoare PInv (claim_slot cfg e) (fun _ => PInv) (PInv (R := R) (W := W)).
Proof.
  unfold claim_slot. set (id := entry_id e).
  apply hoare_bind with (fun (b : bool) s => if b then Owned id s else PInv s).
  { apply hoare_rcall; [apply stable_PInv | done|]. intros s a r2 Hs E.
    unfold try_mark_redemption_in_flight in E. rewrite (St_bind_ok (GET _) _ _ _ _ eq_refl) in E.
    case_decide as Hg; unfold SET, mbind, St_bind, mret, St_ret in E; simplify_eq/=; [|by destruct s].
    assert (Hu : payouts id (log s) = 0%nat) by (apply Hs; by right).
    assert (PInv (St_ (set (state_key id) (RStr "in_flight") (redis s)) (env s) (log s))) by (by apply PInv_set).
    split; [done|]. split; [by split|]. simpl. by rewrite get_set. }
  intros [|]; simpl; [apply price_PInv|]. apply hoare_bind with (fun _ => PInv); [|intros _; apply ack_PInv].
  apply neutral_PInv, neutral_attempt, neutral_read, guar_redemption_state.
Qed.

Lemma reconcile_PInv e : hoare PInv (reconcile cfg e) (fun _ => PInv) (PInv (R := R) (W := W)).
Proof.
  unfold reconcile. apply hoare_bind with (fun _ => PInv).
  { apply neutral_PInv, neutral_attempt, neutral_find_paid_tx. }
  intros [[[txid confirmed]|]|err]; [| apply claim_slot_PInv | by apply hoare_ret].
  apply hoare_bind with (fun _ => PInv); [apply hoare_attempt; [apply mark_sent_PInv | done]|]. intros _.
  apply hoare_bind with (fun _ => PInv); [|intros _; apply ack_PInv].
  destruct confirmed; [apply neutral_PInv, neutral_mark_if_marker | by apply hoare_ret].
Qed.

Lemma process_entry_PInv e : hoare PInv (process_entry cfg e) (fun _ => PInv) (PInv (R := R) (W := W)).
Proof.
  unfold process_entry. destruct (_ >? _); [by apply settle_closed|].
  destruct (has_marker cfg); [|apply reconcile_PInv].
  apply hoare_bind with (fun _ => PInv); [apply neutral_PInv, neutral_attempt; by apply neutral_ecall|].
  intros [[]|]; [by apply settle_closed | apply reconcile_PInv | by apply hoare_ret].
Qed.

Lemma process_entries_PInv es n : hoare PInv (process_entries cfg es n) (fun _ => PInv) (PInv (R := R) (W := W)).
Proof.
  revert n. induction es as [|e es IH]; intros n; simpl; [by apply hoare_ret|].
  apply hoare_bind with (fun _ => PInv); [apply process_entry_PInv|].
  intros []; [apply IH | by apply hoare_ret].
Qed.

Lemma drain_once_PInv : hoare PInv (drain_once cfg) (fun _ => PInv) (PInv (R := R) (W := W)).
Proof.
  unfold drain_once. apply hoare_bind with (fun _ => PInv).
  { apply neutral_PInv, neutral_attempt, neutral_rcall, same_db_states, pl_xautoclaim. }
  intros r. apply hoare_bind with (fun _ => PInv); [|intros; apply process_entries_PInv].
  apply neutral_PInv, neutral_rcall, same_db_states, pl_xreadgroup.
Qed.

End Pieces.

(** ** Enqueueing is what other tasks may do *)

Section Enqueue.
Context {R : Type} `{RedisLaws R} `{LuaOps}.

#[global] Instance state_rely_preorder : PreOrder (state_rely (R := R)).
Proof.
  split; [by left|]. intros r1 r2 r3 H1' H2' id.
  destruct (H1' id) as [E1|[E1 E1']], (H2' id) as [E2|[E2 E2']]; rewrite ?E2, ?E1 in *; auto.
Qed.

Lemma same_states_rely (r r' : R) : same_states r r' -> state_rely r r'.
Proof. intros Hs id. by left. Qed.

Lemma enqueue_script_rely id amt : guar state_rely (enqueue_script (R := R) id amt).
Proof.
  intros r. unfold enqueue_script. rewrite (St_bind_ok (GET _) _ _ _ _ eq_refl).
  destruct (get (state_key id) r) as [v|] eqn:Eg; [by left|].
  rewrite (St_bind_ok (SET _ _) _ _ _ _ eq_refl).
  transitivity (set (state_key id) (RStr "pending") r).
  - intros id'. destruct (decide (id = id')) as [<-|]; [right; by rewrite get_set | left].
    by rewrite get_set_ne by keys.
  - apply same_states_rely.
    match goal with |- same_states ?r1 (?m ?r1).2 => assert (Hg : guar same_states m); [|apply (Hg r1)] end.
    store_walk; intros; intros i; first [by rewrite get_set_ne | by rewrite get_incrby_ne].
Qed.

End Enqueue.

(** ** Properties *)

Section Properties.
Context {R W : Type} `{RedisLaws R} `{LuaOps} `{SnapshotJson} `{StreamOps R} `{PayoutEnv W}
  `{World R W event} `{!PayoutLaws R W}.
Variable cfg : Config.

(** A run of the watcher: rounds of [drain_once] (each from whatever state the
    previous one, or a crash, left), changes by other tasks, and the
    environment moving on. *)
Inductive pstep (s : st R W event) : st R W event -> Prop :=
| p_drain : pstep s (drain_once cfg s).2
| p_other r' : state_rely (redis s) r' -> pstep s (St_ r' (env s) (log s))
| p_env w' : pstep s (St_ (redis s) w' (log s)).

(** C1: no redemption is paid twice.  Over any number of rounds of the payout
    loop, with redelivered and duplicated stream entries, concurrent enqueues,
    failed calls, lost replies and crashes at any point, the wallet accepts at
    most one transfer for each redemption; and none for a redemption still in the
    queue. *)
Theorem no_double_payout s s' :
  PInv s -> rtc pstep s s' ->
  forall id, (payouts id (log s') <= 1)%nat
    /\ (get (state_key id) (redis s') = Some (RStr "pending") -> payouts id (log s') = 0%nat).
Proof.
  intros Hs Hr. assert (Hs' : PInv s').
  { revert Hs. apply (rtc_invariant _ PInv) with (2 := Hr). intros x y Hx [|r' Hrel|w'].
    - eapply hoare_inv; [apply drain_once_PInv | done | done].
    - intros id. simpl. destruct (Hx id) as [H6 H7]. split; [done|].
      destruct (Hrel id) as [->|[E _]]; [done|]. intros _. apply H7. by left.
    - intros id. apply Hx. }
  intros id. destruct (Hs' id) as [H6 H7]. split; [done|]. intros E. apply H7. by right.
Qed.

(** Enqueueing, as the event poller does it, only ever moves a redemption from
    absent to pending: it never reopens one that was claimed, paid or parked. *)
Theorem enqueue_never_reopens id amt r id' :
  let r' := (enqueue_script (R := R) id amt r).2 in
  get (state_key id') r' = get (state_key id') r
  \/ (id' = id /\ get (state_key id') r = None /\ get (state_key id') r' = Some (RStr "pending")).
Proof.
  intros r'. destruct (enqueue_script_rely id amt r id') as [E|[E1 E2]]; [by left|].
  destruct (decide (id' = id)) as [->|]; [by right|]. left. unfold r'. rewrite E2. exfalso.
  assert (Hf : frame (state_key id') r (enqueue_script id amt r).2).
  { match goal with |- frame ?k r (?m r).2 => assert (Hg : guar (frame k) m); [|apply (Hg r)] end.
    unfold enqueue_script. store_walk; intros; auto with pool.
    all: apply frame_set || apply frame_incrby; keys. }
  apply frame_get in Hf. congruence.
Qed.

End Properties.

(** ** The confirmation wait ends *)

(** Clocks do not go back, and a sleep lasts at least what was asked. *)
Class ClockLaws (R W : Type) `{PayoutEnv W} `{World R W event} : Prop := {
  cl_interfere : forall (r : R) (w : W) r' w' evs, interfere r w = (r', w', evs) -> instant w <= instant w';
  cl_fault : forall (w : W) f w', next_fault w = (f, w') -> instant w <= instant w';
  cl_rpc : forall q (w : W), instant w <= instant (wallet_rpc q w).2;
  cl_sleep : forall d (w : W), instant w + d <= instant (sleep_secs d w);
}.

Section Wait.
Context {R W : Type} `{PayoutEnv W} `{World R W event} `{!ClockLaws R W}.
Implicit Types s : st R W event.

Lemma rpc_clock q s : instant (env s) <= instant (env (rpc q s).2).
Proof.
  unfold rpc, ecall, call. destruct (interfere _ _) as [[r0 w0] evs] eqn:Ei.
  destruct (next_fault w0) as [flt w1] eqn:Ef. apply cl_interfere in Ei. apply cl_fault in Ef.
  pose proof (cl_rpc q w1) as Hq. destruct (wallet_rpc q w1) as [a w2]. simpl in *.
  destruct flt; simpl; lia.
Qed.

Lemma wait_loop_fuel fuel k txid deadline s :
  deadline <= instant (env s) + 10 * Z.of_nat fuel ->
  wait_loop (fuel + k) txid deadline s = wait_loop fuel txid deadline s.
Proof.
  revert s. induction fuel as [|fuel IH]; intros s Hd; simpl; pose proof (rpc_clock (get_transfer_by_txid txid) s) as Hc.
  - destruct k as [|k]; simpl; [done|]. unfold bind. destruct (rpc _ s) as [[raw|e|] s1]; try done. simpl in Hc.
    destruct (0 <? _); [done|]. unfold gets. destruct (deadline <=? instant (env s1)) eqn:E; [done|]. bools. lia.
  - unfold bind. destruct (rpc _ s) as [[raw|e|] s1]; try done. simpl in Hc.
    destruct (0 <? _); [done|]. unfold gets. destruct (deadline <=? instant (env s1)) eqn:E; [done|]. bools.
    unfold modify. apply IH. simpl. pose proof (cl_sleep 10 (env s1)). lia.
Qed.

(** C40: the wait for confirmations ends: the number of polls its bound allows is
    enough, and more would not change what it returns. *)
Theorem wait_confirmed_enough_fuel txid max_secs k s :
  0 <= max_secs ->
  wait_loop (Z.to_nat (max_secs / 10 + 1) + k) txid (instant (env s) + max_secs) s
  = wait_confirmed txid max_secs s.
Proof.
  intros Hm. unfold wait_confirmed, bind, gets. apply wait_loop_fuel.
  pose proof (Z.div_mod max_secs 10 ltac:(lia)). pose proof (Z.mod_pos_bound max_secs 10 ltac:(lia)).
  assert (0 <= max_secs / 10) by (apply Z.div_pos; lia). lia.
Qed.

End Wait.

End PayoutSafety.
