(* ===== verification/PayoutReconcile.v ===== *)
(** No double payout across a loss of the database.

    After a disk wipe the redemption states are gone, and what protects a paid
    redemption is the wallet: the stamp in the amount of every transfer it made.
    [paid] is the truth about the wallet, the payouts it ever broadcast, and [hidden] the
    payouts that some reply to [get_transfers] did not show; nothing is assumed of Redis, and
    the wallet may omit anything from any reply. *)
From S2P Require Import Prelude Text Json Redis Effects Store Stamp Payouts Quiet.
Import Store Payouts Quiet.

Module PayoutReconcile.

(** A transfer object of [get_transfers] that shows an amount, recent enough when
    it is a mined one. *)
Definition shows (res : Json.Value) (tip amt : Z) : Prop :=
  exists key arr t,
    key ∈ ["out"; "pending"; "pool"] /\ Json.get_array key res = Some arr /\ t ∈ arr
    /\ transfer_amount t = amt
    /\ (key = "out" -> tip - RECONCILE_WINDOW_BLOCKS <= opt_or 0 (Json.get_u64 "height" t)).

(** A payout: its amount, and what was hidden when it was broadcast. *)
Record payout : Type := Payout { p_amount : Z; p_hidden : list Z }.

(** The environment moves on: nothing is broadcast, the chain does not shrink. *)
Definition onward {W} (paid : W -> list payout) (hidden : W -> list Z) (tip : W -> Z) (w w' : W) : Prop :=
  paid w' = paid w /\ hidden w ⊆ hidden w' /\ tip w <= tip w'.

(** The same, and nothing more is hidden. *)
Definition still {W} (paid : W -> list payout) (hidden : W -> list Z) (tip : W -> Z) (w w' : W) : Prop :=
  paid w' = paid w /\ hidden w' = hidden w /\ tip w <= tip w'.

(** The books of a wallet: a transfer is broadcast or not, only [get_transfers] hides
    payouts, and it hides those its reply does not show (all of them, when the reply is an
    error of the RPC); the height it reports is not above the chain's. *)
Class WalletLaws (R W : Type) `{PayoutEnv W} `{World R W event} := {
  paid : W -> list payout;
  hidden : W -> list Z;
  tip : W -> Z;
  wl_interfere : forall (r : R) w r' w' evs, interfere r w = (r', w', evs) -> still paid hidden tip w w';
  wl_fault : forall w f w', next_fault w = (f, w') -> still paid hidden tip w w';
  wl_is_processed : forall id w, still paid hidden tip w (marker_is_processed id w).2;
  wl_mark_processed : forall id t h w, still paid hidden tip w (marker_mark_processed id t h w).2;
  wl_sleep : forall d w, still paid hidden tip w (sleep_secs d w);
  wl_query : forall q w, q <> get_transfers -> (forall amt a, q <> transfer amt a) -> still paid hidden tip w (wallet_rpc q w).2;
  wl_transfer : forall amt a w,
    still paid hidden tip w (wallet_rpc (transfer amt a) w).2
    \/ paid (wallet_rpc (transfer amt a) w).2 = paid w ++ [Payout amt (hidden w)];
  wl_height : forall w raw w', wallet_rpc get_height w = (Ok raw, w') ->
    opt_or 0 (Json.pointer ["result"; "height"] raw ≫= Json.as_u64) <= tip w';
  wl_transfers : forall w raw w', wallet_rpc get_transfers w = (Ok raw, w') ->
    paid w' = paid w /\ tip w <= tip w' /\
    forall amt, amt ∈ hidden w' <-> amt ∈ hidden w \/
      (amt ∈ p_amount <$> paid w /\ ~ shows (opt_or Json.Null (Json.get "result" raw)) (tip w) amt);
  wl_transfers_failed : forall w e w', wallet_rpc get_transfers w = (Err e, w') -> still paid hidden tip w w';
}.

(** The stamp an amount carries. *)
Definition stamp_of (a : Z) : Z := a mod Stamp.STAMP_MOD.

(** An amount that is shown and carries the id's stamp is a match. *)
Lemma shows_matches res tip amt id h :
  shows res tip amt -> 0 < amt -> stamp_of amt = Stamp.stamp_tag id ->
  h <= Z.max 0 (tip - RECONCILE_WINDOW_BLOCKS) ->
  stamp_matches res id h <> [].
Proof.
  intros (key & arr & t & Hk & Ha & Ht & Hamt & Hh) Hpos Hst Hle E.
  assert (Hm : stamped_in id h (String.eqb key "out") t <> None).
  { unfold stamped_in. replace (_ && (_ <? h)) with false.
    - rewrite Hamt. replace (0 <? amt) with true by (symmetry; lia).
      unfold Stamp.matches_stamp. fold (stamp_of amt). rewrite Hst, Z.eqb_refl. done.
    - symmetry. destruct (String.eqb key "out") eqn:Ek; [|done]. apply String.eqb_eq in Ek. simpl.
      apply Z.ltb_ge. specialize (Hh Ek).
      assert (0 <= opt_or 0 (Json.get_u64 "height" t)).
      { destruct (Json.get_u64 "height" t) eqn:Eh; simpl; [|lia]. apply Json.get_u64_range in Eh. width_lia. }
      lia. }
  destruct (stamped_in id h (String.eqb key "out") t) as [m|] eqn:Em; [|done].
  assert (m ∈ stamp_matches res id h); [|rewrite E in *; by eapply elem_of_nil].
  unfold stamp_matches. apply list_elem_of_In, in_concat.
  exists (omap (stamped_in id h (String.eqb key "out")) arr). split.
  - apply in_map_iff. exists key. rewrite Ha. split; [done | by apply list_elem_of_In].
  - apply list_elem_of_In, list_elem_of_omap. eauto.
Qed.

(** Computations that broadcast nothing. *)
Abbreviation silent := (quiet (onward paid hidden tip) (fun _ => True)).

Section Reconcile.
Context {R W : Type} `{RedisOps R} `{LuaOps} `{SnapshotJson} `{StreamOps R} `{PayoutEnv W}
  `{World R W event} `{!WalletLaws R W}.
Variable cfg : Config.
Implicit Types s : st R W event.

(** Every payout is positive, and an earlier one with the same stamp was hidden by then. *)
Definition excused (l : list payout) : Prop := forall i j p q,
  (i < j)%nat -> l !! i = Some p -> l !! j = Some q -> stamp_of (p_amount p) = stamp_of (p_amount q) -> p_amount p ∈ p_hidden q.
Definition SInv s : Prop := excused (paid (env s)) /\ Forall (fun p => 0 < p_amount p) (paid (env s)).

(** Every payout with this id's stamp is hidden. *)
Definition Fresh (id : Z) s : Prop :=
  SInv s /\ forall p, p ∈ paid (env s) -> stamp_of (p_amount p) = Stamp.stamp_tag id -> p_amount p ∈ hidden (env s).

Lemma excused_more l p :
  excused l -> (forall q, q ∈ l -> stamp_of (p_amount q) = stamp_of (p_amount p) -> p_amount q ∈ p_hidden p) -> excused (l ++ [p]).
Proof.
  intros Hl Hp i j x y Hij Hi [Hj|[-> <-]]%lookup_snoc_Some Hst.
  - destruct Hj as [Hlt Hj]. rewrite lookup_app_l in Hi by lia. by eapply (Hl i j).
  - rewrite lookup_app_l in Hi by lia. apply Hp; [by eapply list_elem_of_lookup_2|done].
Qed.

Lemma still_onward w w' : still paid hidden tip w w' -> onward paid hidden tip w w'.
Proof. intros (E1 & E2 & Ht). split_and!; [done| |done]. by rewrite E2. Qed.

Lemma query_onward q w : (forall amt a, q <> transfer amt a) -> onward paid hidden tip w (wallet_rpc q w).2.
Proof.
  intros Hq. assert (q = get_transfers \/ q <> get_transfers) as [->|] by (destruct q; by auto);
    [|by apply still_onward, (wl_query (R := R))].
  destruct (wallet_rpc get_transfers w) as [[raw|e] w'] eqn:E; simpl.
  - apply (wl_transfers (R := R)) in E as (E1 & Ht & Hh). split_and!; [done| |done]. intros x Hx. apply Hh. by left.
  - eapply still_onward, (wl_transfers_failed (R := R)), E.
Qed.

(** The wallet moves on and anything may be logged. *)
#[global] Instance wallet_calm : Calm R W (onward paid hidden tip) (fun _ => True).
Proof.
  split.
  - split; [intros w; by split_and!|]. intros w1 w2 w3 (E1 & ? & ?) (E2 & ? & ?). split_and!; [congruence|by etrans|lia].
  - intros r w r' w' evs E. split; [by eapply still_onward, wl_interfere|]. by apply Forall_forall.
  - intros. by eapply still_onward, wl_fault.
  - intros. apply still_onward, (wl_sleep (R := R)).
  - intros. by apply query_onward.
  - intros. apply still_onward, (wl_is_processed (R := R)).
Qed.

Lemma lasting_SInv : lasting (onward paid hidden tip) (fun _ => True) SInv.
Proof. intros s r w l [E _] _. unfold SInv. simpl. by rewrite E. Qed.

Lemma lasting_Fresh id : lasting (onward paid hidden tip) (fun _ => True) (Fresh id).
Proof.
  intros s r w l Ho Hl [Hs Hf]. split; [by eapply lasting_SInv|]. simpl. destruct Ho as (-> & Hh & _).
  intros p Hp Hst. by apply Hh, Hf.
Qed.

Lemma silent_mark id t h : silent (mark_processed id t h).
Proof. apply quiet_ecall; [intros; apply still_onward, (wl_mark_processed (R := R))|intros a; by apply Forall_forall]. Qed.

End Reconcile.

Section Pieces.
Context {R W : Type} `{RedisOps R} `{LuaOps} `{SnapshotJson} `{StreamOps R} `{PayoutEnv W}
  `{World R W event} `{!WalletLaws R W}.
Variable cfg : Config.
Implicit Types s : st R W event.

Lemma silent_confirm e txid : silent (confirm cfg e txid).
Proof.
  unfold confirm, wait_confirmed, oldest_unspent_height, ack.
  repeat first [apply quiet_wait_loop | apply silent_mark | quiet_step].
Qed.

Lemma silent_mark_if_marker id t h : silent (mark_if_marker cfg id t h).
Proof. unfold mark_if_marker. repeat first [apply silent_mark | quiet_step]. Qed.

Lemma Fresh_SInv id s : Fresh id s -> SInv s.
Proof. by intros [? _]. Qed.

Lemma silent_SInv {A} (m : M R W event A) : silent m -> hoare SInv m (fun _ => SInv) SInv.
Proof. intros Hm. apply Hm, lasting_SInv. Qed.

Lemma silent_from_Fresh {A} (m : M R W event A) id : silent m -> hoare (Fresh id) m (fun _ => SInv) SInv.
Proof. intros Hm. eapply hoare_pre; [apply Fresh_SInv | by apply silent_SInv]. Qed.

Lemma silent_Fresh {A} (m : M R W event A) id : silent m -> hoare (Fresh id) m (fun _ => Fresh id) SInv.
Proof.
  intros Hm. eapply hoare_conseq; [apply (Hm (Fresh id)), lasting_Fresh | done | done | apply Fresh_SInv].
Qed.

(** The tip the wallet reports is behind the chain's. *)
Lemma wallet_height_behind :
  hoare SInv (wallet_height (R := R) (W := W)) (fun h s => SInv s /\ h <= tip (env s)) SInv.
Proof.
  unfold wallet_height. apply hoare_bind with (fun raw s => SInv s /\
    opt_or 0 (Json.pointer ["result"; "height"] raw ≫= Json.as_u64) <= tip (env s)).
  - apply hoare_call_lasting; [apply lasting_SInv | done|]. intros s a r2 w2 Hs Ef. simpl.
    pose proof (query_onward get_height (env s) ltac:(done)) as Ho.
    destruct (wallet_rpc get_height (env s)) as [a' w'] eqn:E. simplify_eq.
    assert (SInv (St_ (redis s) w2 (log s ++ []))) by (by apply (lasting_SInv s)).
    split; [done|]. destruct a; [|done]. split; [done|]. simpl. by eapply wl_height.
  - intros raw. by apply hoare_ret.
Qed.

(** After a search that finds nothing, every payout with this stamp is hidden. *)
Lemma find_paid_tx_fresh id :
  hoare SInv (find_paid_tx (R := R) (W := W) id)
    (fun r s => SInv s /\ (r = None -> Fresh id s)) SInv.
Proof.
  unfold find_paid_tx.
  apply hoare_bind with (fun h s => SInv s /\
    u64_saturating_sub (unwrap_or 0 h) RECONCILE_WINDOW_BLOCKS <= Z.max 0 (tip (env s) - RECONCILE_WINDOW_BLOCKS)).
  { apply hoare_attempt.
    - eapply hoare_conseq; [apply wallet_height_behind | done | | done].
      intros h s [? ?]. split; [done|]. simpl. unfold u64_saturating_sub. lia.
    - intros e s Hs. split; [done|]. simpl. unfold u64_saturating_sub, RECONCILE_WINDOW_BLOCKS. lia. }
  intros hr. set (h := u64_saturating_sub _ _).
  apply hoare_bind with (fun raw s => SInv s /\
    (stamp_matches (opt_or Json.Null (Json.get "result" raw)) id h = [] -> Fresh id s)).
  - apply hoare_call_lasting; [| by intros ? [? _]|].
    { intros s r w l Ho Hl [Hs Hh]. split; [by eapply lasting_SInv|]. simpl. destruct Ho as (_ & _ & ?). lia. }
    intros s a r2 w2 [Hs Hh] Ef. simpl.
    pose proof (query_onward get_transfers (env s) ltac:(done)) as Ho.
    destruct (wallet_rpc get_transfers (env s)) as [a' w'] eqn:E. simplify_eq.
    assert (Hs' : SInv (St_ (redis s) w2 (log s ++ []))) by (by apply (lasting_SInv s)).
    split; [done|]. destruct a as [raw|]; [|done]. split; [done|]. intros Hm. split; [done|]. simpl.
    apply (wl_transfers (R := R)) in E as (Ep & _ & Hhid). rewrite Ep. intros p Hp Hst. apply Hhid. right.
    split; [by apply list_elem_of_fmap_2|]. intros Hsh. destruct Hs as [_ Hpos]. rewrite Forall_forall in Hpos.
    by eapply (shows_matches _ _ (p_amount p) id h); [exact Hsh|apply Hpos| | |].
  - intros raw s [Hs Hm]. unfold lift, stamp_match_in_result.
    destruct (stamp_matches _ id h) as [|m [|]]; simpl; auto; done.
Qed.

(** The transfer: from a stamp nobody used, it is used at most once. *)
Lemma transfer_once id amt addr :
  0 < amt -> stamp_of amt = Stamp.stamp_tag id ->
  hoare (Fresh id)
    (ecall (wallet_rpc (transfer amt addr)) (fun r => [Transferred id amt addr r]))
    (fun _ => SInv) (SInv (R := R) (W := W)).
Proof.
  intros Hpos Hst. apply hoare_call_lasting; [apply lasting_Fresh | apply Fresh_SInv|].
  intros s a r2 w2 [[Hn Hp] Hf] Ef. simpl.
  pose proof (wl_transfer amt addr (env s)) as Ho.
  destruct (wallet_rpc (transfer amt addr) (env s)) as [a' w'] eqn:E. simplify_eq. simpl in Ho.
  assert (SInv (St_ (redis s) w2 (log s ++ [Transferred id amt addr a]))); [|by destruct a].
  unfold SInv. simpl. destruct Ho as [(-> & _)| ->]; [done|]. split; [|apply Forall_app; split; [done|by constructor]].
  apply excused_more; [done|]. simpl. intros q Hq. rewrite Hst. by apply Hf.
Qed.

Lemma send_SInv e p :
  is_u128 p -> Stamp.STAMP_MOD <= p ->
  hoare (Fresh (entry_id e)) (send cfg e p) (fun _ => SInv) (SInv (R := R) (W := W)).
Proof.
  intros Hp Hlo. destruct (Stamp.stamp_amount_tag p (entry_id e) Hp Hlo) as [Hpos Htag].
  unfold send. eapply hoare_bind; [by apply transfer_once|]. intros raw. apply silent_SInv.
  repeat first [apply silent_confirm | apply silent_mark_if_marker | quiet_step];
    unfold hset_state, ack; quiet_walk.
Qed.

Lemma pay_SInv e snap p :
  is_u128 p ->
  hoare (Fresh (entry_id e)) (pay cfg e snap p) (fun _ => SInv) (SInv (R := R) (W := W)).
Proof.
  intros Hp. unfold pay. destruct (p <? Stamp.STAMP_MOD) eqn:Ed.
  - apply silent_from_Fresh. quiet_step; [apply silent_mark_if_marker|]. intros _. apply quiet_settle.
  - destruct (p >? _); [|apply send_SInv; [done | width_lia]].
    apply silent_from_Fresh. unfold hset_state. quiet_walk.
Qed.

Lemma price_SInv e : hoare (Fresh (entry_id e)) (price cfg e) (fun _ => SInv) (SInv (R := R) (W := W)).
Proof.
  unfold price. apply hoare_bind with (fun _ => Fresh (entry_id e)); [apply silent_Fresh; quiet_walk|].
  intros snap. destruct (unwrap_or None snap) as [t|]; [|apply silent_from_Fresh; unfold hset_state; quiet_walk].
  apply hoare_bind with (fun _ => Fresh (entry_id e)); [by apply hoare_gets|]. intros now.
  destruct (_ >? 120); [apply silent_from_Fresh; unfold hset_state; quiet_walk|].
  apply hoare_bind with (fun _ => Fresh (entry_id e)); [apply silent_Fresh; quiet_walk|].
  intros pend. destruct (quote_payout _ _ _ _) as [| |p] eqn:Eq; [apply silent_from_Fresh, quiet_settle..|].
  apply pay_SInv. by eapply quote_payout_u128.
Qed.

Lemma process_entry_SInv e : hoare SInv (process_entry cfg e) (fun _ => SInv) (SInv (R := R) (W := W)).
Proof.
  assert (Hrec : hoare SInv (reconcile cfg e) (fun _ => SInv) (SInv (R := R) (W := W))).
  { unfold reconcile.
    apply hoare_bind with (fun r s => SInv s /\ (r = Ok None -> Fresh (entry_id e) s)).
    - apply hoare_attempt; [|done]. eapply hoare_conseq; [apply find_paid_tx_fresh | done | | done].
      intros r s [Hs Hf]. split; [done|]. intros [= ->]. by apply Hf.
    - intros [[[txid conf]|]|err]; [|eapply hoare_pre; [by intros s [_ Hf]; apply Hf|]|].
      + eapply hoare_pre; [by intros s [Hs _]; exact Hs|]. apply silent_SInv.
        repeat first [apply silent_mark_if_marker | quiet_step]; unfold ack; quiet_walk.
      + unfold claim_slot.
        apply hoare_bind with (fun _ => Fresh (entry_id e)); [apply silent_Fresh; quiet_walk|].
        intros [|]; simpl; [apply price_SInv|]. apply silent_from_Fresh. unfold ack. quiet_walk.
      + apply hoare_ret. by intros s [? _]. }
  unfold process_entry. destruct (_ >? _); [apply silent_SInv, quiet_settle|].
  destruct (has_marker cfg); [|done].
  apply hoare_bind with (fun _ => SInv); [apply silent_SInv; quiet_walk|].
  intros [[]|]; [apply silent_SInv, quiet_settle | done | by apply hoare_ret].
Qed.

Lemma drain_once_SInv : hoare SInv (drain_once cfg) (fun _ => SInv) (SInv (R := R) (W := W)).
Proof.
  assert (Hes : forall es n, hoare SInv (process_entries cfg es n) (fun _ => SInv) (SInv (R := R) (W := W))).
  { induction es as [|e es IH]; intros n; simpl; [by apply hoare_ret|].
    apply hoare_bind with (fun _ => SInv); [apply process_entry_SInv|].
    intros []; [apply IH | by apply hoare_ret]. }
  unfold drain_once. apply hoare_bind with (fun _ => SInv); [apply silent_SInv; quiet_walk|].
  intros r. apply hoare_bind with (fun _ => SInv); [apply silent_SInv; quiet_walk|]. intros. apply Hes.
Qed.

End Pieces.

Section Properties.
Context {R W : Type} `{RedisOps R} `{LuaOps} `{SnapshotJson} `{StreamOps R} `{PayoutEnv W}
  `{World R W event} `{!WalletLaws R W}.
Variable cfg : Config.

(** A run in which the database may be anything at any time: lost, rolled back,
    or rewritten. *)
Inductive wstep (s : st R W event) : st R W event -> Prop :=
| w_drain : wstep s (drain_once cfg s).2
| w_redis r' : wstep s (St_ r' (env s) (log s))
| w_env w' : still paid hidden tip (env s) w' -> wstep s (St_ (redis s) w' (log s)).


End Properties.

End PayoutReconcile.
