(* ===== verification/PayoutDemo.v ===== *)
(** A concrete surrounding for the payout loop, in which the hypotheses of its
    theorems hold, and the theorems applied to a run of it.

    The consumer group redelivers every entry of the stream at every read, the
    wallet accepts every transfer and lists the ones it made as pending, or, when it is
    [w_blind], answers with an error of the RPC. *)
From S2P Require Import Prelude Text Json Redis Effects Store Stamp Contract Payouts PayoutSafety PayoutReconcile Marker.
Import Store Payouts PayoutSafety PayoutReconcile.

Module PayoutDemo.

#[local] Existing Instance snap_text.

Record wallet : Type := { w_amounts : list payout; w_hidden : list Z; w_blind : bool; w_clock : Z }.

Definition valid_payout (p : payout) : Prop := is_u128 (p_amount p).

Definition w_paid (w : wallet) : list payout := filter valid_payout (w_amounts w).

Definition transfer_json (a : Z) : Json.Value :=
  Json.Object [("amount", Json.Str (Text.show a)); ("txid", Json.Str "aa")].

Definition demo_rpc (q : request) (w : wallet) : result string Json.Value * wallet :=
  match q with
  | get_height => (Ok (Json.Object [("result", Json.Object [("height", Json.Int 100)])]), w)
  | get_transfers =>
      if w_blind w then
        (Ok (Json.Object [("error", Json.Object [("code", Json.Int (-13))])]),
         {| w_amounts := w_amounts w; w_hidden := w_hidden w ++ (p_amount <$> w_paid w); w_blind := true; w_clock := w_clock w |})
      else (Ok (Json.Object [("result", Json.Object [("pending", Json.Array (map transfer_json (p_amount <$> w_paid w)))])]), w)
  | transfer amt _ =>
      (Ok (Json.Object [("result", Json.Object [("tx_hash", Json.Str "aa")])]),
       {| w_amounts := w_amounts w ++ [Payout amt (w_hidden w)]; w_hidden := w_hidden w; w_blind := w_blind w; w_clock := w_clock w |})
  | get_transfer_by_txid _ | incoming_transfers => (Ok Json.Null, w)
  end.

#[global] Instance demo_env : PayoutEnv wallet := {
  wallet_rpc := demo_rpc;
  marker_is_processed _ w := (Ok false, w);
  marker_mark_processed _ _ _ w := (Ok tt, w);
  unix_now := w_clock;
  instant := w_clock;
  sleep_secs d w :=
    {| w_amounts := w_amounts w; w_hidden := w_hidden w; w_blind := w_blind w; w_clock := w_clock w + d |};
}.

#[global] Instance demo_world : World Db.t wallet event := {
  interfere r w := (r, w, []);
  next_fault w := (NoFault, w);
}.

Definition demo_entry (f : fields) : StreamId :=
  {| eid := "0"; emap := list_to_map (map (fun '(k, v) => (k, VBulk v)) f) |}.

#[global] Instance demo_stream : StreamOps Db.t := {
  xautoclaim r := (Ok VNil, r);
  xreadgroup r := (Ok (Some [map demo_entry (Db.stream r)]), r);
  xack _ r := (Ok 1, r);
}.

#[global] Instance demo_payout_laws : PayoutLaws Db.t wallet.
Proof.
  split; simpl; [|done..]. intros r w r' w' evs E. simplify_eq. split; [by left | done].
Qed.

Lemma demo_shows w amt : amt ∈ p_amount <$> w_paid w ->
  shows (Json.Object [("pending", Json.Array (map transfer_json (p_amount <$> w_paid w)))]) 100 amt.
Proof.
  intros Ha. exists "pending", (map transfer_json (p_amount <$> w_paid w)), (transfer_json amt).
  split_and!; [right; left | done | | | done].
  - apply list_elem_of_In, in_map. by apply list_elem_of_In.
  - apply list_elem_of_fmap in Ha as (p & -> & [Hv _]%list_elem_of_filter). unfold transfer_amount. simpl.
    unfold Json.get_str, Text.parse_u128. simpl. by rewrite Text.parse_uint_show.
Qed.

#[global] Instance demo_wallet_laws : WalletLaws Db.t wallet.
Proof.
  refine {| paid := w_paid; hidden := w_hidden; tip := fun _ => 100 |}; simpl.
  - intros r w r' w' evs E. by simplify_eq.
  - intros w f w' E. by simplify_eq.
  - done.
  - done.
  - done.
  - intros [] w Hg Hq; try done. by destruct (Hq amount address).
  - intros amt a w. unfold still, w_paid. simpl. rewrite filter_app, filter_cons.
    case_decide; simpl; [by right | left; by rewrite app_nil_r].
  - intros w raw w' E. by simplify_eq/=.
  - intros w raw w' E. destruct (w_blind w); simplify_eq/=; split_and!; try done; intros amt.
    + rewrite elem_of_app. split; (intros [?|?]; [by left|right]); [|tauto]. split; [done|].
      intros (k & arr & t & Hk & Ha & _). by destruct k.
    + split; [by left|]. intros [?|[Hp Hn]]; [done|]. destruct Hn. by apply demo_shows.
  - intros w e w' E. by destruct (w_blind w).
Defined.

Definition demo_cfg : Config :=
  {| has_marker := false; per_tx_cap_atomic := 10 ^ 12; max_payout_premium_bp := 0; confirm_wait_secs := 60 |}.

Definition snapshot : TreasurySnapshot := Build_TreasurySnapshot (10 ^ 9) (10 ^ 9) 0 0 (10 ^ 9) 1000.

(** A database with a snapshot and redemption 5 in the queue. *)
Definition queued : Db.t :=
  let r := set KEY_TREASURY_SNAPSHOT (RStr (snap_to_string snapshot)) Db.empty in
  (XADD (redemption_entry 5 "from" 1000000 "4A") (enqueue_script 5 1000000 r).2).2.

Definition start : st Db.t wallet event := St_ queued {| w_amounts := []; w_hidden := []; w_blind := false; w_clock := 1010 |} [].
Definition paid_once : st Db.t wallet event := (drain_once demo_cfg start).2.
(** The database lost and the redemption enqueued again. *)
Definition wiped : st Db.t wallet event := St_ queued (env paid_once) (log paid_once).
Definition after_wipe : st Db.t wallet event := (drain_once demo_cfg wiped).2.

Lemma start_PInv : PInv start.
Proof. intros id. split; [simpl; unfold payouts; simpl; lia | done]. Qed.

Lemma no_double_payout_witness :
  payouts 5 (log paid_once) = 1%nat
  /\ ((payouts 5 (log (drain_once demo_cfg paid_once).2) <= 1)%nat
     /\ (get (state_key 5) (redis (drain_once demo_cfg paid_once).2) = Some (RStr "pending") ->
         payouts 5 (log (drain_once demo_cfg paid_once).2) = 0%nat)).
Proof.
  split; [by vm_compute|].
  apply (no_double_payout demo_cfg start (drain_once demo_cfg paid_once).2 start_PInv).
  apply rtc_l with paid_once; [unfold paid_once; exact (p_drain demo_cfg start)|].
  apply rtc_once, (p_drain demo_cfg paid_once).
Defined.

(** The same with a wallet whose history cannot be read: the search is taken to have found
    nothing and the redemption is paid again. *)
Definition blind_start : st Db.t wallet event :=
  St_ queued {| w_amounts := []; w_hidden := []; w_blind := true; w_clock := 1010 |} [].
Definition blind_once : st Db.t wallet event := (drain_once demo_cfg blind_start).2.
Definition blind_wiped : st Db.t wallet event := St_ queued (env blind_once) (log blind_once).
Definition blind_twice : st Db.t wallet event := (drain_once demo_cfg blind_wiped).2.


#[global] Instance demo_clock : ClockLaws Db.t wallet.
Proof.
  split; simpl.
  - intros r w r' w' evs E. by simplify_eq.
  - intros w f w' E. by simplify_eq.
  - intros [] w; simpl; try done; by destruct (w_blind w).
  - done.
Qed.

Lemma wait_confirmed_enough_fuel_witness :
  wait_loop (Z.to_nat (60 / 10 + 1) + 3) "aa" (instant (env start) + 60) start = wait_confirmed "aa" 60 start
  /\ (wait_confirmed "aa" 60 start).1 = ORet false.
Proof. split; [apply (wait_confirmed_enough_fuel "aa" 60 3 start); lia | by vm_compute]. Defined.

(** ** With the marker: the wallet and the contract *)

Record world : Type := { w_token : Contract.Token Contract.Ledger20; w_wallet : wallet }.
Definition with_wallet (x : wallet) (w : world) : world := {| w_token := w_token w; w_wallet := x |}.

#[global] Instance demo_l2 : Marker.L2 Contract.Ledger20 world := {
  token_of := w_token;
  eth_read w := (None, w);
  eth_send f w :=
    match f (w_token w) with
    | Some t => (Marker.Receipt true, {| w_token := t; w_wallet := w_wallet w |})
    | None => (Marker.Receipt false, w)
    end;
}.

(** Every payout is mined at once. *)
Definition mined_rpc (q : request) (w : world) : result string Json.Value * world :=
  match q with
  | get_transfer_by_txid _ =>
      (Ok (Json.Object [("result", Json.Object [("transfer", Json.Object [("height", Json.Int 90)])])]), w)
  | _ => let '(r, x) := demo_rpc q (w_wallet w) in (r, with_wallet x w)
  end.

Definition wallet_env : PayoutEnv world := {|
  wallet_rpc := mined_rpc;
  marker_is_processed _ w := (Err "none", w);
  marker_mark_processed _ _ _ w := (Err "none", w);
  unix_now w := w_clock (w_wallet w);
  instant w := w_clock (w_wallet w);
  sleep_secs d w := with_wallet (sleep_secs d (w_wallet w)) w;
|}.

#[global] Instance demo_world2 : World Db.t world event := {
  interfere r w := (r, w, []);
  next_fault w := (NoFault, w);
}.

#[global] Instance demo_l2_laws : Marker.L2Laws (R := Db.t) (T := Contract.Ledger20) Contract.trust wallet_env.
Proof.
  assert (Hrefl : forall w x, Marker.progress Contract.trust w (with_wallet x w)) by (intros; apply rtc_refl).
  split; simpl.
  - intros r w r' w' evs E. simplify_eq. split; [apply rtc_refl|done].
  - intros w f w' E. simplify_eq. apply rtc_refl.
  - done.
  - intros q w. destruct q; simpl; try apply rtc_refl; destruct (w_blind _); apply rtc_refl.
  - intros w e w' E. simplify_eq. apply rtc_refl.
  - intros s id t h w r w' E. destruct (Contract.markProcessed s id t h (w_token w)) as [x|] eqn:Em; simplify_eq.
    + split; [apply rtc_once; exists 0; by apply Contract.tx_public, (Contract.tx_mark _ _ s id t h)|].
      intros _. exists (w_token w), x. split; [done|apply rtc_refl].
    + split; [apply rtc_refl|done].
Qed.

#[local] Instance marker_env : PayoutEnv world :=
  Marker.with_marker (fun _ => true) {| Marker.signer := 9; Marker.rpc_url := "http://l2" |} wallet_env.
#[local] Instance marker_laws : Marker.MarkerLaws Db.t world :=
  Marker.contract_marker Contract.trust (fun _ => true) {| Marker.signer := 9; Marker.rpc_url := "http://l2" |} wallet_env.

Definition marker_cfg : Config :=
  {| has_marker := true; per_tx_cap_atomic := 10 ^ 12; max_payout_premium_bp := 0; confirm_wait_secs := 60 |}.

(** Redemption 1 of the contract in the queue. *)
Definition queued1 : Db.t :=
  let r := set KEY_TREASURY_SNAPSHOT (RStr (snap_to_string snapshot)) Db.empty in
  (XADD (redemption_entry 1 "from" 1000000 "4A") (enqueue_script 1 1000000 r).2).2.
Definition empty_wallet : wallet := {| w_amounts := []; w_hidden := []; w_blind := false; w_clock := 1010 |}.

Definition start1 : st Db.t world event := St_ queued1 {| w_token := Contract.after_redeem; w_wallet := empty_wallet |} [].
Definition paid1 : st Db.t world event := (drain_once marker_cfg start1).2.
(** The database and the wallet's history lost. *)
Definition lost_db : st Db.t world event := St_ queued1 (env paid1) (log paid1).
Definition lost : st Db.t world event := St_ (redis lost_db) (with_wallet empty_wallet (env lost_db)) (log lost_db).
Definition after_loss : st Db.t world event := (drain_once marker_cfg lost).2.

Lemma keeps_wallet w x : Marker.keeps (R := Db.t) w (with_wallet x w).
Proof. by intros id. Qed.

Lemma marked_never_paid_witness :
  payouts 1 (log paid1) = 1%nat /\ length (log paid1) = 2%nat /\ log after_loss = log paid1 /\
  forall pre a addr r post, log after_loss = pre ++ Transferred 1 a addr r :: post -> forall t h, MarkedProcessed 1 t h ∉ pre.
Proof.
  split; [by vm_compute|]. split; [by vm_compute|]. split; [by vm_compute|].
  intros pre a addr r post. apply (Marker.marked_never_paid marker_cfg start1 after_loss eq_refl eq_refl).
  apply rtc_l with paid1; [unfold paid1; exact (Marker.m_drain marker_cfg start1)|].
  apply rtc_l with lost_db; [exact (Marker.m_redis marker_cfg paid1 queued1)|].
  apply rtc_l with lost; [exact (Marker.m_env marker_cfg lost_db _ (keeps_wallet _ empty_wallet))|].
  apply rtc_once. unfold after_loss. exact (Marker.m_drain marker_cfg lost).
Defined.

End PayoutDemo.
