(* ===== verification/Burned.v ===== *)
(** From burned tokens to payouts: the contract ([Contract]), the poller that reads its
    redemptions into the queue ([Watcher]) and the loop that pays them ([Payouts]), as
    one system.

    The poller reads the contract through [Marker.eth_call]; the wallet, the network and
    the consumer group of the stream are parameters.  Every call may fail or crash, the
    contract moves on by transactions of anyone, and both tasks run at the same time:
    each is the interference of the other. *)
From S2P Require Import Prelude Text Json Redis Effects Store Stamp Payouts PayoutSafety Quiet Contract Marker Watcher.
From S2P Require Import PayoutReconcile PayoutDemo.
Import Store Payouts Quiet.

Module Burned.

(** ** The contract only adds redemptions *)

Section Rows.
Context {T Sig : Type} `{Contract.Erc20Laws T}.
Variable recover : Address -> Z -> Z -> Sig -> option Address.
Implicit Types t : Contract.Token T.

(** Arguments of a call are 256-bit words, and the ids have not run out. *)
Definition words t : Prop :=
  0 <= Contract.nextRedemptionId t < u256_max /\
  forall id s, Contract.redemptions t !! id = Some s -> is_u256 (Contract.amount s).

Record chain_ok t : Prop := {
  co_inv : exists burned, Contract.Inv burned t;
  co_words : words t;
}.

(** Transactions of anyone. *)
Definition progress : Contract.Token T -> Contract.Token T -> Prop :=
  rtc (fun t t' => exists d, Contract.tx recover d t t' /\ (words t -> words t')).

(** What the tasks rely on: a redemption, once made, stays as it is. *)
Definition onward t t' : Prop :=
  chain_ok t -> chain_ok t' /\ Contract.redemptions t ⊆ Contract.redemptions t' /\
    Contract.nextRedemptionId t <= Contract.nextRedemptionId t'.

#[global] Instance onward_preorder : PreOrder onward.
Proof.
  split; [by intros t Ht|]. intros t1 t2 t3 H12 H23 Ht.
  destruct (H12 Ht) as (H2' & Hs & Hn). destruct (H23 H2') as (H3' & Hs' & Hn').
  split_and!; [done|by etrans|lia].
Qed.

Lemma tx_rows d t t' burned :
  Contract.Inv burned t -> Contract.nextRedemptionId t < u256_max -> Contract.tx recover d t t' ->
  Contract.redemptions t ⊆ Contract.redemptions t' /\ Contract.nextRedemptionId t <= Contract.nextRedemptionId t'.
Proof.
  intros Hi Hmax [[-> (a & _ & s & v & o & ->)]|Htx]%Contract.tx_inv; [done|].
  destruct Htx as [t u c s g m t' Hc|t a v amt x f id t' Ha Hr|t a id x h t' Hm|t d e He]; [| | |done].
  - unfold Contract.claim in Hc. case_ifs_in Hc; try done. destruct (Contract.mint _ _ _); by simplify_eq.
  - unfold Contract.redeem in Hr. case_ifs_in Hr; try done. destruct (Contract.burn _ _ _); [|done].
    case_ifs_in Hr; try done. pose proof (Contract.inv_next _ _ Hi). simplify_eq/=.
    rewrite Z.mod_small by (unfold u256_max in Hmax; lia). split; [|lia]. apply insert_subseteq.
    apply eq_None_not_Some. rewrite (Contract.inv_ids _ _ Hi). lia.
  - unfold Contract.markProcessed in Hm. case_ifs_in Hm; try done; by simplify_eq.
Qed.

Lemma progress_onward t t' : progress t t' -> onward t t'.
Proof.
  induction 1 as [|t1 t2 t3 (d & Htx & Hw) _ IH]; [done|]. etrans; [|exact IH].
  intros [[b Hi] Hws]. assert (Contract.nextRedemptionId t1 < u256_max) as Hmax by apply Hws.
  pose proof (tx_rows d t1 t2 b Hi Hmax Htx) as [Hs Hn].
  split_and!; [|done|done]. split; [|by apply Hw]. exists (b + d). by eapply Contract.tx_Inv.
Qed.

(** Redemption [id] burned [amt] for the Monero address [x]. *)
Definition burned_for (id amt : Z) (x : string) t : Prop :=
  exists s, Contract.redemptions t !! id = Some s /\ Contract.amount s = amt /\ Contract.xmrAddress s = x.

Lemma burned_onward id amt x t t' : chain_ok t -> onward t t' -> burned_for id amt x t -> burned_for id amt x t'.
Proof.
  intros Ht Ho (s & Hs & Ha & Hx). destruct (Ho Ht) as (_ & Hsub & _). exists s. split_and!; [|done|done].
  by eapply lookup_weaken.
Qed.

End Rows.

(** ** The poller's reads of the contract *)

Section Reads.
Context {T W : Type} `{Contract.Erc20 T} `{Marker.L2 T W}.

(** [redemptions(id)]: a mapping read is zero where nothing was written. *)
Definition redemption_row (id : Z) (t : Contract.Token T) : Watcher.RedemptionRow :=
  match Contract.redemptions t !! id with
  | Some s => {| Watcher.row_user := Contract.user s; Watcher.row_amount := Contract.amount s;
                 Watcher.row_xmr_address := Contract.xmrAddress s |}
  | None => {| Watcher.row_user := 0; Watcher.row_amount := 0; Watcher.row_xmr_address := "" |}
  end.

(** [AlloySupplyReader::total_supply], before the conversion. *)
Definition total_supply (w : W) : result string Z * W :=
  Marker.eth_call (fun t => Contract.totalSupply (Contract.erc20 t)) w.

(** The environment of the poller and the refresher over the contract; the wallet, the
    form of addresses and the clock are those of [base]. *)
Definition over_contract (base : Watcher.ChainEnv W) : Watcher.ChainEnv W := {|
  Watcher.nextRedemptionId := Marker.eth_call Contract.nextRedemptionId;
  Watcher.redemptions id := Marker.eth_call (redemption_row id);
  Watcher.display_address := @Watcher.display_address W base;
  Watcher.wallet_refresh := @Watcher.wallet_refresh W base;
  Watcher.wallet_get_balance := @Watcher.wallet_get_balance W base;
  Watcher.totalSupply := total_supply;
  Watcher.utc_timestamp := @Watcher.utc_timestamp W base;
|}.

End Reads.

(** ** The queue *)

(** An entry as XAUTOCLAIM replies it: its id and the flat list of its fields. *)
Definition raw_entry (b : string) (f : fields) : rvalue :=
  VArray [VBulk b; VArray (concat ((fun kv => [VBulk kv.1; VBulk kv.2]) <$> f))].

Definition same_queue {R} `{RedisLaws R} (r r' : R) : Prop := queue r' = queue r.
#[global] Instance same_queue_preorder {R} `{RedisLaws R} : PreOrder (same_queue (R := R)).
Proof. unfold same_queue. split; [done|]. intros r1 r2 r3 -> ->. done. Qed.

(** The consumer group delivers entries of the stream, or the ids of deleted ones, and
    leaves the stream as it is. *)
Class StreamLaws (R : Type) `{RedisLaws R} `{StreamOps R} : Prop := {
  sl_claim : forall r v r', xautoclaim r = (Ok v, r') ->
    v = VNil \/ exists cursor es rest, v = VArray (VBulk cursor :: VArray es :: rest) /\
      forall x, x ∈ es -> (exists b f, f ∈ queue r /\ x = raw_entry b f) \/ x = VNil \/ exists b, x = VArray [VBulk b; VNil];
  sl_read : forall r ss r', xreadgroup r = (Ok (Some ss), r') ->
    forall e, e ∈ concat ss -> exists f, f ∈ queue r /\ emap e = list_to_map ((fun kv => (kv.1, VBulk kv.2)) <$> f);
  sl_claim_keeps : guar same_queue xautoclaim;
  sl_read_keeps : guar same_queue xreadgroup;
  sl_ack_keeps : forall i, guar same_queue (xack i);
}.

Section Queue.
Context {R T : Type} `{RedisLaws R} `{StreamOps R} `{Contract.Erc20Laws T}.
Implicit Types t : Contract.Token T.

(** An entry of the stream says what a redemption of the contract says. *)
Definition entry_backed t (f : fields) : Prop := exists id from amt x,
  f = redemption_entry id from amt x /\ is_u64 id /\ 0 <= amt <= i64_max /\ burned_for id amt x t.
Definition queue_ok t (r : R) : Prop := Forall (entry_backed t) (queue r).

(** An entry in the hands of the payout loop: such an entry, or one with nothing to pay. *)
Definition entry_fine t (e : StreamId) : Prop :=
  entry_amount e = 0 \/ burned_for (entry_id e) (entry_amount e) (entry_addr e) t.

Lemma entry_backed_onward t t' f : chain_ok t -> onward t t' -> entry_backed t f -> entry_backed t' f.
Proof.
  intros Ht Ho (id & from & amt & x & -> & Hid & Ha & Hb). exists id, from, amt, x. split_and!; try done; [apply Ha..|].
  by eapply burned_onward.
Qed.

Lemma queue_onward t t' r : chain_ok t -> onward t t' -> queue_ok t r -> queue_ok t' r.
Proof. intros Ht Ho Hq. eapply Forall_impl; [exact Hq|]. intros f. by apply entry_backed_onward. Qed.

Lemma entry_fine_onward t t' e : chain_ok t -> onward t t' -> entry_fine t e -> entry_fine t' e.
Proof. intros Ht Ho [Hz|Hb]; [by left|right]. by eapply burned_onward. Qed.

(** What an entry with the fields of a redemption says. *)
Lemma fields_fine t e f :
  entry_backed t f -> (forall k, k ∈ ["id"; "amount"; "xmr_addr"] -> field k e = (list_to_map f : gmap string string) !! k) ->
  entry_fine t e.
Proof.
  intros (id & from & amt & x & -> & Hid & Ha & Hb) Hf. right. unfold entry_id, entry_amount, entry_addr.
  rewrite (Hf "id"), (Hf "amount"), (Hf "xmr_addr") by set_solver. unfold redemption_entry.
  assert (forall k v, In (k, v) [("id", Text.show id); ("from", from); ("amount", Text.show amt); ("xmr_addr", x)] ->
    (list_to_map [("id", Text.show id); ("from", from); ("amount", Text.show amt); ("xmr_addr", x)] : gmap string string) !! k = Some v) as Hm.
  { intros k v Hin. apply elem_of_list_to_map_1; [by apply (bool_decide_unpack _); vm_compute|by apply list_elem_of_In]. }
  rewrite (Hm "id" (Text.show id)), (Hm "amount" (Text.show amt)), (Hm "xmr_addr" x) by (simpl; tauto). simpl.
  unfold Text.parse_u64, Text.parse_u128. rewrite !Text.parse_uint_show by width_lia. done.
Qed.

Lemma raw_fine t b f e : entry_backed t f -> parse_claimed (raw_entry b f) = Some e -> entry_fine t e.
Proof.
  intros Hf [= <-]. apply (fields_fine t _ f Hf). destruct Hf as (id & from & amt & x & -> & _).
  unfold redemption_entry. generalize (Text.show id), (Text.show amt). intros s1 s2 k Hk.
  rewrite !elem_of_cons, elem_of_nil in Hk. destruct Hk as [->|[->|[->|[]]]]; reflexivity.
Qed.

Lemma map_fine t e f :
  entry_backed t f -> emap e = list_to_map ((fun kv => (kv.1, VBulk kv.2)) <$> f) -> entry_fine t e.
Proof.
  intros Hf E. apply (fields_fine t _ f Hf). intros k _. unfold field. rewrite E.
  change (fun kv => (kv.1, VBulk kv.2)) with (prod_map (@id string) VBulk).
  rewrite list_to_map_fmap, lookup_fmap. by destruct (list_to_map f !! k).
Qed.

Context `{!StreamLaws R}.

Lemma claimed_fine t r v r' :
  queue_ok t r -> xautoclaim r = (Ok v, r') -> Forall (entry_fine t) (reclaimed_entries v).
Proof.
  intros Hq [->|(cursor & es & rest & -> & He)]%sl_claim; [constructor|]. simpl. apply Forall_forall.
  intros e (x & Hx & Hp)%list_elem_of_omap. destruct (He x Hx) as [(b & f & Hf & ->)|[->|[b ->]]]; [|done|].
  - eapply raw_fine; [|exact Hp]. by eapply Forall_forall.
  - injection Hp as <-. by left.
Qed.

Lemma read_fine t r ss r' :
  queue_ok t r -> xreadgroup r = (Ok (Some ss), r') -> Forall (entry_fine t) (concat ss).
Proof.
  intros Hq Hr. apply Forall_forall. intros e He. destruct (sl_read _ _ _ Hr e He) as (f & Hf & E).
  eapply map_fine; [|exact E]. by eapply Forall_forall.
Qed.

End Queue.

(** ** The payout loop pays what was burned *)

Section Payouts.
Context {R T W Sig : Type} `{RedisLaws R} `{LuaOps} `{SnapshotJson} `{StreamOps R} `{PayoutEnv W} `{World R W event}
  `{Contract.Erc20Laws T} `{Marker.L2 T W}.
Variable recover : Address -> Z -> Z -> Sig -> option Address.
Variable cfg : Config.
Implicit Types s : st R W event.

Definition moves (w w' : W) : Prop := progress recover (Marker.token_of w) (Marker.token_of w').
Definition is_transfer (e : event) : bool := match e with Transferred _ _ _ _ => true | MarkedProcessed _ _ _ => false end.

(** Everything outside moves the contract by transactions only; the other tasks make no
    transfers, and put only backed entries into the queue; a snapshot has 128-bit numbers. *)
Class Surroundings : Prop := {
  su_interfere : forall (r : R) w r' w' evs, interfere r w = (r', w', evs) ->
    moves w w' /\ Forall (fun e => is_transfer e = false) evs /\
    (chain_ok (Marker.token_of w) -> queue_ok (Marker.token_of w) r -> queue_ok (Marker.token_of w') r');
  su_fault : forall w f w', next_fault w = (f, w') -> moves w w';
  su_sleep : forall d w, moves w (sleep_secs d w);
  su_rpc : forall q w, moves w (wallet_rpc q w).2;
  su_is_processed : forall id w, moves w (marker_is_processed id w).2;
  su_mark : forall id t h w, moves w (marker_mark_processed id t h w).2;
  su_read : forall w, moves w (Marker.eth_read w).2;
  su_snapshot : forall x snap, snap_of_string x = Some snap ->
    is_u128 (monero_balance_atomic snap) /\ is_u128 (mining_pool_token_total_supply snap);
}.
Context `{!Surroundings} `{!StreamLaws R}.
Hypothesis premium : 0 <= max_payout_premium_bp cfg.

Definition steady (w w' : W) : Prop := onward (Marker.token_of w) (Marker.token_of w').

Lemma moves_steady w w' : moves w w' -> steady w w'.
Proof. apply progress_onward. Qed.

#[local] Instance steady_calm : Calm R W steady (fun e => is_transfer e = false).
Proof.
  split.
  - unfold steady. split; [intros w; reflexivity|intros w1 w2 w3; apply transitivity].
  - intros r w r' w' evs E. destruct (su_interfere _ _ _ _ _ E) as (Hm & He & _). split; [by apply moves_steady|done].
  - intros w f w' E. by apply moves_steady, (su_fault w f).
  - intros d w. apply moves_steady, su_sleep.
  - intros q w _. apply moves_steady, su_rpc.
  - intros id w. apply moves_steady, su_is_processed.
Qed.

(** A payment to the address of the redemption, at par plus the premium at most. *)
Definition paid_right (t : Contract.Token T) (e : event) : Prop :=
  match e with
  | Transferred id a addr _ => exists amt, burned_for id amt addr t /\ 0 < a /\ a * 10000 <= amt * (10000 + max_payout_premium_bp cfg)
  | MarkedProcessed _ _ _ => True
  end.

(** What the log says, and the entries still to be processed. *)
Definition LInv (es : list StreamId) s : Prop :=
  let t := Marker.token_of (env s) in
  chain_ok t /\ Forall (paid_right t) (log s) /\ Forall (entry_fine t) es.

Lemma paid_onward t t' e : chain_ok t -> onward t t' -> paid_right t e -> paid_right t' e.
Proof.
  intros Ht Ho. destruct e as [id a addr r|]; [|done]. intros (amt & Hb & Ha). exists amt.
  split; [by eapply burned_onward|done].
Qed.

Lemma lasting_LInv es : lasting steady (fun e => is_transfer e = false) (LInv es).
Proof.
  intros s r w l Ho Hl (Hc & Hp & Hf). unfold LInv. simpl. destruct (Ho Hc) as (Hc' & _). split_and!; [done|..].
  - apply Forall_app. split; [eapply Forall_impl; [exact Hp|intros e; by eapply paid_onward]|].
    eapply Forall_impl; [exact Hl|]. by intros [].
  - eapply Forall_impl; [exact Hf|]. intros e. by eapply entry_fine_onward.
Qed.

Lemma LInv_nil es s : LInv es s -> LInv [] s.
Proof. intros (? & ? & _). by split_and!. Qed.

Abbreviation calm := (quiet steady (fun e => is_transfer e = false)).

Lemma calm_LInv {A} (m : M R W event A) es : calm m -> hoare (LInv es) m (fun _ => LInv es) (LInv []).
Proof. intros Hm. eapply hoare_conseq; [apply Hm, lasting_LInv|done|done|apply LInv_nil]. Qed.

Lemma calm_mark id t h : calm (mark_processed id t h).
Proof.
  apply quiet_ecall; [intros w; apply moves_steady, su_mark|]. intros []; by repeat constructor.
Qed.

Lemma calm_mark_if_marker id t h : calm (mark_if_marker cfg id t h).
Proof. unfold mark_if_marker. repeat first [apply calm_mark | quiet_step]. Qed.

Lemma calm_confirm e txid : calm (confirm cfg e txid).
Proof.
  unfold confirm, wait_confirmed, oldest_unspent_height, ack.
  repeat first [apply quiet_wait_loop | apply calm_mark | quiet_step].
Qed.

(** The quoted amount is at most par plus the premium. *)
Definition within (e : StreamId) (p : Z) : Prop :=
  is_u128 p /\ p * 10000 <= entry_amount e * (10000 + max_payout_premium_bp cfg).

Lemma entry_amount_u128 e : is_u128 (entry_amount e).
Proof.
  unfold entry_amount. destruct (field "amount" e ≫= Text.parse_u128) as [v|] eqn:E; simpl; [|by split].
  apply bind_Some in E as (x & _ & E). by apply Text.parse_uint_range in E.
Qed.

Lemma transfer_paid e es p :
  within e p -> Stamp.STAMP_MOD <= p ->
  let a := Stamp.stamp_amount p (entry_id e) in
  hoare (LInv (e :: es)) (ecall (wallet_rpc (transfer a (entry_addr e))) (fun r => [Transferred (entry_id e) a (entry_addr e) r]))
    (fun _ => LInv (e :: es)) (LInv []).
Proof.
  intros [Hp Hw] Hlo a. destruct (Stamp.stamp_amount_tag p (entry_id e) Hp Hlo) as [Hpos _].
  destruct (Stamp.stamp_amount_bounds p (entry_id e) Hp Hlo) as [Hle _]. fold a in Hpos, Hle.
  apply hoare_call_lasting; [apply lasting_LInv|apply LInv_nil|]. intros s x r2 w2 Hs Ef. simpl.
  pose proof (moves_steady _ _ (su_rpc (transfer a (entry_addr e)) (env s))) as Ho.
  destruct (wallet_rpc (transfer a (entry_addr e)) (env s)) as [x' w'] eqn:E. simplify_eq. simpl in Ho.
  pose proof (lasting_LInv _ s (redis s) w2 [] Ho ltac:(constructor) Hs) as (Hc & Hl & Hf).
  cbn [env redis log] in Hc, Hl, Hf. rewrite app_nil_r in Hl.
  assert (LInv (e :: es) (St_ (redis s) w2 (log s ++ [Transferred (entry_id e) a (entry_addr e) x]))) as HL.
  { split_and!; [done| |done]. apply Forall_app. split; [done|]. constructor; [|done].
    apply Forall_cons in Hf as [[Hz|Hb] _]; [rewrite Hz in Hw; lia|]. exists (entry_amount e). split; [done|]. lia. }
  split; [by eapply LInv_nil|]. by destruct x.
Qed.

Lemma send_LInv e es p :
  within e p -> Stamp.STAMP_MOD <= p ->
  hoare (LInv (e :: es)) (send cfg e p) (fun _ => LInv (e :: es)) (LInv []).
Proof.
  intros Hw Hlo. unfold send. eapply hoare_bind; [by apply transfer_paid|]. intros raw. apply calm_LInv.
  repeat first [apply calm_confirm | apply calm_mark_if_marker | quiet_step];
    unfold hset_state, ack; quiet_walk.
Qed.

Lemma pay_LInv e es snap p :
  within e p -> hoare (LInv (e :: es)) (pay cfg e snap p) (fun _ => LInv (e :: es)) (LInv []).
Proof.
  intros Hw. unfold pay. destruct (Z.ltb_spec p Stamp.STAMP_MOD).
  - apply calm_LInv. quiet_step; [apply calm_mark_if_marker|]. intros _. apply quiet_settle.
  - destruct (p >? _); [|by apply send_LInv]. apply calm_LInv. unfold hset_state. quiet_walk.
Qed.

(** A snapshot in the store was read from its text. *)
Definition snap_fine (snap : TreasurySnapshot) : Prop :=
  is_u128 (monero_balance_atomic snap) /\ is_u128 (mining_pool_token_total_supply snap).

Lemma snapshot_fine es :
  hoare (LInv es) (attempt (rcall treasury_snapshot))
    (fun r s => (forall snap, r = Ok (Some snap) -> snap_fine snap) /\ LInv es s) (LInv []).
Proof.
  refine (hoare_conseq _ _ _ _ _ _ (LInv es) _ (fun _ H => H) (fun _ _ H => H) (LInv_nil es)).
  apply (hoare_attempt (LInv es) _ _ (LInv es)); [|by intros e s Hs; split].
  apply hoare_call_lasting; [apply lasting_LInv|done|]. intros s a r2 w2 Hs Ef.
  destruct (treasury_snapshot (redis s)) as [a' r'] eqn:Et. simplify_eq. simpl.
  assert (LInv es (St_ r2 (env s) (log s ++ []))) as HL by (by apply (lasting_LInv es s); [unfold steady| |]).
  split; [done|]. destruct a as [o|]; [|done]. split; [|done]. intros snap [= ->].
  unfold treasury_snapshot, mbind, St_bind, GET in Et. simpl in Et.
  destruct (as_string (get KEY_TREASURY_SNAPSHOT (redis s))) as [x|]; [|by cbn in Et].
  destruct (snap_of_string x) as [t|] eqn:Ex; [|by cbn in Et]. cbn in Et. injection Et as <- _. by apply su_snapshot in Ex.
Qed.

Lemma quote_within e snap pending p :
  snap_fine snap -> 0 <= pending ->
  quote_payout snap pending (max_payout_premium_bp cfg) (entry_amount e) = QPayout p -> within e p.
Proof.
  intros [Hb Hs] Hp Hq. split; [by eapply quote_payout_u128|].
  apply (quote_payout_bounds snap pending); [|done]. unfold quote_ok. auto using entry_amount_u128.
Qed.

Lemma price_LInv e es : hoare (LInv (e :: es)) (price cfg e) (fun _ => LInv (e :: es)) (LInv []).
Proof.
  unfold price. eapply hoare_bind; [apply snapshot_fine|]. intros snap. apply hoare_pure. intros Hsn.
  destruct (unwrap_or None snap) as [t|] eqn:Et; [|apply calm_LInv; unfold hset_state; quiet_walk].
  assert (Ht : snap_fine t) by (apply Hsn; by destruct snap as [[]|]; simplify_eq/=).
  apply hoare_bind with (fun _ => LInv (e :: es)); [by apply hoare_gets|]. intros now.
  destruct (_ >? 120); [apply calm_LInv; unfold hset_state; quiet_walk|].
  apply hoare_bind with (fun _ => LInv (e :: es)); [apply calm_LInv; quiet_walk|].
  intros pend. destruct (quote_payout _ _ _ _) as [| |p] eqn:Eq; [apply calm_LInv, quiet_settle..|].
  apply pay_LInv. eapply quote_within; [exact Ht| |exact Eq]. lia.
Qed.

Lemma reconcile_LInv e es : hoare (LInv (e :: es)) (reconcile cfg e) (fun _ => LInv (e :: es)) (LInv []).
Proof.
  unfold reconcile. apply hoare_bind with (fun _ => LInv (e :: es)).
  { apply calm_LInv, quiet_attempt, quiet_find_paid_tx. }
  intros [[[txid conf]|]|err]; [| |by apply hoare_ret].
  - apply calm_LInv. repeat first [apply calm_mark_if_marker | quiet_step]; unfold ack; quiet_walk.
  - unfold claim_slot. apply hoare_bind with (fun _ => LInv (e :: es)); [apply calm_LInv; quiet_walk|].
    intros [|]; simpl; [apply price_LInv|]. apply calm_LInv. unfold ack. quiet_walk.
Qed.

Lemma process_entry_LInv e es : hoare (LInv (e :: es)) (process_entry cfg e) (fun _ => LInv (e :: es)) (LInv []).
Proof.
  unfold process_entry. destruct (_ >? _); [apply calm_LInv, quiet_settle|].
  destruct (has_marker cfg); [|apply reconcile_LInv].
  apply hoare_bind with (fun _ => LInv (e :: es)); [apply calm_LInv; quiet_walk|].
  intros [[]|]; [apply calm_LInv, quiet_settle|apply reconcile_LInv|by apply hoare_ret].
Qed.

Lemma process_entries_LInv es n : hoare (LInv es) (process_entries cfg es n) (fun _ => LInv []) (LInv []).
Proof.
  revert n. induction es as [|e es IH]; intros n; simpl; [by apply hoare_ret|].
  apply hoare_bind with (fun _ => LInv (e :: es)); [apply process_entry_LInv|].
  intros []; [|apply hoare_ret; apply LInv_nil].
  eapply hoare_pre; [|apply IH]. intros s (Hc & Hl & Hf). split_and!; [done|done|]. by apply Forall_cons in Hf as [_ ?].
Qed.

(** ** The queue under the loop *)

(** The chain and the queue. *)
Definition KInv s : Prop :=
  chain_ok (Marker.token_of (env s)) /\ queue_ok (Marker.token_of (env s)) (redis s).

Lemma KInv_moves s r w l : moves (env s) w -> queue r = queue (redis s) -> KInv s -> KInv (St_ r w l).
Proof.
  intros Hm Eq [Hc Hq]. pose proof (progress_onward _ _ _ Hm) as Ho. destruct (Ho Hc) as (Hc' & _).
  split; [done|]. unfold queue_ok in *. simpl. rewrite Eq. by apply (queue_onward _ _ (redis s) Hc Ho).
Qed.

Lemma withstands_KInv : withstands KInv.
Proof.
  intros s r w evs f w' [Hc Hq] Hi Hf. destruct (su_interfere _ _ _ _ _ Hi) as (Hm & _ & Hqr).
  destruct (progress_onward _ _ _ Hm Hc) as (Hc' & _).
  apply (KInv_moves (St_ r w [])); [by eapply su_fault|done|]. split; [done|]. by apply Hqr.
Qed.

Definition keeps {A} (m : M R W event A) : Prop := hoare KInv m (fun _ => KInv) KInv.

Lemma keeps_bind {A B} (m : M R W event A) (f : A -> M R W event B) :
  keeps m -> (forall a, keeps (f a)) -> keeps (bind m f).
Proof. intros Hm Hf. by apply hoare_bind with (fun _ => KInv). Qed.
Lemma keeps_attempt {A} (m : M R W event A) : keeps m -> keeps (attempt m).
Proof. intros Hm. by apply hoare_attempt. Qed.
Lemma keeps_rcall {A} (f : St R A) : guar same_queue f -> keeps (rcall f).
Proof.
  intros Hf. apply hoare_call_withstands; [apply withstands_KInv|done|]. intros s a r2 w2 Hs Ef.
  specialize (Hf (redis s)). destruct (f (redis s)) as [a' r']. simplify_eq. simpl in Hf.
  assert (KInv (St_ r2 (env s) (log s ++ []))) by (by apply (KInv_moves s); [apply rtc_refl| |]). by destruct a.
Qed.
Lemma keeps_ecall {A} (f : W -> result string A * W) ev : (forall w, moves w (f w).2) -> keeps (ecall f ev).
Proof.
  intros Hf. apply hoare_call_withstands; [apply withstands_KInv|done|]. intros s a r2 w2 Hs Ef.
  specialize (Hf (env s)). destruct (f (env s)) as [a' w']. simplify_eq. simpl in Hf.
  assert (KInv (St_ (redis s) w2 (log s ++ ev a))) by (by apply (KInv_moves s)). by destruct a.
Qed.

Lemma keeps_ret {A} (a : A) : keeps (ret a).
Proof. by apply hoare_ret. Qed.
Lemma keeps_fail {A} e : keeps (fail (A := A) e).
Proof. by apply hoare_fail. Qed.
Lemma keeps_lift {A} (r : result string A) : keeps (lift r).
Proof. intros s Hs. unfold lift. by destruct r. Qed.
Lemma keeps_gets {A} (f : W -> A) : keeps (gets f).
Proof. by apply hoare_gets. Qed.
Lemma keeps_sleep d : keeps (modify (sleep_secs d)).
Proof. apply hoare_modify. intros s Hs. by apply (KInv_moves s); [apply su_sleep| |]. Qed.

Ltac queue_walk := store_walk; intros; first [ apply queue_set | apply queue_incrby | apply queue_expire ].

Ltac keeps_step :=
  first
    [ apply keeps_ret | apply keeps_fail | apply keeps_lift | apply keeps_gets | apply keeps_sleep | apply keeps_attempt
    | apply keeps_ecall; intros; first [apply su_rpc | apply su_is_processed | apply su_mark | apply su_read]
    | apply keeps_rcall; first [apply sl_ack_keeps | apply sl_claim_keeps | apply sl_read_keeps | queue_walk]
    | apply keeps_bind
    | match goal with
      | |- keeps (if ?b then _ else _) => destruct b
      | |- keeps (match ?x with _ => _ end) => destruct x
      | |- forall _, _ => intros ?
      end ].

Lemma keeps_wait_loop fuel txid deadline : keeps (wait_loop fuel txid deadline).
Proof. induction fuel as [|fuel IH]; simpl; unfold rpc; repeat first [apply IH | keeps_step]. Qed.

Lemma keeps_settle e v : keeps (settle_as e v).
Proof. unfold settle_as, hset_state, ack. repeat keeps_step. Qed.

Lemma keeps_mark_if_marker id t h : keeps (mark_if_marker cfg id t h).
Proof. unfold mark_if_marker, mark_processed. repeat keeps_step. Qed.

Lemma keeps_confirm e txid : keeps (confirm cfg e txid).
Proof.
  unfold confirm, wait_confirmed, oldest_unspent_height, mark_processed, rpc, ack.
  repeat first [apply keeps_wait_loop | keeps_step].
Qed.

Lemma keeps_send e p : keeps (send cfg e p).
Proof.
  unfold send, hset_state, ack, mark_redemption_sent.
  repeat first [apply keeps_confirm | apply keeps_mark_if_marker | keeps_step].
Qed.

Lemma keeps_price e : keeps (price cfg e).
Proof.
  unfold price, pay, hset_state, treasury_snapshot, pending_atomic.
  repeat first [apply keeps_send | apply keeps_settle | apply keeps_mark_if_marker | keeps_step].
Qed.

Lemma keeps_process_entry e : keeps (process_entry cfg e).
Proof.
  unfold process_entry, reconcile, claim_slot, find_paid_tx, wallet_height, rpc, ack,
    try_mark_redemption_in_flight, mark_redemption_sent, redemption_state.
  repeat first [apply keeps_price | apply keeps_settle | apply keeps_mark_if_marker | keeps_step].
Qed.

Lemma keeps_process_entries es n : keeps (process_entries cfg es n).
Proof. revert n. induction es as [|e es IH]; intros n; simpl; repeat first [apply IH | apply keeps_process_entry | keeps_step]. Qed.

Lemma keeps_drain_once : keeps (drain_once cfg).
Proof. unfold drain_once. repeat first [apply keeps_process_entries | keeps_step]. Qed.

(** ** A round *)

Definition JInv (es : list StreamId) s : Prop := LInv es s /\ KInv s.

Lemma withstands_JInv es : withstands (JInv es).
Proof.
  intros s r w evs f w' [HL HK] Hi Hf. split; [|by eapply withstands_KInv].
  destruct (su_interfere _ _ _ _ _ Hi) as (Hm & He & _). apply (lasting_LInv es s); [|done|done].
  apply moves_steady. unfold moves, progress. etrans; [exact Hm|by eapply su_fault].
Qed.

Lemma LInv_app es es' s :
  LInv es s -> Forall (entry_fine (Marker.token_of (env s))) es' -> LInv (es ++ es') s.
Proof. intros (Hc & Hl & Hf) Hf'. split_and!; [done|done|]. by apply Forall_app. Qed.

(** A command that delivers entries of the queue. *)
Lemma deliver_JInv {A} (f : St R A) (entries : A -> list StreamId) es :
  guar same_queue f ->
  (forall t r a r', queue_ok t r -> f r = (Ok a, r') -> Forall (entry_fine (T := T) t) (entries a)) ->
  hoare (JInv es) (rcall f) (fun a => JInv (es ++ entries a)) (JInv es).
Proof.
  intros Hg Hf. apply hoare_call_withstands; [apply withstands_JInv|done|]. intros s a r2 w2 [HL HK] Ef.
  specialize (Hg (redis s)). destruct (f (redis s)) as [a' r'] eqn:E. simplify_eq. simpl in Hg.
  assert (JInv es (St_ r2 (env s) (log s ++ []))) as HJ.
  { split; [by apply (lasting_LInv es s); [unfold steady| |]|by apply (KInv_moves s); [apply rtc_refl| |]]. }
  split; [done|]. destruct a as [a|]; [|done]. destruct HJ as [HL' HK']. split; [|done].
  apply LInv_app; [done|]. eapply Hf; [apply HK|exact E].
Qed.

Lemma drain_once_LInv : hoare (JInv []) (drain_once cfg) (fun _ => LInv []) (LInv []).
Proof.
  unfold drain_once. eapply hoare_bind.
  - refine (hoare_conseq _ (JInv []) _ _ (fun r => JInv (reclaimed_entries (unwrap_or VNil r))) _ (JInv [])
      _ (fun _ H => H) (fun _ _ H => H) (fun s H => proj1 H)).
    apply hoare_attempt; [|by intros]. apply (deliver_JInv xautoclaim reclaimed_entries []); [apply sl_claim_keeps|].
    intros. by eapply claimed_fine.
  - intros r. eapply hoare_bind.
    + refine (hoare_conseq _ (JInv (reclaimed_entries (unwrap_or VNil r))) _ _ _ _ (JInv (reclaimed_entries (unwrap_or VNil r)))
        _ (fun _ H => H) (fun _ _ H => H) (fun s H => LInv_nil _ s (proj1 H))).
      apply (deliver_JInv xreadgroup (fun resp => match resp with Some streams => concat streams | None => [] end));
        [apply sl_read_keeps|].
      intros t r0 [ss|] r' Hq Hr; [by eapply read_fine|constructor].
    + intros resp. eapply hoare_pre; [|apply process_entries_LInv]. by intros s [? _].
Qed.

Lemma drain_JInv s : JInv [] s -> JInv [] (drain_once cfg s).2.
Proof.
  intros [HL HK]. split.
  - by eapply hoare_inv; [apply drain_once_LInv| |].
  - by eapply hoare_inv; [apply keeps_drain_once| |].
Qed.

(** ** The poller puts into the queue what the contract says *)

Variable base : Watcher.ChainEnv W.
Variable wcfg : Watcher.Config.
#[local] Instance poller_env : Watcher.ChainEnv W := over_contract base.

(** A fact about the contract that its transactions do not undo. *)
Definition lasts (Q : Contract.Token T -> Prop) : Prop := forall t t', chain_ok t -> onward t t' -> Q t -> Q t'.
Definition Polled (Q : Contract.Token T -> Prop) s : Prop := JInv [] s /\ Q (Marker.token_of (env s)).

Lemma Polled_moves Q s r w :
  lasts Q -> moves (env s) w -> queue r = queue (redis s) -> Polled Q s -> Polled Q (St_ r w (log s ++ [])).
Proof.
  intros HQ Hm Hq [[HL HK] Hs]. split; [split|].
  - apply (lasting_LInv [] s); [by apply moves_steady|constructor|done].
  - by apply (KInv_moves s).
  - eapply HQ; [apply HK|by apply moves_steady|done].
Qed.

Lemma withstands_Polled Q : lasts Q -> withstands (Polled Q).
Proof.
  intros HQ s r w evs f w' [HJ Hs] Hi Hf. split; [by eapply withstands_JInv|]. simpl.
  destruct (su_interfere _ _ _ _ _ Hi) as (Hm & _). eapply HQ; [apply HJ| |exact Hs].
  apply moves_steady. unfold moves, progress. etrans; [exact Hm|by eapply su_fault].
Qed.

Lemma poll_rcall {A} (f : St R A) Q :
  lasts Q -> guar same_queue f -> hoare (Polled Q) (rcall f) (fun _ => Polled Q) (JInv []).
Proof.
  intros HQ Hf. apply hoare_call_withstands; [by apply withstands_Polled|by intros s [? _]|]. intros s a r2 w2 Hs Ef.
  specialize (Hf (redis s)). destruct (f (redis s)) as [a' r']. simplify_eq. simpl in Hf.
  assert (Polled Q (St_ r2 (env s) (log s ++ []))) by (by apply Polled_moves; [|apply rtc_refl| |]).
  split; [by eapply proj1|]. by destruct a.
Qed.

(** A value read from the contract is that of a state it has gone through. *)
Definition seen {A} (g : Contract.Token T -> A) (a : A) (Q : Contract.Token T -> Prop) (t : Contract.Token T) : Prop :=
  Q t /\ exists t0, chain_ok t0 /\ Q t0 /\ onward t0 t /\ a = g t0.

Lemma lasts_seen {A} (g : Contract.Token T -> A) a Q : lasts Q -> lasts (seen g a Q).
Proof.
  intros HQ t t' Ht Ho [Hs (t0 & H0' & HQ0 & Ho0 & E)]. split; [by apply (HQ t)|]. exists t0.
  split_and!; [done|done|by etrans|done].
Qed.

Lemma poll_read {A} (g : Contract.Token T -> A) Q :
  lasts Q -> hoare (Polled Q) (ecall (Marker.eth_call g) (fun _ => [])) (fun a => Polled (seen g a Q)) (JInv []).
Proof.
  intros HQ. apply hoare_call_withstands; [by apply withstands_Polled|by intros s [? _]|]. intros s a r2 w2 Hs Ef.
  unfold Marker.eth_call in Ef. pose proof (su_read (env s)) as Hm.
  destruct (Marker.eth_read (env s)) as [e w'] eqn:E. simpl in Ef, Hm. simplify_eq.
  assert (Polled Q (St_ (redis s) w2 (log s ++ []))) as Hp by (by apply Polled_moves).
  split; [by eapply proj1|]. destruct e as [e|]; [done|]. destruct Hp as [HJ Hq]. split; [done|]. split; [done|].
  exists (Marker.token_of w2). split_and!; [apply HJ|done|reflexivity|done].
Qed.

Lemma xadd_entry id from amt x Q :
  is_u64 id -> 0 <= amt <= i64_max -> lasts Q -> (forall t, Q t -> burned_for id amt x t) ->
  hoare (Polled Q) (rcall (XADD (redemption_entry id from amt x))) (fun _ => Polled Q) (JInv []).
Proof.
  intros Hid Ha HQ HQb. apply hoare_call_withstands; [by apply withstands_Polled|by intros s [? _]|].
  intros s a r2 w2 [[HL [Hc Hq]] Hb] Ef. unfold XADD in Ef.
  pose proof (queue_xadd (redemption_entry id from amt x) (redis s)) as Hx.
  destruct (xadd (redemption_entry id from amt x) (redis s)) as [i r'] eqn:E. simpl in Hx.
  cbn in Ef. injection Ef as _ <- <-.
  assert (Polled Q (St_ r' (env s) (log s ++ []))) as Hp.
  { split; [split|done]; [by apply (lasting_LInv [] s); [unfold steady| |]|]. split; [done|].
    unfold queue_ok. simpl. rewrite Hx. apply Forall_app. split; [done|]. constructor; [|done].
    exists id, from, amt, x. split_and!; [done|apply Hid..|lia|lia|by apply HQb]. }
  split; [by eapply proj1|]. by destruct a.
Qed.

Lemma enqueue_backed id from amt x Q :
  is_u64 id -> 0 <= amt <= i64_max -> lasts Q -> (forall t, Q t -> burned_for id amt x t) ->
  hoare (Polled Q) (enqueue_redemption id from amt x) (fun _ => Polled Q) (JInv []).
Proof.
  intros Hid Ha HQ HQb. unfold enqueue_redemption. eapply hoare_bind.
  - apply poll_rcall; [done|]. unfold enqueue_script. queue_walk.
  - intros ins. destruct (ins =? 0); [by apply hoare_ret|].
    eapply hoare_bind; [by apply xadd_entry|]. intros ?. by apply hoare_ret.
Qed.

(** The row of an id that the contract has issued. *)
Lemma row_seen id m row t :
  1 <= id <= m -> seen (redemption_row id) row (fun t => m <= Contract.nextRedemptionId t) t -> chain_ok t ->
  is_u256 (Watcher.row_amount row) /\ burned_for id (Watcher.row_amount row) (Watcher.row_xmr_address row) t.
Proof.
  intros Hid [_ (t0 & Hc0 & Hm & Ho & ->)] Hc. destruct Hc0 as [[b Hi] [Hn Hw]] eqn:Ec.
  destruct (proj2 (Contract.inv_ids _ _ Hi id)) as [sr Hs]; [lia|]. unfold redemption_row. rewrite Hs. simpl.
  split; [by eapply Hw|]. apply (burned_onward id _ _ t0 t); [done|done|]. by exists sr.
Qed.

Lemma u256_to_i64_spec v a : is_u256 v -> Watcher.u256_to_i64 v = Ok a -> a = v /\ 0 <= a <= i64_max.
Proof.
  intros Hv. unfold Watcher.u256_to_i64. destruct (_ || _) eqn:E; [done|]. apply orb_false_iff in E as [E1 E2].
  bools. rewrite !Z.lor_eq_0_iff in E1. assert (is_u64 v) as Hu by (apply limbs_u64; [done|tauto]).
  rewrite limb0_id in * by done. intros [= <-]. split; [done|]. width_lia.
Qed.

Lemma lasts_next m : lasts (fun t => m <= Contract.nextRedemptionId t).
Proof. intros t t' Ht Ho Hm. destruct (Ho Ht) as (_ & _ & Hn). lia. Qed.

Lemma lasts_and Q Q' : lasts Q -> lasts Q' -> lasts (fun t => Q t /\ Q' t).
Proof. intros HQ HQ' t t' Ht Ho [? ?]. split; [by eapply HQ|by eapply HQ']. Qed.

Lemma lasts_burned id amt x : lasts (burned_for id amt x).
Proof. intros t t' Ht Ho. by eapply burned_onward. Qed.

Lemma enqueue_range_JInv m n : m <= u64_max -> forall id enq, 1 <= id -> id + Z.of_nat n <= m + 1 ->
  hoare (Polled (fun t => m <= Contract.nextRedemptionId t)) (Watcher.enqueue_range n id enq) (fun _ => JInv []) (JInv []).
Proof.
  intros Hm. induction n as [|n IH]; intros id enq Hid Hn; cbn [Watcher.enqueue_range].
  { apply hoare_ret. by intros s [? _]. }
  eapply hoare_bind; [apply (poll_read (redemption_row id)), lasts_next|]. intros row.
  set (Q := fun t : Contract.Token T => m <= Contract.nextRedemptionId t /\
                    burned_for id (Watcher.row_amount row) (Watcher.row_xmr_address row) t).
  assert (HQ : lasts Q) by (apply lasts_and; [apply lasts_next|apply lasts_burned]).
  apply (hoare_pre _ (fun s => is_u256 (Watcher.row_amount row) /\ Polled Q s)).
  { intros s [HJ Hs]. destruct (row_seen id m row _ ltac:(lia) Hs) as [Hw Hb]; [apply HJ|].
    split; [done|]. split; [done|]. split; [apply Hs|done]. }
  apply hoare_pure. intros Hw. destruct (Watcher.u256_to_i64 (Watcher.row_amount row)) as [amt|e] eqn:Ei.
  - destruct (u256_to_i64_spec _ _ Hw Ei) as [-> Ha].
    apply (hoare_bind _ _ _ _ (fun a s => a = Watcher.row_amount row /\ Polled Q s)); [by intros s Hs|].
    intros a. apply hoare_pure. intros ->.
    eapply hoare_bind; [apply enqueue_backed; [width_lia|done|done|by intros t [_ ?]]|]. intros ins.
    eapply hoare_bind; [apply poll_rcall; [done|]; unfold set_cursor; queue_walk|]. intros ?.
    eapply hoare_pre; [|apply IH; lia]. intros s [? [? _]]. by split.
  - apply (hoare_bind _ _ _ _ (fun _ _ => False)); [by intros s [? _]|]. by intros a s [].
Qed.

Lemma cursor_JInv :
  hoare (JInv []) (rcall (get_cursor Watcher.CURSOR_NAME))
    (fun c s => (forall v, c = Some v -> 0 <= v) /\ Polled (fun _ => True) s) (JInv []).
Proof.
  apply hoare_call_withstands; [apply withstands_JInv|done|]. intros s a r2 w2 [HL HK] Ef.
  unfold get_cursor, mbind, St_bind, GET in Ef. cbn in Ef. injection Ef as <- <- <-.
  assert (JInv [] (St_ (redis s) (env s) (log s ++ []))) as HJ
    by (split; [by apply (lasting_LInv [] s); [unfold steady| |]|done]).
  split; [done|]. split; [|by split]. intros v Hv. apply bind_Some in Hv as (x & _ & Hv).
  apply Text.parse_uint_range in Hv. lia.
Qed.

Lemma next_JInv :
  hoare (Polled (fun _ => True)) Watcher.read_next_redemption_id
    (fun n s => n <= u64_max /\ Polled (fun t => n <= Contract.nextRedemptionId t) s) (JInv []).
Proof.
  unfold Watcher.read_next_redemption_id.
  eapply hoare_bind; [apply (poll_read Contract.nextRedemptionId); by intros t|]. intros v s [HJ [_ (t0 & Hc0 & _ & Ho & ->)]].
  pose proof (co_words _ Hc0) as [Hw _]. unfold lift. rewrite Watcher.u256_to_u64_spec by width_lia.
  case_bool_decide as Hle; simpl; [|done]. split; [done|]. split; [done|]. simpl. by apply Ho.
Qed.

Lemma tick_JInv : hoare (JInv []) (Watcher.tick wcfg) (fun _ => JInv []) (JInv []).
Proof.
  unfold Watcher.tick. eapply hoare_bind; [apply cursor_JInv|]. intros c. apply hoare_pure. intros Hc.
  set (cursor := opt_or _ c). assert (0 <= cursor) as H0'.
  { unfold cursor. destruct c as [v|]; simpl; [by apply Hc|]. unfold u64_saturating_sub. lia. }
  eapply hoare_bind; [apply next_JInv|]. intros next. apply hoare_pure. intros Hn.
  destruct (Z.leb_spec next cursor); [apply hoare_ret; by intros s [? _]|].
  rewrite (wrap_u64_id (cursor + 1)) by width_lia. apply (enqueue_range_JInv next); lia.
Qed.

(** ** The poller never reopens a redemption *)

Context `{!PayoutSafety.PayoutLaws R W}.
Definition once : st R W event -> Prop := PayoutSafety.PInv.

Lemma once_rely s r w : PayoutSafety.state_rely (redis s) r -> once s -> once (St_ r w (log s ++ [])).
Proof.
  intros Hr Hs id. destruct (Hs id) as [H1' H2']. simpl. rewrite app_nil_r. split; [done|].
  destruct (Hr id) as [->|[E _]]; [done|]. intros _. apply H2'. by left.
Qed.

Lemma once_rcall {A} (f : St R A) : guar PayoutSafety.state_rely f -> hoare once (rcall f) (fun _ => once) once.
Proof.
  intros Hf. apply hoare_call; [apply PayoutSafety.stable_PInv|done|]. intros s a r2 w2 Hs Ef.
  specialize (Hf (redis s)). destruct (f (redis s)) as [a' r']. simplify_eq. simpl.
  assert (once (St_ r2 (env s) (log s ++ []))) by (by apply once_rely). by destruct a.
Qed.

Lemma once_ecall {A} (f : W -> result string A * W) : hoare once (ecall f (fun _ => [])) (fun _ => once) once.
Proof.
  apply hoare_call; [apply PayoutSafety.stable_PInv|done|]. intros s a r2 w2 Hs Ef.
  destruct (f (env s)) as [a' w']. simplify_eq. simpl.
  assert (once (St_ (redis s) w2 (log s ++ []))) by (apply once_rely; [by left|done]). by destruct a.
Qed.

Lemma same_states_guar {A} (f : St R A) : guar PayoutSafety.same_states f -> guar PayoutSafety.state_rely f.
Proof. intros Hf r. apply PayoutSafety.same_states_rely, Hf. Qed.

Lemma enqueue_range_once n id enq : hoare once (Watcher.enqueue_range n id enq) (fun _ => once) once.
Proof.
  revert id enq. induction n as [|n IH]; intros id enq; [by apply hoare_ret|]. cbn [Watcher.enqueue_range].
  apply hoare_bind with (fun _ => once); [apply once_ecall|]. intros row.
  apply hoare_bind with (fun _ => once); [intros s Hs; unfold lift; by destruct (Watcher.u256_to_i64 _)|]. intros amt.
  apply hoare_bind with (fun _ => once).
  { unfold enqueue_redemption. apply hoare_bind with (fun _ => once); [apply once_rcall, PayoutSafety.enqueue_script_rely|].
    intros ins. destruct (ins =? 0); [by apply hoare_ret|].
    apply hoare_bind with (fun _ => once); [|intros ?; by apply hoare_ret].
    apply once_rcall, same_states_guar. guar_walk. intros i. apply get_xadd. }
  intros ins. apply hoare_bind with (fun _ => once); [|intros ?; apply IH].
  apply once_rcall, same_states_guar. unfold set_cursor. guar_walk. intros r0 i. by apply get_set_ne.
Qed.

Lemma tick_once : hoare once (Watcher.tick wcfg) (fun _ => once) once.
Proof.
  unfold Watcher.tick, Watcher.read_next_redemption_id. apply hoare_bind with (fun _ => once).
  { apply once_rcall, same_states_guar. unfold get_cursor. guar_walk. }
  intros c. apply hoare_bind with (fun _ => once).
  { apply hoare_bind with (fun _ => once); [apply once_ecall|]. intros v s Hs. unfold lift. by destruct (Watcher.u256_to_u64 v). }
  intros next. destruct (_ <=? _); [by apply hoare_ret|apply enqueue_range_once].
Qed.

(** ** What is paid in total *)

(** The transfers the wallet did not refuse, by redemption. *)
Definition accepted_of (e : event) : option (Z * Z) :=
  match e with
  | Transferred id a _ reply => if PayoutSafety.accepted reply then Some (id, a) else None
  | MarkedProcessed _ _ _ => None
  end.
Definition total (l : list (Z * Z)) : Z := foldr (fun x acc => x.2 + acc) 0 l.
Definition paid_total (l : list event) : Z := total (omap accepted_of l).

Lemma payouts_omap id l : PayoutSafety.payouts id l = length (List.filter (fun x : Z * Z => id =? x.1) (omap accepted_of l)).
Proof.
  unfold PayoutSafety.payouts. induction l as [|[i a x reply|] l IH]; [done| |done]. cbn.
  destruct (PayoutSafety.accepted reply); rewrite ?andb_true_r, ?andb_false_r; cbn; [|done]. by destruct (id =? i); cbn; rewrite IH.
Qed.

(** Payments of distinct redemptions, each within a bound on its amount, add up to that
    bound on the sum. *)
Lemma total_bound (m : gmap Z Contract.StoredRedemption) (k : Z) (l : list (Z * Z)) :
  0 <= k -> (forall id sr, m !! id = Some sr -> 0 <= Contract.amount sr) ->
  NoDup l.*1 -> Forall (fun x => exists sr, m !! x.1 = Some sr /\ x.2 * 10000 <= Contract.amount sr * k) l ->
  total l * 10000 <= map_fold (fun _ sr acc => Contract.amount sr + acc) 0 m * k.
Proof.
  intros Hk Hm Hnd Hl. revert m Hm Hl. induction l as [|[id a] l IH]; intros m Hm Hl; simpl.
  - pose proof (Contract.fold_nonneg Contract.amount m Hm). nia.
  - apply Forall_cons in Hl as [(sr & Hs & Ha) Hl]. apply NoDup_cons in Hnd as [Hni Hnd]. simpl in Hs, Ha.
    rewrite <- (insert_delete_id m id sr Hs), (Contract.fold_insert_new Contract.amount) by apply lookup_delete_eq.
    assert (total l * 10000 <= map_fold (fun _ sr acc => Contract.amount sr + acc) 0 (delete id m) * k); [|nia].
    apply IH; [done|by intros i x [_ Hx]%lookup_delete_Some; eapply Hm|].
    apply Forall_forall. intros x Hx. rewrite Forall_forall in Hl. destruct (Hl x Hx) as (sr' & Hs' & Ha').
    exists sr'. split; [|done]. rewrite lookup_delete_ne; [done|]. intros ->. apply Hni, list_elem_of_fmap. by exists x.
Qed.

Lemma at_most_one (l : list (Z * Z)) :
  (forall id : Z, (length (List.filter (fun x : Z * Z => (id =? x.1)%Z) l) <= 1)%nat) -> NoDup l.*1.
Proof.
  induction l as [|[i a] l IH]; intros Hl; [constructor|]. simpl. apply NoDup_cons. split.
  - intros (x & -> & Hx)%list_elem_of_fmap. specialize (Hl x.1). cbn in Hl. rewrite Z.eqb_refl in Hl. cbn in Hl.
    assert (x ∈ List.filter (fun y => x.1 =? y.1) l) as Hin
      by (apply list_elem_of_In, List.filter_In; split; [by apply list_elem_of_In|apply Z.eqb_refl]).
    destruct (List.filter _ l); [by apply elem_of_nil in Hin|]. cbn in Hl. lia.
  - apply IH. intros id. specialize (Hl id). cbn in Hl. destruct (id =? i); cbn in Hl; lia.
Qed.

(** ** The system *)

(** A round of the poller, a round of the payout loop, what other tasks do to the rest of
    the database, and what happens on the chain and around. *)
Inductive bstep (s : st R W event) : st R W event -> Prop :=
| b_poll : bstep s (Watcher.tick wcfg s).2
| b_drain : bstep s (drain_once cfg s).2
| b_other r' : PayoutSafety.state_rely (redis s) r' -> same_queue (redis s) r' -> bstep s (St_ r' (env s) (log s ++ []))
| b_env w' : moves (env s) w' -> bstep s (St_ (redis s) w' (log s ++ [])).

Lemma bstep_inv s s' : bstep s s' -> JInv [] s /\ once s -> JInv [] s' /\ once s'.
Proof.
  intros [| |r' Hr Hq|w' Hw] [HJ Ho].
  - split; [by eapply hoare_inv; [apply tick_JInv| |]|by eapply hoare_inv; [apply tick_once| |]].
  - split; [by apply drain_JInv|by eapply hoare_inv; [apply PayoutSafety.drain_once_PInv| |]].
  - destruct HJ as [HL HK]. split; [split|by apply once_rely].
    + by apply (lasting_LInv [] s); [unfold steady| |].
    + by apply (KInv_moves s); [apply rtc_refl| |].
  - destruct HJ as [HL HK]. split; [split|apply once_rely; [by left|done]].
    + apply (lasting_LInv [] s); [by apply moves_steady|constructor|done].
    + by apply (KInv_moves s).
Qed.

(** C4: payouts are covered by burned tokens.  Over every run of the poller and the
    payout loop, with any failure, crash, redelivery and interleaving, every transfer
    the wallet is asked for names a redemption made on the contract, goes to the Monero
    address that redemption gave, and is at most its amount plus the premium; no
    redemption is paid twice; and all that was paid is at most what was burned plus the
    premium. *)
Theorem payouts_covered s s' :
  chain_ok (Marker.token_of (env s)) -> queue (redis s) = [] -> log s = [] -> rtc bstep s s' ->
  let t := Marker.token_of (env s') in
  (forall id a addr reply, Transferred id a addr reply ∈ log s' ->
     exists amt, burned_for id amt addr t /\ 0 < a /\ a * 10000 <= amt * (10000 + max_payout_premium_bp cfg)) /\
  (forall id, (PayoutSafety.payouts id (log s') <= 1)%nat) /\
  paid_total (log s') * 10000 <= Contract.total_redeemed t * (10000 + max_payout_premium_bp cfg).
Proof.
  intros Hc Hq Hl Hr t. assert (JInv [] s' /\ once s') as [[(Hc' & Hp & _) _] Ho].
  { eapply (rtc_invariant bstep (fun s => JInv [] s /\ once s)); [intros x y Hx Hxy; by eapply bstep_inv|exact Hr|].
    split; [split|].
    - split_and!; [done|rewrite Hl; constructor|constructor].
    - split; [done|]. unfold queue_ok. rewrite Hq. constructor.
    - intros id. rewrite Hl. split; [unfold PayoutSafety.payouts; simpl; lia|done]. }
  rewrite Forall_forall in Hp. split_and!.
  - intros id a addr reply Hin. apply (Hp _ Hin).
  - intros id. apply Ho.
  - apply total_bound; [lia|intros id sr Hs; by apply (co_words _ Hc') in Hs; destruct Hs|..].
    + apply at_most_one. intros id. rewrite <- payouts_omap. apply Ho.
    + apply Forall_forall. intros [id a] (e & He & Ha)%list_elem_of_omap. destruct e as [i b addr reply|]; [|done].
      simpl in Ha. destruct (PayoutSafety.accepted reply); [|done]. simplify_eq.
      destruct (Hp _ He) as (amt & (sr & Hs & <- & _) & _ & Hle). by exists sr.
Qed.

End Payouts.

(** ** A run: tokens burned, read by the poller, paid *)

Module Demo.
Import PayoutDemo.

(** The encoding of [Store], with the widths of the numbers checked. *)
#[export] Instance snap_checked : SnapshotJson := {
  snap_to_string := @snap_to_string snap_text;
  snap_of_string x :=
    match @snap_of_string snap_text x with
    | Some snap => if decide (is_u128 (monero_balance_atomic snap) /\ is_u128 (mining_pool_token_total_supply snap))
                   then Some snap else None
    | None => None
    end;
}.

#[export] Instance env : PayoutEnv world :=
  Marker.with_marker (fun _ => true) {| Marker.signer := 9; Marker.rpc_url := "http://l2" |} wallet_env.

Definition chain_base : Watcher.ChainEnv world := {|
  Watcher.nextRedemptionId w := (Ok 0, w);
  Watcher.redemptions _ w := (Err "none", w);
  Watcher.display_address := Text.show;
  Watcher.wallet_refresh w := (Ok tt, w);
  Watcher.wallet_get_balance w := (Ok (0, 0), w);
  Watcher.totalSupply w := (Ok 0, w);
  Watcher.utc_timestamp _ := 0;
|}.

#[export] Instance stream_laws : StreamLaws Db.t.
Proof.
  split; simpl; try done.
  - intros r v r' [= <- _]. by left.
  - intros r ss r' [= <- _] e He. simpl in He. rewrite app_nil_r in He.
    apply list_elem_of_In, in_map_iff in He as (f & <- & Hf%list_elem_of_In). exists f. split; [done|]. simpl.
    f_equal. apply map_ext. by intros [k v].
Qed.

#[export] Instance payout_laws : PayoutSafety.PayoutLaws Db.t world.
Proof. split; simpl; [|done..]. intros r w r' w' evs [= <- _ <-]. split; [by left|done]. Qed.

Lemma mark_moves id t h w : moves Contract.trust w (marker_mark_processed id t h w).2.
Proof.
  unfold moves. simpl. unfold Marker.mark_processed. simpl.
  destruct (Contract.markProcessed 9 id t h (w_token w)) as [x|] eqn:E; simpl; [|apply rtc_refl].
  apply rtc_once. exists 0. split; [by apply Contract.tx_public, (Contract.tx_mark _ _ 9 id t h)|].
  unfold Contract.markProcessed in E. case_ifs_in E; try done; by simplify_eq.
Qed.

#[export] Instance surroundings : Surroundings (R := Db.t) (T := Contract.Ledger20) Contract.trust.
Proof.
  assert (Hrefl : forall w x, moves Contract.trust w (with_wallet x w)) by (intros; apply rtc_refl).
  split.
  - intros r w r' w' evs [= <- <- <-]. split_and!; [apply rtc_refl|constructor|done].
  - intros w f w' [= _ <-]. apply rtc_refl.
  - intros d w. apply Hrefl.
  - intros q w. destruct q; simpl; try apply rtc_refl; destruct (w_blind _); apply rtc_refl.
  - intros id w. apply rtc_refl.
  - apply mark_moves.
  - intros w. apply rtc_refl.
  - intros x snap E. cbn [snap_of_string snap_checked] in E. destruct (@snap_of_string snap_text x) as [s0|]; [|discriminate].
    destruct (decide _) as [Hd|]; [|discriminate]. injection E as <-. exact Hd.
Qed.

Definition claimed_token : Contract.Token Contract.Ledger20 :=
  match Contract.claim Contract.trust 5 2000000 0 tt (Contract.genesis 3 9 0) with
  | Some (_, t) => t | None => Contract.genesis 3 9 0 end.
Definition burned_token : Contract.Token Contract.Ledger20 :=
  match Contract.redeem 5 0 1000000 "4A" true claimed_token with Some (_, t) => t | None => claimed_token end.

Definition start : st Db.t world event :=
  St_ (set KEY_TREASURY_SNAPSHOT (RStr (snap_to_string snapshot)) Db.empty)
    {| w_token := Contract.genesis 3 9 0; w_wallet := empty_wallet |} [].
Definition burned : st Db.t world event :=
  St_ (redis start) {| w_token := burned_token; w_wallet := empty_wallet |} (log start ++ []).
Abbreviation poll := (Watcher.tick (H3 := poller_env chain_base) Watcher.Demo.demo_cfg).
Definition polled : st Db.t world event := (poll burned).2.
Definition finish : st Db.t world event := (drain_once marker_cfg polled).2.

Lemma start_ok : chain_ok (Marker.token_of (Effects.env start)).
Proof. split; [exists 0; apply Contract.genesis_Inv|]. split; [by split|]. by intros id s Hs. Qed.

Lemma claimed_rows : Contract.redemptions claimed_token = ∅ /\ Contract.nextRedemptionId claimed_token = 0.
Proof. split; vm_compute; reflexivity. Qed.
Lemma burned_rows : Contract.redemptions burned_token = {[1 := Contract.Build_StoredRedemption 5 1000000 "4A"]}
  /\ Contract.nextRedemptionId burned_token = 1.
Proof. split; vm_compute; reflexivity. Qed.

Lemma burned_moves : moves Contract.trust (Effects.env start) (Effects.env burned).
Proof.
  unfold moves, progress. cbn [Effects.env start burned Marker.token_of demo_l2 w_token].
  transitivity claimed_token; apply rtc_once; exists 0.
  - split; [apply Contract.tx_public, (Contract.tx_claim Contract.trust _ 5 2000000 0 tt 2000000); vm_compute; reflexivity|].
    intros _. destruct claimed_rows as [Er En]. unfold words. rewrite Er, En. split; [unfold u256_max; lia|].
    intros id s. by rewrite lookup_empty.
  - split; [apply Contract.tx_public, (Contract.tx_redeem Contract.trust _ 5 0 1000000 "4A" true 1); [lia|vm_compute; reflexivity]|].
    intros _. destruct burned_rows as [Er En]. unfold words. rewrite Er, En. split; [unfold u256_max; lia|].
    intros id s [_ <-]%lookup_singleton_Some. simpl. width_lia.
Qed.

Lemma finish_paid : length (Db.stream (redis polled)) = 1%nat /\ paid_total (log finish) = 983041.
Proof. split; vm_compute; reflexivity. Qed.

Lemma finish_run : rtc (bstep (T := Contract.Ledger20) Contract.trust marker_cfg chain_base Watcher.Demo.demo_cfg) start finish.
Proof.
  apply rtc_l with burned; [apply b_env, burned_moves|].
  apply rtc_l with polled; [apply b_poll|]. apply rtc_once, b_drain.
Qed.

End Demo.

Import Demo PayoutDemo.

Lemma payouts_covered_witness :
  paid_total (log Demo.finish) = 983041 /\
  let t := Marker.token_of (Effects.env Demo.finish) in
  (forall id a addr reply, Transferred id a addr reply ∈ log Demo.finish ->
     exists amt, burned_for id amt addr t /\ 0 < a /\ a * 10000 <= amt * (10000 + 0)) /\
  (forall id, (PayoutSafety.payouts id (log Demo.finish) <= 1)%nat) /\
  paid_total (log Demo.finish) * 10000 <= Contract.total_redeemed t * (10000 + 0).
Proof.
  split; [exact (proj2 Demo.finish_paid)|].
  apply (payouts_covered (T := Contract.Ledger20) Contract.trust marker_cfg ltac:(simpl; lia) Demo.chain_base
    Watcher.Demo.demo_cfg Demo.start Demo.finish Demo.start_ok); [vm_compute; reflexivity|reflexivity|exact Demo.finish_run].
Defined.

End Burned.
