(* ===== verification/Start.v ===== *)
(** How the pool is put together: [main] of mining-pool/src/main.rs.

    [main] is translated step by step over the host: the files, the environment, the
    enclave's daemon, the wallet process, the chain and the servers.  What it does is a
    list of acts: passing the guard, connecting, deriving keys, starting tasks with their
    parameters, and serving.  The tasks themselves are the subject of the other files. *)
From Stdlib Require Import Ascii.
From S2P Require Import Prelude Text Floats Hex Json Rofl Wallet Operator PoolConfig Appd Agent TorHs Boot.
From S2P Require Import Watcher FeeSwap Contract Payouts Marker OracleServer.
Import Wallet Operator PoolConfig.

Module Start.

(** ** The host *)

(** The file system and the daemon's socket are those of [TorHs] and [Appd]. *)
Class HostEnv (W : Type) := {
  env_var : string -> option string;
  redis_connect : string -> W -> anyhow unit * W;
  (** the HTTP listener; the server until it ends; whether it was told to; and the wait for
      the payouts task, if it ended in time *)
  http_bind : string -> W -> anyhow unit * W;
  http_serve : W -> anyhow unit * W;
  cancelled : W -> bool;
  join_payouts : W -> option (anyhow unit) * W;
}.

Record VoucherService : Type := { vs_signer : Address; vs_chain_id : Z; vs_token : Address; vs_ttl_secs : Z }.

Inductive subsystem : Type :=
| PpsLoop (c : Config)
| RentAgent (c : SelfFundConfig)
| UpstreamClient (c : UpstreamConfig)
| StratumListener (c : StratumConfig) (tls_fingerprint : option string)
| RedemptionPoller (token : Address) (c : Watcher.Config) (poll_secs : Z)
| SignalListener
| PayoutsConsumer (c : Payouts.Config) (token : Address) (marker : option Marker.AlloyMarker)
| TreasuryRefresher (token : Address) (interval_secs : Z)
| FeeSwapTask (c : FeeSwap.Config) (signer : Address) (chain_id check_secs jitter_secs : Z)
| FeeController (fee_swapper : Address) (critical_wei healthy_wei : Z) (fee_min fee_max : F.f64) (interval_secs : Z)
| WalletTask (seed : list Z) (onchain_restore_height : Z) (monerod_url : string)
| HashvaultPoller (addr : string) (proxy : option string)
| EndpointWriter (http address onion fingerprint : string)
| OracleTask (c : OracleConfig) (l2_http : string) (chain_id : Z).

Inductive act : Type :=
| GuardPassed (checks : list (anyhow (list Rofl.Value)))
| Connected (redis_url : string)
| KeyDerived (label : string) (kind : Appd.KeyKind)
| KeyFileRead (path : string)
| Spawned (s : subsystem)
| Serving (bind : string) (v : VoucherService) (onion : option string)
| Drained (ok : bool).

(** A run ends well, with an error, or is still waiting for the guard or the wallet. *)
Inductive flow (A : Type) : Type := Got (a : A) | Failed (e : string) | Waiting.
Arguments Got {A} a.
Arguments Failed {A} e.
Arguments Waiting {A}.

Section Monad.
Context {W : Type}.

Definition B (A : Type) : Type := W -> list act -> flow A * W * list act.

Definition ret {A} (a : A) : B A := fun w l => (Got a, w, l).
Definition bail {A} (e : string) : B A := fun w l => (Failed e, w, l).
Definition wait {A} : B A := fun w l => (Waiting, w, l).
Definition emit (a : act) : B unit := fun w l => (Got tt, w, l ++ [a]).
Definition bindB {A C} (m : B A) (f : A -> B C) : B C := fun w l =>
  match m w l with
  | (Got a, w, l) => f a w l
  | (Failed e, w, l) => (Failed e, w, l)
  | (Waiting, w, l) => (Waiting, w, l)
  end.
(** A step on the host that cannot fail, and one that can ([?]). *)
Definition look {A} (f : W -> A * W) : B A := fun w l => let '(a, w) := f w in (Got a, w, l).
Definition tryB {A} (f : W -> anyhow A * W) : B A := fun w l =>
  let '(r, w) := f w in (match r with Ok a => Got a | Err e => Failed e end, w, l).
Definition lift {A} (r : anyhow A) : B A := match r with Ok a => ret a | Err e => bail e end.
Definition some {A} (e : string) (o : option A) : B A := match o with Some a => ret a | None => bail e end.
Definition gets {A} (f : W -> A) : B A := fun w l => (Got (f w), w, l).

End Monad.
Arguments B : clear implicits.

#[local] Notation "x <-- m ;; k" := (bindB m (fun x => k)) (at level 80, m at next level, right associativity).

(** [cfg.upstream.user = ..] and [cfg.upstream.socks5h_proxy = ..]. *)
Definition with_upstream (u : UpstreamConfig) (c : Config) : Config := {|
  stratum := stratum c; upstream := u; pps := pps c; redis := redis c; l2 := l2 c; monero := monero c; operator_api := operator_api c;
  randomx := randomx c; tor := tor c; hashvault := hashvault c; single_active := single_active c; fee_swap := fee_swap c;
  reveal_wallet_address_once := reveal_wallet_address_once c; reveal_wallet_pubkey := reveal_wallet_pubkey c;
  self_fund := self_fund c; endpoint_registry := endpoint_registry c; oracle := oracle c |}.
Definition with_user (user : string) (c : Config) : Config :=
  let u := upstream c in
  with_upstream {| up_url := up_url u; up_user := user; up_password := up_password u; up_keepalive_secs := up_keepalive_secs u;
    up_socks5h_proxy := up_socks5h_proxy u; up_tls_pin_sha256 := up_tls_pin_sha256 u;
    up_login_address_network := up_login_address_network u; up_direct := up_direct u |} c.
Definition with_proxy (proxy : option string) (c : Config) : Config :=
  let u := upstream c in
  with_upstream {| up_url := up_url u; up_user := up_user u; up_password := up_password u; up_keepalive_secs := up_keepalive_secs u;
    up_socks5h_proxy := proxy; up_tls_pin_sha256 := up_tls_pin_sha256 u;
    up_login_address_network := up_login_address_network u; up_direct := up_direct u |} c.

Section Main.
Context {T W : Type} `{Toml T} `{Appd.Socket W} `{Appd.JsonText} `{Appd.Cbor} `{Hex} `{Agent.EnclaveEnv W} `{HostEnv W}
  `{TorHs.Ed25519} `{TorHs.Base32} `{TorHs.FsEnv W} `{Curve} `{WalletEnv W} `{HashvaultEnv W} {TT : Type} `{Marker.L2 TT W}.

(** Addresses and URLs; a signer from its key, as bytes and as text; the certificate of
    the listener; whether the HTTP library takes a proxy. *)
Variable parse_address : string -> option Address.
Variable parse_url : string -> bool.
Variable signer_from_slice : list Z -> option Address.
Variable signer_from_str : string -> option Address.
Variable build_tls : list Z -> anyhow string.
Variable socks_ok : string -> string -> bool.

Definition appd_available : B W bool := gets Agent.socket_exists.

(** [std::fs::read_to_string]. *)
Definition read_to_string (path : string) : B W (option string) :=
  b <-- look (TorHs.fs_read path) ;;
  ret (match b with
       | Some b => if Text.utf8_valid (TorHs.string_of b) then Some (TorHs.string_of b) else None
       | None => None
       end).

Definition derive_key (label : string) (kind : Appd.KeyKind) : B W (list Z) :=
  b <-- tryB (Appd.derive_key label kind) ;; _ <-- emit (KeyDerived label kind) ;; ret b.

(** A key of 32 bytes. *)
Definition derive_seed (label : string) (kind : Appd.KeyKind) : B W (list Z) :=
  b <-- derive_key label kind ;; if (length b =? 32)%nat then ret b else bail "KMS seed was not of 32 bytes".

Definition wait_wallet (turns : nat) : B W unit := fun w l =>
  match wait_for_wallet_rpc turns w with
  | Some (Ok _, w) => (Got tt, w, l)
  | Some (Err e, w) => (Failed e, w, l)
  | None => (Waiting, w, l)
  end.

(** ** The subcommand that prepares the hidden service *)

Definition tor_hs_init (args : list string) : B W unit :=
  dir <-- some "usage: mining-pool tor-hs-init <hidden-service-dir> [kms-seed-label]" (args !! 2%nat) ;;
  let label := opt_or "tor-hidden-service-v1"%string (args !! 3%nat) in
  seed <-- derive_seed label Appd.Ed25519 ;;
  _ <-- tryB (TorHs.write_from_seed seed dir) ;;
  ret tt.

(** ** The steps of the start *)

(** The seed of the wallet and the login derived from it, which replaces the configured
    user; [None] outside the enclave. *)
Definition identity_step (cfg : Config) : B W (option (list Z) * Config) :=
  inside <-- appd_available ;;
  if inside then
    seed <-- derive_seed "monero-wallet-seed-v1" Appd.Raw256 ;;
    login <-- lift (Boot.derive_identity cfg (bool_decide (env_var "REVEAL_LOGIN_ADDRESS" = Some "true"%string)) seed).1 ;;
    ret (Some seed, with_user login cfg)
  else ret (None, cfg).

Definition rent_step (cfg : Config) : B W unit :=
  if sf_enabled (self_fund cfg) then
    inside <-- appd_available ;;
    if inside then emit (Spawned (RentAgent (self_fund cfg))) else ret tt
  else ret tt.

(** The proxy of the upstream connection. *)
Definition egress (cfg : Config) : Config :=
  if up_direct (upstream cfg) then cfg
  else if tor_enabled (tor cfg) && bool_decide (up_socks5h_proxy (upstream cfg) = None)
       then with_proxy (Some (tor_socks5h (tor cfg))) cfg else cfg.

Definition stratum_step (cfg : Config) : B W (option string) :=
  _ <-- emit (Spawned (UpstreamClient (upstream cfg))) ;;
  inside <-- appd_available ;;
  fp <-- (if inside then
            seed <-- derive_seed "stratum-tls-v1" Appd.Ed25519 ;;
            fp <-- lift (build_tls seed) ;;
            ret (Some fp)
          else ret None) ;;
  _ <-- emit (Spawned (StratumListener (stratum cfg) fp)) ;;
  ret fp.

Definition poller_step (cfg : Config) (token : Address) : B W unit :=
  emit (Spawned (RedemptionPoller token
    {| Watcher.start_block := l2_events_from_block (l2 cfg); Watcher.chunk_size := l2_events_chunk_size (l2 cfg) |}
    (l2_events_poll_secs (l2 cfg)))).

(** The signer of vouchers and markers. *)
Definition signer_step (cfg : Config) : B W Address :=
  inside <-- appd_available ;;
  if inside then
    b <-- derive_key "sapphire-mining-pool-token-signer-v1" Appd.Secp256k1 ;;
    some "KMS key is not a valid secp256k1 scalar" (signer_from_slice b)
  else
    key <-- read_to_string (l2_signer_key_path (l2 cfg)) ;;
    key <-- some "ROFL appd socket absent and signer_key_path unreadable" key ;;
    _ <-- emit (KeyFileRead (l2_signer_key_path (l2 cfg))) ;;
    some "invalid signer key" (signer_from_str (Text.trim key)).

Definition marker_of (cfg : Config) (signer : Address) : option Marker.AlloyMarker :=
  match Marker.marker_new parse_url (http_url (l2 cfg)) signer with Ok m => Some m | Err _ => None end.

Definition payouts_step (cfg : Config) (token signer : Address) : B W unit :=
  let marker := marker_of cfg signer in
  emit (Spawned (PayoutsConsumer
    {| Payouts.has_marker := bool_decide (is_Some marker);
       Payouts.per_tx_cap_atomic := xmr_per_tx_cap_atomic (monero cfg);
       Payouts.max_payout_premium_bp := xmr_max_payout_premium_bp (monero cfg);
       Payouts.confirm_wait_secs := xmr_confirm_wait_secs (monero cfg) |} token marker)).

Definition fee_swap_step (cfg : Config) (token signer : Address) : B W unit :=
  let f := fee_swap cfg in
  if fs_enabled f then
    match parse_address (Text.trim (fs_fee_swapper_address f)) with
    | None => ret tt
    | Some fee_swapper =>
        if negb (parse_url (http_url (l2 cfg))) then bail "relative URL without a base"
        else emit (Spawned (FeeSwapTask
          {| FeeSwap.rent_floor_wei := fs_rent_floor_wei f; FeeSwap.min_swap_atomic := fs_min_swap_atomic f;
             FeeSwap.max_swap_atomic := fs_max_swap_atomic f; FeeSwap.slippage_bps := fs_slippage_bps f;
             FeeSwap.min_swap_gas_multiple := fs_min_swap_gas_multiple f; FeeSwap.reserve_ratio := xmr_min_reserve_ratio (monero cfg);
             FeeSwap.token := token; FeeSwap.fee_swapper := fee_swapper |}
          signer (l2_chain_id (l2 cfg)) (fs_check_interval_secs f) (fs_jitter_secs f)))
    end
  else ret tt.

Definition wei_or_max (s : string) : Z := opt_or u128_max (Text.parse_u128 (Text.trim s)).

Definition fee_controller_step (cfg : Config) : B W unit :=
  match pps_fee_mode (pps cfg) with
  | Fixed => ret tt
  | Adaptive =>
      match parse_address (Text.trim (fs_fee_swapper_address (fee_swap cfg))) with
      | None => ret tt
      | Some fee_swapper =>
          if negb (parse_url (http_url (l2 cfg))) then bail "relative URL without a base"
          else emit (Spawned (FeeController fee_swapper (wei_or_max (fs_rent_floor_wei (fee_swap cfg)))
            (wei_or_max (fs_rent_target_wei (fee_swap cfg))) (opt_or (pps_pool_fee (pps cfg)) (pps_fee_min (pps cfg)))
            (opt_or (pps_pool_fee (pps cfg)) (pps_fee_max (pps cfg))) (fs_check_interval_secs (fee_swap cfg))))
      end
  end.

(** The wait for the wallet process, and the task that opens the wallet. *)
Definition wallet_step (turns : nat) (cfg : Config) (signer : Address) (seed : option (list Z)) : B W unit :=
  match seed with
  | None => ret tt
  | Some seed =>
      _ <-- wait_wallet turns ;;
      url <-- some "no monerod RPC configured for wallet bootstrap"
        (Boot.first_reachable (pps_monerod_rpc_pool (pps cfg)) (pps_monerod_rpc (pps cfg))) ;;
      height <-- match marker_of cfg signer with
                 | Some _ => r <-- look Marker.restore_height ;; ret (match r with Ok h => h | Err _ => 0 end)
                 | None => ret 0
                 end ;;
      emit (Spawned (WalletTask seed height url))
  end.

Definition hashvault_step (cfg : Config) : B W unit :=
  if hv_enabled (hashvault cfg) then
    let proxy := if tor_enabled (tor cfg) && negb (up_direct (upstream cfg)) then Some (tor_socks5h (tor cfg)) else None in
    if match proxy with Some s => negb (socks_ok (hv_base_url (hashvault cfg)) s) | None => false end
    then bail "building HashVault SOCKS5h client"
    else
      _ <-- look (fun w => let '(w, lines) := Boot.pin_threshold cfg (up_user (upstream cfg)) w in (lines, w)) ;;
      emit (Spawned (HashvaultPoller (up_user (upstream cfg)) proxy))
  else ret tt.

Definition advertise_step (cfg : Config) (onion fp : option string) : B W unit :=
  inside <-- appd_available ;;
  if er_enabled (endpoint_registry cfg) && inside && negb (String.eqb (er_address (endpoint_registry cfg)) "") then
    match onion, fp with
    | Some o, Some fp => emit (Spawned (EndpointWriter (http_url (l2 cfg)) (er_address (endpoint_registry cfg)) o fp))
    | _, _ => ret tt
    end
  else ret tt.

Definition oracle_step (cfg : Config) : B W unit :=
  if or_enabled (oracle cfg) then
    inside <-- appd_available ;;
    if inside then emit (Spawned (OracleTask (oracle cfg) (http_url (l2 cfg)) (l2_chain_id (l2 cfg)))) else ret tt
  else ret tt.

(** What the oracle's task prepares: its settings, its signer and its address. *)
Definition oracle_setup (oc : OracleConfig) (chain_id : Z) : B W (OracleServer.Server.Settings * Address * option string) :=
  registry <-- some "[oracle].registry_address invalid" (parse_address (or_registry_address oc)) ;;
  b <-- derive_key (or_signer_kms_label oc) Appd.Secp256k1 ;;
  signer <-- some "oracle KMS key is not a valid secp256k1 scalar" (signer_from_slice b) ;;
  onion <-- look (TorHs.read_onion (or_hidden_service_dir oc)) ;;
  ret ({| OracleServer.Server.sapphire_chain_id := chain_id; OracleServer.Server.registry := registry;
          OracleServer.Server.max_source_rpcs := or_max_source_rpcs oc;
          OracleServer.Server.rate_limit_per_sec := or_rate_limit_per_sec oc;
          OracleServer.Server.global_rate_limit_per_sec := or_global_rate_limit_per_sec oc;
          OracleServer.Server.report_ttl_secs := or_report_ttl_secs oc;
          OracleServer.Server.allow_signer_rotation := or_allow_signer_rotation oc |},
       signer, (fun h => "http://" +:+ h) <$> onion).

(** The HTTP server, and the end: the payouts task is waited for when the server was told
    to stop. *)
Definition serve_step (cfg : Config) (v : VoucherService) (onion : option string) : B W unit :=
  _ <-- tryB (http_bind (api_bind (operator_api cfg))) ;;
  _ <-- emit (Serving (api_bind (operator_api cfg)) v onion) ;;
  _ <-- look http_serve ;;
  told <-- gets cancelled ;;
  if told then
    r <-- look join_payouts ;;
    emit (Drained (match r with Some (Ok _) => true | _ => false end))
  else ret tt.

Definition guard_step (turns : nat) (cfg : Config) : B W unit := fun w l =>
  match Agent.guard turns (single_active cfg) w with
  | (checks, Some w) => (Got tt, w, l ++ [GuardPassed checks])
  | (_, None) => (Waiting, w, l)
  end.

Definition load_step : B W Config :=
  raw <-- read_to_string (opt_or "pool.toml"%string (env_var "POOL_CONFIG")) ;;
  match load raw with Ok c => ret c | Err _ => bail "loading the configuration" end.

(** The tasks and the server; [turns] bounds the turns of the guard and of the wait for the
    wallet. *)
Definition tasks (turns : nat) (cfg : Config) (token : Address) : B W unit :=
  id <-- identity_step cfg ;;
  let '(seed, cfg) := id in
  _ <-- emit (Spawned (PpsLoop cfg)) ;;
  _ <-- rent_step cfg ;;
  let cfg := egress cfg in
  fp <-- stratum_step cfg ;;
  _ <-- poller_step cfg token ;;
  _ <-- emit (Spawned SignalListener) ;;
  signer <-- signer_step cfg ;;
  _ <-- payouts_step cfg token signer ;;
  _ <-- emit (Spawned (TreasuryRefresher token (xmr_treasury_refresh_secs (monero cfg)))) ;;
  _ <-- fee_swap_step cfg token signer ;;
  _ <-- fee_controller_step cfg ;;
  _ <-- wallet_step turns cfg signer seed ;;
  _ <-- hashvault_step cfg ;;
  onion <-- look (TorHs.read_onion (tor_hidden_service_dir (tor cfg))) ;;
  _ <-- advertise_step cfg onion fp ;;
  _ <-- oracle_step cfg ;;
  serve_step cfg {| vs_signer := signer; vs_chain_id := l2_chain_id (l2 cfg); vs_token := token; vs_ttl_secs := 3600 |} onion.

Definition pool (turns : nat) : B W unit :=
  cfg <-- load_step ;;
  _ <-- guard_step turns cfg ;;
  _ <-- tryB (redis_connect (redis_url (redis cfg))) ;;
  _ <-- emit (Connected (redis_url (redis cfg))) ;;
  token <-- some "invalid l2.mining_pool_token_address" (parse_address (l2_mining_pool_token_address (l2 cfg))) ;;
  _ <-- (if parse_url (http_url (l2 cfg)) then ret tt else bail "invalid l2.rpc_http") ;;
  tasks turns cfg token.

Definition main (turns : nat) (args : list string) : B W unit :=
  match args !! 1%nat with
  | Some c =>
      if String.eqb c "tor-hs-init" then tor_hs_init args
      else if String.eqb c "bench-randomx" then ret tt
      else pool turns
  | None => pool turns
  end.

End Main.
(** ** What the tasks are given *)

(** Who runs the pool: the seed of the wallet, the configuration with the login that is
    derived from it, and the signer. *)
Record Identity : Type := { id_seed : option (list Z); id_config : Config; id_signer : Address }.

Section Consistent.
Context `{Curve}.
Variable parse_address : string -> option Address.
Variables (c : Config) (token : Address) (i : Identity).

(** Inside the enclave the login is the one of the seed; outside there is no seed and the
    configuration is as it is. *)
Definition identified : Prop :=
  match id_seed i with
  | None => id_config i = c
  | Some seed =>
      length seed = 32%nat /\ exists reveal login, (Boot.derive_identity c reveal seed).1 = Ok login /\ id_config i = with_user login c
  end.

(** The proxy of the upstream connection: the one configured for it, else that of Tor when
    Tor is on and not bypassed. *)
Definition upstream_proxy : option string :=
  match up_socks5h_proxy (upstream c) with
  | Some p => Some p
  | None => if tor_enabled (tor c) && negb (up_direct (upstream c)) then Some (tor_socks5h (tor c)) else None
  end.
Definition api_proxy : option string :=
  if tor_enabled (tor c) && negb (up_direct (upstream c)) then Some (tor_socks5h (tor c)) else None.

Definition upstream_given (u : UpstreamConfig) : Prop :=
  up_url u = up_url (upstream c) /\ up_user u = up_user (upstream (id_config i)) /\ up_password u = up_password (upstream c) /\
  up_keepalive_secs u = up_keepalive_secs (upstream c) /\ up_tls_pin_sha256 u = up_tls_pin_sha256 (upstream c) /\
  up_login_address_network u = up_login_address_network (upstream c) /\ up_direct u = up_direct (upstream c) /\
  up_socks5h_proxy u = upstream_proxy.

(** What each task is given. *)
Definition task_sound (s : subsystem) : Prop :=
  match s with
  | PpsLoop c' => c' = id_config i
  | RentAgent f => f = self_fund c
  | UpstreamClient u => upstream_given u
  | StratumListener st _ => st = stratum c
  | RedemptionPoller t p secs =>
      t = token /\ Watcher.start_block p = l2_events_from_block (l2 c) /\ Watcher.chunk_size p = l2_events_chunk_size (l2 c) /\
      secs = l2_events_poll_secs (l2 c)
  | SignalListener => True
  | PayoutsConsumer p t m =>
      t = token /\ m = Some {| Marker.signer := id_signer i; Marker.rpc_url := http_url (l2 c) |} /\
      p = {| Payouts.has_marker := true; Payouts.per_tx_cap_atomic := xmr_per_tx_cap_atomic (monero c);
             Payouts.max_payout_premium_bp := xmr_max_payout_premium_bp (monero c);
             Payouts.confirm_wait_secs := xmr_confirm_wait_secs (monero c) |}
  | TreasuryRefresher t secs => t = token /\ secs = xmr_treasury_refresh_secs (monero c)
  | FeeSwapTask f signer chain check jitter =>
      fs_enabled (fee_swap c) = true /\ parse_address (Text.trim (fs_fee_swapper_address (fee_swap c))) = Some (FeeSwap.fee_swapper f) /\
      FeeSwap.token f = token /\ signer = id_signer i /\ chain = l2_chain_id (l2 c) /\
      FeeSwap.min_swap_atomic f = fs_min_swap_atomic (fee_swap c) /\ FeeSwap.max_swap_atomic f = fs_max_swap_atomic (fee_swap c) /\
      FeeSwap.slippage_bps f = fs_slippage_bps (fee_swap c) /\ FeeSwap.rent_floor_wei f = fs_rent_floor_wei (fee_swap c) /\
      FeeSwap.min_swap_gas_multiple f = fs_min_swap_gas_multiple (fee_swap c) /\
      FeeSwap.reserve_ratio f = xmr_min_reserve_ratio (monero c) /\
      check = fs_check_interval_secs (fee_swap c) /\ jitter = fs_jitter_secs (fee_swap c)
  | FeeController seller critical healthy lo hi secs =>
      pps_fee_mode (pps c) = Adaptive /\ parse_address (Text.trim (fs_fee_swapper_address (fee_swap c))) = Some seller /\
      critical = wei_or_max (fs_rent_floor_wei (fee_swap c)) /\ healthy = wei_or_max (fs_rent_target_wei (fee_swap c)) /\
      is_u128 critical /\ is_u128 healthy /\
      lo = opt_or (pps_pool_fee (pps c)) (pps_fee_min (pps c)) /\ hi = opt_or (pps_pool_fee (pps c)) (pps_fee_max (pps c)) /\
      secs = fs_check_interval_secs (fee_swap c)
  | WalletTask seed _ url =>
      id_seed i = Some seed /\ Boot.first_reachable (pps_monerod_rpc_pool (pps c)) (pps_monerod_rpc (pps c)) = Some url
  | HashvaultPoller addr proxy => hv_enabled (hashvault c) = true /\ addr = up_user (upstream (id_config i)) /\ proxy = api_proxy
  | EndpointWriter http a _ _ => er_enabled (endpoint_registry c) = true /\ http = http_url (l2 c) /\ a = er_address (endpoint_registry c)
  | OracleTask o http chain =>
      or_enabled (oracle c) = true /\ o = oracle c /\ http = http_url (l2 c) /\ chain = l2_chain_id (l2 c)
  end.

Definition sound (a : act) : Prop :=
  match a with
  | GuardPassed _ => False
  | Connected url => url = redis_url (redis c)
  | KeyDerived label kind =>
      (label, kind) ∈ [("monero-wallet-seed-v1", Appd.Raw256); ("stratum-tls-v1", Appd.Ed25519);
                       ("sapphire-mining-pool-token-signer-v1", Appd.Secp256k1)]%string
  | KeyFileRead path => path = l2_signer_key_path (l2 c)
  | Spawned s => identified /\ task_sound s
  | Serving bind v _ =>
      identified /\ bind = api_bind (operator_api c) /\
      v = {| vs_signer := id_signer i; vs_chain_id := l2_chain_id (l2 c); vs_token := token; vs_ttl_secs := 3600 |}
  | Drained _ => True
  end.

End Consistent.

Section Acts.
Context {W : Type}.

(** A step adds acts that satisfy [P], and gives a result that satisfies [Q]. *)
Definition acts {A} (P : act -> Prop) (m : B W A) (Q : A -> Prop) : Prop := forall w l,
  exists k, (m w l).2 = l ++ k /\ Forall P k /\ forall a, (m w l).1.1 = Got a -> Q a.

Lemma acts_ret {A} P (a : A) (Q : A -> Prop) : Q a -> acts P (ret a) Q.
Proof. intros Ha w l. exists []. split_and!; [by rewrite app_nil_r|done|]. by intros ? [= <-]. Qed.
Lemma acts_bail {A} P e (Q : A -> Prop) : acts P (bail e) Q.
Proof. intros w l. exists []. split_and!; [by rewrite app_nil_r|done|done]. Qed.
Lemma acts_emit (P : act -> Prop) a : P a -> acts P (emit a) (fun _ => True).
Proof. intros Ha w l. exists [a]. split_and!; [done|by constructor|done]. Qed.
Lemma acts_look {A} P (f : W -> A * W) : acts P (look f) (fun _ => True).
Proof. intros w l. exists []. unfold look. destruct (f w). split_and!; [by rewrite app_nil_r|done|done]. Qed.
Lemma acts_tryB {A} P (f : W -> anyhow A * W) : acts P (tryB f) (fun _ => True).
Proof. intros w l. exists []. unfold tryB. destruct (f w). split_and!; [by rewrite app_nil_r|done|done]. Qed.
Lemma acts_gets {A} P (f : W -> A) : acts P (gets f) (fun _ => True).
Proof. intros w l. exists []. split_and!; [by rewrite app_nil_r|done|done]. Qed.
Lemma acts_lift {A} P (r : anyhow A) : acts P (lift r) (fun _ => True).
Proof. destruct r; [by apply acts_ret|apply acts_bail]. Qed.
Lemma acts_lift_ok {A} P (r : anyhow A) : acts P (lift r) (fun a => r = Ok a).
Proof. destruct r; [by apply acts_ret|apply acts_bail]. Qed.
Lemma acts_some_eq {A} P e (o : option A) : acts P (some e o) (fun a => o = Some a).
Proof. destruct o; [by apply acts_ret|apply acts_bail]. Qed.
Lemma acts_some {A} P e (o : option A) : acts P (some e o) (fun _ => True).
Proof. destruct o; [by apply acts_ret|apply acts_bail]. Qed.

Lemma acts_bind {A C} P (m : B W A) (f : A -> B W C) (Q : A -> Prop) (R : C -> Prop) :
  acts P m Q -> (forall a, Q a -> acts P (f a) R) -> acts P (bindB m f) R.
Proof.
  intros Hm Hf w l. unfold bindB. destruct (Hm w l) as (k & E & Hk & Ha). destruct (m w l) as [[r w'] l']. simpl in *. subst l'.
  destruct r as [a|e|]; [|by exists k..]. destruct (Hf a (Ha a eq_refl) w' (l ++ k)) as (k2 & -> & Hk2 & Hr).
  exists (k ++ k2). split_and!; [by rewrite app_assoc|by apply Forall_app|done].
Qed.

Lemma acts_mono {A} (P P' : act -> Prop) (m : B W A) (Q Q' : A -> Prop) :
  acts P m Q -> (forall a, P a -> P' a) -> (forall a, Q a -> Q' a) -> acts P' m Q'.
Proof.
  intros Hm HP HQ w l. destruct (Hm w l) as (k & E & Hk & Ha). exists k. split_and!; [done|by eapply Forall_impl|naive_solver].
Qed.

(** The acts of a run satisfy one of a family of predicates. *)
Definition traced {A I} (P : I -> act -> Prop) (m : B W A) : Prop := forall w l, exists k i, (m w l).2 = l ++ k /\ Forall (P i) k.

Lemma traced_acts {A I} (P : I -> act -> Prop) i (m : B W A) Q : acts (P i) m Q -> traced P m.
Proof. intros Hm w l. destruct (Hm w l) as (k & E & Hk & _). eauto. Qed.

Lemma traced_bind {A C I} (i0 : I) (P : I -> act -> Prop) (m : B W A) (f : A -> B W C) (Q : A -> Prop) :
  acts (fun a => forall i, P i a) m Q -> (forall a, Q a -> traced P (f a)) -> traced P (bindB m f).
Proof.
  intros Hm Hf w l. unfold bindB. destruct (Hm w l) as (k & E & Hk & Ha). destruct (m w l) as [[r w'] l']. simpl in *. subst l'.
  assert (Hany : forall i, Forall (P i) k) by (intros i; eapply Forall_impl; [exact Hk|]; auto).
  destruct r as [a|e|]; [|by exists k, i0..]. destruct (Hf a (Ha a eq_refl) w' (l ++ k)) as (k2 & i & -> & Hk2).
  exists (k ++ k2), i. split; [by rewrite app_assoc|]. by apply Forall_app.
Qed.

End Acts.

Lemma traced_map {W A I J} (f : J -> I) (P : I -> act -> Prop) (m : B W A) : traced (fun j => P (f j)) m -> traced P m.
Proof. intros Hm w l. destruct (Hm w l) as (k & j & E & Hk). by exists k, (f j). Qed.

(** One step of a computation. *)
Ltac act_step :=
  lazymatch goal with
  | |- acts _ (bindB _ _) _ => eapply acts_bind; [|intros ? ?]
  | |- acts _ (ret _) _ => apply acts_ret
  | |- acts _ (bail _) _ => apply acts_bail
  | |- acts _ (emit _) _ => apply acts_emit
  | |- acts _ (look _) _ => apply acts_look
  | |- acts _ (tryB _) _ => apply acts_tryB
  | |- acts _ (gets _) _ => apply acts_gets
  | |- acts _ (if ?b then _ else _) _ => destruct b eqn:?
  | |- acts _ (match ?o with Some _ => _ | None => _ end) _ => destruct o eqn:?
  end.

Section Steps.
Context {T W : Type} `{Toml T} `{!TomlLaws T} `{Appd.Socket W} `{Appd.JsonText} `{Appd.Cbor} `{Hex} `{Agent.EnclaveEnv W} `{HostEnv W}
  `{TorHs.Ed25519} `{TorHs.Base32} `{TorHs.FsEnv W} `{Curve} `{WalletEnv W} `{HashvaultEnv W} {TT : Type} `{Marker.L2 TT W}.
Variables (parse_address : string -> option Address) (parse_url : string -> bool) (signer_from_slice : list Z -> option Address)
  (signer_from_str : string -> option Address) (build_tls : list Z -> anyhow string) (socks_ok : string -> string -> bool).
Variables (c : Config) (token : Address).
Hypothesis url_ok : parse_url (http_url (l2 c)) = true.
Implicit Types (u : UpstreamConfig) (signer : Address).

Abbreviation fine := (sound parse_address c token).
Abbreviation any := (fun a => forall i, fine i a).

Lemma derive_key_acts (P : act -> Prop) label kind :
  P (KeyDerived label kind) -> acts P (derive_key label kind) (fun _ => True).
Proof. intros Hl. unfold derive_key. repeat act_step; done. Qed.

Lemma read_acts P path : acts P (read_to_string path) (fun _ => True).
Proof. unfold read_to_string. repeat act_step; done. Qed.

Lemma derive_seed_acts (P : act -> Prop) label kind :
  P (KeyDerived label kind) -> acts P (derive_seed label kind) (fun b => length b = 32%nat).
Proof.
  intros Hl. unfold derive_seed. act_step; [by apply derive_key_acts|]. act_step; [|act_step]. act_step. by apply Nat.eqb_eq.
Qed.

Definition identity (seed : option (list Z)) (u : UpstreamConfig) (signer : Address) : Identity :=
  {| id_seed := seed; id_config := with_upstream u c; id_signer := signer |}.

(** An upstream section that differs from the configured one in the user. *)
Definition same_but_user u : Prop :=
  up_url u = up_url (upstream c) /\ up_password u = up_password (upstream c) /\
  up_keepalive_secs u = up_keepalive_secs (upstream c) /\ up_tls_pin_sha256 u = up_tls_pin_sha256 (upstream c) /\
  up_login_address_network u = up_login_address_network (upstream c) /\ up_direct u = up_direct (upstream c) /\
  up_socks5h_proxy u = up_socks5h_proxy (upstream c).

Lemma identity_acts :
  acts any (identity_step c) (fun r => exists u, r.2 = with_upstream u c /\ same_but_user u /\
    forall signer, identified c (identity r.1 u signer)).
Proof.
  unfold identity_step, appd_available. act_step; [act_step|]. act_step.
  - act_step; [apply derive_seed_acts; intros i; simpl; set_solver|].
    eapply acts_bind; [apply acts_lift_ok|intros login El]. act_step. eexists. split; [done|]. split; [by split_and!|].
    intros signer. split; [done|]. eexists _, login. split; [exact El|done].
  - act_step. exists (upstream c). split; [by destruct c|]. split; [by split_and!|]. intros signer. unfold identified. simpl. by destruct c.
Qed.

(** From here on the identity is known up to the signer. *)
Section Known.
Variables (seed : option (list Z)) (u : UpstreamConfig).
Hypothesis Hu : same_but_user u.
Hypothesis Hid : forall signer, identified c (identity seed u signer).
Abbreviation known := (fun a => forall signer, fine (identity seed u signer) a).

Definition egressed : UpstreamConfig := upstream (egress (with_upstream u c)).

Lemma egress_given :
  egress (with_upstream u c) = with_upstream egressed c /\ up_user egressed = up_user u /\ up_direct egressed = up_direct (upstream c) /\
  forall signer, upstream_given c (identity seed u signer) egressed.
Proof.
  destruct Hu as (H1' & H2' & H3' & H4' & H5' & H6' & H7'). unfold egressed, egress, upstream_given, upstream_proxy. simpl.
  rewrite <- H7', <- H6'. destruct (up_direct u) eqn:Ed; simpl.
  { split_and!; try done. intros signer. split_and!; try done; simpl.
    destruct (up_socks5h_proxy u); [done|]. by rewrite andb_false_r. }
  rewrite andb_true_r. destruct (tor_enabled (tor c)), (up_socks5h_proxy u) eqn:Ep; simpl; by split_and!.
Qed.

Lemma pps_acts : acts (W := W) known (emit (Spawned (PpsLoop (with_upstream u c)))) (fun _ => True).
Proof. apply acts_emit. intros signer. by split. Qed.

Lemma rent_acts : acts known (rent_step (with_upstream u c)) (fun _ => True).
Proof. unfold rent_step, appd_available. repeat act_step; done. Qed.

Lemma stratum_acts : acts known (stratum_step build_tls (with_upstream egressed c)) (fun _ => True).
Proof.
  destruct egress_given as (_ & _ & _ & Hg). unfold stratum_step, appd_available.
  act_step; [act_step; intros signer; split; [apply Hid|apply Hg]|]. act_step; [act_step|].
  apply acts_bind with (Q := fun _ => True); [|intros fp _; repeat act_step; try done; intros signer; by split].
  act_step; [|by act_step]. act_step; [apply derive_seed_acts; intros i; simpl; set_solver|]. act_step; [apply acts_lift|]. by act_step.
Qed.

Lemma poller_acts : acts (W := W) known (poller_step (with_upstream egressed c) token) (fun _ => True).
Proof. unfold poller_step. act_step. intros signer. by split. Qed.

Lemma signer_acts : acts known (signer_step signer_from_slice signer_from_str (with_upstream egressed c)) (fun _ => True).
Proof.
  unfold signer_step, appd_available. act_step; [act_step|]. act_step.
  - act_step; [apply derive_key_acts; intros i; simpl; set_solver|]. apply acts_some.
  - act_step; [apply read_acts|]. act_step; [apply acts_some|]. act_step; [act_step; by intros signer|]. apply acts_some.
Qed.

Section Signed.
Variable signer : Address.
Abbreviation P := (fine (identity seed u signer)).

Lemma payouts_acts : acts (W := W) P (payouts_step parse_url (with_upstream egressed c) token signer) (fun _ => True).
Proof.
  unfold payouts_step, marker_of, Marker.marker_new. simpl. rewrite url_ok. act_step. split; [done|]. by split_and!.
Qed.

Lemma treasury_acts : acts (W := W) P (emit (Spawned (TreasuryRefresher token (xmr_treasury_refresh_secs (monero c))))) (fun _ => True).
Proof. act_step. by split. Qed.

Lemma fee_swap_acts : acts (W := W) P (fee_swap_step parse_address parse_url (with_upstream egressed c) token signer) (fun _ => True).
Proof. unfold fee_swap_step. repeat act_step; done. Qed.

Lemma wei_range s : is_u128 (wei_or_max s).
Proof.
  unfold wei_or_max. destruct (Text.parse_u128 (Text.trim s)) as [z|] eqn:E; simpl; [|width_lia].
  apply Text.parse_uint_range in E. width_lia.
Qed.

Lemma fee_controller_acts : acts (W := W) P (fee_controller_step parse_address parse_url (with_upstream egressed c)) (fun _ => True).
Proof.
  unfold fee_controller_step. destruct (pps_fee_mode _) eqn:Em; repeat act_step; try done.
  split; [done|]. split_and!; try done; apply wei_range.
Qed.

Lemma wait_wallet_acts turns Q : acts Q (wait_wallet turns) (fun _ => True).
Proof.
  intros w l. exists []. unfold wait_wallet. destruct (wait_for_wallet_rpc turns w) as [[[]]|]; (split_and!; [by rewrite app_nil_r|done|done]).
Qed.

Lemma wallet_acts turns : acts P (wallet_step parse_url turns (with_upstream egressed c) signer seed) (fun _ => True).
Proof.
  pose proof (Hid signer) as Hi. revert Hi. unfold wallet_step. destruct seed as [sd|]; intros Hi; [|by act_step]. act_step; [apply wait_wallet_acts|]. simpl.
  act_step; [apply acts_some_eq|].
  apply acts_bind with (Q := fun _ => True); [repeat act_step; done|intros h _; act_step]. by split.
Qed.

Lemma hashvault_acts : acts P (hashvault_step socks_ok (with_upstream egressed c)) (fun _ => True).
Proof.
  destruct egress_given as (_ & Eu & Ed & _). unfold hashvault_step. simpl. act_step; [|by act_step]. act_step; [act_step|].
  act_step; [act_step|]. act_step. split; [done|]. split_and!; [done|done|]. unfold api_proxy. by rewrite Ed.
Qed.

Lemma advertise_acts onion fp : acts P (advertise_step (with_upstream egressed c) onion fp) (fun _ => True).
Proof.
  unfold advertise_step, appd_available. act_step; [act_step|]. act_step; [|by act_step].
  destruct onion, fp; act_step; try done. split; [done|]. bools. by split_and!.
Qed.

Lemma oracle_acts : acts P (oracle_step (with_upstream egressed c)) (fun _ => True).
Proof. unfold oracle_step, appd_available. repeat act_step; done. Qed.

Lemma serve_acts onion :
  acts P (serve_step (with_upstream egressed c)
    {| vs_signer := signer; vs_chain_id := l2_chain_id (l2 c); vs_token := token; vs_ttl_secs := 3600 |} onion) (fun _ => True).
Proof. unfold serve_step. repeat act_step; done. Qed.

End Signed.
End Known.

(** Up to the login and the signer, the acts do not depend on them; from there on they are
    the one's own. *)
Lemma tasks_traced turns :
  traced fine (tasks parse_address parse_url signer_from_slice signer_from_str build_tls socks_ok turns c token).
Proof.
  unfold tasks. apply (traced_bind (identity None (upstream c) 0) _ _ _ _ identity_acts). intros [seed cfg] (u & E & Hu & Hid).
  simpl in E, Hid. subst cfg. apply (traced_map (identity seed u)).
  apply (traced_bind 0 _ _ _ _ (pps_acts seed u Hid)). intros _ _.
  apply (traced_bind 0 _ _ _ _ (rent_acts seed u Hid)). intros _ _.
  destruct (egress_given seed u Hu) as (-> & _).
  apply (traced_bind 0 _ _ _ _ (stratum_acts seed u Hu Hid)). intros fp _.
  apply (traced_bind 0 _ _ _ _ (poller_acts seed u Hid)). intros _ _.
  apply (traced_bind 0) with (Q := fun _ => True); [apply acts_emit; intros signer; by split|intros _ _].
  apply (traced_bind 0 _ _ _ _ (signer_acts seed u Hu Hid)). intros signer _.
  apply (traced_acts _ signer _ (fun _ => True)).
  eapply acts_bind; [by apply payouts_acts|intros _ _]. eapply acts_bind; [by apply treasury_acts|intros _ _].
  eapply acts_bind; [by apply fee_swap_acts|intros _ _]. eapply acts_bind; [by apply fee_controller_acts|intros _ _].
  eapply acts_bind; [by apply wallet_acts|intros _ _]. eapply acts_bind; [by apply hashvault_acts|intros _ _].
  eapply acts_bind; [apply acts_look|intros onion _]. eapply acts_bind; [by apply advertise_acts|intros _ _].
  eapply acts_bind; [by apply oracle_acts|intros _ _]. by apply serve_acts.
Qed.

End Steps.

Section Pool.
Context {T W : Type} `{Toml T} `{!TomlLaws T} `{Appd.Socket W} `{Appd.JsonText} `{Appd.Cbor} `{Hex} `{Agent.EnclaveEnv W} `{HostEnv W}
  `{TorHs.Ed25519} `{TorHs.Base32} `{TorHs.FsEnv W} `{Curve} `{WalletEnv W} `{HashvaultEnv W} {TT : Type} `{Marker.L2 TT W}.
Variables (parse_address : string -> option Address) (parse_url : string -> bool) (signer_from_slice : list Z -> option Address)
  (signer_from_str : string -> option Address) (build_tls : list Z -> anyhow string) (socks_ok : string -> string -> bool).

Lemma load_acts P : acts P load_step (fun c => exists raw, load raw = Ok c).
Proof.
  unfold load_step. act_step; [apply read_acts|]. destruct (load a) as [c|e] eqn:E; [apply acts_ret; eauto|apply acts_bail].
Qed.

(** After the guard: the acts of the rest, for the one token and the one identity. *)
Lemma rest_traced turns c :
  forall w l, exists k token i,
    (bindB (tryB (redis_connect (redis_url (redis c)))) (fun _ => bindB (emit (Connected (redis_url (redis c)))) (fun _ =>
     bindB (some "invalid l2.mining_pool_token_address" (parse_address (l2_mining_pool_token_address (l2 c)))) (fun token =>
     bindB (if parse_url (http_url (l2 c)) then ret tt else bail "invalid l2.rpc_http") (fun _ =>
     tasks parse_address parse_url signer_from_slice signer_from_str build_tls socks_ok turns c token)))) w l).2 = l ++ k /\
    Forall (sound parse_address c token i) k /\
    (forall s, Spawned s ∈ k -> parse_address (l2_mining_pool_token_address (l2 c)) = Some token).
Proof.
  intros w l. set (i0 := identity c None (upstream c) 0). unfold bindB at 1, tryB. destruct (redis_connect _ w) as [[[]|e] w1].
  2: { exists [], 0, i0. split_and!; [by rewrite app_nil_r|done|]. intros s Hs. by apply not_elem_of_nil in Hs. }
  unfold bindB at 1, emit. unfold bindB at 1. destruct (parse_address _) as [token|]; simpl.
  2: { exists [Connected (redis_url (redis c))], 0, i0. split_and!; [done|by repeat constructor|]. intros s Hs. set_solver. }
  unfold bindB. destruct (parse_url _) eqn:Eu; simpl.
  2: { exists [Connected (redis_url (redis c))], token, i0. split_and!; [done|by repeat constructor|done]. }
  destruct (tasks_traced parse_address parse_url signer_from_slice signer_from_str build_tls socks_ok c token Eu turns
    w1 (l ++ [Connected (redis_url (redis c))])) as (k & i & E & Hk).
  exists (Connected (redis_url (redis c)) :: k), token, i. split_and!; [by rewrite E, <- app_assoc|by constructor|done].
Qed.

(** C23: the pool is one identity behind one guard.  Whatever the host replies, nothing is
    connected, derived or started before the guard let it pass; and then every task is given
    the values of the configuration that was loaded, whose numbers are within their widths,
    for the one token and the one signer: the payouts run with the durable marker, signed by
    the key that signs the vouchers and the fee claims; the wallet task has the seed that the
    login of the upstream client and of its statistics is derived from; the upstream client
    has the proxy configured for it, else that of Tor when Tor is on and not bypassed, and the
    statistics that of Tor; and only the three keys of the pool are asked for, each as its
    kind. *)
Theorem pool_consistent turns w o w' l :
  pool parse_address parse_url signer_from_slice signer_from_str build_tls socks_ok turns w [] = (o, w', l) ->
  l = [] \/
  exists raw c checks l' w1 w2, load raw = Ok c /\ config_typed c /\
    Agent.guard turns (single_active c) w1 = (checks, Some w2) /\ l = GuardPassed checks :: l' /\
    exists token i, Forall (sound parse_address c token i) l' /\
      (forall s, Spawned s ∈ l' -> parse_address (l2_mining_pool_token_address (l2 c)) = Some token).
Proof.
  intros Hp. unfold pool, bindB at 1 in Hp. destruct (load_acts (fun _ => False) w []) as (k & E & Hk & Hc).
  assert (k = []) as -> by (by destruct Hk). destruct (load_step w []) as [[r w1] l1]. simpl in *. subst l1.
  destruct r as [c|e|]; [|by simplify_eq; left..]. destruct (Hc c eq_refl) as [raw Hl]. pose proof (load_typed _ _ Hl) as Ht.
  unfold bindB at 1, guard_step in Hp. destruct (Agent.guard turns (single_active c) w1) as [checks [w2|]] eqn:Eg; [|by simplify_eq; left].
  right. destruct (rest_traced turns c w2 [GuardPassed checks]) as (k' & token & i & E & Hk' & Hs).
  exists raw, c, checks, k', w1, w2. do 3 (split; [done|]). split; [|by exists token, i].
  change l with (o, w', l).2. rewrite <- Hp. exact E.
Qed.

End Pool.

(** ** A start on the document of [PoolConfig.Demo] *)

Module Demo.

(** One enclave: its daemon has one key, and one node is registered. *)
#[export] Instance json : Appd.JsonText := {
  Appd.to_string _ := "{}";
  Appd.from_str _ := Some (Json.Object [("data"%string, Json.Str "00"); ("key"%string, Json.Str (Text.hex_encode (replicate 32 5)))]);
}.
#[export] Instance host : HostEnv Z := {
  env_var _ := None;
  redis_connect _ w := (Ok tt, w);
  http_bind _ w := (Ok tt, w);
  http_serve w := (Ok tt, w);
  cancelled _ := true;
  join_payouts w := (Some (Ok tt), w);
}.
#[export] Instance files : TorHs.FsEnv Z := {
  TorHs.create_dir_all _ w := (Ok tt, w);
  TorHs.set_permissions _ _ w := (Ok tt, w);
  TorHs.fs_write _ _ w := (Ok tt, w);
  TorHs.fs_read p w := (if String.eqb p "pool.toml" then Some [] else None, w);
}.
#[export] Instance upstream_api : HashvaultEnv Z := {
  status_error := Boot.Demo.status_text;
  http_get _ w := (Ok (200, Ok (Json.Object [("threshold"%string, Json.Int 5)])), w);
  http_post _ _ w := (Ok (200, Ok (Json.Object [("status"%string, Json.Str "success")])), w);
}.
#[export] Instance chain : Marker.L2 unit Z := {
  Marker.token_of _ := {|
    Contract.erc20 := tt; Contract.authorizedSigner := 9; Contract.claimed := ∅; Contract.redemptions := ∅;
    Contract.nextRedemptionId := 0; Contract.processed := ∅; Contract.payoutTxid := ∅; Contract.restoreHeight := 3100000;
    Contract.redemptionGasSubsidy := 0; Contract.owner := 1 |};
  Marker.eth_read w := (None, w);
  Marker.eth_send _ w := (Marker.NoReceipt, w);
}.
#[export] Existing Instances Agent.Demo.socket Agent.Demo.env Agent.Demo.registrations text_hex TorHs.Demo.ed TorHs.Demo.base32
  Boot.Demo.curve Boot.Demo.wallet PoolConfig.Demo.docs PoolConfig.Demo.docs_laws.

Definition address_of (s : string) : option Address := Some (Z.of_nat (String.length s)).

Definition started : flow unit * Z * list act :=
  pool (T := PoolConfig.Demo.Doc) (W := Z) address_of (fun _ => true) (fun _ => Some 9) (fun _ => None) (fun _ => Ok "ab"%string)
    (fun _ _ => true) 3 0 [].

End Demo.

Import Demo.

Lemma pool_consistent_witness :
  Demo.started.1 = (Got tt, 90) /\ length Demo.started.2 = 20%nat /\
  (Demo.started.2 = [] \/
   exists raw c checks l' w1 w2, load (V := PoolConfig.Demo.Doc) raw = Ok c /\ config_typed c /\
     Agent.guard 3 (single_active c) w1 = (checks, Some w2) /\ Demo.started.2 = GuardPassed checks :: l' /\
     exists token i, Forall (sound Demo.address_of c token i) l' /\
       (forall s, Spawned s ∈ l' -> Demo.address_of (l2_mining_pool_token_address (l2 c)) = Some token)).
Proof.
  split; [vm_compute; reflexivity|]. split; [vm_compute; reflexivity|].
  assert (E : forall x : flow unit * Z * list act, x = (x.1.1, x.1.2, x.2)) by (by intros [[??]?]).
  exact (pool_consistent Demo.address_of (fun _ => true) (fun _ => Some 9) (fun _ => None) (fun _ => Ok "ab"%string)
    (fun _ _ => true) 3 0 _ _ _ (E Demo.started)).
Defined.

End Start.
