(* ===== verification/Dial.v ===== *)
(** The dialling of the upstream pool (stratum-proxy/src/upstream.rs): the connection of a
    session, direct or through the proxy, the TLS handshake with or without a pinned
    certificate, and the loop that makes one session after another.

    Sockets, SOCKS and TLS are libraries: their calls are parameters, and of the handshake it
    is used that it asks the verifier the code gives it.  What passes over a connection is
    the subject of [Upstream]. *)
From Stdlib Require Import Ascii.
From S2P Require Import Prelude Text Floats Hex Json Metrics Jobs Session Upstream PoolConfig Start.
Import Upstream PoolConfig.

Module Dial.

(** [ServerCertVerifier]: the check of the leaf certificate, and of the signature that shows
    that the peer has its key. *)
Record Verifier : Type := {
  verify_cert : list Z -> anyhow unit;
  verify_signature : list Z -> list Z -> list Z -> anyhow unit;
}.

Class Net (W C : Type) := {
  sha256 : list Z -> list Z;
  socks5_connect : string -> string -> W -> anyhow C * W;
  tcp_connect : string -> Z -> W -> anyhow C * W;
  server_name : string -> bool;
  tls_connect : Verifier -> string -> C -> W -> anyhow C * W;
  (** what arrives on a connection and is submitted over it, and which writes succeed *)
  traffic : C -> W -> list Upstream.input * W;
  write_ok : C -> list Session.Request -> Session.Request -> bool;
  json_from_str : string -> option Json.Value;
  now_ms : W -> Z;
  instant : W -> Z;
  random : W -> F.f64 * W;
  sleep_ms : Z -> W -> W;
}.

(** How a connection was made. *)
Inductive dialled : Type := ViaProxy (proxy_addr target : string) | Straight (host : string) (port : Z).

(** [trim_start_matches]: every repetition of a prefix. *)
Fixpoint trim_start_matches (fuel : nat) (pat s : string) : string :=
  match fuel with
  | O => s
  | S fuel => match strip_prefix pat s with Some s' => trim_start_matches fuel pat s' | None => s end
  end.

Definition proxy_addr (proxy_url : string) : string :=
  let s := trim_start_matches (String.length proxy_url) "socks5h://" proxy_url in
  trim_start_matches (String.length s) "socks5://" s.

Section Dial.
Context {W C : Type} `{Net W C} `{Hx : Hex}.

Definition AcceptAnyVerifier : Verifier := {| verify_cert := fun _ => Ok tt; verify_signature := fun _ _ _ => Ok tt |}.
Definition PinnedVerifier (pin : list Z) : Verifier :=
  {| verify_cert := verify_server_cert sha256 pin; verify_signature := fun _ _ _ => Ok tt |}.

Definition tls_connector (cfg : UpstreamConfig) : anyhow Verifier :=
  match up_tls_pin_sha256 cfg with
  | Some pin_hex => match parse_fingerprint pin_hex with
                    | Ok pin => Ok (PinnedVerifier pin)
                    | Err _ => Err "tls_pin_sha256 not a 32-byte hex"
                    end
  | None => Ok AcceptAnyVerifier
  end.

Definition target (e : Endpoint) : string := host e +:+ ":" +:+ Text.show (port e).

Definition dial_of (cfg : UpstreamConfig) (e : Endpoint) : dialled :=
  match up_socks5h_proxy cfg with
  | Some proxy_url => ViaProxy (proxy_addr proxy_url) (target e)
  | None => Straight (host e) (port e)
  end.

Definition connect (d : dialled) (w : W) : anyhow C * W :=
  match d with
  | ViaProxy a t => match socks5_connect a t w with (Ok c, w) => (Ok c, w) | (Err _, w) => (Err "SOCKS5h dial", w) end
  | Straight h p => match tcp_connect h p w with (Ok c, w) => (Ok c, w) | (Err _, w) => (Err "direct TCP connect", w) end
  end.

Definition secure (cfg : UpstreamConfig) (e : Endpoint) (c : C) (w : W) : anyhow C * W :=
  if use_tls e then
    match tls_connector cfg with
    | Err x => (Err x, w)
    | Ok v =>
        if negb (server_name (host e)) then (Err "bad TLS server name", w)
        else match tls_connect v (host e) c w with (Ok c, w) => (Ok c, w) | (Err _, w) => (Err "TLS handshake", w) end
    end
  else (Ok c, w).

(** What the session dialled, and the connection it talked over, if it came to that. *)
Record attempt : Type := { dial : dialled; talked : option C; said : list Session.Request }.

Definition try_session (cfg : UpstreamConfig) (s : UState) (w : W) : anyhow unit * UState * W * list attempt :=
  match parse_endpoint (up_url cfg) with
  | Err x => (Err x, s, w, [])
  | Ok e =>
      let d := dial_of cfg e in
      match connect d w with
      | (Err x, w) => (Err x, s, w, [{| dial := d; talked := None; said := [] |}])
      | (Ok c, w) =>
          match secure cfg e c w with
          | (Err x, w) => (Err x, s, w, [{| dial := d; talked := None; said := [] |}])
          | (Ok c, w) =>
              let '(es, w) := traffic c w in
              let '(r, s') := run_session_io json_from_str (write_ok c) (up_user cfg) (up_password cfg) es s in
              (r, s', w, [{| dial := d; talked := Some c; said := drop (length (up_sent s)) (up_sent s') |}])
          end
      end
  end.

(** [run_loop]: sessions, and the delay after each. *)
Fixpoint run_loop (n : nat) (cfg : UpstreamConfig) (s : UState) (w : W) : UState * W * list attempt :=
  match n with
  | O => (s, w, [])
  | S n =>
      let session_start := instant w in
      let '(_, s, w, a) := try_session cfg s w in
      let '(r, w) := random w in
      let '(delay, m) := run_loop_turn r (now_ms w) (instant w - session_start) (up_metrics s) in
      let '(s, w, a') := run_loop n cfg (set_metrics m s) (sleep_ms delay w) in
      (s, w, a ++ a')
  end.

End Dial.

(** The handshake completes on a certificate and a signature its verifier accepts. *)
Class NetLaws (W C : Type) `{Net W C} := {
  presented : C -> list Z;
  nl_handshake : forall v name c w c' w', tls_connect v name c w = (Ok c', w') ->
    verify_cert v (presented c') = Ok tt /\ exists message signature, verify_signature v message (presented c') signature = Ok tt;
}.

Section Confined.
Context {W C : Type} `{NetLaws W C} `{Hx : Hex}.

(** What is written only grows. *)
Lemma on_message_sent now ms v s s' : on_message now ms v s = Ok s' -> up_sent s' = up_sent s.
Proof.
  unfold on_message, on_login_reply, on_submit_reply, publish_job. intros E. repeat case_match; simplify_eq; try done; simpl; repeat case_match; done.
Qed.

Lemma session_sent f g es s r s' : session_events f g es s = (r, s') -> exists rest, up_sent s' = up_sent s ++ rest.
Proof.
  revert s. induction es as [|e es IH]; intros s E; simpl in E; [simplify_eq; exists []; by rewrite app_nil_r|].
  destruct (on_event f g e s) as [s1|] eqn:E1; [|simplify_eq; exists []; by rewrite app_nil_r].
  apply IH in E as [rest ->]. destruct e as [n m l| |u]; simpl in E1; [|done|].
  - exists rest. destruct (String.eqb l ""); [done|]. destruct (f (Text.trim l)) as [v|]; [|by simplify_eq]. by rewrite (on_message_sent _ _ _ _ _ E1).
  - unfold write_req in E1. case_match; simplify_eq. simpl. rewrite <- app_assoc. by eexists.
Qed.

Lemma session_said f g user password es s r s' :
  run_session_io f g user password es s = (r, s') ->
  drop (length (up_sent s)) (up_sent s') = [] \/
  exists rest, drop (length (up_sent s)) (up_sent s') = login_request user password :: rest.
Proof.
  unfold run_session_io, write_req. destruct (g _ _); [|intros [= _ <-]; left; by rewrite drop_all].
  intros [rest E]%session_sent. simpl in E. rewrite E, <- app_assoc, drop_app_length. right. by exists rest.
Qed.

(** An attempt that keeps to the configuration: dialled as configured; nothing is said
    before the connection is up, and then the login first; over TLS with a pin, only to a
    peer that shows the pinned certificate. *)
Definition confined (cfg : UpstreamConfig) (a : attempt (C := C)) : Prop :=
  exists e, parse_endpoint (up_url cfg) = Ok e /\ dial a = dial_of cfg e /\
    (said a = [] \/ exists rest, said a = login_request (up_user cfg) (up_password cfg) :: rest) /\
    match talked a with
    | None => said a = []
    | Some c => forall pin_hex, use_tls e = true -> up_tls_pin_sha256 cfg = Some pin_hex ->
                  parse_fingerprint pin_hex = Ok (sha256 (presented c))
    end.

Lemma secure_pinned cfg e c w c' w' pin_hex :
  secure cfg e c w = (Ok c', w') -> use_tls e = true -> up_tls_pin_sha256 cfg = Some pin_hex ->
  parse_fingerprint pin_hex = Ok (sha256 (presented c')).
Proof.
  unfold secure, tls_connector. intros E Ht Hp. revert E. rewrite Ht, Hp. destruct (parse_fingerprint pin_hex) as [pin|]; [|done].
  destruct (server_name (host e)); simpl; [|done]. destruct (tls_connect _ _ c w) as [[c1|] w1] eqn:E; [|done]. intros [= <- <-].
  apply nl_handshake in E as [E _]. simpl in E. unfold verify_server_cert in E. case_decide; [by subst|done].
Qed.

Lemma try_session_confined cfg s w r s' w' l : try_session cfg s w = (r, s', w', l) -> Forall (confined cfg) l.
Proof.
  unfold try_session. destruct (parse_endpoint (up_url cfg)) as [e|] eqn:Ee; [|by intros [= _ _ _ <-]].
  assert (Hnone : Forall (confined cfg) [{| dial := dial_of cfg e; talked := None; said := [] |}]).
  { constructor; [|done]. exists e. simpl. auto. }
  destruct (connect _ w) as [[c|] w1]; [|by intros [= _ _ _ <-]].
  destruct (secure cfg e c w1) as [[c'|] w2] eqn:Es; [|by intros [= _ _ _ <-]].
  destruct (traffic c' w2) as [es w3]. destruct (run_session_io _ _ _ _ es s) as [r1 s1] eqn:Er. intros [= _ <- _ <-].
  constructor; [|done]. exists e. simpl. split_and!; [done|done|by eapply session_said|]. intros pin_hex. by eapply secure_pinned.
Qed.

Lemma run_loop_confined n cfg s w : Forall (confined cfg) (run_loop n cfg s w).2.
Proof.
  revert s w. induction n as [|n IH]; intros s w; [constructor|]. cbn [run_loop].
  destruct (try_session cfg s w) as [[[r s1] w1] l] eqn:E. destruct (random w1) as [x w2].
  destruct (run_loop_turn _ _ _ _) as [delay m]. specialize (IH (set_metrics m s1) (sleep_ms delay w2)).
  destruct (run_loop n cfg (set_metrics m s1) (sleep_ms delay w2)) as [[s3 w3] l']. simpl in *.
  apply Forall_app. split; [by eapply try_session_confined|done].
Qed.

(** C35: the upstream connection keeps to its configuration.  With Tor on and not bypassed,
    the client that the start of the pool makes never dials but through a proxy, and gives
    it the name of the pool; nothing is said before the connection stands, and then the
    login comes first; and with a pin and TLS nothing is said but to a peer that shows the
    certificate of the pin.  This holds over any number of reconnections, whatever the
    network does. *)
Theorem upstream_confined n (c : Config) s w :
  tor_enabled (tor c) = true -> up_direct (upstream c) = false ->
  let cfg := upstream (Start.egress c) in
  Forall (fun a => confined cfg a /\
    exists p e, dial a = ViaProxy (proxy_addr p) (target e) /\ up_socks5h_proxy cfg = Some p /\
      (up_socks5h_proxy (upstream c) = Some p \/ p = tor_socks5h (tor c))) (run_loop n cfg s w).2.
Proof.
  intros Ht Hd cfg. eapply Forall_impl; [apply run_loop_confined|]. intros a Ha. split; [done|].
  destruct Ha as (e & _ & -> & _). unfold dial_of.
  assert (exists p, up_socks5h_proxy cfg = Some p /\ (up_socks5h_proxy (upstream c) = Some p \/ p = tor_socks5h (tor c))) as (p & -> & Hp).
  { unfold cfg, Start.egress. rewrite Ht, Hd. simpl. case_bool_decide as E; simpl; [by eauto|].
    destruct (up_socks5h_proxy (upstream c)); [by eauto|done]. }
  by exists p, e.
Qed.

End Confined.

(** ** Concrete inputs *)

Module Demo.

(** A connection is the certificate its peer shows.  The peer signs nothing, and the
    handshake goes by what the verifier says of that. *)
#[export] Instance net : Net nat (list Z) := {
  sha256 b := take 32 (b ++ replicate 32 0);
  socks5_connect _ _ w := (if (w =? 0)%nat then Err "down"%string else Ok [7], S w);
  tcp_connect _ _ w := (Ok [8], w);
  server_name _ := true;
  tls_connect v _ c w :=
    (match verify_cert v c, verify_signature v [1] c [] with Ok _, Ok _ => Ok c | _, _ => Err "alert"%string end, w);
  traffic _ w := ([Upstream.Forward demo_share], w);
  write_ok _ _ _ := true;
  json_from_str _ := None;
  now_ms w := Z.of_nat w;
  instant w := Z.of_nat w;
  random w := (F.of_Z 0, w);
  sleep_ms _ w := w;
}.
#[export] Instance net_laws : NetLaws nat (list Z).
Proof.
  refine {| presented := id |}. intros v name c w c' w' E. simpl in E.
  destruct (verify_cert v c) as [[]|] eqn:E1; [|done]. destruct (verify_signature v [1] c []) as [[]|] eqn:E2; [|done].
  simplify_eq. split; [done|eauto].
Defined.
#[export] Existing Instance text_hex.

Definition on_tor (c : Config) : Config := {|
  stratum := stratum c; pps := pps c; redis := redis c; l2 := l2 c; monero := monero c; operator_api := operator_api c;
  upstream := {| up_url := up_url (upstream c); up_user := up_user (upstream c); up_password := up_password (upstream c);
    up_keepalive_secs := up_keepalive_secs (upstream c); up_socks5h_proxy := None;
    up_tls_pin_sha256 := Some (Text.hex_encode (sha256 [7])); up_login_address_network := None; up_direct := false |};
  randomx := randomx c; tor := {| tor_enabled := true; tor_socks5h := default_tor_socks; tor_hidden_service_dir := default_hidden_service_dir |};
  hashvault := hashvault c; single_active := single_active c; fee_swap := fee_swap c;
  reveal_wallet_address_once := reveal_wallet_address_once c; reveal_wallet_pubkey := reveal_wallet_pubkey c;
  self_fund := self_fund c; endpoint_registry := endpoint_registry c; oracle := oracle c |}.

Definition cfg : Config := on_tor PoolConfig.Demo.cfg.
Definition attempts : list (attempt (C := list Z)) := (run_loop 2 (upstream (Start.egress cfg)) demo_state 0%nat).2.

(** The second attempt connects; whoever shows the pinned certificate is given the login,
    without having to show that it has the key. *)
Example certificate_without_its_key :
  (fun a => (dial a, talked a, length (said a))) <$> attempts
  = [(ViaProxy "127.0.0.1:9050" "pool.hashvault.pro:443", None, 0%nat);
     (ViaProxy "127.0.0.1:9050" "pool.hashvault.pro:443", Some [7], 2%nat)].
Proof. vm_compute. reflexivity. Qed.

End Demo.

Import Demo.

Lemma upstream_confined_witness :
  length Demo.attempts = 2%nat /\
  Forall (fun a => confined (upstream (Start.egress Demo.cfg)) a /\
    exists p e, dial a = ViaProxy (proxy_addr p) (target e) /\ up_socks5h_proxy (upstream (Start.egress Demo.cfg)) = Some p /\
      (up_socks5h_proxy (upstream Demo.cfg) = Some p \/ p = tor_socks5h (tor Demo.cfg))) Demo.attempts.
Proof.
  split; [vm_compute; reflexivity|]. exact (upstream_confined 2 Demo.cfg demo_state 0%nat eq_refl eq_refl).
Defined.

End Dial.
