(* ===== verification/StratumTls.v ===== *)
(** The certificate of the stratum listener (mining-pool/src/stratum_tls.rs): a self-signed
    certificate over the key derived in the enclave, and the fingerprint that miners pin.

    The certificate library and the TLS server are parameters; making a certificate may draw
    on the world [W] (a clock, a random source), and that it does not for an Ed25519 key is
    the named hypothesis [deterministic]. *)
From S2P Require Import Prelude Text Hex Upstream PoolConfig Dial.
Import Upstream PoolConfig.

Module StratumTls.

Definition PREFIX : list Z := [0x30; 0x2e; 0x02; 0x01; 0x00; 0x30; 0x05; 0x06; 0x03; 0x2b; 0x65; 0x70; 0x04; 0x22; 0x04; 0x20].

Definition ed25519_pkcs8 (seed32 : list Z) : list Z := PREFIX ++ seed32.

(** [rcgen::CertificateParams]: the fields the code sets, and the others as the library
    leaves them. *)
Record CertificateParams (X : Type) : Type := {
  not_before : Z * Z * Z;
  not_after : Z * Z * Z;
  serial_number : option Z;
  distinguished_name : list (string * string);
  others : X;
}.
Arguments not_before {X} _.
Arguments not_after {X} _.
Arguments serial_number {X} _.
Arguments distinguished_name {X} _.
Arguments others {X} _.

Class Library (W K X A : Type) := {
  from_pkcs8 : list Z -> anyhow K;
  params_new : list string -> W -> anyhow (CertificateParams X) * W;
  self_signed : CertificateParams X -> K -> W -> anyhow (list Z) * W;
  digest : list Z -> list Z;
  with_single_cert : list (list Z) -> list Z -> anyhow A;
}.

Record StratumTls (A : Type) : Type := { acceptor : A; fingerprint_sha256_hex : string }.
Arguments acceptor {A} _.
Arguments fingerprint_sha256_hex {A} _.

(** A character whose byte is not in the text is not one of its characters. *)
Lemma chars_no a s :
  Forall (fun c => c <> a) (String.list_ascii_of_string s) -> Forall (fun ch => ch <> String a EmptyString) (Text.chars s).
Proof.
  induction s as [|c s IH]; simpl; [done|]. intros [Hc Hs]%Forall_cons_1. specialize (IH Hs).
  destruct (Text.chars s) as [|g gs]; [constructor; [congruence|done]|]. destruct (Text.continues g); [|constructor; [congruence|done]].
  constructor; [congruence|]. by apply Forall_cons_1 in IH as [_ IH].
Qed.

(** Hexadecimal text is its own clean form: no white space, no colons. *)
Lemma clean_hex b : Forall is_u8 b -> clean (Text.hex_encode b) = Text.hex_encode b.
Proof.
  intros Hb. pose proof (Text.hex_encode_alphabet b Hb) as Hf.
  destruct (Text.chars_plain (Text.hex_encode b)) as (Hw & Hcat & _); [eapply Forall_impl; [exact Hf|]; apply Text.hex_digit_plain|].
  assert (Hno : Forall (fun ch => ch <> ":"%string) (Text.chars (Text.hex_encode b))).
  { apply chars_no. eapply Forall_impl; [exact Hf|]. by intros c Hc ->. }
  unfold clean. rewrite List.forallb_filter_id; [done|]. apply forallb_forall. intros ch Hin%list_elem_of_In.
  rewrite Forall_forall in Hw, Hno. rewrite (Hw _ Hin). simpl. apply negb_true_iff, String.eqb_neq. auto.
Qed.

Section Build.
Context {W K X A : Type} `{Library W K X A}.

Definition fixed (p : CertificateParams X) : CertificateParams X :=
  {| not_before := (2000, 1, 1); not_after := (4096, 1, 1); serial_number := Some 1;
     distinguished_name := [("CommonName", "mining-pool")]%string; others := others p |}.

Definition build (seed32 : list Z) (w : W) : anyhow (StratumTls A) * W :=
  let pkcs8 := ed25519_pkcs8 seed32 in
  match from_pkcs8 pkcs8 with
  | Err e => (Err e, w)
  | Ok key =>
      match params_new ["mining-pool"%string] w with
      | (Err e, w) => (Err e, w)
      | (Ok params, w) =>
          match self_signed (fixed params) key w with
          | (Err e, w) => (Err e, w)
          | (Ok cert_der, w) =>
              match with_single_cert [cert_der] pkcs8 with
              | Err e => (Err e, w)
              | Ok cfg => (Ok {| acceptor := cfg; fingerprint_sha256_hex := Text.hex_encode (digest cert_der) |}, w)
              end
          end
      end
  end.

(** Of the library: the fields the code does not set do not depend on the time or on the
    random source, and neither does a certificate with everything set (Ed25519 signs
    deterministically, RFC 8032). *)
Record deterministic : Prop := {
  params_fixed : forall names w w' p p', (params_new names w).1 = Ok p -> (params_new names w').1 = Ok p' -> others p = others p';
  signed_fixed : forall p k w w', (self_signed p k w).1 = (self_signed p k w').1;
}.

(** What a build that succeeds comes from. *)
Lemma build_inv seed w t w' :
  build seed w = (Ok t, w') ->
  exists k p w1 cert, from_pkcs8 (ed25519_pkcs8 seed) = Ok k /\ params_new ["mining-pool"%string] w = (Ok p, w1) /\
    (self_signed (fixed p) k w1).1 = Ok cert /\ with_single_cert [cert] (ed25519_pkcs8 seed) = Ok (acceptor t) /\
    fingerprint_sha256_hex t = Text.hex_encode (digest cert).
Proof.
  unfold build. destruct (from_pkcs8 _) as [k|]; [|done]. destruct (params_new _ w) as [[p|] w1] eqn:Ep; [|done].
  destruct (self_signed _ k w1) as [[cert|] w2] eqn:Es; [|done]. destruct (with_single_cert _ _) as [cfg|] eqn:Ec; [|done].
  intros E. injection E as <- <-. exists k, p, w1, cert. by rewrite Es.
Qed.

(** Two deploys of the pool, at whatever times, serve with one configuration and publish one
    fingerprint. *)
Lemma same_fingerprint seed w1 t1 w1' w2 t2 w2' :
  deterministic -> build seed w1 = (Ok t1, w1') -> build seed w2 = (Ok t2, w2') -> t1 = t2.
Proof.
  intros [Hp Hs] (k & p & v & cert & Ek & Ep & Es & Ec & Ef)%build_inv (k' & p' & v' & cert' & Ek' & Ep' & Es' & Ec' & Ef')%build_inv.
  assert (Hf : fixed p = fixed p').
  { unfold fixed. f_equal. eapply Hp; [by rewrite Ep|by rewrite Ep']. }
  rewrite Ek in Ek'. injection Ek' as <-. rewrite <- Hf, <- (Hs _ _ v v'), Es in Es'. injection Es' as <-.
  destruct t1, t2; simpl in *. congruence.
Qed.

(** A miner, or a pool behind this one, that pins the published fingerprint accepts the
    certificate the listener shows, and only certificates of the same hash. *)
Lemma fingerprint_pins {D} `{Hx : Hex} (HL : HexLaws Hx) `{N : Dial.Net W D} (cfg : UpstreamConfig) seed w t w' :
  (forall b, @Dial.sha256 W D N b = digest b /\ Forall is_u8 (digest b) /\ length (digest b) = 32%nat) ->
  build seed w = (Ok t, w') -> up_tls_pin_sha256 cfg = Some (fingerprint_sha256_hex t) ->
  exists cert v, with_single_cert [cert] (ed25519_pkcs8 seed) = Ok (acceptor t) /\ Dial.tls_connector cfg = Ok v /\
    forall shown, Dial.verify_cert v shown = Ok tt <-> digest shown = digest cert.
Proof.
  intros Hd (k & p & v & cert & _ & _ & _ & Ec & Ef)%build_inv Hp. destruct (Hd cert) as (_ & Hb & Hl).
  exists cert, (Dial.PinnedVerifier (digest cert)). split; [done|]. split.
  - unfold Dial.tls_connector, parse_fingerprint. rewrite Hp, Ef, clean_hex, <- hl_text, hl_roundtrip, Hl by done. done.
  - intros shown. simpl. unfold verify_server_cert. rewrite (proj1 (Hd shown)). by case_decide.
Qed.

End Build.

End StratumTls.
