(* ===== verification/Stub.v ===== *)
(** The stand-in for an upstream pool (stratum-stub/src/main.rs): it serves the block
    templates of a Monero daemon as jobs and takes every share.  The pool's own client
    ([Upstream]) is run against it.

    The HTTP client and the text of JSON are parameters. *)
From S2P Require Import Prelude Text Hex Stratum Json Jobs Metrics Session Upstream Appd.

Module Stub.

Record Job : Type := {
  job_id : string;
  blob : string;
  seed_hash : string;
  next_seed_hash : string;
  target_hex : string;
  height : Z;
}.

Record BlockTemplate : Type := {
  bt_blockhashing_blob : string;
  bt_height : Z;
  bt_seed_hash : string;
  bt_next_seed_hash : string;
}.

(** ** Templates *)

Definition template_request (wallet : string) : Json.Value :=
  Json.Object [("jsonrpc", Json.Str "2.0"); ("id", Json.Str "0"); ("method", Json.Str "get_block_template");
               ("params", Json.Object [("wallet_address", Json.Str wallet); ("reserve_size", Json.Int 8)])]%string.

(** The derived reader of a template; the last field may be left out, but is text if it is
    there. *)
Definition block_template (v : Json.Value) : option BlockTemplate :=
  kvs ← Json.struct_fields ["blockhashing_blob"; "height"; "seed_hash"; "next_seed_hash"] 1 v;
  b ← Json.field_string "blockhashing_blob" kvs;
  h ← Json.field_value "height" kvs ≫= Json.as_u64;
  s ← Json.field_string "seed_hash" kvs;
  n ← match Json.assoc "next_seed_hash" kvs with None => Some ""%string | Some v => Json.as_str v end;
  Some {| bt_blockhashing_blob := b; bt_height := h; bt_seed_hash := s; bt_next_seed_hash := n |}.

Definition fetch_template (post : Json.Value -> anyhow Json.Value) (wallet : string) : anyhow BlockTemplate :=
  match post (template_request wallet) with
  | Err e => Err e
  | Ok v =>
      if match Json.get "error" v with Some e => negb (Json.is_null e) | None => false end then Err "monerod error"
      else match block_template (opt_or Json.Null (Json.get "result" v)) with
           | Some t => Ok t
           | None => Err "parse get_block_template result"
           end
  end.

Section Stub.
Context `{Hx : Hex}.

Definition difficulty_to_target (diff : Z) : string :=
  let target := if diff =? 0 then u32_max else Z.min (u64_max / diff) u32_max in
  encode (to_le_bytes 4 target).

Definition template_to_job (t : BlockTemplate) (ix : Z) : Job :=
  {| job_id := "stub-" +:+ Text.show (bt_height t) +:+ "-" +:+ Text.show ix;
     blob := bt_blockhashing_blob t; seed_hash := bt_seed_hash t; next_seed_hash := bt_next_seed_hash t;
     target_hex := difficulty_to_target 1000; height := bt_height t |}.

(** A round of [template_loop]: the counter and the job served. *)
Definition template_turn (wallet : string) (post : Json.Value -> anyhow Json.Value) (s : Z * option Job) : Z * option Job :=
  match fetch_template post wallet with
  | Ok t => (wrap_u64 (s.1 + 1), Some (template_to_job t s.1))
  | Err _ => s
  end.

Definition template_loop (wallet : string) (rounds : list (Json.Value -> anyhow Json.Value)) : Z * option Job :=
  foldl (fun s post => template_turn wallet post s) (0, None) rounds.

(** ** Clients *)

Definition job_to_json (j : Job) (session_id : string) : Json.Value :=
  Json.Object [("job_id", Json.Str (job_id j)); ("blob", Json.Str (blob j)); ("seed_hash", Json.Str (seed_hash j));
               ("next_seed_hash", Json.Str (next_seed_hash j)); ("target", Json.Str (target_hex j));
               ("height", Json.Int (height j)); ("id", Json.Str session_id)]%string.

Definition response (id : Json.Value) (k : string) (v : Json.Value) : Json.Value :=
  Json.Object [("id"%string, id); ("jsonrpc"%string, Json.Str "2.0"); (k, v)].

Definition error (code : Z) (message : string) : Json.Value :=
  Json.Object [("code", Json.Int code); ("message", Json.Str message)]%string.

Definition status (s : string) : Json.Value := Json.Object [("status"%string, Json.Str s)].

Definition reply (job : option Job) (session_id : string) (req : Json.Value) : Json.Value :=
  let id := opt_or (Json.Int 0) (Json.get "id" req) in
  let method := opt_or ""%string (Json.get_str "method" req) in
  if String.eqb method "login" then
    match job with
    | Some j => response id "result" (Json.Object [("id", Json.Str session_id); ("job", job_to_json j session_id); ("status", Json.Str "OK")]%string)
    | None => response id "error" (error (-1) "no template yet")
    end
  else if String.eqb method "submit" then response id "result" (status "OK")
  else if String.eqb method "keepalived" then response id "result" (status "KEEPALIVED")
  else response id "error" (error (-32601) "method not found").

Definition session_id_of (port : option Z) : string := "stub-session-" +:+ Text.show (opt_or 0 port).

(** [handle_client]: the lines read, each with the job served at that time, and whether the
    answer could be written; the lines written, and how it ended. *)
Section Client.
Context `{Appd.JsonText}.

Fixpoint handle_client (session_id : string) (reads : list (option Job * option string * bool)) : list string * anyhow unit :=
  match reads with
  | [] => ([], Ok tt)
  | (_, None, _) :: _ => ([], Err "read")
  | (job, Some line, write_ok) :: reads =>
      if String.eqb line "" then ([], Ok tt)
      else match Appd.from_str (Text.trim line) with
           | None => handle_client session_id reads
           | Some req =>
               let s := Appd.to_string (reply job session_id req) +:+ String (Ascii.ascii_of_nat 10) "" in
               if write_ok then let '(out, r) := handle_client session_id reads in (s :: out, r) else ([], Err "write")
           end
  end.

End Client.

(** ** The pool's client against the stub *)

(** A request as it is written. *)
Definition request_value (r : Session.Request) : Json.Value :=
  Json.Object [("id", Session.req_id r);
               ("jsonrpc", match Session.req_jsonrpc r with Some s => Json.Str s | None => Json.Null end);
               ("method", Json.Str (Session.req_method r)); ("params", Session.req_params r)]%string.

(** Requests sent one after the other, and the replies read. *)
Fixpoint converse (now now_ms : Z) (job : option Job) (session_id : string) (rs : list Session.Request)
    (s : Upstream.UState) : anyhow Upstream.UState :=
  match rs with
  | [] => Ok s
  | r :: rs =>
      match Upstream.on_message now now_ms (reply job session_id (request_value r)) s with
      | Ok s => converse now now_ms job session_id rs s
      | Err e => Err e
      end
  end.

(** A daemon that fails leaves the job in place; without an answer there is none. *)
Lemma template_turn_err wallet post s e : fetch_template post wallet = Err e -> template_turn wallet post s = s.
Proof. unfold template_turn. by intros ->. Qed.

Section Laws.
Context `{HL : !HexLaws Hx}.

(** Every difficulty up to [2 ^ 32 + 1] gives the largest target, which is read as
    difficulty one. *)
Lemma target_is_one d : 0 <= d <= 2 ^ 32 + 1 -> Stratum.target_hex_to_diff (difficulty_to_target d) = Some 1.
Proof.
  intros Hd. unfold difficulty_to_target.
  assert ((if d =? 0 then u32_max else Z.min (u64_max / d) u32_max) = u32_max) as ->.
  { destruct (Z.eqb_spec d 0); [done|]. apply Z.min_r, Z.div_le_lower_bound; unfold u64_max, u32_max in *; lia. }
  unfold Stratum.target_hex_to_diff. rewrite hl_roundtrip by apply to_le_bytes_u8. done.
Qed.

(** The job the pool takes from the stub. *)
Definition taken (j : Job) : Jobs.UpstreamJob :=
  {| Jobs.job_id := job_id j; Jobs.blob_hex := blob j; Jobs.seed_hex := seed_hash j;
     Jobs.upstream_target_hex := target_hex j; Jobs.upstream_diff := 1; Jobs.height := Some (height j) |}.

Lemma job_taken t ix sid : is_u64 (bt_height t) -> Upstream.parse_job (job_to_json (template_to_job t ix) sid) = Some (taken (template_to_job t ix)).
Proof.
  intros Hh. unfold Upstream.parse_job, job_to_json. cbn -[Stratum.target_hex_to_diff difficulty_to_target].
  rewrite target_is_one by lia. unfold Json.get_u64. simpl. by rewrite decide_True.
Qed.

(** Every share is counted as accepted. *)
Lemma submits_accepted now now_ms job sid us s :
  is_u64 (Upstream.n_accepts s) ->
  exists s', converse now now_ms job sid (Upstream.submit_request <$> us) s = Ok s' /\
    Upstream.n_accepts s' = wrap_u64 (Upstream.n_accepts s + Z.of_nat (length us)) /\
    Upstream.n_rejects s' = Upstream.n_rejects s /\
    Upstream.up_jobs s' = Upstream.up_jobs s /\ Upstream.up_session_id s' = Upstream.up_session_id s /\
    Metrics.upstream_connected (Upstream.up_metrics s') = Metrics.upstream_connected (Upstream.up_metrics s).
Proof.
  revert s. induction us as [|u us IH]; intros s Ha.
  - exists s. simpl. by rewrite Z.add_0_r, wrap_u64_id.
  - pose (s1 := Upstream.set_metrics (Metrics.record_upstream_submit_accept (Upstream.up_metrics s)) s).
    assert (E : Upstream.n_accepts s1 = wrap_u64 (Upstream.n_accepts s + 1)) by done.
    destruct (IH s1) as (s' & Es & Ha' & Hs'); [rewrite E; apply wrap_u64_range|]. exists s'. split; [exact Es|].
    split; [|exact Hs']. rewrite Ha', E. unfold wrap_u64. rewrite Zplus_mod_idemp_l. f_equal. cbn [length]. lia.
Qed.

(** A session of the pool with the stub: the login brings the job of the last template, at
    difficulty one whatever the template's, and every forwarded share counts as accepted. *)
Lemma stub_session now now_ms user password t ix sid us s :
  is_u64 (bt_height t) -> is_u64 (Upstream.n_accepts s) ->
  exists s', converse now now_ms (Some (template_to_job t ix)) sid
               (Upstream.login_request user password :: (Upstream.submit_request <$> us)) s = Ok s' /\
    Jobs.sent (Upstream.up_jobs s') = Jobs.sent (Upstream.up_jobs s) ++ [taken (template_to_job t ix)] /\
    Upstream.up_session_id s' = sid /\ Metrics.upstream_connected (Upstream.up_metrics s') = true /\
    Upstream.n_accepts s' = wrap_u64 (Upstream.n_accepts s + Z.of_nat (length us)) /\
    Upstream.n_rejects s' = Upstream.n_rejects s.
Proof.
  intros Hh Ha.
  pose (s1 := Upstream.set_session_id sid (Upstream.set_metrics (Metrics.mark_upstream_connected now_ms (Upstream.up_metrics s)) s)).
  pose (s2 := Upstream.publish_job now (job_to_json (template_to_job t ix) sid) s1).
  assert (E2 : s2 = Upstream.set_jobs (Jobs.publish now (taken (template_to_job t ix)) (Upstream.up_jobs s)) s1).
  { unfold s2, Upstream.publish_job. by rewrite job_taken. }
  destruct (submits_accepted now now_ms (Some (template_to_job t ix)) sid us s2) as (s' & Es & Ha' & Hr & Hj & Hi & Hc); [by rewrite E2|].
  exists s'. split; [exact Es|]. rewrite Hj, Ha', Hr, Hi, Hc, E2. done.
Qed.

(** Before the first template the login fails. *)
Lemma login_without_template now now_ms sid user password rs s :
  converse now now_ms None sid (Upstream.login_request user password :: rs) s = Err "upstream login failed: -1 no template yet".
Proof. done. Qed.

End Laws.

End Stub.

End Stub.
