(* ===== verification/Relay.v ===== *)
(** The relay for miners that send no server name (client_tools/sni_relay.py): it opens a TLS
    connection to the pool under the pin the pool publishes, and copies bytes both ways.

    Sockets and TLS are parameters: the relay's context accepts any certificate, and what it
    checks of it is the code's own.  The fingerprint is compared in lower case; of a pin only
    ASCII letters are lowered here, since no other character is a digit of the hash after
    lowering. *)
From Stdlib Require Import Ascii.
From S2P Require Import Prelude Text Hex Upstream StratumTls.

Module Relay.

Class Sockets (W C : Type) := {
  (** host, port and the timeout in seconds, which stays on the socket *)
  create_connection : string -> Z -> Z -> W -> anyhow C * W;
  (** the handshake, with the server name; TLS keeps the timeout of the socket below it *)
  wrap_socket : string -> C -> W -> anyhow C * W;
  getpeercert : C -> list Z;
  sha256 : list Z -> list Z;
  (** a certificate and its key, for the miners' side *)
  load_cert_chain : string -> string -> W -> anyhow () * W;
  (** the listening socket: created, bound and listening, or an exception *)
  bind_listen : string -> Z -> W -> anyhow () * W;
  (** the handshake with a miner *)
  accept_tls : C -> W -> anyhow C * W;
}.

(** The arguments; an option that is not given reads as the empty text, which Python takes
    for false as well. *)
Record Args : Type := {
  pool_host : string;
  pool_port : Z;
  pin : string;
  listen : string;
  timeout : Z;
  miner_tls_cert : string;
  miner_tls_key : string;
}.

(** What a connection of a miner comes to: sockets closed, and the two threads that copy. *)
Inductive act (C : Type) : Type := Close (c : C) | Pipe (src dst : C).
Arguments Close {C} c.
Arguments Pipe {C} src dst.

(** Python's [int] of a text: blanks around it, a sign, and digits with single underscores
    between them.  Of the blanks and digits of Unicode only those of ASCII are read here. *)
Definition py_space (c : ascii) : bool :=
  let n := Z.of_nat (nat_of_ascii c) in ((9 <=? n) && (n <=? 13)) || ((28 <=? n) && (n <=? 32)).

Fixpoint py_lstrip (s : list ascii) : list ascii :=
  match s with c :: s' => if py_space c then py_lstrip s' else s | [] => [] end.

(** [after]: the last character was a digit. *)
Fixpoint py_digits (acc : Z) (after : bool) (s : list ascii) : option Z :=
  match s with
  | [] => if after then Some acc else None
  | c :: s =>
      match Text.digit c with
      | Some d => py_digits (acc * 10 + d) true s
      | None => if Ascii.eqb c "_" && after then py_digits acc false s else None
      end
  end.

Definition py_int (s : string) : option Z :=
  match rev (py_lstrip (rev (py_lstrip (String.list_ascii_of_string s)))) with
  | "-"%char :: s => n ← py_digits 0 false s; Some (- n)
  | "+"%char :: s => py_digits 0 false s
  | s => py_digits 0 false s
  end.

Section Relay.
Context {W C : Type} `{Sockets W C}.

Definition hexdigest (der : list Z) : string := Text.hex_encode (sha256 der).

Definition pinned (pin : string) (der : list Z) : bool :=
  String.eqb pin "" || String.eqb (Text.to_ascii_lowercase (hexdigest der)) (Text.to_ascii_lowercase pin).

Definition make_upstream (host : string) (port : Z) (pin : string) (timeout : Z) (w : W) : anyhow C * list (act C) * W :=
  match create_connection host port timeout w with
  | (Err e, w) => (Err e, [], w)
  | (Ok raw, w) =>
      match wrap_socket host raw w with
      | (Err e, w) => (Err e, [Close raw], w)
      | (Ok s, w) => if pinned pin (getpeercert s) then (Ok s, [], w) else (Err "cert pin MISMATCH", [Close s], w)
      end
  end.

Definition handle (client : C) (args : Args) (w : W) : list (act C) * W :=
  match make_upstream (pool_host args) (pool_port args) (pin args) (timeout args) w with
  | (Err _, acts, w) => (acts ++ [Close client], w)
  | (Ok up, acts, w) => (acts ++ [Pipe client up; Pipe up client], w)
  end.

(** [--listen]: the part before the last colon and the part after it. *)
Definition listen_address (args : Args) : option (string * string) :=
  match Upstream.rsplit_once ":"%char (listen args) with
  | Some (host, port_s) => if String.eqb host "" || String.eqb port_s "" then None else Some (host, port_s)
  | None => None
  end.

(** The loop over the connections that come in: the sockets closed, and the sockets handed to
    a thread that runs [handle]. *)
Fixpoint accept_loop (miner_tls : bool) (clients : list C) (w : W) : list (act C) * list C * W :=
  match clients with
  | [] => ([], [], w)
  | client :: clients =>
      if miner_tls then
        match accept_tls client w with
        | (Err _, w) => let '(acts, handed, w) := accept_loop miner_tls clients w in (Close client :: acts, handed, w)
        | (Ok client, w) => let '(acts, handed, w) := accept_loop miner_tls clients w in (acts, client :: handed, w)
        end
      else let '(acts, handed, w) := accept_loop miner_tls clients w in (acts, client :: handed, w)
  end.

(** How [main] ends: a status, an exception, or still in its loop. *)
Inductive ended : Type := Exit (code : Z) | Raised | Serving (acts : list (act C)) (handed : list C).

Definition main (args : Args) (clients : list C) (w : W) : ended * W :=
  match listen_address args with
  | None => (Exit 2, w)
  | Some (host, port_s) =>
      match py_int port_s with
      | None => (Raised, w)
      | Some port =>
          let miner_tls := negb (String.eqb (miner_tls_cert args) "") in
          if miner_tls && String.eqb (miner_tls_key args) "" then (Exit 2, w)
          else
            let '(ctx, w) := if miner_tls then load_cert_chain (miner_tls_cert args) (miner_tls_key args) w else (Ok (), w) in
            match ctx with
            | Err _ => (Raised, w)
            | Ok _ =>
                match bind_listen host port w with
                | (Err _, w) => (Raised, w)
                | (Ok _, w) => let '(acts, handed, w) := accept_loop miner_tls clients w in (Serving acts handed, w)
                end
            end
      end
  end.

(** Every connection is closed or handed to its own thread; without a certificate for the
    miners all of them are, as they came. *)
Lemma accept_plain clients w : accept_loop false clients w = ([], clients, w).
Proof. induction clients as [|c clients IH]; simpl; [done|]. by rewrite IH. Qed.

Lemma accept_all tls clients w acts handed w' :
  accept_loop tls clients w = (acts, handed, w') ->
  (length acts + length handed = length clients)%nat /\ Forall (fun a => exists c, a = Close c /\ c ∈ clients) acts.
Proof.
  revert w acts handed w'. induction clients as [|c clients IH]; intros w acts handed w' E; simpl in E; [by simplify_eq|].
  assert (Hw : forall l, Forall (fun a => exists c, a = Close c /\ c ∈ clients) l -> Forall (fun a => exists c', a = Close c' /\ c' ∈ c :: clients) l).
  { intros l Hl. eapply Forall_impl; [exact Hl|]. intros a (c' & -> & Hc). exists c'. split; [done|]. by right. }
  destruct tls; [destruct (accept_tls c w) as [[c'|e] w1]|];
    [destruct (accept_loop true clients w1) as [[a h] w2] eqn:El|destruct (accept_loop true clients w1) as [[a h] w2] eqn:El
    |destruct (accept_loop false clients w) as [[a h] w2] eqn:El];
    apply IH in El as [Hl Ha]; simplify_eq; simpl; (split; [lia|]); auto.
  constructor; [|auto]. exists c. split; [done|]. by left.
Qed.

End Relay.

(** ** Copying *)

(** A call of [recv]: the seconds it waited and the bytes it gave, none at the end of the
    stream, or an exception. *)
Inductive received : Type := Data (b : list Z) | RecvError.

(** [pipe]: [limit] is the timeout of the source, and [sendall] says of a piece how many bytes
    of it went out if it failed.  The bytes that went out, and whether it still runs; when it
    ends both sockets are shut down and closed. *)
Fixpoint pipe (limit : option Z) (sendall : list Z -> option nat) (rs : list (Z * received)) : list Z * bool :=
  match rs with
  | [] => ([], true)
  | (waited, r) :: rs =>
      if match limit with Some t => t <=? waited | None => false end then ([], false)
      else match r with
           | RecvError | Data [] => ([], false)
           | Data data =>
               match sendall data with
               | Some n => (take n data, false)
               | None => let '(out, runs) := pipe limit sendall rs in (data ++ out, runs)
               end
           end
  end.

Definition bytes_of (rs : list (Z * received)) : list Z :=
  concat ((fun r => match r.2 with Data b => b | RecvError => [] end) <$> rs).

(** Nothing is changed, dropped in between or made up: what goes out is the beginning of
    what came in. *)
Lemma pipe_prefix limit sendall rs : (pipe limit sendall rs).1 `prefix_of` bytes_of rs.
Proof.
  induction rs as [|[waited r] rs IH]; [done|]. simpl. destruct (match limit with Some t => _ | None => _ end); [apply prefix_nil|].
  destruct r as [[|x data]|]; [apply prefix_nil| |apply prefix_nil]. unfold bytes_of in *. cbn [fmap list_fmap concat snd].
  destruct (sendall (x :: data)) as [n|].
  - apply prefix_app_r. eexists. symmetry. apply take_drop.
  - destruct (pipe limit sendall rs). by apply prefix_app.
Qed.

(** A call that gives bytes before the timeout. *)
Definition lively (limit : option Z) (r : Z * received) : Prop :=
  (forall t, limit = Some t -> r.1 < t) /\ exists b, r.2 = Data b /\ b <> [].

(** While the source speaks in time and the writes succeed, everything is copied. *)
Lemma pipe_app limit sendall rs rs' :
  (forall b, sendall b = None) -> Forall (lively limit) rs ->
  pipe limit sendall (rs ++ rs') = let '(out, runs) := pipe limit sendall rs' in (bytes_of rs ++ out, runs).
Proof.
  intros Hs. induction 1 as [|[waited r] rs [Ht (b & Hb & Hne)] _ IH]; [simpl; by destruct (pipe limit sendall rs')|].
  simpl in *. subst r. assert ((match limit with Some t => t <=? waited | None => false end) = false) as ->.
  { destruct limit as [t|]; [|done]. apply Z.leb_gt, (Ht t eq_refl). }
  destruct b as [|x b]; [done|]. rewrite Hs, IH. unfold bytes_of. cbn [fmap list_fmap concat snd].
  destruct (pipe limit sendall rs'). by rewrite <- app_assoc.
Qed.

Lemma pipe_all limit sendall rs :
  (forall b, sendall b = None) -> Forall (lively limit) rs -> pipe limit sendall rs = (bytes_of rs, true).
Proof. intros Hs Hr. rewrite <- (app_nil_r rs) at 1. rewrite pipe_app by done. simpl. by rewrite app_nil_r. Qed.

(** The timeout of the connect stays on the pool's socket: a pool that has nothing to say for
    that long loses the miner, whatever it would say after. *)
Lemma silence_cuts t sendall rs waited r rs' :
  (forall b, sendall b = None) -> Forall (lively (Some t)) rs -> t <= waited ->
  pipe (Some t) sendall (rs ++ (waited, r) :: rs') = (bytes_of rs, false).
Proof.
  intros Hs Hr Hw. rewrite pipe_app by done. simpl. rewrite (proj2 (Z.leb_le _ _) Hw). by rewrite app_nil_r.
Qed.

(** ** The pin *)

Section Pin.
Context {W C : Type} `{Sk : Sockets W C}.

Lemma lower_hex b : Forall is_u8 b -> Text.to_ascii_lowercase (Text.hex_encode b) = Text.hex_encode b.
Proof.
  intros Hb%Text.hex_encode_alphabet. induction (Text.hex_encode b) as [|c s IH]; simpl in *; [done|].
  apply Forall_cons_1 in Hb as [Hc Hs]. rewrite IH by done. f_equal. by destruct c as [[] [] [] [] [] [] [] []].
Qed.

(** Bytes are copied only to and from a peer whose certificate has the pinned hash; every
    other miner's connection is closed. *)
Lemma handle_pinned client args w acts w' :
  pin args <> ""%string -> handle client args w = (acts, w') ->
  (exists up, acts = [Pipe client up; Pipe up client] /\
     Text.to_ascii_lowercase (hexdigest (getpeercert up)) = Text.to_ascii_lowercase (pin args)) \/
  Close client ∈ acts /\ forall src dst, Pipe src dst ∉ acts.
Proof.
  intros Hp. unfold handle, make_upstream. destruct (create_connection _ _ _ w) as [[raw|e] w1].
  2: { intros [= <- <-]. right. split; [set_solver|]. intros src dst. set_solver. }
  destruct (wrap_socket _ raw w1) as [[s|e] w2].
  2: { intros [= <- <-]. right. split; [set_solver|]. intros src dst. set_solver. }
  unfold pinned. rewrite (proj2 (String.eqb_neq _ _) Hp). cbn [orb]. destruct (String.eqb_spec (Text.to_ascii_lowercase (hexdigest (getpeercert s))) (Text.to_ascii_lowercase (pin args))).
  - intros [= <- <-]. left. eauto.
  - intros [= <- <-]. right. split; [set_solver|]. intros src dst. set_solver.
Qed.

(** With the fingerprint the pool publishes as the pin, the peer shows a certificate of the
    hash of the pool's. *)
Lemma relay_reaches_pool {K X A} `{L : StratumTls.Library W K X A} seed v t v' client args w up acts w' :
  (forall b, Sk.(sha256) b = StratumTls.digest b /\ Forall is_u8 (StratumTls.digest b) /\ length (StratumTls.digest b) = 32%nat) ->
  StratumTls.build seed v = (Ok t, v') -> pin args = StratumTls.fingerprint_sha256_hex t ->
  handle client args w = (acts, w') -> Pipe client up ∈ acts -> up <> client ->
  exists cert, StratumTls.with_single_cert [cert] (StratumTls.ed25519_pkcs8 seed) = Ok (StratumTls.acceptor t) /\
    StratumTls.digest (getpeercert up) = StratumTls.digest cert.
Proof.
  intros Hd (k & p & v1 & cert & _ & _ & _ & Ec & Ef)%StratumTls.build_inv Hp Hh Hin Hne. exists cert. split; [done|].
  destruct (Hd cert) as (_ & Hc & Hl). destruct (Hd (getpeercert up)) as (Hu & Hu8 & _).
  destruct (handle_pinned client args w acts w') as [(up' & -> & Heq)|[_ Hno]]; [|done| |by destruct (Hno client up)].
  - rewrite Hp, Ef. destruct (StratumTls.digest cert); done.
  - assert (up' = up) as -> by set_solver. unfold hexdigest in Heq. rewrite Hp, Ef, Hu, !lower_hex in Heq by done.
    pose proof (Text.hex_decode_encode _ Hu8) as E. rewrite Heq, Text.hex_decode_encode in E by done. congruence.
Qed.

End Pin.

End Relay.
