(* ===== verification/Binaries.v ===== *)
(** The programs that start one part of the pool for development (main.rs of stratum-proxy,
    redemption-watcher, voucher-signer, operator-api and pps-rate), over the host and the acts
    of [Start], and the benchmark subcommand of the pool (mining-pool/src/main.rs).

    A program that serves returns what it serves; the loops it starts are acts. *)
From Stdlib Require Import Ascii.
From S2P Require Import Prelude Text Floats Hex Json Stratum RandomX Rofl Wallet Operator PoolConfig Appd Agent TorHs Boot.
From S2P Require Import Watcher FeeSwap Contract Payouts Marker OracleServer Start.
Import PoolConfig Start.

Module Binaries.

#[local] Notation "x <-- m ;; k" := (bindB m (fun x => k)) (at level 80, m at next level, right associativity).

(** The routers of the two services. *)
Inductive service : Type :=
| VoucherRouter (bind : string) (v : VoucherService) (rpc_url : string)
| OperatorRouter (bind : string) (onion : option string).

Section Mains.
Context {T W : Type} `{Toml T} `{HostEnv W} `{TorHs.FsEnv W}.
Variable parse_address : string -> option Address.
Variable parse_url : string -> bool.
Variable signer_from_str : string -> option Address.

Definition url_of (s : string) : B W unit := if parse_url s then ret tt else bail "relative URL without a base".

(** The configuration and the database, in this order in every program. *)
Definition connect : B W Config :=
  cfg <-- load_step ;;
  _ <-- tryB (redis_connect (redis_url (redis cfg))) ;;
  _ <-- emit (Connected (redis_url (redis cfg))) ;;
  ret cfg.

Definition pps_rate_main : B W unit :=
  cfg <-- load_step ;;
  emit (Spawned (PpsLoop cfg)).

(** The listener runs in the program itself, without a certificate. *)
Definition stratum_proxy_tasks (cfg : Config) : B W unit :=
  _ <-- emit (Spawned (PpsLoop cfg)) ;;
  _ <-- emit (Spawned (UpstreamClient (upstream cfg))) ;;
  emit (Spawned (StratumListener (stratum cfg) None)).

Definition stratum_proxy_main : B W unit := cfg <-- connect ;; stratum_proxy_tasks cfg.

(** The three loops of the [select!]. *)
Definition redemption_watcher_tasks (cfg : Config) : B W unit :=
  _ <-- url_of (http_url (l2 cfg)) ;;
  token <-- some "invalid address" (parse_address (l2_mining_pool_token_address (l2 cfg))) ;;
  _ <-- url_of (http_url (l2 cfg)) ;;
  _ <-- emit (Spawned (RedemptionPoller token
          {| Watcher.start_block := l2_events_from_block (l2 cfg); Watcher.chunk_size := l2_events_chunk_size (l2 cfg) |}
          (l2_events_poll_secs (l2 cfg)))) ;;
  _ <-- emit (Spawned (PayoutsConsumer
          {| Payouts.has_marker := false;
             Payouts.per_tx_cap_atomic := xmr_per_tx_cap_atomic (monero cfg);
             Payouts.max_payout_premium_bp := xmr_max_payout_premium_bp (monero cfg);
             Payouts.confirm_wait_secs := xmr_confirm_wait_secs (monero cfg) |} token None)) ;;
  emit (Spawned (TreasuryRefresher token 10)).

Definition redemption_watcher_main : B W unit := cfg <-- connect ;; redemption_watcher_tasks cfg.

Definition voucher_signer_tasks (cfg : Config) : B W service :=
  key <-- read_to_string (l2_signer_key_path (l2 cfg)) ;;
  key <-- some "No such file or directory" key ;;
  _ <-- emit (KeyFileRead (l2_signer_key_path (l2 cfg))) ;;
  signer <-- some "invalid signer key" (signer_from_str (Text.trim key)) ;;
  let rpc_url := replace "ws://" "http://" (replace "wss://" "https://" (l2_rpc_ws (l2 cfg))) in
  _ <-- url_of rpc_url ;;
  token <-- some "invalid address" (parse_address (l2_mining_pool_token_address (l2 cfg))) ;;
  _ <-- tryB (http_bind "0.0.0.0:8081") ;;
  ret (VoucherRouter "0.0.0.0:8081"
         {| vs_signer := signer; vs_chain_id := l2_chain_id (l2 cfg); vs_token := token; vs_ttl_secs := 3600 |} rpc_url).

Definition voucher_signer_main : B W service := cfg <-- connect ;; voucher_signer_tasks cfg.

Definition operator_api_tasks (cfg : Config) : B W service :=
  onion <-- look (TorHs.read_onion (tor_hidden_service_dir (tor cfg))) ;;
  _ <-- tryB (http_bind (api_bind (operator_api cfg))) ;;
  ret (OperatorRouter (api_bind (operator_api cfg)) onion).

Definition operator_api_main : B W service := cfg <-- connect ;; operator_api_tasks cfg.

(** ** What they start *)

(** The token of a configuration. *)
Definition token_of (c : Config) (t : Address) : Prop := parse_address (l2_mining_pool_token_address (l2 c)) = Some t.

(** What a program may do under a configuration: its tasks are given what the pool would give
    them, but for the proxy, the certificate and the marker, which they lack. *)
Definition started (c : Config) (a : act) : Prop :=
  match a with
  | Connected url => url = redis_url (redis c)
  | Spawned (PpsLoop c') => c' = c
  | Spawned (UpstreamClient u) => u = upstream c
  | Spawned (StratumListener st fp) => st = stratum c /\ fp = None
  | Spawned (RedemptionPoller t _ _) | Spawned (TreasuryRefresher t _) => token_of c t
  | Spawned (PayoutsConsumer p t m) => token_of c t /\ Payouts.has_marker p = false /\ m = None
  | KeyFileRead p => p = l2_signer_key_path (l2 c)
  | _ => False
  end.

Lemma load_runs w l :
  (exists e w', load_step (T := T) w l = (Failed e, w', l)) \/
  exists raw c w', load (V := T) raw = Ok c /\ load_step (T := T) w l = (Got c, w', l).
Proof.
  unfold load_step, read_to_string, bindB, look, ret. destruct (TorHs.fs_read _ w) as [b w1].
  match goal with |- context [load ?r] => destruct (load (V := T) r) as [c|e] eqn:El end; [|left; by eexists _, _].
  right. by eexists _, c, w1.
Qed.

Lemma connect_runs w l :
  (exists e w', connect w l = (Failed e, w', l)) \/
  exists raw c w', load (V := T) raw = Ok c /\ connect w l = (Got c, w', l ++ [Connected (redis_url (redis c))]).
Proof.
  unfold connect, bindB. destruct (load_runs w l) as [(e & w' & ->)|(raw & c & w' & El & ->)]; [left; by eexists _, _|].
  unfold tryB, emit, ret. destruct (redis_connect (redis_url (redis c)) w') as [[u|e] w2]; [|left; by eexists _, _].
  right. by eexists raw, c, w2.
Qed.

(** A program that is rid of its start. *)
Lemma connected_then {A} (m : Config -> B W A) (P : Config -> act -> Prop) (Q : Config -> A -> Prop) w l :
  (forall c, P c (Connected (redis_url (redis c)))) -> (forall c, acts (P c) (m c) (Q c)) ->
  (exists e w', bindB connect m w l = (Failed e, w', l)) \/
  exists raw c k, load (V := T) raw = Ok c /\ (bindB connect m w l).2 = l ++ k /\ Forall (P c) k /\
    forall a, (bindB connect m w l).1.1 = Got a -> Q c a.
Proof.
  intros HP Hm. unfold bindB. destruct (connect_runs w l) as [(e & w' & ->)|(raw & c & w' & El & ->)]; [left; by eexists _, _|].
  right. destruct (Hm c w' (l ++ [Connected (redis_url (redis c))])) as (k & Ek & Hk & HQ).
  exists raw, c, (Connected (redis_url (redis c)) :: k). split_and!; [done| |by constructor|done]. by rewrite Ek, <- app_assoc.
Qed.

Lemma acts_token {A} P c e (f : Address -> B W A) Q :
  (forall t, token_of c t -> acts P (f t) Q) -> acts P (bindB (some e (parse_address (l2_mining_pool_token_address (l2 c)))) f) Q.
Proof.
  intros Hf. unfold token_of in Hf. destruct (parse_address _) as [t|]; [|apply acts_bail]. simpl. apply (Hf t eq_refl).
Qed.

Lemma acts_url P s : acts (W := W) P (url_of s) (fun _ => True).
Proof. unfold url_of. destruct (parse_url s); [by apply acts_ret|apply acts_bail]. Qed.

(** The separate watcher pays without the marker on the contract: what guards its payouts is
    the database, and the wallet's history when that is lost. *)
Lemma watcher_starts w :
  (exists e w', redemption_watcher_main w [] = (Failed e, w', [])) \/
  exists raw c, load (V := T) raw = Ok c /\ Forall (started c) (redemption_watcher_main w []).2.
Proof.
  destruct (connected_then redemption_watcher_tasks started (fun _ _ => True) w []) as [(e & w' & E)|(raw & c & k & El & Ek & Hk & _)];
    [| |left; exists e, w'; exact E|right; exists raw, c; split; [done|]].
  - done.
  - intros c. unfold redemption_watcher_tasks. eapply acts_bind; [apply acts_url|intros _ _]. apply acts_token. intros t Ht.
    eapply acts_bind; [apply acts_url|intros _ _]. repeat act_step; done.
  - by rewrite (Ek : (redemption_watcher_main w []).2 = _).
Qed.

(** The separate proxy dials the upstream pool as the configuration of the connection says:
    the proxy of [tor] is not put in. *)
Lemma proxy_starts w :
  (exists e w', stratum_proxy_main w [] = (Failed e, w', [])) \/
  exists raw c, load (V := T) raw = Ok c /\ Forall (started c) (stratum_proxy_main w []).2.
Proof.
  destruct (connected_then stratum_proxy_tasks started (fun _ _ => True) w []) as [(e & w' & E)|(raw & c & k & El & Ek & Hk & _)];
    [| |left; exists e, w'; exact E|right; exists raw, c; split; [done|]].
  - done.
  - intros c. unfold stratum_proxy_tasks. repeat act_step; done.
  - by rewrite (Ek : (stratum_proxy_main w []).2 = _).
Qed.

(** The separate signer serves vouchers of the token and the chain of the configuration; it
    reads the contract at the address of the web socket, also when another is configured. *)
Lemma signer_starts w :
  (exists e w', voucher_signer_main w [] = (Failed e, w', [])) \/
  exists raw c, load (V := T) raw = Ok c /\ Forall (started c) (voucher_signer_main w []).2 /\
    forall srv, (voucher_signer_main w []).1.1 = Got srv ->
      exists v url, srv = VoucherRouter "0.0.0.0:8081" v url /\ token_of c (vs_token v) /\ vs_chain_id v = l2_chain_id (l2 c) /\
        (l2_rpc_http (l2 c) = None -> url = http_url (l2 c)).
Proof.
  destruct (connected_then voucher_signer_tasks started
    (fun c srv => exists v url, srv = VoucherRouter "0.0.0.0:8081" v url /\ token_of c (vs_token v) /\ vs_chain_id v = l2_chain_id (l2 c) /\
        (l2_rpc_http (l2 c) = None -> url = http_url (l2 c))) w []) as [(e & w' & E)|(raw & c & k & El & Ek & Hk & HQ)];
    [| |left; exists e, w'; exact E|right; exists raw, c; split; [done|]].
  - done.
  - intros c. unfold voucher_signer_tasks. eapply acts_bind; [apply read_acts|intros ? _]. act_step; [apply acts_some|]. act_step; [act_step; done|]. act_step; [apply acts_some|].
    eapply acts_bind; [apply acts_url|intros _ _]. apply acts_token. intros t Ht. act_step; [act_step|]. apply acts_ret.
    eexists _, _. split_and!; [done|done|done|]. unfold http_url. by intros ->.
  - split; [by rewrite (Ek : (voucher_signer_main w []).2 = _)|exact HQ].
Qed.

End Mains.

(** ** The benchmark *)

Section Bench.
(** The milliseconds a hash took. *)
Variable elapsed_ms : list Z -> F.f64.

(** The blob of a turn: 76 bytes, of which two count the turns. *)
Definition bench_blob (i : nat) : list Z :=
  <[40%nat := Z.shiftr (Z.of_nat i) 8 mod 256]> (<[39%nat := Z.of_nat i mod 256]> (replicate 76 0)).

Fixpoint bench_loop (n i : nat) (acc : F.f64 * F.f64 * F.f64) : F.f64 * F.f64 * F.f64 :=
  match n with
  | O => acc
  | S n' =>
      let ms := elapsed_ms (bench_blob i) in
      let '(total, mn, mx) := acc in
      bench_loop n' (S i) (F.add total ms, F.fmin mn ms, F.fmax mx ms)
  end.

(** The average, the least and the greatest; the number of turns is the argument or 50. *)
Definition bench_iters (args : list string) : Z := opt_or 50 (args !! 2%nat ≫= Text.parse_u64).

Definition bench (iters : nat) : F.f64 * F.f64 * F.f64 :=
  let '(total, mn, mx) := bench_loop iters 0 (F.zero, SpecFloat.S754_infinity false, F.zero) in
  (F.div total (F.of_Z (Z.of_nat iters)), mn, mx).

End Bench.

(** Up to 65536 turns hash different blobs, at the place of the nonce. *)
Lemma bench_distinct i j : Z.of_nat i < 65536 -> Z.of_nat j < 65536 -> bench_blob i = bench_blob j -> i = j.
Proof.
  intros Hi Hj E. assert (E39 := f_equal (.!! 39%nat) E). assert (E40 := f_equal (.!! 40%nat) E). unfold bench_blob in E39, E40.
  rewrite !list_lookup_insert_ne, !list_lookup_insert_eq in E39 by (try done; rewrite ?length_insert, length_replicate; lia).
  rewrite !list_lookup_insert_eq in E40 by (rewrite length_insert, length_replicate; lia).
  injection E39 as E39. injection E40 as E40. rewrite !Z.shiftr_div_pow2 in E40 by lia. change (2 ^ 8) with 256 in E40.
  rewrite (Z.mod_small (Z.of_nat i / 256)), (Z.mod_small (Z.of_nat j / 256)) in E40
    by (split; [apply Z.div_pos; lia|apply Z.div_lt_upper_bound; lia]).
  pose proof (Z.div_mod (Z.of_nat i) 256 ltac:(lia)). pose proof (Z.div_mod (Z.of_nat j) 256 ltac:(lia)). lia.
Qed.

End Binaries.
