(* ===== verification/Reveal.v ===== *)
(** The one-time reveal of the wallet's address (mining-pool/src/reveal.rs): the address is
    encrypted to the deployer's key and logged as one line of base64.

    The age library and base64 are parameters; the bytes the library draws at random are an
    argument, so that an encryption is a function of it. *)
From Stdlib Require Import Ascii.
From S2P Require Import Prelude Text Hex Wallet PoolConfig Boot.
Import PoolConfig.

Module Reveal.

Class Age (Recipient Identity : Type) := {
  parse_recipient : string -> option Recipient;
  (** the header for the recipients, and the text encrypted under it *)
  with_recipients : list Recipient -> list Z -> option (list Z);
  wrap_output : list Z -> list Z -> list Z -> option (list Z);
  base64_encode : list Z -> string;
  (** what the deployer runs *)
  recipient_of : Identity -> string;
  base64_decode : string -> option (list Z);
  decrypt : Identity -> list Z -> option (list Z);
}.

Section Encrypt.
Context {Recipient Identity : Type} `{Age Recipient Identity}.

Definition encrypt_to_recipient (random : list Z) (recipient plaintext : string) : anyhow string :=
  match parse_recipient recipient with
  | None => Err "invalid age recipient"
  | Some r =>
      match with_recipients [r] random with
      | None => Err "build age encryptor (no recipients?)"
      | Some encryptor =>
          match wrap_output encryptor random (bytes_of plaintext) with
          | None => Err "wrap age output"
          | Some ciphertext => Ok (base64_encode ciphertext)
          end
      end
  end.

(** What the deployer's command prints: [base64 -d | age -d -i key]. *)
Definition deployer_reads (i : Identity) (line : string) : option (list Z) := base64_decode line ≫= decrypt i.

(** Of the libraries: base64 is read back and is one line; what is encrypted to a recipient,
    its identity decrypts; and whether writing fails does not depend on the text. *)
Class AgeLaws : Prop := {
  al_base64 : forall b, base64_decode (base64_encode b) = Some b;
  al_line : forall b, Forall (fun c => c <> ascii_of_nat 10) (String.list_ascii_of_string (base64_encode b));
  al_decrypt : forall i r random e text c, parse_recipient (recipient_of i) = Some r ->
    with_recipients [r] random = Some e -> wrap_output e random text = Some c -> decrypt i c = Some text;
  al_blind : forall e random t t', wrap_output e random t = None <-> wrap_output e random t' = None;
}.

Section Laws.
Context `{!AgeLaws}.

(** The deployer gets the address out of the log. *)
Lemma reveal_roundtrip i random text line :
  encrypt_to_recipient random (recipient_of i) text = Ok line ->
  deployer_reads i line = Some (bytes_of text) /\ Forall (fun c => c <> ascii_of_nat 10) (String.list_ascii_of_string line).
Proof.
  unfold encrypt_to_recipient, deployer_reads. destruct (parse_recipient _) as [r|] eqn:Er; [|done].
  destruct (with_recipients [r] random) as [e|] eqn:Ee; [|done]. destruct (wrap_output e random _) as [c|] eqn:Ec; [|done].
  intros [= <-]. rewrite al_base64. split; [by eapply al_decrypt|apply al_line].
Qed.

(** The outcome, but for the cipher text, says nothing of the address: what [Boot] relies on. *)
Lemma reveal_blind random pk a1 a2 :
  match encrypt_to_recipient random pk a1, encrypt_to_recipient random pk a2 with
  | Ok _, Ok _ => True | Err e1, Err e2 => e1 = e2 | _, _ => False
  end.
Proof.
  unfold encrypt_to_recipient. destruct (parse_recipient pk) as [r|]; [|done]. destruct (with_recipients [r] random) as [e|]; [|done].
  pose proof (al_blind e random (bytes_of a1) (bytes_of a2)).
  destruct (wrap_output e random (bytes_of a1)), (wrap_output e random (bytes_of a2)); naive_solver.
Qed.

(** On a fresh deploy with the reveal on, the line of the boot log gives the deployer the
    address of the wallet. *)
Lemma boot_reveals (cfg : Config) i random (b : Wallet.WalletBootstrap) :
  reveal_wallet_address_once cfg = true -> reveal_wallet_pubkey cfg = Some (recipient_of i) -> Wallet.created b = true ->
  (exists e, encrypt_to_recipient random (recipient_of i) (Wallet.primary_address b) = Err e) \/
  exists line msg, Boot.reveal_lines cfg (encrypt_to_recipient random) b = [{| Boot.msg := msg; Boot.vals := [Boot.Cipher line] |}] /\
    deployer_reads i line = Some (bytes_of (Wallet.primary_address b)).
Proof.
  intros Ho Hk Hc. unfold Boot.reveal_lines. rewrite Ho, Hk, Hc. simpl.
  destruct (encrypt_to_recipient random (recipient_of i) (Wallet.primary_address b)) as [line|e] eqn:E; [right|left; by exists e].
  eexists line, _. split; [done|]. by apply reveal_roundtrip in E as [? _].
Qed.

End Laws.

End Encrypt.

End Reveal.
